(* ===== verification/_CoqProject ===== *)
-Q . S2P
Prelude.v
Endian.v
Buffer.v
BufferSpec.v
StdContainers.v
Format.v
HttpRequest.v
HttpContext.v
HttpResponse.v
HttpServer.v
Channel.v
Poller.v
EPollPoller.v
PollPoller.v
EventLoop.v
Timestamp.v
TimerQueue.v
LoopLifetime.v
DefaultPoller.v
TcpConnection.v
HttpSession.v
Monitor.v
Blocking.v
InetAddress.v
Socket.v
LogStream.v
Codec.v
Connector.v
FileUtil.v
ProcessInfo.v
LogFile.v
AsyncLogging.v
CurrentThread.v
Logging.v
LogSystem.v
TcpClient.v
Singleton.v
SqlPool.v
ThreadPool.v
EventLoopThread.v
TcpServer.v
ServerLife.v
HttpWorld.v
WebServer.v
ChatServer.v
ChatRoom.v
