(* ===== verification/Prelude.v ===== *)
(** * tmuduo: a verification development

    tmuduo is a C++17 network library in the style of muduo: one event loop
    per thread, non-blocking sockets, callbacks, an HTTP server on top, and the
    base library (logging, queues, threads, files) under it.  This library
    models its own code under src/tmuduo, and the two example servers under
    src/examples, as executable definitions, and proves what makes each part
    correct, part by part and where parts meet.

    ** How the program is put together

    A [TcpServer] owns an [Acceptor], a pool of loop threads and a table of
    [TcpConnection]s; a [TcpClient] owns a [Connector] and one connection.
    Every connection has a [Channel] registered with the [EventLoop] of its
    thread, an input and an output [Buffer], and callbacks.  The loop polls
    through a [Poller], dispatches the active channels, and then runs the
    functors other threads queued; timers are a channel on a timer descriptor.
    The HTTP server is a message callback that parses a connection's input
    buffer and answers on it; the chat codec is another.  Log statements build
    a record in a fixed buffer and hand it to an output, which may be the
    asynchronous log: a front end that fills buffers and a thread that writes
    them to a rolling log file.

    ** Conventions

    - A machine integer is a [Z]; where the code can leave its width the
      definitions wrap ([u64], [wraps]) or, for signed overflow, fault.
    - Fallible code is in the monad [res]: [Err] holds the [fault] (a failing
      assertion, as the default build has them; [LOG_FATAL]; an exception; an
      access the language leaves undefined).  A theorem that says [Ok] says
      that none of these happens.
    - What the system calls and the C library return is an argument of the
      operation, or a parameter of its section; where the code relies on their
      behaviour it is a class with laws (a descriptor to read, the kernel's
      epoll set) or a named hypothesis.  Every such assumption is instantiated
      by a concrete function in a witness.
    - Objects that are shared by reference live in stores indexed by address
      (channels, connections); threads are step relations whose steps are the
      code between two accesses to shared state.
    - A theorem that is a property carries its number, C1 to C40, in order of
      importance.  A [..._witness] applies it to a concrete input.

    ** The files, by part

    Common: this file (faults and the monad, integers, bytes and slices,
    searching); StdContainers.v ([std::set], [std::map], [std::string] as the
    code uses them); Format.v ([snprintf]'s conversions).

    Buffers and bytes
    - Endian.v: net/Endian.h and the integer conversions.
    - Buffer.v: net/Buffer.h and Buffer.cc, one definition per method, with
      [readFd]; BufferSpec.v: the byte queue with headroom a buffer promises,
      and the refinement.
    - InetAddress.v: net/InetAddress.* and the address functions of SockOps.cc
      on the bytes of a [sockaddr]; Socket.v: net/Socket.* and accepting.

    HTTP (net/http)
    - HttpRequest.v, HttpResponse.v: the two records with their setters and
      the rendering of a response.
    - HttpContext.v: the parser, a state machine over a buffer that may end
      anywhere; HttpServer.v: what the server does with a message;
      HttpWorld.v: the server object and the whole server, its connections
      in the loops of ServerLife.v with their contexts and their clients.

    The loop (net)
    - Channel.v: interest masks and dispatch; Poller.v: the interface of a
      poller, a class with the contract as laws; EPollPoller.v (which proves
      the laws, over the kernel's epoll set) and PollPoller.v (whose
      lemmas show where it departs from them).
    - EventLoop.v: [Chan], channel operations over any poller; [Queue], the
      functor queue and the wake-up descriptor among threads.
    - LoopLifetime.v: construction and destruction of a loop, and its timer
      calls; DefaultPoller.v: a loop over the poller that DefaultPoller.cc
      makes; EventLoopThread.v: the handshake that starts a loop in a thread.
    - Timestamp.v and TimerQueue.v: time (with IEEE doubles), the timer set,
      expiry, callbacks that add and cancel timers.

    Connections (net)
    - TcpConnection.v: sending, reading, shutting down and closing one
      connection; Connector.v: connecting with retries; TcpClient.v: the two
      composed; HttpSession.v: a connection of the HTTP server, the message
      callback over the connection; TcpServer.v: modules [Acceptor], [Pool] and [Server];
      ServerLife.v: the server, its connection objects and the loops of its
      threads together, with who owns an object and who points to it.

    Threads and queues (base)
    - Monitor.v: the generic monitor machine (mutex, condition variables,
      spurious wake-ups) with termination and no-lost-wake-up theorems for any
      class that keeps the discipline [Disciplined].
    - Singleton.v: Singleton.h, calls of all threads and the end of the process.
    - Blocking.v: BoundedBlockingQueue.h, BlockingQueue.h and CountDownLatch.*
      as instances; ThreadPool.v: ThreadPool.h in all interleavings;
      SqlPool.v: net/sql, connections shared through a blocking queue.

    Logging and files (base)
    - CurrentThread.v: a thread's id and stack trace; LogStream.v: the fixed
      buffer and the stream operators; Logging.v: a log
      statement from its test to its output, with the caches of the thread.
    - FileUtil.v: ReadSmallFile, AppendFile and formattedName; ProcessInfo.v:
      what is read off /proc; LogFile.v: rolling files; AsyncLogging.v: the
      two-buffer scheme between producers and the writing thread.
    - LogSystem.v: the whole log of a process, as examples/httpd/main.cc sets
      it up: statements of all threads, the output, the log's thread, aborts.

    Examples
    - Codec.v: examples/chat/codec.h; ChatServer.v: the chat server over it;
      ChatRoom.v: clients, server and network of the chat together;
      WebServer.v: the web server's request handler, one request at a time.

    ** What the theorems show

    - Streams are kept whole: a connection writes exactly what was sent, in
      order (TcpConnection.v); a buffer is a byte queue (BufferSpec.v); the
      codec and the HTTP parser give the same result however their input is
      cut (Codec.v, HttpContext.v), and so does a whole session of the HTTP
      server, whose output is the responses in order (HttpSession.v), and
      every session of a server that serves many clients in many loops
      (HttpWorld.v), for requests whose bodies come with the end of their
      heads and direct writes that take all or nothing; the
      asynchronous log and the log file lose and reorder nothing while they
      run and at most 25 buffers wait, and neither does the log of a whole
      process, whatever its threads do (LogSystem.v); a line typed into a chat
      client is printed by every client in one common order, unless its client
      disconnects with lines still queued (ChatRoom.v).
    - State machines keep their invariants in all interleavings: the wake-up
      protocol of the loop, the dispatch of active channels while callbacks
      change them, channel registration, the timer set and its
      descriptor, the life of connections, clients, connectors and acceptors,
      monitors, pools.  A server with its loops uses no object that has been
      destroyed and keeps none that is closed (ServerLife.v), as long as the
      server outlives its connections.
    - Refinement: buffers against queues, channel operations against interest
      masks, life cycles against small machines, the web server, one request
      after the other, against a table of accounts.
    - Round trips: requests, responses, frames, addresses; equivalence with a
      reference: chunked and whole parsing, cached and uncached log records.
    - Termination and liveness: parsing, draining before a shutdown, the end
      of connections that are down (ServerLife.v), blocked threads, the
      destructor of a thread pool, which runs every task (ThreadPool.v), the
      start of a loop thread.
    - Errors: what is refused, and where the code goes wrong.  Lemmas beside
      the properties state faulty behaviour exactly (partial writes, a timer
      that cancels itself, a second loop of a thread, a form without an
      ampersand, a functor queued before the loop runs, a start that comes too
      early, and others).  Where a theorem asks that the environment stays
      clear of one of them, its comment says so.

    ** Bounds and fuel

    Loops that are not structural take fuel.  The fuel is computed from the
    input where the definition is run (the bytes left in a buffer, the rounds
    a read can take, the digits of a number) and a lemma shows that it is
    enough; the parser's run has a totality theorem.  [max_size], the largest
    [std::vector], is 2^63 - 1; theorems that append ask that the total fit.
    Times are positive and below 2^62 microseconds.  Counters that are [int]
    in the code ask to stay below 2^31.

    ** What is not modelled

    - Memory: allocation always succeeds; objects are values in stores, and a
      use after their end is a fault where the code can reach it.
    - The scheduling of real threads beyond interleaving: no weak memory, no
      fairness; data races are described, not modelled: so the web server's
      handlers in the sixteen threads of its main, which race on its members.
    - Log output inside the other parts (LOG_* statements there are left out),
      floating-point output (%.12g is a parameter), the frames of a stack
      trace, and the text of [localtime_r], [strerror_r] and [inet_ntop].
    - Wiring: constructors that only store callbacks, Callbacks.h;
      WeakCallBack.h but where a timer calls it (ServerLife.v); template
      helpers of Types.h and StringPiece.h; ProcessInfo's plain getters.
    - ThreadPool::submit and CHECK_NOTNULL, which do not compile when used.
    - Tests, main programs (the web server's sets up its log, LogSystem.v; the
      chat client's loop over the lines is in ChatRoom.v), the build files. *)

From Stdlib Require Export ZArith Lia Bool.
From Stdlib Require Export Strings.Byte.
From stdpp Require Export base gmap sets list strings numbers sorting.

Open Scope Z_scope.

(** ** Faults and the result monad

    The code is built as Debug by default (CMakeLists.txt), so [assert] is
    live: a failing assertion is a value of the model, and so are the
    out-of-range accesses, the dangling references and the exceptions that the
    library calls can raise. *)

Inductive fault :=
| AssertFail
| LengthError
| OutOfBounds
| UseAfterFree
| EndDereference
| NullDereference
| IntOverflow
| FatalLog.

Inductive res (A : Type) :=
| Ok (a : A)
| Err (e : fault).
Arguments Ok {A} a.
Arguments Err {A} e.

#[global] Instance fault_eq_dec : EqDecision fault.
Proof. solve_decision. Defined.

#[global] Instance res_eq_dec `{EqDecision A} : EqDecision (res A).
Proof. solve_decision. Defined.

#[global] Instance res_ret : MRet res := @Ok.

#[global] Instance res_bind : MBind res := fun A B f m =>
  match m with Ok a => f a | Err e => Err e end.

#[global] Instance res_fmap : FMap res := fun A B f m =>
  match m with Ok a => Ok (f a) | Err e => Err e end.

Definition assert_ (b : bool) : res unit := if b then Ok tt else Err AssertFail.

(** A test that the code does not make, for an access that would be undefined
    behaviour if it failed. *)
Definition guard_ (e : fault) (b : bool) : res unit := if b then Ok tt else Err e.

Definition is_ok {A} (m : res A) : bool := match m with Ok _ => true | Err _ => false end.

Lemma bind_ok {A B} (f : A -> res B) a : (Ok a ≫= f) = f a.
Proof. reflexivity. Qed.

Lemma bind_ok_inv {A B} (m : res A) (f : A -> res B) b :
  (m ≫= f) = Ok b -> exists a, m = Ok a /\ f a = Ok b.
Proof. destruct m; simpl; [eauto | discriminate]. Qed.

Lemma assert_ok b : assert_ b = Ok tt <-> b = true.
Proof. destruct b; simpl; split; congruence. Qed.

Lemma assert_true b : b = true -> assert_ b = Ok tt.
Proof. by intros ->. Qed.

Lemma assert_false b : b = false -> assert_ b = Err AssertFail.
Proof. by intros ->. Qed.

Lemma guard_true e b : b = true -> guard_ e b = Ok tt.
Proof. by intros ->. Qed.

Lemma omap_snoc {A B} (f : A -> option B) l x :
  omap f (l ++ [x]) = omap f l ++ match f x with Some y => [y] | None => [] end.
Proof. rewrite omap_app. cbn. by destruct (f x). Qed.

(** ** Fixed-width integers *)

Definition wrapu (w x : Z) : Z := x mod 2 ^ w.
Definition wraps (w x : Z) : Z := (x + 2 ^ (w - 1)) mod 2 ^ w - 2 ^ (w - 1).

(** [size_t] and [uint64_t] arithmetic. *)
Definition u64 (x : Z) : Z := wrapu 64 x.
Definition i64 (x : Z) : Z := wraps 64 x.

Lemma wrapu_small w x : 0 <= x < 2 ^ w -> wrapu w x = x.
Proof. apply Z.mod_small. Qed.

Lemma wrapu_range w x : 0 <= w -> 0 <= wrapu w x < 2 ^ w.
Proof. intros. apply Z.mod_pos_bound, Z.pow_pos_nonneg; lia. Qed.

Lemma wrapu_idem w x : 0 <= w -> wrapu w (wrapu w x) = wrapu w x.
Proof. intros. apply wrapu_small, wrapu_range; done. Qed.

Lemma pow2_half w : 0 < w -> 2 ^ w = 2 * 2 ^ (w - 1).
Proof.
  intros. replace w with (Z.succ (w - 1)) at 1 by lia.
  rewrite Z.pow_succ_r; lia.
Qed.

Lemma wraps_small w x : 0 < w -> - 2 ^ (w - 1) <= x < 2 ^ (w - 1) -> wraps w x = x.
Proof.
  intros Hw Hx. unfold wraps. pose proof (pow2_half w Hw).
  rewrite Z.mod_small; lia.
Qed.

Lemma wraps_range w x : 0 < w -> - 2 ^ (w - 1) <= wraps w x < 2 ^ (w - 1).
Proof.
  intros Hw. unfold wraps. pose proof (pow2_half w Hw).
  pose proof (Z.mod_pos_bound (x + 2 ^ (w - 1)) (2 ^ w)).
  assert (0 < 2 ^ (w - 1)) by (apply Z.pow_pos_nonneg; lia). lia.
Qed.

Lemma wrapu_wraps w x : 0 < w -> wrapu w (wraps w x) = wrapu w x.
Proof.
  intros. unfold wrapu, wraps. rewrite Zminus_mod_idemp_l. f_equal. lia.
Qed.

Lemma wraps_wrapu w x : 0 < w -> wraps w (wrapu w x) = wraps w x.
Proof. intros. unfold wrapu, wraps. by rewrite Zplus_mod_idemp_l. Qed.

Lemma u64_small x : 0 <= x < 2 ^ 64 -> u64 x = x.
Proof. apply wrapu_small. Qed.

Lemma i64_small x : - 2 ^ 63 <= x < 2 ^ 63 -> i64 x = x.
Proof. apply (wraps_small 64). lia. Qed.

(** ** Bytes *)

#[global] Instance byte_eq_decision : EqDecision byte := Byte.byte_eq_dec.

#[global] Instance byte_countable : Countable byte.
Proof.
  refine (inj_countable Byte.to_N Byte.of_N _). intros b. apply Byte.of_to_N.
Defined.

Definition b2z (b : byte) : Z := Z.of_N (Byte.to_N b).

Definition z2b (x : Z) : byte :=
  match Byte.of_N (Z.to_N (x mod 256)) with Some b => b | None => x00 end.

Lemma b2z_range b : 0 <= b2z b < 256.
Proof. unfold b2z. pose proof (Byte.to_N_bounded b). lia. Qed.

Lemma z2b_b2z b : z2b (b2z b) = b.
Proof.
  unfold z2b. rewrite Z.mod_small by apply b2z_range.
  unfold b2z. rewrite N2Z.id, Byte.of_to_N. done.
Qed.

Lemma b2z_z2b x : b2z (z2b x) = x mod 256.
Proof.
  unfold z2b. pose proof (Z.mod_pos_bound x 256 ltac:(lia)) as Hx.
  destruct (Byte.of_N _) as [b|] eqn:E.
  - apply Byte.to_of_N in E. unfold b2z. rewrite E. lia.
  - exfalso. apply Byte.of_N_None_iff in E. lia.
Qed.

Lemma b2z_inj a b : b2z a = b2z b -> a = b.
Proof. intros H. rewrite <- (z2b_b2z a), <- (z2b_b2z b). by rewrite H. Qed.

Abbreviation bytes := (list byte).

(** The bytes of a string literal of the source. *)
Definition lit (s : string) : bytes := String.list_byte_of_string s.

Definition CR : byte := x0d.
Definition LF : byte := x0a.
Definition SP : byte := x20.
Definition COLON : byte := x3a.

(** [isspace] in the "C" locale. *)
Definition isspace (b : byte) : bool :=
  let c := b2z b in (c =? 32) || ((9 <=? c) && (c <=? 13)).

(** ** Slices of byte arrays, indexed by [Z] *)

Section Slices.
Context {A : Type}.
Implicit Types l d : list A.

Definition zlen l : Z := Z.of_nat (length l).

Definition slice (i n : Z) l : list A := take (Z.to_nat n) (drop (Z.to_nat i) l).

Definition splice (i : Z) d l : list A :=
  take (Z.to_nat i) l ++ d ++ drop (Z.to_nat i + length d) l.

Lemma zlen_nonneg l : 0 <= zlen l.
Proof. unfold zlen. lia. Qed.

Lemma zlen_nil : zlen [] = 0.
Proof. done. Qed.

Lemma zlen_cons a l : zlen (a :: l) = 1 + zlen l.
Proof. unfold zlen. simpl. lia. Qed.

Lemma zlen_app l d : zlen (l ++ d) = zlen l + zlen d.
Proof. unfold zlen. rewrite length_app. lia. Qed.

Lemma zlen_replicate n a : 0 <= n -> zlen (replicate (Z.to_nat n) a) = n.
Proof. unfold zlen. rewrite length_replicate. lia. Qed.

Lemma zlen_take n l : 0 <= n -> zlen (take (Z.to_nat n) l) = Z.min n (zlen l).
Proof. unfold zlen. rewrite length_take. lia. Qed.

Lemma zlen_drop n l : 0 <= n -> zlen (drop (Z.to_nat n) l) = Z.max 0 (zlen l - n).
Proof. unfold zlen. rewrite length_drop. lia. Qed.

Lemma zlen_slice i n l : 0 <= i -> 0 <= n -> i + n <= zlen l -> zlen (slice i n l) = n.
Proof. intros. unfold slice. rewrite zlen_take, zlen_drop; lia. Qed.

Lemma zlen_splice i d l :
  0 <= i -> i + zlen d <= zlen l -> zlen (splice i d l) = zlen l.
Proof.
  unfold splice, zlen. rewrite !length_app, length_take, length_drop. lia.
Qed.

Lemma slice_app_mid p c s i n :
  i = zlen p -> n = zlen c -> slice i n (p ++ c ++ s) = c.
Proof.
  unfold slice, zlen. intros -> ->. rewrite !Nat2Z.id.
  rewrite drop_app_length. apply take_app_length.
Qed.

Lemma splice_app_mid p c d s i :
  i = zlen p -> zlen d = zlen c -> splice i d (p ++ c ++ s) = p ++ d ++ s.
Proof.
  unfold splice, zlen. intros -> Hd. rewrite !Nat2Z.id.
  rewrite take_app_length. f_equal. f_equal.
  replace (length p + length d)%nat with (length (p ++ c)) by (rewrite length_app; lia).
  rewrite app_assoc. apply drop_app_length.
Qed.

(** Reading back what was overwritten, and what was not. *)
Lemma slice_splice_same i d l n :
  0 <= i -> n = zlen d -> i + n <= zlen l -> slice i n (splice i d l) = d.
Proof.
  intros Hi -> Hl. unfold splice. apply slice_app_mid; [|done].
  pose proof (zlen_nonneg d). rewrite zlen_take; lia.
Qed.

Lemma slice_splice_left i d l j n :
  0 <= j -> 0 <= n -> j + n <= i -> i <= zlen l -> slice j n (splice i d l) = slice j n l.
Proof.
  intros Hj Hn Hji Hl. unfold slice, splice. rewrite !take_drop_commute.
  rewrite take_app_le by (rewrite length_take; unfold zlen in *; lia).
  rewrite take_take. do 2 f_equal. lia.
Qed.

Lemma slice_splice_right i d l j n :
  0 <= i -> i + zlen d <= j -> i + zlen d <= zlen l -> slice j n (splice i d l) = slice j n l.
Proof.
  intros Hi Hj Hl. unfold slice, splice, zlen in *. f_equal. rewrite app_assoc.
  rewrite drop_app_ge by (rewrite length_app, length_take; lia).
  rewrite drop_drop, length_app, length_take. f_equal. lia.
Qed.

Lemma slice_all l : slice 0 (zlen l) l = l.
Proof. unfold slice, zlen. simpl. rewrite Nat2Z.id, drop_0. apply firstn_all. Qed.

Lemma slice_0 i l : slice i 0 l = [].
Proof. done. Qed.

Lemma slice_prefix p s n : n = zlen p -> slice 0 n (p ++ s) = p.
Proof. intros. by apply (slice_app_mid [] p s). Qed.

Lemma slice_suffix p s i n : i = zlen p -> n = zlen s -> slice i n (p ++ s) = s.
Proof. intros. rewrite <- (app_nil_r s) at 1. by apply slice_app_mid. Qed.

Lemma take_zlen p s : take (Z.to_nat (zlen p)) (p ++ s) = p.
Proof. unfold zlen. rewrite Nat2Z.id. apply take_app_length. Qed.

Lemma drop_zlen p s n : n = zlen p -> drop (Z.to_nat n) (p ++ s) = s.
Proof. unfold zlen. intros ->. rewrite Nat2Z.id. apply drop_app_length. Qed.

(** Every in-range slice cuts the list in three. *)
Lemma slice_split i n l :
  0 <= i -> 0 <= n -> i + n <= zlen l ->
  exists p s, l = p ++ slice i n l ++ s /\ zlen p = i /\ zlen s = zlen l - i - n.
Proof.
  intros Hi Hn Hl. exists (take (Z.to_nat i) l), (drop (Z.to_nat n) (drop (Z.to_nat i) l)).
  split; [|split].
  - unfold slice. by rewrite take_drop, take_drop.
  - rewrite zlen_take; lia.
  - rewrite !zlen_drop; lia.
Qed.
End Slices.

Create Rewrite HintDb zlen.
#[export] Hint Rewrite @zlen_app @zlen_cons @zlen_nil : zlen.

(** Closes goals on the lengths of concatenations. *)
Ltac zlen_lia :=
  autorewrite with zlen in *;
  repeat match goal with
  | l : list ?A |- _ =>
      lazymatch goal with
      | _ : 0 <= zlen l |- _ => fail
      | _ => pose proof (zlen_nonneg l)
      end
  end; lia.

(** Memory accesses: out of range is undefined behaviour, a fault here. *)
Definition mem_read (l : bytes) (i n : Z) : res bytes :=
  guard_ OutOfBounds ((0 <=? i) && (0 <=? n) && (i + n <=? zlen l));;
  Ok (slice i n l).

Definition mem_write (l : bytes) (i : Z) (d : bytes) : res bytes :=
  guard_ OutOfBounds ((0 <=? i) && (i + zlen d <=? zlen l));;
  Ok (splice i d l).

Lemma mem_read_ok l i n :
  0 <= i -> 0 <= n -> i + n <= zlen l -> mem_read l i n = Ok (slice i n l).
Proof. intros. unfold mem_read. rewrite guard_true; [done | lia]. Qed.

Lemma mem_write_ok l i d :
  0 <= i -> i + zlen d <= zlen l -> mem_write l i d = Ok (splice i d l).
Proof. intros. unfold mem_write. rewrite guard_true; [done | lia]. Qed.

(** ** Searching byte ranges *)

(** [std::find]: the offset of the first occurrence, or the length. *)
Fixpoint find_byte (c : byte) (l : bytes) : Z :=
  match l with
  | [] => 0
  | b :: l => if decide (b = c) then 0 else 1 + find_byte c l
  end.

(** [std::search]: the offset of the first occurrence of [pat], or the length. *)
Fixpoint search (pat l : bytes) : Z :=
  if decide (take (length pat) l = pat) then 0
  else match l with [] => 0 | _ :: l => 1 + search pat l end.

Lemma find_byte_range c l : 0 <= find_byte c l <= zlen l.
Proof.
  induction l as [|b l IH]; cbn [find_byte]; [done|].
  rewrite zlen_cons. case_decide; pose proof (zlen_nonneg l); lia.
Qed.

Lemma find_byte_app c p s : c ∉ p -> find_byte c (p ++ s) = zlen p + find_byte c s.
Proof.
  induction p as [|b p IH]; intros Hp; [done|].
  apply not_elem_of_cons in Hp as [Hb Hp]. rewrite zlen_cons. simpl.
  rewrite decide_False by congruence. rewrite IH by done. lia.
Qed.

Lemma find_byte_absent c l : c ∉ l -> find_byte c l = zlen l.
Proof.
  intros Hl. rewrite <- (app_nil_r l) at 1. rewrite find_byte_app by done. simpl. lia.
Qed.

Lemma find_byte_hit c p s : c ∉ p -> find_byte c (p ++ c :: s) = zlen p.
Proof. intros Hp. rewrite find_byte_app by done. simpl. rewrite decide_True; [lia|done]. Qed.

(** [std::find] cuts the range at the first occurrence. *)
Lemma find_byte_cases c l :
  ((c ∉ l) /\ find_byte c l = zlen l) \/
  (exists p s, (l = p ++ c :: s) /\ (c ∉ p) /\ find_byte c l = zlen p).
Proof.
  destruct (decide (c ∈ l)) as [Hin|Hin]; [right | left; auto using find_byte_absent].
  apply list_elem_of_split_l in Hin as (p & s & -> & Hp).
  exists p, s. split; [done|]. split; [done|]. by apply find_byte_hit.
Qed.

(** Where a pattern occurs in a range. *)
Definition occurs_at (pat l : bytes) (i : nat) : Prop :=
  take (length pat) (drop i l) = pat.

Lemma search_range pat l : 0 <= search pat l <= zlen l.
Proof.
  induction l as [|b l IH]; cbn [search]; case_decide; autorewrite with zlen; zlen_lia.
Qed.

(** [std::search] finds the first occurrence, or returns the end. *)
Lemma search_spec pat l :
  pat <> [] ->
  (search pat l = zlen l /\ forall i, ~ occurs_at pat l i) \/
  (exists i, search pat l = Z.of_nat i /\ occurs_at pat l i /\
             forall j, (j < i)%nat -> ~ occurs_at pat l j).
Proof.
  intros Hpat. induction l as [|b l IH]; cbn [search]; case_decide as E.
  - destruct pat; [done | discriminate].
  - left. split; [done|]. intros i. unfold occurs_at. rewrite drop_nil. exact E.
  - right. exists 0%nat. split; [done|]. split; [done | lia].
  - destruct IH as [[Hs Hn] | (i & Hs & Hi & Hj)].
    + left. rewrite zlen_cons. split; [lia|]. intros [|i]; [exact E | apply Hn].
    + right. exists (S i). split; [lia|]. split; [done|].
      intros [|j] Hlt; [exact E | apply Hj; lia].
Qed.

Lemma occurs_at_split pat l i :
  occurs_at pat l i -> (i <= length l)%nat ->
  exists s, l = take i l ++ pat ++ s.
Proof.
  unfold occurs_at. intros H Hi. exists (drop (length pat) (drop i l)).
  rewrite <- H at 1. by rewrite take_drop, take_drop.
Qed.

Lemma search_unique pat l i :
  occurs_at pat l i -> (forall j, (j < i)%nat -> ~ occurs_at pat l j) ->
  (i <= length l)%nat -> search pat l = Z.of_nat i.
Proof.
  unfold occurs_at. revert i. induction l as [|b l IH]; intros i Hi Hj Hle; cbn [search].
  - destruct i; [|simpl in Hle; lia]. by case_decide.
  - destruct i as [|i]; [by rewrite decide_True|].
    rewrite decide_False by apply (Hj 0%nat ltac:(lia)).
    rewrite (IH i); [lia | exact Hi | | simpl in Hle; lia].
    intros j Hlt. apply (Hj (S j)). lia.
Qed.

Lemma occurs_at_le pat l i :
  pat <> [] -> occurs_at pat l i -> (i + length pat <= length l)%nat.
Proof.
  unfold occurs_at. intros Hpat H. apply (f_equal length) in H.
  rewrite length_take, length_drop in H. destruct pat; [done|]. cbn [length] in *. lia.
Qed.

Lemma occurs_at_app pat l m i :
  (i + length pat <= length l)%nat -> occurs_at pat (l ++ m) i <-> occurs_at pat l i.
Proof.
  unfold occurs_at. intros H. rewrite drop_app_le by lia.
  rewrite take_app_le; [done|]. rewrite length_drop. lia.
Qed.

(** A hit is decided by the range up to its end. *)
Lemma search_app_found pat l m :
  pat <> [] -> search pat l < zlen l -> search pat (l ++ m) = search pat l.
Proof.
  intros Hpat Hlt. destruct (search_spec pat l Hpat) as [[Hs _]|(i & Hs & Ho & Hj)]; [lia|].
  pose proof (occurs_at_le _ _ _ Hpat Ho). rewrite Hs. apply search_unique.
  - by apply occurs_at_app.
  - intros j Hji Hoj. apply (Hj j Hji). eapply occurs_at_app; [|exact Hoj]. lia.
  - rewrite length_app. lia.
Qed.

Lemma search_found_split pat l :
  pat <> [] -> search pat l < zlen l ->
  exists p s, l = p ++ pat ++ s /\ zlen p = search pat l.
Proof.
  intros Hpat Hlt. destruct (search_spec pat l Hpat) as [[Hs _]|(i & Hs & Ho & _)]; [lia|].
  assert (i <= length l)%nat by (unfold zlen in Hlt; lia).
  destruct (occurs_at_split pat l i Ho) as [s Hl]; [done|].
  exists (take i l), s. split; [done|]. unfold zlen. rewrite length_take. lia.
Qed.

(** A range that does not hold the pattern's first byte. *)
Lemma occurs_at_head c pat l i : occurs_at (c :: pat) l i -> l !! i = Some c.
Proof.
  unfold occurs_at. intros H.
  rewrite <- (take_drop i l), lookup_app_r; rewrite length_take.
  - destruct (drop i l) as [|b k] eqn:E; [discriminate|]. simpl in H.
    assert (i < length l)%nat by (apply (f_equal length) in E; rewrite length_drop in E; simpl in E; lia).
    replace (i - i `min` length l)%nat with 0%nat by lia. simpl. congruence.
  - lia.
Qed.

Lemma search_absent c pat l : c ∉ l -> search (c :: pat) l = zlen l.
Proof.
  intros Hl. destruct (search_spec (c :: pat) l) as [[Hs _]|(i & Hs & Ho & _)]; [done|done|].
  exfalso. apply Hl. apply occurs_at_head in Ho. by apply list_elem_of_lookup_2 in Ho.
Qed.

Lemma search_app_absent c pat p s :
  c ∉ p -> search (c :: pat) (p ++ (c :: pat) ++ s) = zlen p.
Proof.
  intros Hp. apply search_unique.
  - unfold occurs_at. rewrite drop_app_length. apply take_app_length.
  - intros j Hj Ho. apply occurs_at_head in Ho. rewrite lookup_app_l in Ho by done.
    apply list_elem_of_lookup_2 in Ho. done.
  - rewrite length_app. lia.
Qed.

(** The range cut at the first occurrence of a byte. *)
Definition cut (c : byte) (l : bytes) : option (bytes * bytes) :=
  let i := find_byte c l in
  if i =? zlen l then None else Some (take (Z.to_nat i) l, drop (Z.to_nat (i + 1)) l).

Lemma cut_none c l : cut c l = None <-> c ∉ l.
Proof.
  unfold cut. destruct (find_byte_cases c l) as [[Hc ->]|(p & s & -> & Hc & ->)].
  - by rewrite Z.eqb_refl.
  - rewrite (proj2 (Z.eqb_neq _ _)) by zlen_lia. rewrite elem_of_app, elem_of_cons. naive_solver.
Qed.

Lemma cut_hit c p s : c ∉ p -> cut c (p ++ c :: s) = Some (p, s).
Proof.
  intros Hp. unfold cut. rewrite find_byte_hit by done.
  rewrite (proj2 (Z.eqb_neq _ _)) by zlen_lia. rewrite take_zlen. f_equal. f_equal.
  replace (p ++ c :: s) with ((p ++ [c]) ++ s) by (by rewrite <- app_assoc).
  apply drop_zlen. zlen_lia.
Qed.

Lemma cut_some c l p s : cut c l = Some (p, s) <-> l = p ++ c :: s /\ (c ∉ p).
Proof.
  split; [|intros [-> Hp]; by apply cut_hit].
  destruct (find_byte_cases c l) as [[Hc _]|(p' & s' & -> & Hc & _)].
  - by rewrite (proj2 (cut_none c l)).
  - rewrite cut_hit by done. by intros [= -> ->].
Qed.

(** ** Proof automation *)

(** Splits a hypothesis that says a monadic computation returned. *)
Ltac inv_res :=
  repeat match goal with
  | H : (_ ≫= _) = Ok _ |- _ =>
      let a := fresh "r" in let H1 := fresh "Hr" in
      apply bind_ok_inv in H; destruct H as (a & H1 & H)
  | H : assert_ _ = Ok _ |- _ =>
      let E := fresh "Ha" in
      unfold assert_ in H;
      match type of H with (if ?b then _ else _) = _ => destruct b eqn:E; [|discriminate H] end
  | H : guard_ _ _ = Ok _ |- _ =>
      let E := fresh "Hg" in
      unfold guard_ in H;
      match type of H with (if ?b then _ else _) = _ => destruct b eqn:E; [|discriminate H] end
  | H : Ok _ = Ok _ |- _ => injection H as H; subst
  | H : Err _ = Ok _ |- _ => discriminate H
  end.

(** Decides a closed proposition by computation. *)
Ltac decide_now :=
  lazymatch goal with |- ?P => apply (bool_decide_unpack P); vm_compute; exact I end.

(** Runs the assertions of a goal whose conditions [lia] decides. *)
Ltac step_assert :=
  first
    [ rewrite assert_true by lia
    | rewrite guard_true by lia ]; cbn [mbind res_bind].
