(* ===== verification/Endian.v ===== *)
(** * Byte order: tmuduo/net/Endian.h

    Object representations of fixed-width integers on a host of either byte
    order, and the conversions between host and network order.  [htobeN] and
    [beNtoh] are the C library's macros: the identity on a big-endian host and
    a byte swap on a little-endian one. *)

From S2P Require Import Prelude.

Inductive endianness := LittleEndian | BigEndian.

(** ** Little-endian byte strings *)

Fixpoint le_bytes (n : nat) (x : Z) : bytes :=
  match n with
  | O => []
  | S n => z2b x :: le_bytes n (x / 256)
  end.

Fixpoint le_value (l : bytes) : Z :=
  match l with
  | [] => 0
  | b :: l => b2z b + 256 * le_value l
  end.

Definition be_bytes (n : nat) (x : Z) : bytes := reverse (le_bytes n x).
Definition be_value (l : bytes) : Z := le_value (reverse l).

Lemma length_le_bytes n x : length (le_bytes n x) = n.
Proof. revert x. induction n; intros; simpl; auto. Qed.

Lemma length_be_bytes n x : length (be_bytes n x) = n.
Proof. unfold be_bytes. by rewrite length_reverse, length_le_bytes. Qed.

Lemma zlen_be_bytes n x : zlen (be_bytes n x) = Z.of_nat n.
Proof. unfold zlen. by rewrite length_be_bytes. Qed.

Lemma pow256_succ n : 256 ^ Z.of_nat (S n) = 256 * 256 ^ Z.of_nat n.
Proof. rewrite Nat2Z.inj_succ, Z.pow_succ_r; lia. Qed.

Lemma le_value_range l : 0 <= le_value l < 256 ^ zlen l.
Proof.
  unfold zlen. induction l as [|b l IH]; cbn [le_value length]; [lia|].
  rewrite pow256_succ. pose proof (b2z_range b). lia.
Qed.

Lemma le_value_le_bytes n x : le_value (le_bytes n x) = x mod 256 ^ Z.of_nat n.
Proof.
  revert x. induction n as [|n IH]; intros x; cbn [le_bytes le_value].
  - by rewrite Z.mod_1_r.
  - rewrite IH, b2z_z2b, pow256_succ, Z.rem_mul_r by lia. lia.
Qed.

Lemma z2b_mod x y : x mod 256 = y mod 256 -> z2b x = z2b y.
Proof. unfold z2b. by intros ->. Qed.

Lemma le_bytes_le_value l : le_bytes (length l) (le_value l) = l.
Proof.
  induction l as [|b l IH]; cbn [le_bytes le_value length]; [done|].
  pose proof (b2z_range b). f_equal.
  - rewrite (z2b_mod _ (b2z b)); [apply z2b_b2z|].
    rewrite (Z.mul_comm 256), Z_mod_plus_full. done.
  - rewrite (Z.mul_comm 256), Z.div_add, Z.div_small by lia. done.
Qed.

Lemma le_bytes_mod n x : le_bytes n (x mod 256 ^ Z.of_nat n) = le_bytes n x.
Proof.
  rewrite <- le_value_le_bytes.
  rewrite <- (length_le_bytes n x) at 1. apply le_bytes_le_value.
Qed.

Lemma be_value_be_bytes n x : be_value (be_bytes n x) = x mod 256 ^ Z.of_nat n.
Proof. unfold be_value, be_bytes. by rewrite reverse_involutive, le_value_le_bytes. Qed.

Lemma be_bytes_be_value l : be_bytes (length l) (be_value l) = l.
Proof.
  unfold be_value, be_bytes. rewrite <- length_reverse, le_bytes_le_value.
  apply reverse_involutive.
Qed.

Lemma be_bytes_mod n x : be_bytes n (x mod 256 ^ Z.of_nat n) = be_bytes n x.
Proof. unfold be_bytes. by rewrite le_bytes_mod. Qed.

Lemma be_value_range l : 0 <= be_value l < 256 ^ zlen l.
Proof.
  unfold be_value. replace (zlen l) with (zlen (reverse l)).
  - apply le_value_range.
  - unfold zlen. by rewrite length_reverse.
Qed.

(** ** The host *)

Section Host.
Context (host : endianness).

(** The bytes of an [n]-byte integer object in memory, and the unsigned
    value of the object that a sequence of bytes represents ([memcpy] in
    both directions). *)
Definition obj_bytes (n : nat) (x : Z) : bytes :=
  match host with LittleEndian => le_bytes n x | BigEndian => be_bytes n x end.

Definition obj_value (l : bytes) : Z :=
  match host with LittleEndian => le_value l | BigEndian => be_value l end.

Definition bswap (n : nat) (x : Z) : Z := le_value (be_bytes n x).

(** [htobe16], [htobe32], [htobe64] and their inverses. *)
Definition htobe (n : nat) (x : Z) : Z :=
  match host with LittleEndian => bswap n x | BigEndian => x end.
Definition betoh (n : nat) (x : Z) : Z := htobe n x.

Definition hostToNetwork64 (host64 : Z) : Z := htobe 8 (wrapu 64 host64).
Definition hostToNetwork32 (host32 : Z) : Z := htobe 4 (wrapu 32 host32).
Definition hostToNetwork16 (host16 : Z) : Z := htobe 2 (wrapu 16 host16).
Definition networkToHost64 (net64 : Z) : Z := betoh 8 (wrapu 64 net64).
Definition networkToHost32 (net32 : Z) : Z := betoh 4 (wrapu 32 net32).
Definition networkToHost16 (net16 : Z) : Z := betoh 2 (wrapu 16 net16).

Lemma length_obj_bytes n x : length (obj_bytes n x) = n.
Proof. unfold obj_bytes. destruct host; [apply length_le_bytes | apply length_be_bytes]. Qed.

Lemma zlen_obj_bytes n x : zlen (obj_bytes n x) = Z.of_nat n.
Proof. unfold zlen. by rewrite length_obj_bytes. Qed.

(** An object depends on its value modulo its width only, so the
    conversions between the signed and unsigned types are harmless. *)
Lemma obj_bytes_mod n x : obj_bytes n (x mod 256 ^ Z.of_nat n) = obj_bytes n x.
Proof. unfold obj_bytes. destruct host; [apply le_bytes_mod | apply be_bytes_mod]. Qed.

Lemma obj_bytes_htobe n x : obj_bytes n (htobe n x) = be_bytes n x.
Proof.
  unfold obj_bytes, htobe. destruct host; [|done]. unfold bswap.
  rewrite <- (length_be_bytes n x) at 1. apply le_bytes_le_value.
Qed.

Lemma betoh_obj_value l : betoh (length l) (obj_value l) = be_value l.
Proof.
  unfold betoh, htobe, obj_value. destruct host; simpl; [|done].
  unfold bswap, be_bytes. by rewrite le_bytes_le_value.
Qed.
End Host.

Lemma pow256_wrapu n x : wrapu (8 * Z.of_nat n) x = x mod 256 ^ Z.of_nat n.
Proof. unfold wrapu. rewrite Z.pow_mul_r by lia. done. Qed.
