(* ===== verification/Buffer.v ===== *)
(** * The I/O buffer: tmuduo/net/Buffer.h and Buffer.cc

    A [Buffer] is a byte vector with a reader and a writer index.  Pointers
    into the vector ([peek], [beginWrite], the results of [findEOL] and
    [findCRLF]) are offsets from [begin()].  [size_t] arithmetic wraps at 64
    bits. *)

From S2P Require Import Prelude Endian.

(** ** State *)

Record Buffer := mkBuffer {
  buffer_ : bytes;
  readerIndex_ : Z;
  writerIndex_ : Z
}.

#[global] Instance Buffer_eq_dec : EqDecision Buffer.
Proof. solve_decision. Defined.

Definition kCheapPrepend : Z := 8.
Definition kInitialSize : Z := 1024.
Definition kCRLF : bytes := [CR; LF].

(** [std::vector<char>::max_size()]. *)
Definition max_size : Z := 2 ^ 63 - 1.

(** [std::vector<char>::resize]: new elements are zero. *)
Definition vector_resize (v : bytes) (n : Z) : res bytes :=
  if max_size <? n then Err LengthError
  else if n <=? zlen v then Ok (take (Z.to_nat n) v)
  else Ok (v ++ replicate (Z.to_nat (n - zlen v)) x00).

Definition readableBytes (b : Buffer) : Z := u64 (writerIndex_ b - readerIndex_ b).
Definition writableBytes (b : Buffer) : Z := u64 (zlen (buffer_ b) - writerIndex_ b).
Definition prependableBytes (b : Buffer) : Z := readerIndex_ b.

Definition buffer_init : Buffer :=
  {| buffer_ := replicate (Z.to_nat (kCheapPrepend + kInitialSize)) x00;
     readerIndex_ := kCheapPrepend;
     writerIndex_ := kCheapPrepend |}.

(** The constructor, with its assertions. *)
Definition Buffer_ctor : res Buffer :=
  let b := buffer_init in
  assert_ (readableBytes b =? 0);;
  assert_ (writableBytes b =? kInitialSize);;
  assert_ (prependableBytes b =? kCheapPrepend);;
  Ok b.

(** ** Views and searches *)

Definition peek (b : Buffer) : Z := readerIndex_ b.
Definition beginWrite (b : Buffer) : Z := writerIndex_ b.

Definition swap (b rhs : Buffer) : Buffer * Buffer :=
  (mkBuffer (buffer_ rhs) (readerIndex_ rhs) (writerIndex_ rhs),
   mkBuffer (buffer_ b) (readerIndex_ b) (writerIndex_ b)).

Definition toStringView (b : Buffer) : bytes :=
  slice (peek b) (readableBytes b) (buffer_ b).

(** [memchr] over [n] bytes at [p]: [None] is the null pointer. *)
Definition memchr (v : bytes) (p : Z) (c : byte) (n : Z) : res (option Z) :=
  r ← mem_read v p n;
  let i := find_byte c r in
  Ok (if i <? n then Some (p + i) else None).

Definition findEOL (b : Buffer) : res (option Z) :=
  memchr (buffer_ b) (peek b) LF (readableBytes b).

Definition findEOL_from (b : Buffer) (start : Z) : res (option Z) :=
  assert_ (peek b <=? start);;
  assert_ (start <=? beginWrite b);;
  memchr (buffer_ b) start LF (beginWrite b - start).

Definition findCRLF_from (b : Buffer) (start : Z) : res (option Z) :=
  assert_ (peek b <=? start);;
  assert_ (start <=? beginWrite b);;
  r ← mem_read (buffer_ b) start (beginWrite b - start);
  let crlf := start + search kCRLF r in
  Ok (if crlf =? beginWrite b then None else Some crlf).

Definition findCRLF (b : Buffer) : res (option Z) :=
  r ← mem_read (buffer_ b) (peek b) (beginWrite b - peek b);
  let crlf := peek b + search kCRLF r in
  Ok (if crlf =? beginWrite b then None else Some crlf).

(** ** Consuming *)

Definition retrieveAll (b : Buffer) : Buffer :=
  mkBuffer (buffer_ b) kCheapPrepend kCheapPrepend.

Definition retrieve (b : Buffer) (len : Z) : Buffer :=
  if len <? readableBytes b
  then mkBuffer (buffer_ b) (u64 (readerIndex_ b + len)) (writerIndex_ b)
  else retrieveAll b.

Definition retrieveUntil (b : Buffer) (end_ : Z) : res Buffer :=
  assert_ (peek b <=? end_);;
  assert_ (end_ <=? beginWrite b);;
  Ok (retrieve b (end_ - peek b)).

Definition retrieveInt64 (b : Buffer) : Buffer := retrieve b 8.
Definition retrieveInt32 (b : Buffer) : Buffer := retrieve b 4.
Definition retrieveInt16 (b : Buffer) : Buffer := retrieve b 2.
Definition retrieveInt8 (b : Buffer) : Buffer := retrieve b 1.

Definition retrieveAsString (b : Buffer) (len : Z) : res (bytes * Buffer) :=
  assert_ (len <=? readableBytes b);;
  result ← mem_read (buffer_ b) (peek b) len;
  Ok (result, retrieve b len).

Definition retrieveAllAsString (b : Buffer) : res (bytes * Buffer) :=
  retrieveAsString b (readableBytes b).

(** ** Producing *)

Definition hasWritten (b : Buffer) (len : Z) : Buffer :=
  mkBuffer (buffer_ b) (readerIndex_ b) (u64 (writerIndex_ b + len)).

Definition makeSpace (b : Buffer) (len : Z) : res Buffer :=
  if u64 (writableBytes b + prependableBytes b) <? u64 (len + kCheapPrepend) then
    v ← vector_resize (buffer_ b) (u64 (writerIndex_ b + len));
    Ok (mkBuffer v (readerIndex_ b) (writerIndex_ b))
  else
    assert_ (kCheapPrepend <? readerIndex_ b);;
    let readable := readableBytes b in
    d ← mem_read (buffer_ b) (readerIndex_ b) (writerIndex_ b - readerIndex_ b);
    v ← mem_write (buffer_ b) kCheapPrepend d;
    let b' := mkBuffer v kCheapPrepend (u64 (kCheapPrepend + readable)) in
    assert_ (readable =? readableBytes b');;
    Ok b'.

Definition ensureWritableBytes (b : Buffer) (len : Z) : res Buffer :=
  b ← (if writableBytes b <? len then makeSpace b len else Ok b);
  assert_ (len <=? writableBytes b);;
  Ok b.

Definition append (b : Buffer) (data : bytes) : res Buffer :=
  b ← ensureWritableBytes b (zlen data);
  v ← mem_write (buffer_ b) (beginWrite b) data;
  Ok (hasWritten (mkBuffer v (readerIndex_ b) (writerIndex_ b)) (zlen data)).

Definition prepend (b : Buffer) (data : bytes) : res Buffer :=
  assert_ (zlen data <=? prependableBytes b);;
  let r := u64 (readerIndex_ b - zlen data) in
  v ← mem_write (buffer_ b) r data;
  Ok (mkBuffer v r (writerIndex_ b)).

Definition shrink (b : Buffer) (reserve : Z) : res Buffer :=
  other ← Buffer_ctor;
  other ← ensureWritableBytes other (u64 (readableBytes b + reserve));
  other ← append other (toStringView b);
  Ok (fst (swap b other)).

(** ** Integers in network byte order *)

Section Integers.
Context (host : endianness).

Definition appendInt64 (b : Buffer) (x : Z) : res Buffer :=
  let be64 := wraps 64 (hostToNetwork64 host x) in append b (obj_bytes host 8 be64).
Definition appendInt32 (b : Buffer) (x : Z) : res Buffer :=
  let be32 := wraps 32 (hostToNetwork32 host x) in append b (obj_bytes host 4 be32).
Definition appendInt16 (b : Buffer) (x : Z) : res Buffer :=
  let be16 := wraps 16 (hostToNetwork16 host x) in append b (obj_bytes host 2 be16).
Definition appendInt8 (b : Buffer) (x : Z) : res Buffer := append b (obj_bytes host 1 x).

Definition peekInt64 (b : Buffer) : res Z :=
  assert_ (8 <=? readableBytes b);;
  m ← mem_read (buffer_ b) (peek b) 8;
  let be64 := wraps 64 (obj_value host m) in
  Ok (wraps 64 (networkToHost64 host be64)).
Definition peekInt32 (b : Buffer) : res Z :=
  assert_ (4 <=? readableBytes b);;
  m ← mem_read (buffer_ b) (peek b) 4;
  let be32 := wraps 32 (obj_value host m) in
  Ok (wraps 32 (networkToHost32 host be32)).
Definition peekInt16 (b : Buffer) : res Z :=
  assert_ (2 <=? readableBytes b);;
  m ← mem_read (buffer_ b) (peek b) 2;
  let be16 := wraps 16 (obj_value host m) in
  Ok (wraps 16 (networkToHost16 host be16)).
Definition peekInt8 (b : Buffer) : res Z :=
  assert_ (1 <=? readableBytes b);;
  m ← mem_read (buffer_ b) (peek b) 1;
  Ok (wraps 8 (obj_value host m)).

Definition readInt64 (b : Buffer) : res (Z * Buffer) :=
  result ← peekInt64 b; Ok (result, retrieveInt64 b).
Definition readInt32 (b : Buffer) : res (Z * Buffer) :=
  result ← peekInt32 b; Ok (result, retrieveInt32 b).
Definition readInt16 (b : Buffer) : res (Z * Buffer) :=
  result ← peekInt16 b; Ok (result, retrieveInt16 b).
Definition readInt8 (b : Buffer) : res (Z * Buffer) :=
  result ← peekInt8 b; Ok (result, retrieveInt8 b).

Definition prependInt64 (b : Buffer) (x : Z) : res Buffer :=
  let be64 := wraps 64 (hostToNetwork64 host x) in prepend b (obj_bytes host 8 be64).
Definition prependInt32 (b : Buffer) (x : Z) : res Buffer :=
  let be32 := wraps 32 (hostToNetwork32 host x) in prepend b (obj_bytes host 4 be32).
Definition prependInt16 (b : Buffer) (x : Z) : res Buffer :=
  let be16 := wraps 16 (hostToNetwork16 host x) in prepend b (obj_bytes host 2 be16).
Definition prependInt8 (b : Buffer) (x : Z) : res Buffer := prepend b (obj_bytes host 1 x).
End Integers.

(** ** Reading from a descriptor

    The outcome of [readv] on two ranges: an error number, or the bytes the
    kernel stored in each range. *)
Inductive readv_ret :=
| ReadvErr (err : Z)
| ReadvOk (d0 d1 : bytes).

Definition extrabuf_size : Z := 65536.

(** What readv(2) documents: each range receives at most its length, and the
    second one receives something only when the first is full. *)
Definition readv_ok (len0 len1 : Z) (r : readv_ret) : Prop :=
  match r with
  | ReadvErr _ => True
  | ReadvOk d0 d1 =>
      zlen d0 <= len0 /\ zlen d1 <= len1 /\ (d1 = [] \/ zlen d0 = len0)
  end.

(** Returns the result of [readv], the saved error number when there is one,
    and the buffer. *)
Definition readFd (b : Buffer) (rv : readv_ret) : res (Z * option Z * Buffer) :=
  let writable := writableBytes b in
  match rv with
  | ReadvErr err => Ok (-1, Some err, b)
  | ReadvOk d0 d1 =>
      v ← mem_write (buffer_ b) (writerIndex_ b) d0;
      let n := zlen d0 + zlen d1 in
      if n <=? writable then
        Ok (n, None, mkBuffer v (readerIndex_ b) (u64 (writerIndex_ b + n)))
      else
        let b := mkBuffer v (readerIndex_ b) (zlen v) in
        extra ← mem_read d1 0 (n - writable);
        b ← append b extra;
        Ok (n, None, b)
  end.

(** ** The invariant *)

Record buffer_ok (b : Buffer) : Prop := {
  ok_reader : 0 <= readerIndex_ b;
  ok_order : readerIndex_ b <= writerIndex_ b;
  ok_writer : writerIndex_ b <= zlen (buffer_ b);
  ok_size : kCheapPrepend <= zlen (buffer_ b) <= max_size
}.

#[global] Instance buffer_ok_dec b : Decision (buffer_ok b).
Proof.
  refine (cast_if (decide
    (0 <= readerIndex_ b /\ readerIndex_ b <= writerIndex_ b /\
     writerIndex_ b <= zlen (buffer_ b) /\ kCheapPrepend <= zlen (buffer_ b) <= max_size)));
    [constructor; tauto | intros [? ? ? ?]; tauto].
Defined.

(** Linear arithmetic with the invariants of the buffers in the context. *)
Ltac buf_lia :=
  repeat match goal with
  | H : buffer_ok ?b |- _ =>
      lazymatch goal with
      | _ : readerIndex_ b <= writerIndex_ b |- _ => fail
      | _ => pose proof (ok_reader b H); pose proof (ok_order b H);
             pose proof (ok_writer b H); pose proof (ok_size b H)
      end
  end;
  unfold max_size, kCheapPrepend, kInitialSize, extrabuf_size in *;
  cbn [buffer_ readerIndex_ writerIndex_] in *; lia.

(** A buffer without writable bytes. *)
Definition buffer_of (v : bytes) : Buffer :=
  mkBuffer (replicate (Z.to_nat kCheapPrepend) x00 ++ v) kCheapPrepend (kCheapPrepend + zlen v).

Lemma buffer_init_ok : buffer_ok buffer_init.
Proof. apply (bool_decide_unpack (buffer_ok buffer_init)). vm_compute. exact I. Qed.

Lemma Buffer_ctor_init : Buffer_ctor = Ok buffer_init.
Proof. vm_compute. done. Qed.

Section Lemmas.
Context (b : Buffer) (Hb : buffer_ok b).

Lemma readableBytes_eq : readableBytes b = writerIndex_ b - readerIndex_ b.
Proof. unfold readableBytes. apply u64_small. buf_lia. Qed.

Lemma writableBytes_eq : writableBytes b = zlen (buffer_ b) - writerIndex_ b.
Proof. unfold writableBytes. apply u64_small. buf_lia. Qed.

Lemma zlen_toStringView : zlen (toStringView b) = readableBytes b.
Proof.
  unfold toStringView. rewrite zlen_slice; rewrite ?readableBytes_eq; unfold peek; buf_lia.
Qed.

(** The three regions of the vector: prependable, readable, writable. *)
Lemma buffer_regions :
  exists p s, buffer_ b = p ++ toStringView b ++ s /\
    zlen p = readerIndex_ b /\ zlen s = zlen (buffer_ b) - writerIndex_ b.
Proof.
  destruct (slice_split (peek b) (readableBytes b) (buffer_ b)) as (p & s & H1 & H2 & H3);
    rewrite ?readableBytes_eq; unfold peek in *; [buf_lia..|].
  exists p, s. split; [exact H1|]. split; [exact H2|].
  rewrite H3, readableBytes_eq. lia.
Qed.
End Lemmas.

(** A buffer given by its regions. *)
Lemma buffer_of_regions p c s r w :
  r = zlen p -> w = zlen p + zlen c -> kCheapPrepend <= zlen (p ++ c ++ s) <= max_size ->
  buffer_ok (mkBuffer (p ++ c ++ s) r w) /\
  toStringView (mkBuffer (p ++ c ++ s) r w) = c.
Proof.
  intros -> -> Hs. assert (buffer_ok (mkBuffer (p ++ c ++ s) (zlen p) (zlen p + zlen c))) as Hok.
  { constructor; cbn; [apply zlen_nonneg | zlen_lia | zlen_lia | done]. }
  split; [done|]. unfold toStringView. rewrite (readableBytes_eq _ Hok). cbn.
  apply slice_app_mid; [done | lia].
Qed.

(** ** Consuming *)

Lemma retrieveAll_ok b :
  buffer_ok b -> buffer_ok (retrieveAll b) /\ toStringView (retrieveAll b) = [].
Proof.
  intros Hb. assert (buffer_ok (retrieveAll b)) as Hok.
  { constructor; cbn; buf_lia. }
  split; [done|]. unfold toStringView. rewrite (readableBytes_eq _ Hok). done.
Qed.

Lemma retrieve_ok b n :
  buffer_ok b -> 0 <= n ->
  buffer_ok (retrieve b n) /\
  toStringView (retrieve b n) = drop (Z.to_nat n) (toStringView b) /\
  buffer_ (retrieve b n) = buffer_ b /\
  (readerIndex_ b <= readerIndex_ (retrieve b n) \/ readerIndex_ (retrieve b n) = kCheapPrepend).
Proof.
  intros Hb Hn. pose proof (zlen_toStringView b Hb) as Hz. unfold retrieve.
  rewrite (readableBytes_eq b Hb) in *. destruct (Z.ltb_spec n (writerIndex_ b - readerIndex_ b)) as [Hlt|Hge].
  - destruct (buffer_regions b Hb) as (p & s & E & Hp & Hs).
    rewrite u64_small by buf_lia. cbn.
    assert (zlen (take (Z.to_nat n) (toStringView b)) = n) by (rewrite zlen_take; lia).
    assert (buffer_ b = (p ++ take (Z.to_nat n) (toStringView b)) ++ drop (Z.to_nat n) (toStringView b) ++ s) as E'.
    { rewrite E at 1. rewrite <- (take_drop (Z.to_nat n) (toStringView b)) at 1. by rewrite <- !app_assoc. }
    pose proof (ok_size b Hb) as Hsz. rewrite E' in Hsz.
    destruct (buffer_of_regions (p ++ take (Z.to_nat n) (toStringView b))
      (drop (Z.to_nat n) (toStringView b)) s (readerIndex_ b + n) (writerIndex_ b))
      as [H1 H2]; [zlen_lia | rewrite zlen_drop by done; zlen_lia | exact Hsz |].
    rewrite <- E' in H1, H2. split; [done|]. split; [done|]. split; [done | left; lia].
  - destruct (retrieveAll_ok b Hb) as [H1 H2]. split; [done|]. rewrite H2.
    split; [|split; [done | by right]]. symmetry. apply drop_ge. unfold zlen in Hz. lia.
Qed.

Lemma mem_read_view b n :
  buffer_ok b -> 0 <= n <= readableBytes b ->
  mem_read (buffer_ b) (peek b) n = Ok (take (Z.to_nat n) (toStringView b)).
Proof.
  intros Hb Hn. rewrite (readableBytes_eq b Hb) in Hn.
  rewrite mem_read_ok by (unfold peek; buf_lia). f_equal.
  unfold toStringView, slice. rewrite take_take. f_equal.
  rewrite (readableBytes_eq b Hb). lia.
Qed.

Lemma mem_read_view_all b :
  buffer_ok b -> mem_read (buffer_ b) (peek b) (beginWrite b - peek b) = Ok (toStringView b).
Proof.
  intros Hb. unfold beginWrite, peek at 2. rewrite <- (readableBytes_eq b Hb).
  rewrite mem_read_view; [|done|split; [rewrite readableBytes_eq by done; buf_lia | lia]].
  f_equal. rewrite <- zlen_toStringView by done. unfold zlen. rewrite Nat2Z.id. apply firstn_all.
Qed.

Lemma retrieveAsString_ok b n :
  buffer_ok b -> 0 <= n <= readableBytes b ->
  retrieveAsString b n = Ok (take (Z.to_nat n) (toStringView b), retrieve b n).
Proof.
  intros Hb Hn. unfold retrieveAsString. step_assert. by rewrite mem_read_view.
Qed.

Lemma retrieveAllAsString_ok b :
  buffer_ok b -> retrieveAllAsString b = Ok (toStringView b, retrieveAll b).
Proof.
  intros Hb. unfold retrieveAllAsString. pose proof (zlen_toStringView b Hb) as Hz.
  pose proof (zlen_nonneg (toStringView b)).
  rewrite retrieveAsString_ok by (done || lia). f_equal. f_equal.
  - rewrite <- Hz. unfold zlen. rewrite Nat2Z.id. apply firstn_all.
  - unfold retrieve. rewrite Z.ltb_irrefl. done.
Qed.

(** ** Producing *)

(** The size of the vector after making room for [len] bytes. *)
Definition grown_size (b : Buffer) (len : Z) : Z :=
  if (zlen (buffer_ b) - writerIndex_ b <? len) &&
     (zlen (buffer_ b) - writerIndex_ b + readerIndex_ b <? len + kCheapPrepend)
  then writerIndex_ b + len else zlen (buffer_ b).

(** What making room for [len] bytes leaves: the readable bytes, a reader index
    that stays or returns to [kCheapPrepend], and the room. *)
Definition made_room (b b' : Buffer) (len : Z) : Prop :=
  buffer_ok b' /\ toStringView b' = toStringView b /\
  writerIndex_ b' + len <= zlen (buffer_ b') /\
  zlen (buffer_ b') = grown_size b len /\
  (readerIndex_ b' = readerIndex_ b \/
   readerIndex_ b' = kCheapPrepend /\ kCheapPrepend < readerIndex_ b).

Lemma vector_resize_grow v n :
  zlen v < n <= max_size ->
  vector_resize v n = Ok (v ++ replicate (Z.to_nat (n - zlen v)) x00).
Proof.
  intros Hn. unfold vector_resize.
  rewrite (proj2 (Z.ltb_ge _ _)) by lia. by rewrite (proj2 (Z.leb_gt _ _)) by lia.
Qed.

Lemma makeSpace_grow b len :
  buffer_ok b -> writerIndex_ b + len <= max_size ->
  zlen (buffer_ b) - writerIndex_ b < len ->
  zlen (buffer_ b) - writerIndex_ b + readerIndex_ b < len + kCheapPrepend ->
  exists b', makeSpace b len = Ok b' /\ made_room b b' len.
Proof.
  intros Hb Hmax Hlt Hg. unfold makeSpace, made_room, grown_size.
  pose proof (readableBytes_eq b Hb) as Hr. pose proof (zlen_toStringView b Hb) as Hz.
  destruct (buffer_regions b Hb) as (p & s & E & Hp & Hs).
  rewrite (writableBytes_eq b Hb). unfold prependableBytes. rewrite !u64_small by buf_lia.
  rewrite !(proj2 (Z.ltb_lt _ _)) by lia.
  rewrite vector_resize_grow by lia. cbn [mbind res_bind andb].
  eexists. split; [done|].
  assert (forall k, buffer_ b ++ k = p ++ toStringView b ++ (s ++ k)) as ->.
  { intros k. rewrite E at 1. by rewrite <- !app_assoc. }
  match goal with |- context [s ++ ?k] => assert (zlen (s ++ k) = len) as Hs' end.
  { rewrite zlen_app, zlen_replicate; lia. }
  match goal with |- context [mkBuffer (p ++ _ ++ ?k) _ _] =>
    destruct (buffer_of_regions p (toStringView b) k (readerIndex_ b) (writerIndex_ b))
      as [H1 H2]; [lia | lia | rewrite !(zlen_app p), !(zlen_app (toStringView b)); buf_lia |]
  end.
  split; [done|]. split; [done|]. cbn [buffer_ readerIndex_ writerIndex_].
  rewrite !(zlen_app p), !(zlen_app (toStringView b)). split; [lia|]. split; [lia|]. by left.
Qed.

Lemma makeSpace_move b len :
  buffer_ok b -> 0 <= len ->
  zlen (buffer_ b) - writerIndex_ b < len ->
  len + kCheapPrepend <= zlen (buffer_ b) - writerIndex_ b + readerIndex_ b ->
  exists b', makeSpace b len = Ok b' /\ made_room b b' len.
Proof.
  intros Hb Hlen Hlt Hm. unfold makeSpace, made_room, grown_size.
  pose proof (readableBytes_eq b Hb) as Hr. pose proof (zlen_toStringView b Hb) as Hz.
  rewrite (writableBytes_eq b Hb). unfold prependableBytes. rewrite !u64_small by buf_lia.
  rewrite !(proj2 (Z.ltb_ge _ (len + kCheapPrepend))) by lia. rewrite andb_false_r.
  step_assert. replace (readerIndex_ b) with (peek b) at 1 by done.
  replace (writerIndex_ b - readerIndex_ b) with (beginWrite b - peek b) by done.
  rewrite mem_read_view_all by done. cbn [mbind res_bind].
  rewrite mem_write_ok by (rewrite ?Hz, ?Hr; buf_lia). cbn [mbind res_bind].
  destruct (slice_split kCheapPrepend (readableBytes b) (buffer_ b)) as (p1 & s1 & E1 & Hp1 & Hs1);
    [buf_lia | buf_lia | rewrite Hr; buf_lia |].
  assert (splice kCheapPrepend (toStringView b) (buffer_ b) = p1 ++ toStringView b ++ s1) as ->.
  { rewrite E1 at 1. apply splice_app_mid; [done|].
    rewrite zlen_slice; [done | buf_lia | rewrite Hr; buf_lia | rewrite Hr; buf_lia]. }
  destruct (buffer_of_regions p1 (toStringView b) s1 kCheapPrepend (kCheapPrepend + readableBytes b))
    as [H1 H2]; [done | lia | rewrite !zlen_app; buf_lia |].
  rewrite (readableBytes_eq _ H1). cbn. step_assert.
  eexists. split; [done|]. split; [done|]. split; [done|].
  cbn [buffer_ readerIndex_ writerIndex_]. rewrite !zlen_app.
  split; [lia|]. split; [lia|]. right. split; [done | lia].
Qed.

Lemma makeSpace_ok b len :
  buffer_ok b -> 0 <= len -> writerIndex_ b + len <= max_size ->
  zlen (buffer_ b) - writerIndex_ b < len ->
  exists b', makeSpace b len = Ok b' /\ made_room b b' len.
Proof.
  intros. destruct (decide (zlen (buffer_ b) - writerIndex_ b + readerIndex_ b < len + kCheapPrepend)).
  - by apply makeSpace_grow.
  - apply makeSpace_move; (done || lia).
Qed.

(** Enough room to begin with, or room to be made. *)
Lemma ensureWritableBytes_made b len :
  buffer_ok b -> 0 <= len ->
  (zlen (buffer_ b) - writerIndex_ b < len ->
   exists b', makeSpace b len = Ok b' /\ made_room b b' len) ->
  exists b', ensureWritableBytes b len = Ok b' /\ made_room b b' len.
Proof.
  intros Hb Hlen Hmake. unfold ensureWritableBytes. rewrite (writableBytes_eq b Hb).
  destruct (Z.ltb_spec (zlen (buffer_ b) - writerIndex_ b) len) as [Hlt|Hge].
  - destruct Hmake as (b' & -> & Hm); [done|]. cbn [mbind res_bind].
    pose proof Hm as (Hok & _ & Hroom & _). rewrite (writableBytes_eq _ Hok).
    step_assert. eauto.
  - exists b. cbn [mbind res_bind]. rewrite (writableBytes_eq b Hb). step_assert.
    split; [done|]. unfold made_room, grown_size.
    rewrite (proj2 (Z.ltb_ge (_ - _) _)) by done. repeat split; (done || lia || (by left) || apply Hb).
Qed.

Lemma ensureWritableBytes_ok b len :
  buffer_ok b -> 0 <= len -> writerIndex_ b + len <= max_size ->
  exists b', ensureWritableBytes b len = Ok b' /\ made_room b b' len.
Proof. intros. apply ensureWritableBytes_made; [done..|]. intros. by apply makeSpace_ok. Qed.

(** Writing at the writer index extends the readable bytes. *)
Lemma write_view b d :
  buffer_ok b -> writerIndex_ b + zlen d <= zlen (buffer_ b) ->
  let b' := mkBuffer (splice (writerIndex_ b) d (buffer_ b)) (readerIndex_ b)
              (writerIndex_ b + zlen d) in
  buffer_ok b' /\ toStringView b' = toStringView b ++ d /\
  zlen (buffer_ b') = zlen (buffer_ b).
Proof.
  intros Hb Hroom b'. subst b'. cbn [buffer_].
  pose proof (zlen_nonneg d). pose proof (zlen_toStringView b Hb) as Hz.
  rewrite (readableBytes_eq b Hb) in Hz.
  destruct (buffer_regions b Hb) as (p & s & E & Hp & Hs).
  pose proof (take_drop (length d) s) as Es.
  assert (zlen (take (length d) s) = zlen d) as Ht by (unfold zlen in *; rewrite length_take; lia).
  rewrite <- Es, app_assoc in E.
  assert (splice (writerIndex_ b) d (buffer_ b)
          = p ++ (toStringView b ++ d) ++ drop (length d) s) as ->.
  { rewrite E. rewrite (splice_app_mid _ _ d) by (rewrite ?Ht; zlen_lia).
    by rewrite <- !app_assoc. }
  assert (zlen (p ++ (toStringView b ++ d) ++ drop (length d) s) = zlen (buffer_ b)) as Hl.
  { apply (f_equal zlen) in E. zlen_lia. }
  destruct (buffer_of_regions p (toStringView b ++ d) (drop (length d) s) (readerIndex_ b)
    (writerIndex_ b + zlen d)) as [H1 H2]; [lia | rewrite zlen_app; lia | rewrite Hl; buf_lia |].
  done.
Qed.

(** [append] adds the data after the readable bytes. *)
Lemma append_ok b d :
  buffer_ok b -> writerIndex_ b + zlen d <= max_size ->
  exists b', append b d = Ok b' /\ buffer_ok b' /\
    toStringView b' = toStringView b ++ d /\
    zlen (buffer_ b') = grown_size b (zlen d) /\
    (readerIndex_ b' = readerIndex_ b \/
     readerIndex_ b' = kCheapPrepend /\ kCheapPrepend < readerIndex_ b).
Proof.
  intros Hb Hmax. unfold append.
  destruct (ensureWritableBytes_ok b (zlen d)) as (b1 & -> & Hok & Hv & Hroom & Hsz & Hr);
    [done | apply zlen_nonneg | done |]. cbn [mbind res_bind].
  pose proof (zlen_nonneg d).
  rewrite mem_write_ok by (unfold beginWrite; buf_lia). cbn [mbind res_bind].
  unfold hasWritten, beginWrite. cbn [buffer_ readerIndex_ writerIndex_].
  rewrite u64_small by buf_lia.
  destruct (write_view b1 d) as (H1 & H2 & H3); [done | lia |].
  eexists. split; [done|]. split; [done|]. rewrite H2, H3, Hv. done.
Qed.

(** [prepend] adds the data before the readable bytes. *)
Lemma grown_size_le b len :
  buffer_ok b -> 0 <= len ->
  zlen (buffer_ b) <= grown_size b len <= zlen (buffer_ b) + len.
Proof.
  intros Hb Hl. unfold grown_size. destruct (Z.ltb_spec (zlen (buffer_ b) - writerIndex_ b) len);
    destruct (Z.ltb_spec (zlen (buffer_ b) - writerIndex_ b + readerIndex_ b) (len + kCheapPrepend));
    cbn [andb]; buf_lia.
Qed.

(** [b'] is [b] with [d] appended; the vector grew by at most [d]. *)
Definition grows (b b' : Buffer) (d : bytes) : Prop :=
  buffer_ok b' /\ toStringView b' = toStringView b ++ d /\
  zlen (buffer_ b') <= zlen (buffer_ b) + zlen d.

Lemma append_grows b d :
  buffer_ok b -> zlen (buffer_ b) + zlen d <= max_size ->
  exists b', append b d = Ok b' /\ grows b b' d.
Proof.
  intros Hb Hd. destruct (append_ok b d) as (b' & Ha & Hb' & Hv & Hs & _); [done | buf_lia |].
  exists b'. split; [done|]. split; [done|]. split; [done|]. rewrite Hs.
  apply grown_size_le; [done | apply zlen_nonneg].
Qed.

Lemma grows_refl b : buffer_ok b -> grows b b [].
Proof. intros Hb. split; [done|]. rewrite app_nil_r. split; [done | zlen_lia]. Qed.

Lemma grows_trans b1 b2 b3 d e : grows b1 b2 d -> grows b2 b3 e -> grows b1 b3 (d ++ e).
Proof.
  intros (_ & Hv & Hs) (Hb & Hv' & Hs'). split; [done|]. split; [by rewrite app_assoc, <- Hv|].
  zlen_lia.
Qed.

(** A continuation that appends [e] after an append of [d]. *)
Lemma append_bind b d e k :
  buffer_ok b -> zlen (buffer_ b) + zlen (d ++ e) <= max_size ->
  (forall b1, buffer_ok b1 -> zlen (buffer_ b1) + zlen e <= max_size ->
     exists b', k b1 = Ok b' /\ grows b1 b' e) ->
  exists b', append b d ≫= k = Ok b' /\ grows b b' (d ++ e).
Proof.
  intros Hb Hd Hk. rewrite zlen_app in Hd. pose proof (zlen_nonneg e).
  destruct (append_grows b d) as (b1 & Ha & Hg); [done | lia |].
  destruct (Hk b1) as (b' & Hk1 & Hg'); [apply Hg | destruct Hg; lia|].
  exists b'. rewrite Ha. cbn [mbind res_bind]. split; [done|]. by eapply grows_trans.
Qed.

Lemma prepend_ok b d :
  buffer_ok b -> zlen d <= readerIndex_ b ->
  exists b', prepend b d = Ok b' /\ buffer_ok b' /\
    toStringView b' = d ++ toStringView b /\
    zlen (buffer_ b') = zlen (buffer_ b) /\
    readerIndex_ b' = readerIndex_ b - zlen d.
Proof.
  intros Hb Hd. unfold prepend, prependableBytes. step_assert.
  pose proof (zlen_nonneg d). rewrite u64_small by buf_lia.
  rewrite mem_write_ok by buf_lia. cbn [mbind res_bind].
  pose proof (zlen_toStringView b Hb) as Hz. rewrite (readableBytes_eq b Hb) in Hz.
  destruct (buffer_regions b Hb) as (p & s & E & Hp & Hs).
  set (n := Z.to_nat (readerIndex_ b - zlen d)). pose proof (take_drop n p) as Ep.
  assert (zlen (take n p) = readerIndex_ b - zlen d) as Ht by (unfold n; rewrite zlen_take; lia).
  assert (zlen (drop n p) = zlen d) as Ht' by (unfold n; rewrite zlen_drop; lia).
  rewrite <- Ep, <- app_assoc in E.
  assert (splice (readerIndex_ b - zlen d) d (buffer_ b)
          = take n p ++ (d ++ toStringView b) ++ s) as ->.
  { rewrite E. rewrite (splice_app_mid _ _ d) by (rewrite ?Ht; lia).
    by rewrite <- !app_assoc. }
  assert (zlen (take n p ++ (d ++ toStringView b) ++ s) = zlen (buffer_ b)) as Hl.
  { apply (f_equal zlen) in E. zlen_lia. }
  destruct (buffer_of_regions (take n p) (d ++ toStringView b) s (readerIndex_ b - zlen d)
    (writerIndex_ b)) as [H1 H2]; [lia | zlen_lia | rewrite Hl; buf_lia |].
  eexists. split; [done|]. split; [done|]. split; [done|].
  cbn [buffer_ readerIndex_]. by rewrite Hl.
Qed.

(** ** Searching the readable bytes *)

Lemma findCRLF_eq b :
  buffer_ok b ->
  findCRLF b = Ok (let i := search kCRLF (toStringView b) in
                   if i =? zlen (toStringView b) then None else Some (peek b + i)).
Proof.
  intros Hb. unfold findCRLF. rewrite mem_read_view_all by done. cbn [mbind res_bind].
  pose proof (zlen_toStringView b Hb) as Hz. rewrite (readableBytes_eq b Hb) in Hz.
  unfold beginWrite, peek. destruct (Z.eqb_spec (search kCRLF (toStringView b)) (zlen (toStringView b))).
  - by rewrite (proj2 (Z.eqb_eq _ _)) by lia.
  - by rewrite (proj2 (Z.eqb_neq _ _)) by lia.
Qed.

Lemma findEOL_eq b :
  buffer_ok b ->
  findEOL b = Ok (let i := find_byte LF (toStringView b) in
                  if i <? zlen (toStringView b) then Some (peek b + i) else None).
Proof.
  intros Hb. unfold findEOL, memchr. pose proof (zlen_toStringView b Hb) as Hz.
  replace (readableBytes b) with (beginWrite b - peek b) at 1
    by (rewrite (readableBytes_eq b Hb); done).
  rewrite mem_read_view_all by done. cbn [mbind res_bind]. by rewrite Hz.
Qed.

(** ** Integers *)

Section IntegerLemmas.
Context (host : endianness).

Lemma obj_bytes_wraps n w x :
  w = 8 * Z.of_nat n -> 0 < w -> obj_bytes host n (wraps w x) = obj_bytes host n x.
Proof.
  intros -> Hw. rewrite <- (obj_bytes_mod host n (wraps _ x)), <- pow256_wrapu.
  rewrite wrapu_wraps by done. rewrite pow256_wrapu. apply obj_bytes_mod.
Qed.

(** The bytes that the [appendIntN] and [prependIntN] operations write, on a
    host of either byte order. *)
Lemma network_bytes n w x :
  w = 8 * Z.of_nat n -> 0 < w ->
  obj_bytes host n (wraps w (htobe host n (wrapu w x))) = be_bytes n x.
Proof.
  intros -> Hw. rewrite obj_bytes_wraps by done. rewrite obj_bytes_htobe, pow256_wrapu.
  apply be_bytes_mod.
Qed.

Lemma int8_bytes x : obj_bytes host 1 x = be_bytes 1 x.
Proof. destruct host; done. Qed.

(** The value the [peekIntN] operations compute from the bytes they read. *)
Lemma network_value n w m :
  length m = n -> w = 8 * Z.of_nat n -> 0 < w ->
  wraps w (betoh host n (wrapu w (wraps w (obj_value host m)))) = wraps w (be_value m).
Proof.
  intros Hm -> Hw. rewrite wrapu_wraps by done.
  assert (0 <= obj_value host m < 2 ^ (8 * Z.of_nat n)) as Hr.
  { rewrite Z.pow_mul_r by lia. change (2 ^ 8) with 256. rewrite <- Hm.
    unfold obj_value. destruct host; [apply le_value_range | apply be_value_range]. }
  rewrite wrapu_small by done. by rewrite <- Hm, betoh_obj_value.
Qed.

Lemma int8_value m : length m = 1%nat -> obj_value host m = be_value m.
Proof. destruct m as [|c [|]]; try done. intros _. destruct host; done. Qed.

Lemma be_value_signed n w x :
  w = 8 * Z.of_nat n -> 0 < w -> wraps w (be_value (be_bytes n x)) = wraps w x.
Proof.
  intros -> Hw. rewrite be_value_be_bytes, <- pow256_wrapu. by apply wraps_wrapu.
Qed.
End IntegerLemmas.

(** ** Reading from a descriptor *)

Lemma readFd_ok b d0 d1 :
  buffer_ok b -> readv_ok (writableBytes b) extrabuf_size (ReadvOk d0 d1) ->
  zlen (buffer_ b) + extrabuf_size <= max_size ->
  exists b', readFd b (ReadvOk d0 d1) = Ok (zlen d0 + zlen d1, None, b') /\
    buffer_ok b' /\ toStringView b' = toStringView b ++ d0 ++ d1 /\
    zlen (buffer_ b) <= zlen (buffer_ b') <= zlen (buffer_ b) + zlen d1 /\
    (readerIndex_ b' = readerIndex_ b \/
     readerIndex_ b' = kCheapPrepend /\ kCheapPrepend < readerIndex_ b).
Proof.
  intros Hb (H0 & H1 & Hfull) Hmax. pose proof (writableBytes_eq b Hb) as Hw.
  unfold readFd. rewrite Hw in *. pose proof (zlen_nonneg d0). pose proof (zlen_nonneg d1).
  rewrite mem_write_ok by buf_lia. cbn [mbind res_bind].
  destruct (write_view b d0) as (Hok & Hv & Hsz); [done | lia |]. cbn [buffer_] in Hsz.
  destruct (Z.leb_spec (zlen d0 + zlen d1) (zlen (buffer_ b) - writerIndex_ b)) as [Hle|Hgt].
  - assert (d1 = []) as ->.
    { destruct Hfull; [done|]. apply length_zero_iff_nil. unfold zlen in *. lia. }
    rewrite zlen_nil, !Z.add_0_r, app_nil_r in *. rewrite u64_small by buf_lia.
    eexists. split; [done|]. split; [done|]. split; [done|]. cbn [buffer_]. split; [lia | by left].
  - assert (zlen d0 = zlen (buffer_ b) - writerIndex_ b) as Hd0.
    { destruct Hfull as [->|?]; [rewrite zlen_nil in *; lia | done]. }
    replace (zlen d0 + zlen d1 - (zlen (buffer_ b) - writerIndex_ b)) with (zlen d1) by lia.
    rewrite mem_read_ok by lia. rewrite slice_all. cbn [mbind res_bind]. rewrite Hsz.
    replace (writerIndex_ b + zlen d0) with (zlen (buffer_ b)) in * by lia.
    match goal with |- context [append ?x d1] => set (b1 := x) in * end.
    destruct (append_ok b1 d1) as (b2 & -> & Hok2 & Hv2 & Hsz2 & Hr2); [done | subst b1; buf_lia |].
    cbn [mbind res_bind]. exists b2. split; [done|]. split; [done|].
    rewrite Hv2, Hv, <- app_assoc. split; [done|]. split; [|done].
    rewrite Hsz2. unfold grown_size, b1. cbn [buffer_ writerIndex_]. destruct (_ && _); lia.
Qed.

(** ** Lines *)

(** The first line of a byte string, without its CR LF, and what follows it. *)
Definition split_line (v : bytes) : option (bytes * bytes) :=
  let i := search kCRLF v in
  if i =? zlen v then None else Some (take (Z.to_nat i) v, drop (Z.to_nat (i + 2)) v).

Lemma split_line_some v l rest :
  split_line v = Some (l, rest) -> v = l ++ kCRLF ++ rest.
Proof.
  unfold split_line. pose proof (search_range kCRLF v).
  destruct (Z.eqb_spec (search kCRLF v) (zlen v)); [done|]. intros [= <- <-].
  destruct (search_found_split kCRLF v) as (p & s & -> & <-); [done | lia |].
  rewrite take_zlen. f_equal. f_equal. rewrite app_assoc. rewrite drop_zlen; [done|].
  unfold kCRLF. zlen_lia.
Qed.

Lemma split_line_app v l rest d :
  split_line v = Some (l, rest) -> split_line (v ++ d) = Some (l, rest ++ d).
Proof.
  unfold split_line. pose proof (search_range kCRLF v).
  destruct (Z.eqb_spec (search kCRLF v) (zlen v)); [done|]. intros [= <- <-].
  rewrite search_app_found by (done || lia).
  rewrite (proj2 (Z.eqb_neq _ _)) by zlen_lia.
  destruct (search_found_split kCRLF v) as (p & s & -> & <-); [done | lia |].
  rewrite <- !app_assoc, !take_zlen. f_equal. f_equal.
  rewrite !(app_assoc p), !drop_zlen; [done|unfold kCRLF; zlen_lia..].
Qed.

Lemma split_line_hit l rest : CR ∉ l -> split_line (l ++ kCRLF ++ rest) = Some (l, rest).
Proof.
  intros Hl. unfold split_line, kCRLF. rewrite search_app_absent by done.
  rewrite (proj2 (Z.eqb_neq _ _)) by zlen_lia. rewrite take_zlen. f_equal. f_equal.
  rewrite app_assoc, drop_zlen; [done | zlen_lia].
Qed.

Lemma split_line_length v l rest :
  split_line v = Some (l, rest) -> (length rest + 2 <= length v)%nat.
Proof.
  intros ->%split_line_some. rewrite !length_app. cbn. lia.
Qed.

Lemma split_line_blank rest : split_line (kCRLF ++ rest) = Some ([], rest).
Proof. apply (split_line_hit []), not_elem_of_nil. Qed.

Definition grow_example : Buffer := retrieve (hasWritten buffer_init 1000) 400.

(** ** Properties *)

(** [append] keeps the readable bytes and adds the data after them,
    whichever way it makes room; the vector grows only when the free space at
    both ends, less [kCheapPrepend], cannot hold the data, and then to exactly
    the size needed. *)
Theorem append_correct b d :
  buffer_ok b -> writerIndex_ b + zlen d <= max_size ->
  exists b', append b d = Ok b' /\ buffer_ok b' /\
    toStringView b' = toStringView b ++ d /\
    readableBytes b' = readableBytes b + zlen d /\
    zlen (buffer_ b') =
      (if (writableBytes b <? zlen d) &&
          (writableBytes b + prependableBytes b <? zlen d + kCheapPrepend)
       then writerIndex_ b + zlen d else zlen (buffer_ b)) /\
    Z.min kCheapPrepend (prependableBytes b) <= prependableBytes b'.
Proof.
  intros Hb Hmax. destruct (append_ok b d) as (b' & -> & Hok & Hv & Hsz & Hr); [done..|].
  exists b'. split; [done|]. split; [done|]. split; [done|].
  rewrite <- !zlen_toStringView by done. rewrite Hv, zlen_app, (writableBytes_eq b Hb).
  split; [done|]. split; [done|]. unfold prependableBytes. lia.
Qed.

Lemma append_correct_witness :
  exists b', append grow_example (replicate 700 x7a) = Ok b' /\ buffer_ok b' /\
    toStringView b' = toStringView grow_example ++ replicate 700 x7a /\
    readableBytes b' = 600 + 700 /\ zlen (buffer_ b') = 1008 + 700 /\ 8 <= prependableBytes b'.
Proof.
  apply (append_correct grow_example (replicate 700 x7a)).
  - apply (bool_decide_unpack (buffer_ok grow_example)). vm_compute. exact I.
  - vm_compute. congruence.
Defined.

(** [findCRLF] from any position of the readable bytes returns the first
    CRLF at or after it, and the null pointer exactly when there is none. *)
Theorem findCRLF_first b start :
  buffer_ok b -> peek b <= start <= beginWrite b ->
  exists o, findCRLF_from b start = Ok o /\
    match o with
    | Some p =>
        start <= p <= beginWrite b - 2 /\ slice p 2 (buffer_ b) = kCRLF /\
        forall j, start <= j < p -> slice j 2 (buffer_ b) <> kCRLF
    | None => forall j, start <= j <= beginWrite b - 2 -> slice j 2 (buffer_ b) <> kCRLF
    end.
Proof.
  intros Hb Hs. unfold findCRLF_from. repeat step_assert. unfold peek, beginWrite in *.
  rewrite mem_read_ok by buf_lia. cbn [mbind res_bind].
  set (n := writerIndex_ b - start). set (l := slice start n (buffer_ b)).
  assert (zlen l = n) as Hl by (unfold l, n; apply zlen_slice; buf_lia).
  assert (forall j, start <= j <= writerIndex_ b - 2 ->
    slice j 2 (buffer_ b) = kCRLF <-> occurs_at kCRLF l (Z.to_nat (j - start))) as Hocc.
  { intros j Hj. unfold occurs_at, l, slice. rewrite skipn_firstn_comm, take_take, drop_drop.
    replace (Z.to_nat start + Z.to_nat (j - start))%nat with (Z.to_nat j) by buf_lia.
    replace (length kCRLF `min` (Z.to_nat n - Z.to_nat (j - start)))%nat with (Z.to_nat 2)
      by (change (length kCRLF) with 2%nat; unfold n; lia). done. }
  eexists. split; [done|].
  destruct (search_spec kCRLF l) as [[Hn Hnone]|(i & Hi & Ho & Hfirst)]; [done | |].
  - rewrite (proj2 (Z.eqb_eq _ _)) by lia. intros j Hj E. apply Hocc in E; [|done].
    by apply Hnone in E.
  - pose proof (occurs_at_le kCRLF l i ltac:(done) Ho) as Hle. cbn [length kCRLF] in Hle.
    assert (Z.of_nat i + 2 <= n) by (unfold zlen in Hl; lia).
    rewrite (proj2 (Z.eqb_neq _ _)) by lia. rewrite Hi. split; [lia|]. split.
    + apply Hocc; [lia|]. by replace (Z.to_nat (start + Z.of_nat i - start)) with i by lia.
    + intros j Hj E. apply Hocc in E; [|lia]. eapply Hfirst; [|exact E]. lia.
Qed.

Lemma findCRLF_first_witness :
  exists o, findCRLF_from (hasWritten (mkBuffer (lit "a" ++ kCRLF ++ lit "bc" ++ kCRLF ++ lit "ef") 0 0) 8) 1
    = Ok o /\
    match o with
    | Some p =>
        1 <= p <= 8 - 2 /\ slice p 2 (lit "a" ++ kCRLF ++ lit "bc" ++ kCRLF ++ lit "ef") = kCRLF /\
        forall j, 1 <= j < p -> slice j 2 (lit "a" ++ kCRLF ++ lit "bc" ++ kCRLF ++ lit "ef") <> kCRLF
    | None => forall j, 1 <= j <= 8 - 2 ->
        slice j 2 (lit "a" ++ kCRLF ++ lit "bc" ++ kCRLF ++ lit "ef") <> kCRLF
    end.
Proof.
  apply (findCRLF_first
    (hasWritten (mkBuffer (lit "a" ++ kCRLF ++ lit "bc" ++ kCRLF ++ lit "ef") 0 0) 8) 1).
  - apply (bool_decide_unpack (buffer_ok (hasWritten _ 8))). vm_compute. exact I.
  - vm_compute. intuition congruence.
Defined.

(** Making room is exact about every request that does not wrap a
    [size_t]: it returns a buffer with the room and the same readable bytes,
    or throws [length_error], and the latter only when the free space cannot
    be rearranged and the vector would exceed its maximal size. *)
Theorem ensureWritableBytes_total b len :
  buffer_ok b -> 0 <= len -> writerIndex_ b + len + kCheapPrepend < 2 ^ 64 ->
  (exists b', ensureWritableBytes b len = Ok b' /\ buffer_ok b' /\
     len <= writableBytes b' /\ toStringView b' = toStringView b) \/
  (ensureWritableBytes b len = Err LengthError /\ max_size < writerIndex_ b + len /\
   writableBytes b + prependableBytes b < len + kCheapPrepend).
Proof.
  intros Hb Hlen Hwrap. destruct (decide (max_size < writerIndex_ b + len /\
    zlen (buffer_ b) - writerIndex_ b + readerIndex_ b < len + kCheapPrepend)) as [[Hmax Hg]|Hroom].
  2:{ left. destruct (ensureWritableBytes_made b len) as (b' & -> & Hok & Hv & Hr & _ & _); [done..| |].
      - intros Hlt. destruct (decide (writerIndex_ b + len <= max_size)); [by apply makeSpace_ok|].
        apply makeSpace_move; (done || lia).
      - exists b'. rewrite (writableBytes_eq b' Hok). split; [done|]. split; [done|]. split; [lia | done]. }
  - right. rewrite (writableBytes_eq b Hb). split; [|done].
    unfold ensureWritableBytes, makeSpace.
    rewrite (writableBytes_eq b Hb). unfold prependableBytes.
    rewrite (proj2 (Z.ltb_lt _ len)) by buf_lia. rewrite !u64_small by buf_lia.
    rewrite (proj2 (Z.ltb_lt _ (len + kCheapPrepend))) by buf_lia.
    unfold vector_resize. rewrite (proj2 (Z.ltb_lt _ _)) by lia. done.
Qed.

Lemma ensureWritableBytes_total_witness :
  (exists b', ensureWritableBytes buffer_init (2 ^ 63) = Ok b' /\ buffer_ok b' /\
     2 ^ 63 <= writableBytes b' /\ toStringView b' = toStringView buffer_init) \/
  (ensureWritableBytes buffer_init (2 ^ 63) = Err LengthError /\ max_size < 8 + 2 ^ 63 /\
   1024 + 8 < 2 ^ 63 + 8).
Proof.
  apply (ensureWritableBytes_total buffer_init (2 ^ 63)).
  - apply buffer_init_ok.
  - lia.
  - vm_compute. done.
Defined.

(** Past that bound the additions of [makeSpace] wrap: with 92 readable
    bytes, a request of 2^64 - 50 bytes shrinks the vector to 50 bytes, below
    the writer index, and the final assertion does not notice. *)
Theorem ensureWritableBytes_wraps :
  exists b b', buffer_ok b /\ readableBytes b = 92 /\
    ensureWritableBytes b (2 ^ 64 - 50) = Ok b' /\
    zlen (buffer_ b') = 50 /\ writerIndex_ b' = 100.
Proof.
  exists (hasWritten buffer_init 92).
  exists (mkBuffer (replicate 50 x00) 8 100).
  split; [apply (bool_decide_unpack (buffer_ok (hasWritten buffer_init 92))); vm_compute; exact I|].
  vm_compute. intuition.
Qed.
