(* ===== verification/BufferSpec.v ===== *)
(** * What a Buffer promises: a byte queue with headroom

    The abstract state is the readable content and a number of bytes that can
    be prepended for sure.  [impl_step] runs one call of the class' interface
    on the vector and its indices, [spec_step] the same call on the abstract
    queue; the refinement theorem relates sequences of calls.  A call outside
    its precondition (which aborts in a Debug build) is [None] in the
    specification. *)

From S2P Require Import Prelude Endian Buffer.

(** ** Calls and results *)

Inductive int_width := W8 | W16 | W32 | W64.

Definition width_bytes (w : int_width) : nat :=
  match w with W8 => 1 | W16 => 2 | W32 => 4 | W64 => 8 end.
Definition width_bits (w : int_width) : Z := 8 * Z.of_nat (width_bytes w).

Inductive buf_op :=
| OpAppend (d : bytes)
| OpPrepend (d : bytes)
| OpRetrieve (n : Z)
| OpRetrieveAll
| OpRetrieveAsString (n : Z)
| OpRetrieveAllAsString
| OpEnsureWritable (n : Z)
| OpShrink (reserve : Z)
| OpReadFd (data : bytes)
| OpAppendInt (w : int_width) (x : Z)
| OpPrependInt (w : int_width) (x : Z)
| OpPeekInt (w : int_width)
| OpReadInt (w : int_width)
| OpFindCRLF
| OpFindEOL.

Inductive buf_out :=
| OutUnit
| OutBytes (d : bytes)
| OutInt (x : Z)
| OutOffset (o : option Z).

(** ** The implementation *)

Section Impl.
Context (host : endianness).

Definition appendInt (w : int_width) : Buffer -> Z -> res Buffer :=
  match w with
  | W8 => appendInt8 host | W16 => appendInt16 host
  | W32 => appendInt32 host | W64 => appendInt64 host
  end.
Definition prependInt (w : int_width) : Buffer -> Z -> res Buffer :=
  match w with
  | W8 => prependInt8 host | W16 => prependInt16 host
  | W32 => prependInt32 host | W64 => prependInt64 host
  end.
Definition peekInt (w : int_width) : Buffer -> res Z :=
  match w with
  | W8 => peekInt8 host | W16 => peekInt16 host
  | W32 => peekInt32 host | W64 => peekInt64 host
  end.
Definition readInt (w : int_width) : Buffer -> res (Z * Buffer) :=
  match w with
  | W8 => readInt8 host | W16 => readInt16 host
  | W32 => readInt32 host | W64 => readInt64 host
  end.

(** The kernel fills the writable region first. *)
Definition scatter (b : Buffer) (data : bytes) : readv_ret :=
  let n := Z.to_nat (writableBytes b) in ReadvOk (take n data) (drop n data).

(** A pointer result is reported relative to [peek()]. *)
Definition rel_offset (b : Buffer) (o : option Z) : option Z :=
  match o with Some p => Some (p - peek b) | None => None end.

Definition impl_step (b : Buffer) (op : buf_op) : res (buf_out * Buffer) :=
  match op with
  | OpAppend d => b ← append b d; Ok (OutUnit, b)
  | OpPrepend d => b ← prepend b d; Ok (OutUnit, b)
  | OpRetrieve n => Ok (OutUnit, retrieve b n)
  | OpRetrieveAll => Ok (OutUnit, retrieveAll b)
  | OpRetrieveAsString n => '(s, b) ← retrieveAsString b n; Ok (OutBytes s, b)
  | OpRetrieveAllAsString => '(s, b) ← retrieveAllAsString b; Ok (OutBytes s, b)
  | OpEnsureWritable n => b ← ensureWritableBytes b n; Ok (OutUnit, b)
  | OpShrink reserve => b ← shrink b reserve; Ok (OutUnit, b)
  | OpReadFd data => '(n, _, b) ← readFd b (scatter b data); Ok (OutInt n, b)
  | OpAppendInt w x => b ← appendInt w b x; Ok (OutUnit, b)
  | OpPrependInt w x => b ← prependInt w b x; Ok (OutUnit, b)
  | OpPeekInt w => x ← peekInt w b; Ok (OutInt x, b)
  | OpReadInt w => '(x, b) ← readInt w b; Ok (OutInt x, b)
  | OpFindCRLF => p ← findCRLF b; Ok (OutOffset (rel_offset b p), b)
  | OpFindEOL => p ← findEOL b; Ok (OutOffset (rel_offset b p), b)
  end.

Fixpoint impl_run (b : Buffer) (ops : list buf_op) : res (list buf_out * Buffer) :=
  match ops with
  | [] => Ok ([], b)
  | op :: ops =>
      '(o, b) ← impl_step b op;
      '(os, b) ← impl_run b ops;
      Ok (o :: os, b)
  end.
End Impl.

(** ** The specification *)

Record queue := mkQueue { headroom : Z; content : bytes }.

Definition queue_init : queue := mkQueue kCheapPrepend [].

(** Consuming [n] bytes gains headroom, up to [kCheapPrepend]. *)
Definition queue_drop (q : queue) (n : Z) : queue :=
  if n <? zlen (content q)
  then mkQueue (Z.min kCheapPrepend (headroom q + n)) (drop (Z.to_nat n) (content q))
  else queue_init.

Definition spec_offset (i n : Z) : option Z := if i <? n then Some i else None.

Definition spec_step (q : queue) (op : buf_op) : option (buf_out * queue) :=
  match op with
  | OpAppend d => Some (OutUnit, mkQueue (headroom q) (content q ++ d))
  | OpPrepend d =>
      if zlen d <=? headroom q
      then Some (OutUnit, mkQueue (headroom q - zlen d) (d ++ content q)) else None
  | OpRetrieve n => if 0 <=? n then Some (OutUnit, queue_drop q n) else None
  | OpRetrieveAll => Some (OutUnit, queue_init)
  | OpRetrieveAsString n =>
      if (0 <=? n) && (n <=? zlen (content q))
      then Some (OutBytes (take (Z.to_nat n) (content q)), queue_drop q n) else None
  | OpRetrieveAllAsString => Some (OutBytes (content q), queue_init)
  | OpEnsureWritable n => if 0 <=? n then Some (OutUnit, q) else None
  | OpShrink reserve =>
      if 0 <=? reserve then Some (OutUnit, mkQueue kCheapPrepend (content q)) else None
  | OpReadFd data =>
      if zlen data <=? extrabuf_size
      then Some (OutInt (zlen data), mkQueue (headroom q) (content q ++ data)) else None
  | OpAppendInt w x =>
      Some (OutUnit, mkQueue (headroom q) (content q ++ be_bytes (width_bytes w) x))
  | OpPrependInt w x =>
      let d := be_bytes (width_bytes w) x in
      if zlen d <=? headroom q
      then Some (OutUnit, mkQueue (headroom q - zlen d) (d ++ content q)) else None
  | OpPeekInt w =>
      if Z.of_nat (width_bytes w) <=? zlen (content q)
      then Some (OutInt (wraps (width_bits w) (be_value (take (width_bytes w) (content q)))), q)
      else None
  | OpReadInt w =>
      if Z.of_nat (width_bytes w) <=? zlen (content q)
      then Some (OutInt (wraps (width_bits w) (be_value (take (width_bytes w) (content q)))),
                 queue_drop q (Z.of_nat (width_bytes w)))
      else None
  | OpFindCRLF => Some (OutOffset (spec_offset (search kCRLF (content q)) (zlen (content q))), q)
  | OpFindEOL => Some (OutOffset (spec_offset (find_byte LF (content q)) (zlen (content q))), q)
  end.

Fixpoint spec_run (q : queue) (ops : list buf_op) : option (list buf_out * queue) :=
  match ops with
  | [] => Some ([], q)
  | op :: ops =>
      '(o, q) ← spec_step q op;
      '(os, q) ← spec_run q ops;
      Some (o :: os, q)
  end.

(** How many bytes a call can add to the vector. *)
Definition op_weight (op : buf_op) : Z :=
  match op with
  | OpAppend d => zlen d
  | OpEnsureWritable n => n
  | OpShrink reserve => kCheapPrepend + reserve
  | OpReadFd _ => extrabuf_size
  | OpAppendInt w _ => Z.of_nat (width_bytes w)
  | _ => 0
  end.

Fixpoint ops_weight (ops : list buf_op) : Z :=
  match ops with
  | [] => 0
  | op :: ops => Z.max 0 (op_weight op) + ops_weight ops
  end.

(** The simulation relation, with a bound on the vector. *)
Record buf_rel (size : Z) (b : Buffer) (q : queue) : Prop := {
  rel_ok : buffer_ok b;
  rel_view : toStringView b = content q;
  rel_headroom : 0 <= headroom q <= Z.min kCheapPrepend (readerIndex_ b);
  rel_size : zlen (buffer_ buffer_init) <= zlen (buffer_ b) <= size
}.

(** ** Lemmas *)

Lemma zlen_buffer_init : zlen (buffer_ buffer_init) = 1032.
Proof. vm_compute. done. Qed.

Lemma view_buffer_init : toStringView buffer_init = [].
Proof. vm_compute. done. Qed.

Section Widths.
Context (host : endianness) (w : int_width).

Lemma width_range : 1 <= Z.of_nat (width_bytes w) <= 8.
Proof. destruct w; cbn; lia. Qed.

Lemma appendInt_append b x : appendInt host w b x = append b (be_bytes (width_bytes w) x).
Proof.
  destruct w; cbn [appendInt width_bytes];
    unfold appendInt8, appendInt16, appendInt32, appendInt64,
      hostToNetwork16, hostToNetwork32, hostToNetwork64;
    rewrite ?network_bytes, ?int8_bytes by done; done.
Qed.

Lemma prependInt_prepend b x : prependInt host w b x = prepend b (be_bytes (width_bytes w) x).
Proof.
  destruct w; cbn [prependInt width_bytes];
    unfold prependInt8, prependInt16, prependInt32, prependInt64,
      hostToNetwork16, hostToNetwork32, hostToNetwork64;
    rewrite ?network_bytes, ?int8_bytes by done; done.
Qed.

Lemma peekInt_eq b :
  buffer_ok b -> Z.of_nat (width_bytes w) <= readableBytes b ->
  peekInt host w b
  = Ok (wraps (width_bits w) (be_value (take (width_bytes w) (toStringView b)))).
Proof.
  intros Hb Hn. pose proof width_range.
  assert (length (take (width_bytes w) (toStringView b)) = width_bytes w) as Hlen.
  { pose proof (zlen_toStringView b Hb) as Hz. unfold zlen in Hz. rewrite length_take. lia. }
  assert (mem_read (buffer_ b) (peek b) (Z.of_nat (width_bytes w))
          = Ok (take (width_bytes w) (toStringView b))) as Hrd.
  { rewrite mem_read_view by (done || lia). by rewrite Nat2Z.id. }
  unfold width_bits.
  destruct w; cbn [peekInt width_bytes] in *; change (Z.of_nat _) with 1 in *
    || change (Z.of_nat _) with 2 in * || change (Z.of_nat _) with 4 in *
    || change (Z.of_nat _) with 8 in *;
    unfold peekInt8, peekInt16, peekInt32, peekInt64,
      networkToHost16, networkToHost32, networkToHost64;
    step_assert; rewrite Hrd; cbn [mbind res_bind].
  - by rewrite int8_value.
  - by rewrite (network_value host 2) by done.
  - by rewrite (network_value host 4) by done.
  - by rewrite (network_value host 8) by done.
Qed.

Lemma readInt_eq b :
  readInt host w b = (x ← peekInt host w b; Ok (x, retrieve b (Z.of_nat (width_bytes w)))).
Proof. by destruct w. Qed.
End Widths.

(** ** Simulation, one lemma per call *)

Lemma buf_rel_init : buf_rel 1032 buffer_init queue_init.
Proof.
  split; rewrite ?zlen_buffer_init; [apply buffer_init_ok | apply view_buffer_init | by vm_compute | lia].
Qed.

Lemma buf_rel_weaken s s' b q : buf_rel s b q -> s <= s' -> buf_rel s' b q.
Proof. intros [] ?. split; (done || lia). Qed.

Section Simulation.
Context (s : Z) (b : Buffer) (q : queue) (Hrel : buf_rel s b q).

Lemma rel_zlen : zlen (content q) = readableBytes b.
Proof. destruct Hrel as [Hok <- _ _]. by apply zlen_toStringView. Qed.

Lemma sim_drop n : 0 <= n -> buf_rel s (retrieve b n) (queue_drop q n).
Proof.
  intros Hn. pose proof rel_zlen as Hz. destruct Hrel as [Hok Hv Hh Hs].
  destruct (retrieve_ok b n Hok Hn) as (H1 & H2 & H3 & _).
  unfold queue_drop. rewrite Hz. split; [done | | | by rewrite H3].
  - rewrite H2, Hv. destruct (Z.ltb_spec n (readableBytes b)); [done|].
    cbn. apply drop_ge. unfold zlen in Hz. lia.
  - unfold retrieve. destruct (Z.ltb_spec n (readableBytes b)); [|cbn; lia].
    rewrite (readableBytes_eq b Hok) in *. cbn [headroom readerIndex_].
    rewrite u64_small by buf_lia. lia.
Qed.

Lemma sim_retrieveAll : buf_rel s (retrieveAll b) queue_init.
Proof.
  destruct Hrel as [Hok Hv Hh Hs]. destruct (retrieveAll_ok b Hok).
  split; [done | done | cbn; unfold kCheapPrepend; lia | done].
Qed.

Lemma sim_append d :
  s + zlen d <= max_size ->
  exists b', append b d = Ok b' /\
    buf_rel (s + zlen d) b' (mkQueue (headroom q) (content q ++ d)).
Proof.
  intros Hmax. destruct Hrel as [Hok Hv Hh Hs]. pose proof (zlen_nonneg d).
  destruct (append_ok b d) as (b' & -> & Hok' & Hv' & Hsz & Hr); [done | buf_lia |].
  pose proof (grown_size_le b (zlen d) Hok).
  exists b'. split; [done|]. split; [done | by rewrite Hv', Hv | cbn | lia].
  unfold kCheapPrepend in *. lia.
Qed.

Lemma sim_prepend d :
  zlen d <= headroom q ->
  exists b', prepend b d = Ok b' /\
    buf_rel s b' (mkQueue (headroom q - zlen d) (d ++ content q)).
Proof.
  intros Hd. destruct Hrel as [Hok Hv Hh Hs]. pose proof (zlen_nonneg d).
  destruct (prepend_ok b d) as (b' & -> & Hok' & Hv' & Hsz & Hr); [done | lia |].
  exists b'. split; [done|]. split; [done | by rewrite Hv', Hv | cbn [headroom]; lia | lia].
Qed.

Lemma sim_ensure n :
  0 <= n -> s + n <= max_size ->
  exists b', ensureWritableBytes b n = Ok b' /\ buf_rel (s + n) b' q.
Proof.
  intros Hn Hmax. destruct Hrel as [Hok Hv Hh Hs].
  destruct (ensureWritableBytes_ok b n) as (b' & -> & Hok' & Hv' & _ & Hsz & Hr);
    [done | done | buf_lia |].
  pose proof (grown_size_le b n Hok).
  exists b'. split; [done|]. split; [done | by rewrite Hv', Hv | | lia].
  unfold kCheapPrepend in *. lia.
Qed.

Lemma sim_shrink reserve :
  0 <= reserve -> s + kCheapPrepend + reserve <= max_size ->
  exists b', shrink b reserve = Ok b' /\
    buf_rel (s + kCheapPrepend + reserve) b' (mkQueue kCheapPrepend (content q)).
Proof.
  intros Hn Hmax. pose proof rel_zlen as Hz. destruct Hrel as [Hok Hv Hh Hs].
  pose proof (readableBytes_eq b Hok) as Hrd. pose proof zlen_buffer_init as H0.
  pose proof buffer_init_ok as Hi. assert (writerIndex_ buffer_init = 8) as Hw0 by done.
  unfold shrink. rewrite Buffer_ctor_init. cbn [mbind res_bind].
  rewrite u64_small by buf_lia.
  destruct (ensureWritableBytes_ok buffer_init (readableBytes b + reserve))
    as (b1 & -> & Hok1 & Hv1 & Hroom & Hsz & Hr); [done | buf_lia | buf_lia |].
  cbn [mbind res_bind]. rewrite view_buffer_init in Hv1.
  pose proof (zlen_toStringView b1 Hok1) as Hz1. rewrite Hv1, zlen_nil in Hz1.
  rewrite (readableBytes_eq b1 Hok1) in Hz1.
  assert (readerIndex_ b1 = 8) as Hr1 by (change (readerIndex_ buffer_init) with 8 in Hr; buf_lia).
  assert (zlen (buffer_ b1) = Z.max 1032 (8 + readableBytes b + reserve)) as Hsz1.
  { rewrite Hsz. unfold grown_size. rewrite H0, Hw0. change (readerIndex_ buffer_init) with 8.
    destruct (Z.ltb_spec (1032 - 8) (readableBytes b + reserve));
      destruct (Z.ltb_spec (1032 - 8 + 8) (readableBytes b + reserve + kCheapPrepend));
      cbn [andb]; buf_lia. }
  destruct (append_ok b1 (toStringView b)) as (b2 & -> & Hok2 & Hv2 & Hsz2 & Hr2);
    [done | rewrite Hv, Hz; buf_lia |].
  cbn [mbind res_bind]. unfold grown_size in Hsz2.
  rewrite (proj2 (Z.ltb_ge _ _)) in Hsz2 by (rewrite Hv, Hz; lia). cbn [andb] in Hsz2.
  eexists. split; [done|]. destruct b2 as [v r w]. cbn [swap fst buffer_ readerIndex_ writerIndex_] in *.
  split; [done | by rewrite Hv2, Hv1, Hv | cbn [headroom]; buf_lia | buf_lia].
Qed.

Lemma sim_readFd data :
  zlen data <= extrabuf_size -> s + extrabuf_size <= max_size ->
  exists b', readFd b (scatter b data) = Ok (zlen data, None, b') /\
    buf_rel (s + extrabuf_size) b' (mkQueue (headroom q) (content q ++ data)).
Proof.
  intros Hd Hmax. destruct Hrel as [Hok Hv Hh Hs].
  pose proof (writableBytes_eq b Hok) as Hw. unfold scatter.
  set (n := Z.to_nat (writableBytes b)). pose proof (take_drop n data) as Hdata.
  assert (zlen data = zlen (take n data) + zlen (drop n data)) as Hzd
    by (rewrite <- zlen_app, Hdata; done).
  assert (zlen (take n data) = Z.min (writableBytes b) (zlen data)) as Ht
    by (unfold n; rewrite zlen_take; buf_lia).
  destruct (readFd_ok b (take n data) (drop n data)) as (b' & -> & Hok' & Hv' & Hsz & Hr).
  - done.
  - pose proof (zlen_nonneg (take n data)). split; [lia|]. split; [lia|].
    destruct (decide (zlen data <= writableBytes b)); [left | right; lia].
    apply drop_ge. unfold n, zlen in *. lia.
  - buf_lia.
  - exists b'. rewrite Hzd. split; [done|]. pose proof (zlen_nonneg (take n data)).
    split; [done | | cbn; unfold kCheapPrepend in *; lia | unfold extrabuf_size in *; lia].
    cbn. by rewrite Hv', Hv, Hdata.
Qed.
End Simulation.

(** Every call that the specification accepts returns, with the same result
    and related states. *)
Lemma sim_step host s b q op o q' :
  buf_rel s b q -> spec_step q op = Some (o, q') ->
  s + Z.max 0 (op_weight op) <= max_size ->
  exists b', impl_step host b op = Ok (o, b') /\
    buf_rel (s + Z.max 0 (op_weight op)) b' q'.
Proof.
  intros Hrel Hspec Hmax. pose proof (rel_zlen _ _ _ Hrel) as Hz.
  pose proof (rel_ok _ _ _ Hrel) as Hok. pose proof (rel_view _ _ _ Hrel) as Hv.
  assert (forall b', buf_rel s b' q' -> buf_rel (s + 0) b' q') as Hw0
    by (intros; eapply buf_rel_weaken; [done | lia]).
  destruct op; cbn [spec_step op_weight impl_step] in *; repeat case_match; simplify_eq.
  - (* append *)
    pose proof (zlen_nonneg d). rewrite Z.max_r in * by done.
    destruct (sim_append s b q Hrel d) as (b' & -> & ?); [lia | eauto].
  - (* prepend *)
    destruct (sim_prepend s b q Hrel d) as (b' & -> & ?); [lia | eauto].
  - eexists. split; [done|]. apply Hw0, sim_drop; [done | lia].
  - eexists. split; [done|]. eapply Hw0, sim_retrieveAll, Hrel.
  - (* retrieveAsString *)
    rewrite retrieveAsString_ok, Hv by (done || lia). eexists. split; [done|].
    apply Hw0, sim_drop; [done | lia].
  - rewrite retrieveAllAsString_ok, Hv by done. eexists. split; [done|].
    eapply Hw0, sim_retrieveAll, Hrel.
  - (* ensureWritableBytes *)
    rewrite Z.max_r in * by lia.
    destruct (sim_ensure s b q' Hrel n) as (b' & -> & ?); [lia | lia | eauto].
  - (* shrink *)
    rewrite Z.max_r, Z.add_assoc in * by (unfold kCheapPrepend; lia).
    destruct (sim_shrink s b q Hrel reserve) as (b' & -> & ?); [lia | lia | eauto].
  - (* readFd *)
    rewrite Z.max_r in * by done.
    destruct (sim_readFd s b q Hrel data) as (b' & -> & ?); [lia | lia | eauto].
  - (* appendInt *)
    rewrite appendInt_append. rewrite Z.max_r in * by lia.
    destruct (sim_append s b q Hrel (be_bytes (width_bytes w) x)) as (b' & -> & Hr);
      rewrite ?zlen_be_bytes in *; [lia | eauto].
  - (* prependInt *)
    rewrite prependInt_prepend.
    destruct (sim_prepend s b q Hrel (be_bytes (width_bytes w) x)) as (b' & -> & ?); [lia | eauto].
  - rewrite peekInt_eq, Hv by (done || lia). eauto.
  - rewrite readInt_eq, peekInt_eq, Hv by (done || lia). eexists. split; [done|].
    apply Hw0, sim_drop; [done | lia].
  - (* findCRLF *)
    rewrite findCRLF_eq, Hv by done. cbn [mbind res_bind]. exists b. split; [|eauto].
    pose proof (search_range kCRLF (content q')). unfold spec_offset, rel_offset.
    destruct (Z.eqb_spec (search kCRLF (content q')) (zlen (content q'))),
      (Z.ltb_spec (search kCRLF (content q')) (zlen (content q'))); try lia; [done|].
    repeat f_equal. lia.
  - (* findEOL *)
    rewrite findEOL_eq, Hv by done. cbn [mbind res_bind]. exists b. split; [|eauto].
    unfold spec_offset, rel_offset. cbn zeta. destruct (_ <? _); [|done]. repeat f_equal. lia.
Qed.

Lemma ops_weight_nonneg ops : 0 <= ops_weight ops.
Proof. induction ops; cbn; lia. Qed.

Lemma sim_run host ops s b q os q' :
  buf_rel s b q -> spec_run q ops = Some (os, q') -> s + ops_weight ops <= max_size ->
  exists b', impl_run host b ops = Ok (os, b') /\ buf_rel (s + ops_weight ops) b' q'.
Proof.
  revert s b q os. induction ops as [|op ops IH]; intros s b q os Hrel Hspec Hmax;
    cbn [spec_run impl_run ops_weight] in *.
  - simplify_eq. exists b. split; [done|]. eapply buf_rel_weaken; [done | lia].
  - destruct (spec_step q op) as [[o q1]|] eqn:E; [|done]. cbn in Hspec.
    destruct (spec_run q1 ops) as [[os1 q2]|] eqn:E1; [|done]. cbn in Hspec. simplify_eq.
    pose proof (ops_weight_nonneg ops).
    destruct (sim_step host s b q op o q1) as (b1 & -> & Hrel1); [done | done | lia |].
    cbn [mbind res_bind]. destruct (IH _ _ _ _ Hrel1 E1) as (b2 & -> & Hrel2); [lia|].
    cbn [mbind res_bind]. exists b2. split; [done|]. eapply buf_rel_weaken; [done | lia].
Qed.

(** ** Properties *)

(** C2: on a freshly constructed [Buffer], every sequence of calls of its
    interface behaves like the byte queue: whenever each call meets its
    precondition and the bytes added stay below the vector's maximal size, no
    assertion fires, no access leaves the vector, every call returns what the
    queue returns, and the readable bytes are the queue's content, on a host
    of either byte order. *)
Theorem buffer_refines_queue host ops os q :
  spec_run queue_init ops = Some (os, q) ->
  1032 + ops_weight ops <= max_size ->
  exists b, (b0 ← Buffer_ctor; impl_run host b0 ops) = Ok (os, b) /\
    buffer_ok b /\ toStringView b = content q /\ headroom q <= prependableBytes b.
Proof.
  intros Hspec Hmax. rewrite Buffer_ctor_init. cbn [mbind res_bind].
  destruct (sim_run host ops 1032 buffer_init queue_init os q) as (b & -> & [? ? Hh ?]);
    [apply buf_rel_init | done | done |].
  exists b. split; [done|]. split; [done|]. split; [done|]. unfold prependableBytes. lia.
Qed.

Lemma buffer_refines_queue_witness :
  exists b, (b0 ← Buffer_ctor;
             impl_run LittleEndian b0
               [OpAppend (replicate 800 x79); OpRetrieve 500; OpAppend (replicate 300 x7a);
                OpShrink 4; OpPrependInt W32 (-3); OpReadInt W32; OpFindCRLF;
                OpRetrieveAsString 2; OpReadFd (lit "ab"); OpRetrieveAllAsString])
    = Ok ([OutUnit; OutUnit; OutUnit; OutUnit; OutUnit; OutInt (-3); OutOffset None;
           OutBytes (lit "yy"); OutInt 2;
           OutBytes (replicate 298 x79 ++ replicate 300 x7a ++ lit "ab")], b)
    /\ buffer_ok b /\ toStringView b = [] /\ 8 <= prependableBytes b.
Proof.
  apply (buffer_refines_queue LittleEndian _ _ queue_init); vm_compute; congruence.
Defined.

(** An integer appended in network order by a host of one byte order and
    received by a host of another is read back as the same integer, for every
    width, after the bytes that precede it. *)
Theorem int_roundtrip sender receiver w x b c :
  buffer_ok b -> writerIndex_ b + Z.of_nat (width_bytes w) <= max_size ->
  buffer_ok c ->
  exists b', appendInt sender w b x = Ok b' /\ buffer_ok b' /\
    (toStringView c = toStringView b' ->
     exists c', readInt receiver w (retrieve c (readableBytes b)) = Ok (wraps (width_bits w) x, c') /\
       buffer_ok c' /\ toStringView c' = []).
Proof.
  intros Hb Hmax Hc. rewrite appendInt_append.
  destruct (append_ok b (be_bytes (width_bytes w) x)) as (b' & -> & Hok & Hv & _ & _);
    rewrite ?zlen_be_bytes; [done | done |].
  exists b'. split; [done|]. split; [done|]. intros Hcv.
  rewrite <- zlen_toStringView by done. pose proof (zlen_nonneg (toStringView b)) as Hz.
  destruct (retrieve_ok c (zlen (toStringView b)) Hc Hz) as (Hok1 & Hv1 & _ & _).
  rewrite Hcv, Hv in Hv1.
  replace (Z.to_nat (zlen (toStringView b))) with (length (toStringView b)) in Hv1
    by (unfold zlen; lia).
  rewrite drop_app_length in Hv1.
  pose proof (length_be_bytes (width_bytes w) x) as Hlen. pose proof (width_range w).
  rewrite readInt_eq, peekInt_eq by (done || rewrite <- zlen_toStringView, Hv1, zlen_be_bytes by done; lia).
  rewrite Hv1, (take_ge (be_bytes _ _)) by lia. cbn [mbind res_bind].
  rewrite be_value_signed by (unfold width_bits; lia). eexists. split; [done|].
  destruct (retrieve_ok _ (Z.of_nat (width_bytes w)) Hok1 ltac:(lia)) as (Hok2 & Hv2 & _ & _).
  split; [done|]. rewrite Hv2, Hv1. apply drop_ge. rewrite Hlen. lia.
Qed.

Lemma int_roundtrip_witness :
  exists b', appendInt LittleEndian W32 (hasWritten buffer_init 3) (-70000) = Ok b' /\ buffer_ok b' /\
    (toStringView (hasWritten (mkBuffer (x00 :: x00 :: x00 :: be_bytes 4 (-70000) ++ [x00]) 0 0) 7)
       = toStringView b' ->
     exists c', readInt BigEndian W32
       (retrieve (hasWritten (mkBuffer (x00 :: x00 :: x00 :: be_bytes 4 (-70000) ++ [x00]) 0 0) 7) 3)
       = Ok (-70000, c') /\ buffer_ok c' /\ toStringView c' = []).
Proof.
  apply (int_roundtrip LittleEndian BigEndian W32 (-70000) (hasWritten buffer_init 3)
    (hasWritten (mkBuffer (x00 :: x00 :: x00 :: be_bytes 4 (-70000) ++ [x00]) 0 0) 7)).
  - apply (bool_decide_unpack (buffer_ok (hasWritten buffer_init 3))). vm_compute. exact I.
  - vm_compute. congruence.
  - apply (bool_decide_unpack (buffer_ok (hasWritten _ 7))). vm_compute. exact I.
Defined.
