(* ===== verification/StdContainers.v ===== *)
(** * Ordered containers of the C++ standard library

    [std::set] and [std::map] as the code uses them: sequences without
    duplicates, in the order of the comparison of the keys.  The comparison is
    an interface, with instances for integers, byte strings ([std::string])
    and pairs. *)

From S2P Require Import Prelude.


(** ** Strict total orders *)

Class StrictTotal (A : Type) := {
  slt : A -> A -> bool;
  slt_irrefl a : slt a a = false;
  slt_trans a b c : slt a b = true -> slt b c = true -> slt a c = true;
  slt_total a b : slt a b = false -> slt b a = false -> a = b
}.

Lemma slt_asym `{StrictTotal A} a b : slt a b = true -> slt b a = false.
Proof.
  intros H1. destruct (slt b a) eqn:H2; [|done].
  pose proof (slt_trans _ _ _ H1 H2) as H3. by rewrite slt_irrefl in H3.
Qed.

Lemma slt_ne `{StrictTotal A} a b : slt a b = true -> a <> b.
Proof. intros H1 ->. by rewrite slt_irrefl in H1. Qed.

Lemma slt_le_trans `{StrictTotal A} a b c : slt b a = false -> slt b c = true -> slt a c = true.
Proof.
  intros H1 H2. destruct (slt a b) eqn:H3; [by eapply slt_trans|].
  by rewrite (slt_total a b) by done.
Qed.

#[export] Program Instance Z_strict : StrictTotal Z := {| slt := Z.ltb |}.
Next Obligation. intros. lia. Qed.
Next Obligation. intros. lia. Qed.
Next Obligation. intros. lia. Qed.

(** [operator<] of [std::pair]. *)
#[export] Program Instance pair_strict `{StrictTotal A, StrictTotal B} : StrictTotal (A * B) :=
  {| slt p q := slt p.1 q.1 || (negb (slt q.1 p.1) && slt p.2 q.2) |}.
Next Obligation. intros A ? B ? [a b]. cbn. by rewrite !slt_irrefl. Qed.
Next Obligation.
  intros A HA B HB [a b] [c d] [e f]; cbn.
  destruct (slt a c) eqn:E1; cbn.
  - intros _. rewrite orb_true_iff, andb_true_iff, negb_true_iff.
    intros [E2|[E2 _]].
    + by rewrite (slt_trans _ _ _ E1 E2).
    + destruct (slt c e) eqn:E3; [by rewrite (slt_trans _ _ _ E1 E3)|].
      rewrite <- (slt_total _ _ E3 E2). by rewrite E1.
  - rewrite andb_true_iff, negb_true_iff. intros [E2 Hb]. rewrite (slt_total _ _ E1 E2).
    destruct (slt c e) eqn:E3; [done|]. cbn. rewrite andb_true_iff, negb_true_iff.
    intros [-> Hd]. cbn. by apply slt_trans with d.
Qed.
Next Obligation.
  intros A HA B HB [a b] [c d]; cbn.
  destruct (slt a c) eqn:E1, (slt c a) eqn:E2; cbn; try done.
  intros. f_equal; by apply slt_total.
Qed.

(** [operator<] of [std::string]: bytes compare as unsigned. *)
Fixpoint bytes_lt (a b : bytes) : bool :=
  match a, b with
  | _, [] => false
  | [], _ :: _ => true
  | x :: a, y :: b => (b2z x <? b2z y) || (negb (b2z y <? b2z x) && bytes_lt a b)
  end.

#[export] Program Instance bytes_strict : StrictTotal bytes := {| slt := bytes_lt |}.
Next Obligation.
  intros a. induction a as [|x a IH]; cbn; [done|]. by rewrite Z.ltb_irrefl, IH.
Qed.
Next Obligation.
  intros a. induction a as [|x a IH]; intros [|y b] [|z c]; cbn; try done.
  rewrite !orb_true_iff, !andb_true_iff, !negb_true_iff.
  intros [?|[? ?]] [?|[? ?]]; try (left; lia). right. split; [lia | by apply IH with b].
Qed.
Next Obligation.
  intros a. induction a as [|x a IH]; intros [|y b]; cbn; try done.
  rewrite !orb_false_iff, !andb_false_iff, !negb_false_iff.
  intros [? [?|?]] [? [?|?]]; try lia.
  f_equal; [apply b2z_inj; lia | by apply IH].
Qed.

(** ** [std::set] *)

Section Set_.
Context `{StrictTotal A}.
Implicit Types (x y : A) (s : list A).

Fixpoint set_insert x s : list A :=
  match s with
  | [] => [x]
  | y :: s' => if slt x y then x :: s else if slt y x then y :: set_insert x s' else s
  end.

Fixpoint set_erase x s : list A :=
  match s with
  | [] => []
  | y :: s' => if slt y x then y :: set_erase x s' else if slt x y then s else s'
  end.

(** The elements before, and from, [lower_bound x]. *)
Fixpoint set_lower x s : list A :=
  match s with
  | [] => []
  | y :: s' => if slt y x then y :: set_lower x s' else []
  end.
Fixpoint set_upper x s : list A :=
  match s with
  | [] => []
  | y :: s' => if slt y x then set_upper x s' else s
  end.

Definition set_ok s : Prop := StronglySorted (fun x y => slt x y = true) s.

Lemma set_ok_cons x s : set_ok (x :: s) <-> set_ok s /\ forall y, y ∈ s -> slt x y = true.
Proof.
  unfold set_ok. split.
  - intros Hs. apply StronglySorted_inv in Hs as [Hs Hx]. rewrite Forall_forall in Hx. done.
  - intros [Hs Hx]. constructor; [done|]. by apply Forall_forall.
Qed.

Lemma elem_of_set_insert x y s : y ∈ set_insert x s <-> y = x \/ y ∈ s.
Proof.
  induction s as [|z s IH]; cbn [set_insert]; [by rewrite elem_of_cons|].
  destruct (slt x z) eqn:E1; [by rewrite !elem_of_cons|].
  destruct (slt z x) eqn:E2; [rewrite !elem_of_cons, IH; tauto|].
  rewrite (slt_total _ _ E1 E2), elem_of_cons. tauto.
Qed.

Lemma elem_of_set_erase x y s : set_ok s -> y ∈ set_erase x s <-> y ∈ s /\ y <> x.
Proof.
  induction s as [|z s IH]; intros Hs; cbn [set_erase]; [rewrite elem_of_nil; tauto|].
  apply set_ok_cons in Hs as [Hs Hz]. specialize (IH Hs).
  destruct (slt z x) eqn:E1.
  - apply slt_ne in E1. rewrite !elem_of_cons, IH. intuition congruence.
  - destruct (slt x z) eqn:E2.
    + assert (x ∉ z :: s); [|intuition congruence]. rewrite elem_of_cons. intros [->|Hin].
      * by rewrite slt_irrefl in E2.
      * pose proof (slt_trans _ _ _ E2 (Hz _ Hin)) as Hx. by rewrite slt_irrefl in Hx.
    + rewrite (slt_total _ _ E1 E2) in *.
      assert (x ∉ s); [|rewrite elem_of_cons; intuition congruence]. intros Hin%Hz. by rewrite slt_irrefl in Hin.
Qed.

Lemma set_insert_ok x s : set_ok s -> set_ok (set_insert x s).
Proof.
  induction s as [|z s IH]; intros Hs; cbn [set_insert].
  - apply set_ok_cons. split; [constructor | by intros ? ?%elem_of_nil].
  - pose proof Hs as [Hs' Hz]%set_ok_cons.
    destruct (slt x z) eqn:E1; [|destruct (slt z x) eqn:E2; [|done]].
    + apply set_ok_cons. split; [done|]. intros y [->|Hy]%elem_of_cons; [done|].
      eapply slt_trans; eauto.
    + apply set_ok_cons. split; [by apply IH|].
      intros y [->|Hy]%elem_of_set_insert; auto.
Qed.

Lemma set_erase_ok x s : set_ok s -> set_ok (set_erase x s).
Proof.
  induction s as [|z s IH]; intros Hs; cbn [set_erase]; [done|].
  pose proof Hs as [Hs' Hz]%set_ok_cons.
  destruct (slt z x) eqn:E1; [|by destruct (slt x z)].
  apply set_ok_cons. split; [by apply IH|]. intros y Hy.
  apply elem_of_set_erase in Hy as [Hy _]; auto.
Qed.

Lemma set_lower_upper x s : s = set_lower x s ++ set_upper x s.
Proof. induction s as [|z s IH]; cbn; [done|]. destruct (slt z x); cbn; congruence. Qed.

Lemma set_ok_app s1 s2 :
  set_ok (s1 ++ s2) <-> set_ok s1 /\ set_ok s2 /\ forall x y, x ∈ s1 -> y ∈ s2 -> slt x y = true.
Proof.
  induction s1 as [|z s1 IH]; cbn.
  - split; [intros; split; [constructor | split; [done | by intros ?? ?%elem_of_nil]] | by intros (_ & ? & _)].
  - rewrite !set_ok_cons, IH. setoid_rewrite elem_of_app. setoid_rewrite elem_of_cons.
    split.
    + intros ((H1 & H2 & H12) & Hz). repeat split; auto. intros x y [->|Hx] Hy; auto.
    + intros ((H1 & Hz) & H2 & H12). repeat split; auto. intros y [Hy|Hy]; auto.
Qed.

Lemma set_ok_nodup s : set_ok s -> NoDup s.
Proof.
  induction s as [|x s IH]; intros Hs; [constructor|]. apply set_ok_cons in Hs as [Hs Hx].
  constructor; [|by apply IH]. intros Hin%Hx. by rewrite slt_irrefl in Hin.
Qed.

Lemma elem_of_set_lower x y s : set_ok s -> y ∈ set_lower x s <-> y ∈ s /\ slt y x = true.
Proof.
  induction s as [|z s IH]; intros Hs; cbn [set_lower]; [rewrite elem_of_nil; tauto|].
  apply set_ok_cons in Hs as [Hs Hz]. destruct (slt z x) eqn:E.
  - rewrite !elem_of_cons, IH by done. intuition congruence.
  - rewrite elem_of_cons, elem_of_nil. split; [tauto|]. intros [[->|Hy] Hyx]; [congruence|].
    pose proof (slt_trans _ _ _ (Hz _ Hy) Hyx). congruence.
Qed.

Lemma elem_of_set_upper x y s : set_ok s -> y ∈ set_upper x s <-> y ∈ s /\ slt y x = false.
Proof.
  induction s as [|z s IH]; intros Hs; cbn [set_upper]; [rewrite elem_of_nil; tauto|].
  apply set_ok_cons in Hs as [Hs Hz]. destruct (slt z x) eqn:E.
  - rewrite elem_of_cons, IH by done. intuition congruence.
  - split; [|tauto]. intros Hy. split; [done|].
    apply elem_of_cons in Hy as [->|Hy]; [done|].
    destruct (slt y x) eqn:E'; [|done].
    pose proof (slt_trans _ _ _ (Hz _ Hy) E'). congruence.
Qed.
End Set_.

(** ** [std::map] *)

Section Map_.
Context `{StrictTotal K} {V : Type}.
Implicit Types (k : K) (v : V) (m : list (K * V)).

Fixpoint map_find k m : option V :=
  match m with
  | [] => None
  | (k', v) :: m => if slt k' k then map_find k m else if slt k k' then None else Some v
  end.

(** [m[k] = v]. *)
Fixpoint map_assign k v m : list (K * V) :=
  match m with
  | [] => [(k, v)]
  | (k', v') :: m' =>
      if slt k k' then (k, v) :: m
      else if slt k' k then (k', v') :: map_assign k v m' else (k', v) :: m'
  end.

Fixpoint map_erase k m : list (K * V) :=
  match m with
  | [] => []
  | (k', v') :: m' =>
      if slt k' k then (k', v') :: map_erase k m' else if slt k k' then m else m'
  end.

Definition map_ok m : Prop := set_ok m.*1.

Lemma map_find_assign_eq k v m : map_find k (map_assign k v m) = Some v.
Proof.
  induction m as [|[q w] m IH]; cbn [map_assign map_find]; [by rewrite slt_irrefl|].
  destruct (slt k q) eqn:E1; cbn [map_find]; [by rewrite slt_irrefl|].
  destruct (slt q k) eqn:E2; cbn [map_find]; rewrite E2; [done|]. by rewrite E1.
Qed.

Lemma map_find_assign_ne k k' v m : k <> k' -> map_find k' (map_assign k v m) = map_find k' m.
Proof.
  intros Hne. induction m as [|[q w] m IH]; cbn [map_assign map_find].
  - destruct (slt k k') eqn:E1; [done|]. destruct (slt k' k) eqn:E2; [done|].
    by rewrite (slt_total _ _ E1 E2) in Hne.
  - destruct (slt k q) eqn:E1; cbn [map_find].
    + destruct (slt k k') eqn:E2; [done|]. destruct (slt k' k) eqn:E3.
      * pose proof (slt_trans _ _ _ E3 E1) as E4. by rewrite E4, (slt_asym _ _ E4).
      * by rewrite (slt_total _ _ E2 E3) in Hne.
    + destruct (slt q k) eqn:E2; cbn [map_find]; [by rewrite IH|].
      rewrite (slt_total _ _ E1 E2) in Hne.
      destruct (slt q k') eqn:E3; [done|]. destruct (slt k' q) eqn:E4; [done|].
      by rewrite (slt_total _ _ E3 E4) in Hne.
Qed.

Lemma map_assign_keys k v m q : q ∈ (map_assign k v m).*1 <-> q = k \/ q ∈ m.*1.
Proof.
  induction m as [|[k' v'] m IH]; cbn [map_assign]; cbn; [by rewrite elem_of_cons|].
  destruct (slt k k') eqn:E1; cbn; [by rewrite !elem_of_cons|].
  destruct (slt k' k) eqn:E2; cbn; [rewrite !elem_of_cons, IH; tauto|].
  rewrite (slt_total _ _ E1 E2), elem_of_cons. tauto.
Qed.

Lemma map_assign_ok k v m : map_ok m -> map_ok (map_assign k v m).
Proof.
  unfold map_ok. induction m as [|[k' v'] m IH]; intros Hm; cbn [map_assign].
  - apply set_ok_cons. split; [constructor | by intros ? ?%elem_of_nil].
  - cbn in Hm. pose proof Hm as [Hm' Hk]%set_ok_cons.
    destruct (slt k k') eqn:E1; [|destruct (slt k' k) eqn:E2; [|done]].
    + cbn. apply set_ok_cons. split; [done|]. intros y [->|Hy]%elem_of_cons; [done|].
      eapply slt_trans; eauto.
    + cbn. apply set_ok_cons. split; [by apply IH|].
      intros y [->|Hy]%map_assign_keys; auto.
Qed.
End Map_.

(** ** [std::string] *)

(** [find] and [rfind] of a character, [None] for [npos], and [substr], which
    throws when it starts behind the end. *)
Definition str_find (c : byte) (s : bytes) : option Z :=
  let i := find_byte c s in if i =? zlen s then None else Some i.
Definition str_rfind (c : byte) (s : bytes) : option Z :=
  let i := find_byte c (reverse s) in if i =? zlen s then None else Some (zlen s - 1 - i).

Definition substr (s : bytes) (pos n : Z) : res bytes :=
  guard_ OutOfBounds (pos <=? zlen s);;
  Ok (slice pos (Z.min n (zlen s - pos)) s).

Lemma str_rfind_hit p c s : c ∉ s -> str_rfind c (p ++ c :: s) = Some (zlen p).
Proof.
  intros Hc. unfold str_rfind. rewrite reverse_app, reverse_cons, <- app_assoc. cbn [app].
  rewrite find_byte_hit by by rewrite elem_of_reverse.
  assert (zlen (reverse s) = zlen s) as Hl by (unfold zlen; by rewrite length_reverse).
  rewrite Hl. autorewrite with zlen. pose proof (zlen_nonneg p).
  rewrite (proj2 (Z.eqb_neq _ _)) by lia. f_equal. lia.
Qed.

Lemma str_find_hit p c s : c ∉ p -> str_find c (p ++ c :: s) = Some (zlen p).
Proof.
  intros Hc. unfold str_find. rewrite find_byte_hit by done. autorewrite with zlen.
  pose proof (zlen_nonneg s). by rewrite (proj2 (Z.eqb_neq _ _)) by lia.
Qed.

(** The part between a prefix and what follows, by its length. *)
Lemma substr_mid p c s i n : i = zlen p -> n = zlen c -> substr (p ++ c ++ s) i n = Ok c.
Proof.
  intros -> ->. unfold substr. autorewrite with zlen. pose proof (zlen_nonneg c). pose proof (zlen_nonneg s).
  rewrite guard_true by lia. cbn [mbind res_bind]. rewrite Z.min_l by lia. by rewrite slice_app_mid.
Qed.

Lemma substr_end p c i n : i = zlen p -> zlen c <= n -> substr (p ++ c) i n = Ok c.
Proof.
  intros -> Hn. unfold substr. autorewrite with zlen. pose proof (zlen_nonneg c).
  rewrite guard_true by lia. cbn [mbind res_bind]. rewrite Z.min_r by lia. by rewrite slice_suffix by lia.
Qed.
