(* ===== verification/Format.v ===== *)
(** * Formatting: the conversions of [snprintf] the code uses

    Positional digits in any base, the [%d] conversions with their padding,
    and the truncation of [snprintf] to its buffer. *)

From S2P Require Import Prelude.

(** Digits of [n], least significant first; [fuel] bounds their number. *)
Fixpoint digits_rev (base : Z) (fuel : nat) (n : Z) : list Z :=
  match fuel with
  | O => []
  | S fuel => (n mod base) :: if n <? base then [] else digits_rev base fuel (n / base)
  end.

Definition digits_fuel (n : Z) : nat := S (Z.to_nat (Z.log2 n)).

Definition value_rev (base : Z) (ds : list Z) : Z := foldr (fun d v => d + base * v) 0 ds.

Definition dec_digit (d : Z) : byte := z2b (48 + d).

(** [%u], [%d] and [%zd]. *)
Definition print_u (n : Z) : bytes := reverse (map dec_digit (digits_rev 10 (digits_fuel n) n)).
Definition print_d (n : Z) : bytes := if n <? 0 then lit "-" ++ print_u (- n) else print_u n.

(** [%0wd] and [%wd]. *)
Definition print_0d (w : nat) (n : Z) : bytes :=
  let sign := if n <? 0 then lit "-" else [] in
  let ds := print_u (Z.abs n) in
  sign ++ replicate (w - length sign - length ds) x30 ++ ds.
Definition print_wd (w : nat) (n : Z) : bytes :=
  let s := print_d n in replicate (w - length s) SP ++ s.

(** What [snprintf] leaves in a buffer of [size] bytes, up to its null byte. *)
Definition snprintf (size : nat) (s : bytes) : bytes := take (size - 1) s.

(** The decimal number a byte string spells. *)
Definition dec_value (s : bytes) : Z := fold_left (fun v b => 10 * v + (b2z b - 48)) s 0.

(** ** Lemmas *)

Lemma digits_rev_value base fuel n :
  2 <= base -> 0 <= n < 2 ^ Z.of_nat fuel -> value_rev base (digits_rev base fuel n) = n.
Proof.
  intros Hb. revert n. induction fuel as [|fuel IH]; intros n Hn.
  - cbn in *. lia.
  - cbn [digits_rev value_rev foldr]. destruct (Z.ltb_spec n base).
    + cbn. rewrite Z.mod_small; lia.
    + fold (value_rev base (digits_rev base fuel (n / base))). rewrite IH.
      * pose proof (Z.div_mod n base). lia.
      * split; [apply Z.div_pos; lia|]. apply Z.div_lt_upper_bound; [lia|].
        rewrite Nat2Z.inj_succ, Z.pow_succ_r in Hn by lia. nia.
Qed.

Lemma digits_fuel_enough n : 0 <= n -> 0 <= n < 2 ^ Z.of_nat (digits_fuel n).
Proof.
  intros Hn. split; [done|]. unfold digits_fuel.
  rewrite Nat2Z.inj_succ, Z2Nat.id by apply Z.log2_nonneg.
  destruct (Z.eq_dec n 0) as [->|]; [done|]. apply Z.log2_spec. lia.
Qed.

Lemma digits_rev_range base fuel n :
  0 < base -> Forall (fun d => 0 <= d < base) (digits_rev base fuel n).
Proof.
  intros Hb. revert n. induction fuel as [|fuel IH]; intros n; [constructor|].
  cbn [digits_rev]. constructor; [by apply Z.mod_pos_bound|]. destruct (n <? base); [constructor | apply IH].
Qed.

(** No more digits than the bound on the number asks for. *)
Lemma digits_rev_length base k fuel n :
  2 <= base -> 0 <= n < base ^ Z.of_nat k -> (0 < k)%nat -> (length (digits_rev base fuel n) <= k)%nat.
Proof.
  intros Hb. revert n k. induction fuel as [|fuel IH]; intros n k Hn Hk; [cbn; lia|].
  cbn [digits_rev length]. destruct (Z.ltb_spec n base); [cbn; lia|].
  destruct k as [|[|k]]; [lia | cbn in Hn; lia|].
  specialize (IH (n / base) (S k)). apply le_n_S, IH; [|lia].
  split; [apply Z.div_pos; lia|]. apply Z.div_lt_upper_bound; [lia|].
  rewrite (Nat2Z.inj_succ (S k)), Z.pow_succ_r in Hn by lia. lia.
Qed.

(** More fuel than digits changes nothing. *)
Lemma digits_rev_fuel base f1 f2 n :
  2 <= base -> 0 <= n < 2 ^ Z.of_nat f1 -> (0 < f1)%nat -> (f1 <= f2)%nat ->
  digits_rev base f2 n = digits_rev base f1 n.
Proof.
  intros Hb. revert f2 n. induction f1 as [|f1 IH]; intros f2 n Hn Hf Hle; [lia|].
  destruct f2 as [|f2]; [lia|]. cbn [digits_rev]. destruct (Z.ltb_spec n base); [done|].
  f_equal. rewrite Nat2Z.inj_succ, Z.pow_succ_r in Hn by lia.
  destruct f1 as [|f1]; [cbn in Hn; lia|].
  apply IH; [|lia..]. split; [apply Z.div_pos; lia|]. apply Z.div_lt_upper_bound; nia.
Qed.

Lemma b2z_dec_digit d : 0 <= d < 10 -> b2z (dec_digit d) = 48 + d.
Proof. intros. unfold dec_digit. rewrite b2z_z2b. apply Z.mod_small. lia. Qed.

Lemma dec_value_app a b : dec_value (a ++ [b]) = 10 * dec_value a + (b2z b - 48).
Proof. unfold dec_value. by rewrite fold_left_app. Qed.

Lemma dec_value_digits ds :
  Forall (fun d => 0 <= d < 10) ds ->
  dec_value (reverse (map dec_digit ds)) = value_rev 10 ds.
Proof.
  induction ds as [|d ds IH]; intros Hds; [done|].
  apply Forall_cons in Hds as [Hd Hds]. cbn [map value_rev foldr].
  rewrite reverse_cons, dec_value_app, IH, b2z_dec_digit by done. unfold value_rev. lia.
Qed.

Lemma dec_value_print n : 0 <= n -> dec_value (print_u n) = n.
Proof.
  intros Hn. unfold print_u. rewrite dec_value_digits by by apply digits_rev_range.
  apply digits_rev_value; [lia | by apply digits_fuel_enough].
Qed.

(** The bytes of a printed number are digits. *)
Lemma print_u_digits n : Forall (fun b => 48 <= b2z b < 58) (print_u n).
Proof.
  unfold print_u. apply Forall_reverse, Forall_map.
  eapply Forall_impl; [by apply digits_rev_range|]. intros d Hd. cbn in *.
  rewrite b2z_dec_digit by done. lia.
Qed.

Lemma print_u_length k n :
  0 <= n < 10 ^ Z.of_nat k -> (0 < k)%nat -> (length (print_u n) <= k)%nat.
Proof.
  intros. unfold print_u. rewrite length_reverse, length_map. by apply digits_rev_length.
Qed.

Lemma snprintf_fits size s : (length s < size)%nat -> snprintf size s = s.
Proof. intros. unfold snprintf. apply take_ge. lia. Qed.
