(* ===== verification/HttpRequest.v ===== *)
(** * HTTP requests: tmuduo/net/http/HttpRequest.h

    The request under construction: its fields, the setters the parser calls
    and the getters the server calls.  [const char*] ranges are the bytes they
    span; [headers_] is a [std::map] keyed by [std::string].  A [Timestamp] is
    its microseconds since the epoch. *)

From S2P Require Import Prelude StdContainers.

(** ** Data *)

Inductive Method := kInvalid | kGet | kPost | kHead | kPut | kDelete.
Inductive Version := kUnknown | kHttp1_0 | kHttp1_1.

#[global] Instance Method_eq_dec : EqDecision Method.
Proof. solve_decision. Defined.
#[global] Instance Version_eq_dec : EqDecision Version.
Proof. solve_decision. Defined.

Record HttpRequest := mkHttpRequest {
  method_ : Method;
  version_ : Version;
  path_ : bytes;
  query_ : bytes;
  receiveTime_ : Z;
  headers_ : list (bytes * bytes);
  body_ : bytes
}.

#[global] Instance HttpRequest_eq_dec : EqDecision HttpRequest.
Proof. solve_decision. Defined.

Definition HttpRequest_ctor : HttpRequest := mkHttpRequest kInvalid kUnknown [] [] 0 [] [].

(** ** Operations *)

Definition setVersion (r : HttpRequest) (v : Version) : HttpRequest :=
  mkHttpRequest (method_ r) v (path_ r) (query_ r) (receiveTime_ r) (headers_ r) (body_ r).

Definition method_of (m : bytes) : Method :=
  if bool_decide (m = lit "GET") then kGet
  else if bool_decide (m = lit "POST") then kPost
  else if bool_decide (m = lit "HEAD") then kHead
  else if bool_decide (m = lit "PUT") then kPut
  else if bool_decide (m = lit "DELETE") then kDelete
  else kInvalid.

Definition setMethod (r : HttpRequest) (m : bytes) : res (bool * HttpRequest) :=
  assert_ (bool_decide (method_ r = kInvalid));;
  let method := method_of m in
  Ok (bool_decide (method <> kInvalid),
      mkHttpRequest method (version_ r) (path_ r) (query_ r) (receiveTime_ r) (headers_ r) (body_ r)).

Definition methodToString (r : HttpRequest) : bytes :=
  match method_ r with
  | kGet => lit "GET"
  | kPost => lit "POST"
  | kHead => lit "HEAD"
  | kPut => lit "PUT"
  | kDelete => lit "DELETE"
  | kInvalid => lit "UNKNOWN"
  end.

Definition setPath (r : HttpRequest) (p : bytes) : HttpRequest :=
  mkHttpRequest (method_ r) (version_ r) p (query_ r) (receiveTime_ r) (headers_ r) (body_ r).

Definition setQuery (r : HttpRequest) (q : bytes) : HttpRequest :=
  mkHttpRequest (method_ r) (version_ r) (path_ r) q (receiveTime_ r) (headers_ r) (body_ r).

Definition setReceiveTime (r : HttpRequest) (t : Z) : HttpRequest :=
  mkHttpRequest (method_ r) (version_ r) (path_ r) (query_ r) t (headers_ r) (body_ r).

(** The loop [for (; colon < end && !isspace( *colon); ++colon);]. *)
Fixpoint skip_nonspace (s : bytes) : bytes :=
  match s with
  | [] => []
  | b :: s' => if isspace b then s else skip_nonspace s'
  end.

(** The loop that drops the last character while it is a space; [s] is the
    value reversed. *)
Fixpoint drop_spaces (s : bytes) : bytes :=
  match s with
  | [] => []
  | b :: s' => if isspace b then drop_spaces s' else s
  end.
Definition trim_right (s : bytes) : bytes := reverse (drop_spaces (reverse s)).

(** [start, colon, end]: the line and the offset of the colon. *)
Definition addHeader (r : HttpRequest) (line : bytes) (colon : Z) : HttpRequest :=
  let fieldName := slice 0 colon line in
  let fieldValue := trim_right (skip_nonspace (drop (Z.to_nat (colon + 1)) line)) in
  mkHttpRequest (method_ r) (version_ r) (path_ r) (query_ r) (receiveTime_ r)
    (map_assign fieldName fieldValue (headers_ r)) (body_ r).

Definition getHeader (r : HttpRequest) (fieldName : bytes) : bytes :=
  match map_find fieldName (headers_ r) with Some v => v | None => [] end.

Definition setBody (r : HttpRequest) (b : bytes) : HttpRequest :=
  mkHttpRequest (method_ r) (version_ r) (path_ r) (query_ r) (receiveTime_ r) (headers_ r) b.

(** Each member is exchanged. *)
Definition swap (r rhs : HttpRequest) : HttpRequest * HttpRequest :=
  (mkHttpRequest (method_ rhs) (version_ rhs) (path_ rhs) (query_ rhs) (receiveTime_ rhs)
     (headers_ rhs) (body_ rhs),
   mkHttpRequest (method_ r) (version_ r) (path_ r) (query_ r) (receiveTime_ r)
     (headers_ r) (body_ r)).

(** ** The invariant: the map is ordered, and every value is what the loops of
    [addHeader] leave *)

(** Empty, or a whitespace character first and no whitespace last. *)
Definition header_value_ok (v : bytes) : bool :=
  match v with [] => true | b :: _ => isspace b end &&
  match reverse v with [] => true | b :: _ => negb (isspace b) end.

Definition request_ok (r : HttpRequest) : Prop :=
  map_ok (headers_ r) /\ Forall (fun kv => header_value_ok kv.2 = true) (headers_ r).

(** ** Lemmas *)

Lemma method_of_valid m : method_of m <> kInvalid <->
  m = lit "GET" \/ m = lit "POST" \/ m = lit "HEAD" \/ m = lit "PUT" \/ m = lit "DELETE".
Proof. unfold method_of. repeat case_bool_decide; intuition congruence. Qed.

Lemma skip_nonspace_spec s :
  exists p, s = p ++ skip_nonspace s /\ Forall (fun b => isspace b = false) p /\
    match skip_nonspace s with [] => True | b :: _ => isspace b = true end.
Proof.
  induction s as [|b s (p & Hp & Hf & Hh)]; cbn [skip_nonspace]; [by exists []|].
  destruct (isspace b) eqn:E; [by exists []|].
  exists (b :: p). split; [cbn; congruence|]. by split; [constructor|].
Qed.

Lemma drop_spaces_spec s :
  exists p, s = p ++ drop_spaces s /\ Forall (fun b => isspace b = true) p /\
    match drop_spaces s with [] => True | b :: _ => isspace b = false end.
Proof.
  induction s as [|b s (p & Hp & Hf & Hh)]; cbn [drop_spaces]; [by exists []|].
  destruct (isspace b) eqn:E; [|by exists []].
  exists (b :: p). split; [cbn; congruence|]. by split; [constructor|].
Qed.

Lemma trim_right_spec s :
  exists p, s = trim_right s ++ p /\ Forall (fun b => isspace b = true) p /\
    match reverse (trim_right s) with [] => True | b :: _ => isspace b = false end.
Proof.
  destruct (drop_spaces_spec (reverse s)) as (p & Hp & Hf & Hh).
  exists (reverse p). unfold trim_right. rewrite reverse_involutive. split; [|split; [|done]].
  - by rewrite <- reverse_app, <- Hp, reverse_involutive.
  - by apply Forall_reverse.
Qed.

Lemma trim_right_id s b : isspace b = false -> trim_right (s ++ [b]) = s ++ [b].
Proof.
  intros Hb. unfold trim_right. rewrite reverse_snoc. cbn [drop_spaces]. rewrite Hb.
  by rewrite reverse_cons, reverse_involutive.
Qed.

Lemma stored_value_ok s : header_value_ok (trim_right (skip_nonspace s)) = true.
Proof.
  unfold header_value_ok. apply andb_true_iff.
  destruct (trim_right_spec (skip_nonspace s)) as (p & Hp & _ & Hh).
  destruct (skip_nonspace_spec s) as (q & _ & _ & Hq).
  destruct (trim_right (skip_nonspace s)) as [|b v]; [done|]. rewrite Hp in Hq. cbn in Hq.
  split; [done|]. destruct (reverse (b :: v)) as [|c w]; [done|]. by rewrite Hh.
Qed.

Lemma map_assign_values (P : bytes -> Prop) k v (m : list (bytes * bytes)) :
  P v -> Forall (fun kv => P kv.2) m -> Forall (fun kv => P kv.2) (map_assign k v m).
Proof.
  intros Hv. induction m as [|[k' v'] m IH]; intros Hm; cbn [map_assign]; [by repeat constructor|].
  apply Forall_cons in Hm as [Hv' Hm].
  destruct (slt k k'); [by repeat constructor|]. destruct (slt k' k); constructor; auto.
Qed.

Lemma HttpRequest_ctor_ok : request_ok HttpRequest_ctor.
Proof. split; constructor. Qed.

Lemma addHeader_ok r line colon : request_ok r -> request_ok (addHeader r line colon).
Proof.
  intros [Hm Hv]. split; cbn; [by apply map_assign_ok|].
  apply (map_assign_values (fun v => header_value_ok v = true)); [apply stored_value_ok | done].
Qed.

Lemma map_find_elem k v (m : list (bytes * bytes)) :
  map_find k m = Some v -> exists k', (k', v) ∈ m.
Proof.
  induction m as [|[k' v'] m IH]; cbn [map_find]; [done|].
  destruct (slt k' k); [intros (q & Hq)%IH; exists q; by right|].
  destruct (slt k k'); [done|]. intros [= ->]. exists k'. by left.
Qed.

Lemma getHeader_ok r k : request_ok r -> header_value_ok (getHeader r k) = true.
Proof.
  intros [_ Hv]. unfold getHeader. destruct (map_find k (headers_ r)) as [v|] eqn:E; [|done].
  apply map_find_elem in E as [k' Hin]. rewrite Forall_forall in Hv. by apply (Hv (k', v)).
Qed.

Lemma getHeader_add r line colon k :
  getHeader (addHeader r line colon) k =
    if decide (slice 0 colon line = k)
    then trim_right (skip_nonspace (drop (Z.to_nat (colon + 1)) line)) else getHeader r k.
Proof.
  unfold getHeader, addHeader. cbn [headers_]. case_decide as Hk; subst.
  - by rewrite map_find_assign_eq.
  - by rewrite map_find_assign_ne.
Qed.
