(* ===== verification/HttpContext.v ===== *)
(** * The HTTP request parser: tmuduo/net/http/HttpContext.h and HttpContext.cc

    A state machine over the connection's input buffer.  The ranges
    [start, end) of the code are byte strings and the pointers into them are
    offsets.  [parse_loop] is the [while (hasMore)] loop with fuel ([None] is
    a loop that has not finished), [vparse] the same machine over the readable
    bytes alone. *)

From S2P Require Import Prelude StdContainers Buffer HttpRequest.

(** ** State *)

Inductive HttpRequestParseState := kExpectRequestLine | kExpectHeaders | kExpectBody | kGotAll.

#[global] Instance HttpRequestParseState_eq_dec : EqDecision HttpRequestParseState.
Proof. solve_decision. Defined.

Record HttpContext := mkHttpContext {
  state_ : HttpRequestParseState;
  request_ : HttpRequest
}.

#[global] Instance HttpContext_eq_dec : EqDecision HttpContext.
Proof. solve_decision. Defined.

Definition HttpContext_ctor : HttpContext := mkHttpContext kExpectRequestLine HttpRequest_ctor.

Definition gotAll (c : HttpContext) : bool := bool_decide (state_ c = kGotAll).

Definition reset (c : HttpContext) : HttpContext :=
  let dummy := HttpRequest_ctor in
  mkHttpContext kExpectRequestLine (fst (HttpRequest.swap (request_ c) dummy)).

(** ** The request line *)

Definition QUESTION : byte := x3f.

(** [std::find(begin, end, c)] inside a range. *)
Definition find_in (c : byte) (l : bytes) (begin end_ : Z) : Z :=
  begin + find_byte c (slice begin (end_ - begin) l).

Definition processRequestLine (r : HttpRequest) (line : bytes) : res (bool * HttpRequest) :=
  let end_ := zlen line in
  let begin := 0 in
  let space := find_in SP line begin end_ in
  if space =? end_ then Ok (false, r) else
  '(valid, r) ← setMethod r (slice begin (space - begin) line);
  if negb valid then Ok (false, r) else
  let begin := space + 1 in
  let space := find_in SP line begin end_ in
  if space =? end_ then Ok (false, r) else
  let question := find_in QUESTION line begin space in
  let r := if negb (question =? space)
           then setQuery (setPath r (slice begin (question - begin) line))
                  (slice question (space - question) line)
           else setPath r (slice begin (space - begin) line) in
  let begin := space + 1 in
  if (end_ - begin =? 8) && bool_decide (slice begin 7 line = lit "HTTP/1.") then
    let last := slice (end_ - 1) 1 line in
    if bool_decide (last = lit "1") then Ok (true, setVersion r kHttp1_1)
    else if bool_decide (last = lit "0") then Ok (true, setVersion r kHttp1_0)
    else Ok (false, r)
  else Ok (false, r).

(** ** The loop *)

Section Parse.
Context (receiveTime : Z).

(** One iteration: the new [ok], [hasMore], context and buffer. *)
Definition parse_body (ok : bool) (c : HttpContext) (buf : Buffer) :
    res (bool * bool * HttpContext * Buffer) :=
  match state_ c with
  | kExpectRequestLine =>
      crlf ← findCRLF buf;
      match crlf with
      | Some crlf =>
          line ← mem_read (buffer_ buf) (peek buf) (crlf - peek buf);
          '(ok, r) ← processRequestLine (request_ c) line;
          if (ok : bool) then
            let r := setReceiveTime r receiveTime in
            buf ← retrieveUntil buf (crlf + 2);
            Ok (ok, true, mkHttpContext kExpectHeaders r, buf)
          else Ok (ok, false, mkHttpContext (state_ c) r, buf)
      | None => Ok (ok, false, c, buf)
      end
  | kExpectHeaders =>
      crlf ← findCRLF buf;
      match crlf with
      | Some crlf =>
          line ← mem_read (buffer_ buf) (peek buf) (crlf - peek buf);
          let colon := find_byte COLON line in
          let c := if negb (colon =? zlen line)
                   then mkHttpContext (state_ c) (addHeader (request_ c) line colon)
                   else mkHttpContext kExpectBody (request_ c) in
          buf ← retrieveUntil buf (crlf + 2);
          Ok (ok, true, c, buf)
      | None => Ok (ok, false, c, buf)
      end
  | kExpectBody =>
      body ← mem_read (buffer_ buf) (peek buf) (readableBytes buf);
      let r := setBody (request_ c) body in
      Ok (ok, false, mkHttpContext kGotAll r, retrieveAll buf)
  | kGotAll => Ok (ok, true, c, buf)
  end.

Fixpoint parse_loop (fuel : nat) (ok hasMore : bool) (c : HttpContext) (buf : Buffer) :
    option (res (bool * HttpContext * Buffer)) :=
  if negb hasMore then Some (Ok (ok, c, buf)) else
  match fuel with
  | O => None
  | S fuel =>
      match parse_body ok c buf with
      | Ok (ok, hasMore, c, buf) => parse_loop fuel ok hasMore c buf
      | Err e => Some (Err e)
      end
  end.

(** Enough iterations for the readable bytes: every iteration but the last
    two consumes a line. *)
Definition parse_fuel (buf : Buffer) : nat := S (S (Z.to_nat (readableBytes buf))).

Definition parseRequest (c : HttpContext) (buf : Buffer) :
    option (res (bool * HttpContext * Buffer)) :=
  parse_loop (parse_fuel buf) true true c buf.
End Parse.

(** ** The specification: the machine over the readable bytes *)

(** A header line, or the end of the headers. *)
Definition header_line (c : HttpContext) (line : bytes) : HttpContext :=
  let colon := find_byte COLON line in
  if negb (colon =? zlen line)
  then mkHttpContext (state_ c) (addHeader (request_ c) line colon)
  else mkHttpContext kExpectBody (request_ c).

Definition vstep (t : Z) (ok : bool) (c : HttpContext) (v : bytes) :
    res (bool * bool * HttpContext * bytes) :=
  match state_ c with
  | kExpectRequestLine =>
      match split_line v with
      | Some (line, rest) =>
          '(ok, r) ← processRequestLine (request_ c) line;
          if (ok : bool)
          then Ok (ok, true, mkHttpContext kExpectHeaders (setReceiveTime r t), rest)
          else Ok (ok, false, mkHttpContext (state_ c) r, v)
      | None => Ok (ok, false, c, v)
      end
  | kExpectHeaders =>
      match split_line v with
      | Some (line, rest) => Ok (ok, true, header_line c line, rest)
      | None => Ok (ok, false, c, v)
      end
  | kExpectBody => Ok (ok, false, mkHttpContext kGotAll (setBody (request_ c) v), [])
  | kGotAll => Ok (ok, true, c, v)
  end.

Fixpoint vparse (fuel : nat) (t : Z) (ok hasMore : bool) (c : HttpContext) (v : bytes) :
    option (res (bool * HttpContext * bytes)) :=
  if negb hasMore then Some (Ok (ok, c, v)) else
  match fuel with
  | O => None
  | S fuel =>
      match vstep t ok c v with
      | Ok (ok, hasMore, c, v) => vparse fuel t ok hasMore c v
      | Err e => Some (Err e)
      end
  end.

(** What the parser may be called with: a request line is parsed into a request
    whose method is not set yet. *)
Definition context_ok (c : HttpContext) : Prop :=
  request_ok (request_ c) /\ state_ c <> kGotAll /\
  (state_ c = kExpectRequestLine -> method_ (request_ c) = kInvalid).

(** ** The grammar of requests *)

Definition method_name (m : Method) : bytes :=
  match m with
  | kGet => lit "GET" | kPost => lit "POST" | kHead => lit "HEAD"
  | kPut => lit "PUT" | kDelete => lit "DELETE" | kInvalid => []
  end.

Definition version_name (v : Version) : bytes :=
  match v with kHttp1_1 => lit "HTTP/1.1" | kHttp1_0 => lit "HTTP/1.0" | kUnknown => [] end.

Record start_line := mkStartLine {
  sl_method : Method; sl_path : bytes; sl_query : bytes; sl_version : Version }.

Definition render_start (l : start_line) : bytes :=
  method_name (sl_method l) ++ [SP] ++ (sl_path l ++ sl_query l) ++ [SP] ++
  version_name (sl_version l).

(** The query carries its question mark. *)
Definition start_ok (l : start_line) : Prop :=
  sl_method l <> kInvalid /\ sl_version l <> kUnknown /\
  (SP ∉ sl_path l ++ sl_query l) /\ (QUESTION ∉ sl_path l) /\
  match sl_query l with [] => True | b :: _ => b = QUESTION end.

(** The request that a start line makes of [r]. *)
Definition apply_start (r : HttpRequest) (l : start_line) : HttpRequest :=
  mkHttpRequest (sl_method l) (sl_version l) (sl_path l)
    (match sl_query l with [] => query_ r | q => q end)
    (receiveTime_ r) (headers_ r) (body_ r).

(** ** The request line, parsed by cutting at the spaces *)

Definition version_of (v : bytes) : option Version :=
  if bool_decide (v = lit "HTTP/1.1") then Some kHttp1_1
  else if bool_decide (v = lit "HTTP/1.0") then Some kHttp1_0 else None.

Definition set_target (r : HttpRequest) (target : bytes) : HttpRequest :=
  match cut QUESTION target with
  | Some (p, q) => setQuery (setPath r p) (QUESTION :: q)
  | None => setPath r target
  end.

Definition parse_start (r : HttpRequest) (line : bytes) : res (bool * HttpRequest) :=
  match cut SP line with
  | None => Ok (false, r)
  | Some (m, rest) =>
      '(valid, r) ← setMethod r m;
      if negb valid then Ok (false, r) else
      match cut SP rest with
      | None => Ok (false, r)
      | Some (target, v) =>
          match version_of v with
          | Some v => Ok (true, setVersion (set_target r target) v)
          | None => Ok (false, set_target r target)
          end
      end
  end.

Lemma find_in_all c l : find_in c l 0 (zlen l) = find_byte c l.
Proof. unfold find_in. by rewrite Z.sub_0_r, slice_all. Qed.

Lemma find_in_suffix c p s :
  find_in c (p ++ s) (zlen p) (zlen (p ++ s)) = zlen p + find_byte c s.
Proof. unfold find_in. rewrite slice_suffix; [done..|]. zlen_lia. Qed.

Lemma find_in_mid c p m s i j :
  i = zlen p -> j = zlen p + zlen m -> find_in c (p ++ m ++ s) i j = i + find_byte c m.
Proof. intros -> ->. unfold find_in. rewrite slice_app_mid; [done..|]. lia. Qed.

(** The tests on the last eight characters. *)
Lemma version_tests p v :
  let l := p ++ v in
  (if (zlen l - zlen p =? 8) && bool_decide (slice (zlen p) 7 l = lit "HTTP/1.")
   then if bool_decide (slice (zlen l - 1) 1 l = lit "1") then Some kHttp1_1
        else if bool_decide (slice (zlen l - 1) 1 l = lit "0") then Some kHttp1_0 else None
   else None) = version_of v.
Proof.
  cbn zeta. rewrite zlen_app. replace (zlen p + zlen v - zlen p) with (zlen v) by lia.
  destruct (Z.eqb_spec (zlen v) 8) as [H8|H8]; cbn [andb].
  - assert (exists u b, v = u ++ [b] /\ zlen u = 7) as (u & b & -> & Hu).
    { destruct (decide (v = [])) as [->|Hne]; [discriminate|].
      destruct (exists_last Hne) as (u & b & ->). exists u, b. split; [done | zlen_lia]. }
    rewrite slice_app_mid by lia.
    rewrite (app_assoc p u [b]), slice_suffix by zlen_lia.
    assert (forall c k, k = lit "HTTP/1." ++ [c] ->
              bool_decide (u ++ [b] = k) = bool_decide (u = lit "HTTP/1.") && bool_decide ([b] = [c])) as Happ.
    { intros c k ->. rewrite <- bool_decide_and. apply bool_decide_ext. split.
      - intros H. by apply app_inj_2 in H.
      - by intros [-> ->]. }
    unfold version_of.
    rewrite (Happ x31 (lit "HTTP/1.1")), (Happ x30 (lit "HTTP/1.0")) by done.
    destruct (bool_decide (u = _)); [|done]. cbn [andb]. done.
  - unfold version_of. repeat case_bool_decide; subst; done.
Qed.

Lemma processRequestLine_eq r line : processRequestLine r line = parse_start r line.
Proof.
  unfold processRequestLine, parse_start. rewrite find_in_all.
  destruct (find_byte_cases SP line) as [[Hsp ->]|(m & rest & -> & Hm & ->)].
  { by rewrite Z.eqb_refl, (proj2 (cut_none _ _)). }
  rewrite cut_hit, (proj2 (Z.eqb_neq _ _)) by (done || zlen_lia).
  rewrite Z.sub_0_r, slice_prefix by done.
  destruct (setMethod r m) as [[[] r']|]; cbn [mbind res_bind negb]; try done. clear r.
  replace (m ++ SP :: rest) with ((m ++ [SP]) ++ rest) by (by rewrite <- app_assoc).
  replace (zlen m + 1) with (zlen (m ++ [SP])) by zlen_lia.
  generalize (m ++ [SP]). clear m Hm. intros p. rewrite find_in_suffix.
  destruct (find_byte_cases SP rest) as [[Hsp ->]|(tg & v & -> & Htg & ->)].
  { by rewrite zlen_app, Z.eqb_refl, (proj2 (cut_none _ _)). }
  rewrite cut_hit, (proj2 (Z.eqb_neq _ _)) by (done || zlen_lia).
  rewrite (find_in_mid QUESTION p tg (SP :: v)) by lia.
  rewrite <- (version_tests (p ++ tg ++ [SP]) v). cbn zeta.
  replace ((p ++ tg ++ [SP]) ++ v) with (p ++ tg ++ SP :: v) by (by rewrite <- !app_assoc).
  replace (zlen p + zlen tg + 1) with (zlen (p ++ tg ++ [SP])) by zlen_lia.
  assert ((if negb (zlen p + find_byte QUESTION tg =? zlen p + zlen tg)
    then setQuery (setPath r' (slice (zlen p) (zlen p + find_byte QUESTION tg - zlen p) (p ++ tg ++ SP :: v)))
           (slice (zlen p + find_byte QUESTION tg)
              (zlen p + zlen tg - (zlen p + find_byte QUESTION tg)) (p ++ tg ++ SP :: v))
    else setPath r' (slice (zlen p) (zlen p + zlen tg - zlen p) (p ++ tg ++ SP :: v)))
    = set_target r' tg) as ->.
  { unfold set_target. destruct (find_byte_cases QUESTION tg) as [[Hq ->]|(u & q & -> & Hu & ->)].
    - rewrite Z.eqb_refl, (proj2 (cut_none _ _)) by done. cbn [negb].
      by rewrite slice_app_mid by lia.
    - rewrite cut_hit by done. rewrite (proj2 (Z.eqb_neq _ _)) by zlen_lia. cbn [negb].
      rewrite <- (app_assoc u). rewrite slice_app_mid by lia.
      rewrite (app_assoc p u), slice_app_mid by zlen_lia. done. }
  destruct (_ && _); [|done]. repeat case_bool_decide; done.
Qed.

(** ** Lemmas on the start line *)

Lemma parse_start_headers r line ok r' :
  parse_start r line = Ok (ok, r') ->
  headers_ r' = headers_ r /\ receiveTime_ r' = receiveTime_ r /\ body_ r' = body_ r.
Proof.
  unfold parse_start, setMethod, set_target.
  destruct (cut SP line) as [[m rest]|]; [|by intros [= _ <-]].
  destruct (assert_ _); [|done]. cbn [mbind res_bind].
  destruct (negb _); [by intros [= _ <-]|].
  destruct (cut SP rest) as [[tg v]|]; [|by intros [= _ <-]].
  destruct (version_of v), (cut QUESTION tg) as [[? ?]|]; by intros [= _ <-].
Qed.

(** From a fresh request the parser of the start line never aborts. *)
Lemma parse_start_total r line :
  method_ r = kInvalid -> exists ok r', parse_start r line = Ok (ok, r').
Proof.
  intros Hm. unfold parse_start, setMethod. rewrite bool_decide_true by done. cbn.
  destruct (cut SP line) as [[m rest]|]; [|eauto]. destruct (negb _); [eauto|].
  destruct (cut SP rest) as [[tg v]|]; [|eauto]. destruct (version_of v); eauto.
Qed.

Lemma method_of_name m : m <> kInvalid -> method_of (method_name m) = m.
Proof. by destruct m. Qed.

Lemma method_of_inv w : method_of w <> kInvalid -> w = method_name (method_of w).
Proof.
  intros H. apply method_of_valid in H as [->|[->|[->|[->| ->]]]]; done.
Qed.

Lemma method_name_nosp m : SP ∉ method_name m.
Proof. destruct m; by eapply bool_decide_unpack. Qed.

Lemma version_of_some w v : version_of w = Some v <-> w = version_name v /\ v <> kUnknown.
Proof.
  unfold version_of. split.
  - repeat case_bool_decide; intros [= <-]; by subst.
  - intros [-> Hv]. by destruct v.
Qed.

(** The target is a path, and a query that starts with its question mark. *)
Lemma set_target_split r target :
  exists p q, target = p ++ q /\ (QUESTION ∉ p) /\
    match q with [] => True | b :: _ => b = QUESTION end /\
    set_target r target = match q with [] => setPath r p | _ => setQuery (setPath r p) q end.
Proof.
  unfold set_target. destruct (cut QUESTION target) as [[p q]|] eqn:E.
  - apply cut_some in E as [-> Hp]. by exists p, (QUESTION :: q).
  - apply cut_none in E. exists target, []. by rewrite app_nil_r.
Qed.

Lemma set_target_eq r p q :
  QUESTION ∉ p -> match q with [] => True | b :: _ => b = QUESTION end ->
  set_target r (p ++ q) = match q with [] => setPath r p | _ => setQuery (setPath r p) q end.
Proof.
  intros Hp Hq. unfold set_target. destruct q as [|b q].
  - by rewrite app_nil_r, (proj2 (cut_none _ _)).
  - rewrite Hq, cut_hit by done. done.
Qed.

Lemma parse_start_grammar r line r' :
  parse_start r line = Ok (true, r') <->
  method_ r = kInvalid /\ exists l, start_ok l /\ line = render_start l /\ r' = apply_start r l.
Proof.
  unfold parse_start. split.
  - destruct (cut SP line) as [[m rest]|] eqn:E1; [|done]. apply cut_some in E1 as [-> Hm].
    unfold setMethod. destruct (bool_decide (method_ r = kInvalid)) eqn:Em; [|done].
    apply bool_decide_eq_true in Em. cbn [mbind res_bind assert_].
    destruct (bool_decide (method_of m <> kInvalid)) eqn:Ev; [|done]. apply bool_decide_eq_true in Ev.
    cbn [negb]. destruct (cut SP rest) as [[tg w]|] eqn:E2; [|done].
    apply cut_some in E2 as [-> Htg]. destruct (version_of w) as [v|] eqn:E3; [|done].
    apply version_of_some in E3 as [-> Hv]. intros [= <-]. split; [done|].
    destruct (set_target_split (mkHttpRequest (method_of m) (version_ r) (path_ r) (query_ r)
      (receiveTime_ r) (headers_ r) (body_ r)) tg) as (p & q & -> & Hp & Hq & ->).
    exists (mkStartLine (method_of m) p q v). split; [done|]. split.
    + unfold render_start. cbn. by rewrite <- method_of_inv.
    + unfold apply_start. cbn. by destruct q.
  - intros (Hm & [m p q v] & (Hm' & Hv & Hsp & Hp & Hq) & -> & ->). cbn in *.
    unfold render_start. cbn. rewrite cut_hit by apply method_name_nosp.
    unfold setMethod. rewrite (bool_decide_true (method_ r = kInvalid)) by done. cbn [mbind res_bind assert_].
    rewrite method_of_name, bool_decide_true by done. cbn [negb].
    rewrite cut_hit by done. rewrite (proj2 (version_of_some _ v)) by done.
    rewrite set_target_eq by done. unfold apply_start. by destruct q.
Qed.

(** ** The buffer machine runs the abstract one *)

(** Every crlf found by the buffer is the first line of its view. *)
Lemma findCRLF_split buf :
  buffer_ok buf ->
  match split_line (toStringView buf) with
  | None => findCRLF buf = Ok None
  | Some (line, rest) =>
      exists crlf, findCRLF buf = Ok (Some crlf) /\
        mem_read (buffer_ buf) (peek buf) (crlf - peek buf) = Ok line /\
        exists buf', retrieveUntil buf (crlf + 2) = Ok buf' /\ buffer_ok buf' /\
          toStringView buf' = rest /\ buffer_ buf' = buffer_ buf
  end.
Proof.
  intros Hb. rewrite findCRLF_eq by done. unfold split_line.
  set (v := toStringView buf). set (i := search kCRLF v).
  pose proof (search_range kCRLF v) as Hi. fold i in Hi. cbn zeta.
  destruct (Z.eqb_spec i (zlen v)) as [|Hne]; [done|].
  assert (zlen v = readableBytes buf) as Hz by by apply zlen_toStringView.
  assert (i + 2 <= zlen v) as Hi2.
  { destruct (search_found_split kCRLF v) as (p & s & Hv & Hp); [done | fold i; lia |].
    fold i in Hp. rewrite Hv. unfold kCRLF. zlen_lia. }
  exists (peek buf + i). split; [done|]. split.
  - replace (peek buf + i - peek buf) with i by lia. apply mem_read_view; [done | lia].
  - exists (retrieve buf (i + 2)). destruct (retrieve_ok buf (i + 2)) as (? & ? & ? & _); [done | lia |].
    split; [|done]. unfold retrieveUntil. rewrite (readableBytes_eq buf Hb) in Hz.
    unfold peek, beginWrite in *. step_assert. step_assert. f_equal. f_equal. lia.
Qed.

Lemma parse_body_view t ok c buf :
  buffer_ok buf ->
  match vstep t ok c (toStringView buf) with
  | Err e => parse_body t ok c buf = Err e
  | Ok (ok', more, c', v') =>
      exists buf', parse_body t ok c buf = Ok (ok', more, c', buf') /\ buffer_ok buf' /\
        toStringView buf' = v' /\ buffer_ buf' = buffer_ buf
  end.
Proof.
  intros Hb. pose proof (findCRLF_split buf Hb) as Hcr. unfold vstep, parse_body, header_line.
  destruct (state_ c).
  - destruct (split_line _) as [[line rest]|]; [|rewrite Hcr; by exists buf].
    destruct Hcr as (crlf & -> & Hline & buf' & Hret & Hok & Hview & Hbuf).
    cbn [mbind res_bind]. rewrite Hline. cbn [mbind res_bind].
    destruct (processRequestLine _ _) as [[[] r]|e]; [| |done]; cbn [mbind res_bind].
    + rewrite Hret. by exists buf'.
    + by exists buf.
  - destruct (split_line _) as [[line rest]|]; [|rewrite Hcr; by exists buf].
    destruct Hcr as (crlf & -> & Hline & buf' & Hret & Hok & Hview & Hbuf).
    cbn [mbind res_bind]. rewrite Hline. cbn [mbind res_bind]. rewrite Hret. by exists buf'.
  - rewrite <- (zlen_toStringView buf Hb).
    rewrite mem_read_view; [|done|split; [apply zlen_nonneg | by rewrite <- zlen_toStringView]].
    unfold zlen. rewrite Nat2Z.id, firstn_all. cbn [mbind res_bind].
    exists (retrieveAll buf). destruct (retrieveAll_ok buf Hb). done.
  - by exists buf.
Qed.

(** The result of a run over a buffer is that of the run over its view. *)
Definition same_result (buf : Buffer) (x : option (res (bool * HttpContext * Buffer)))
    (y : option (res (bool * HttpContext * bytes))) : Prop :=
  match y with
  | None => x = None
  | Some (Err e) => x = Some (Err e)
  | Some (Ok (ok, c, v)) =>
      exists buf', x = Some (Ok (ok, c, buf')) /\ buffer_ok buf' /\
        toStringView buf' = v /\ buffer_ buf' = buffer_ buf
  end.

Lemma parse_loop_view t fuel ok more c buf :
  buffer_ok buf ->
  same_result buf (parse_loop t fuel ok more c buf) (vparse fuel t ok more c (toStringView buf)).
Proof.
  revert ok more c buf. induction fuel as [|fuel IH]; intros ok more c buf Hb; cbn.
  - destruct more; cbn; [done | by exists buf].
  - destruct more; cbn; [|by exists buf].
    pose proof (parse_body_view t ok c buf Hb) as Hbody.
    destruct (vstep _ _ _ _) as [[[[ok' more'] c'] v']|e]; [|by rewrite Hbody].
    destruct Hbody as (buf' & -> & Hb' & <- & Hbuf).
    specialize (IH ok' more' c' buf' Hb'). unfold same_result in *.
    destruct (vparse _ _ _ _ _ _) as [[[[? ?] ?]|?]|]; [|done|done].
    destruct IH as (b2 & -> & ? & ? & H2). exists b2. by rewrite <- Hbuf.
Qed.

(** ** Fuel *)

Lemma vparse_more t fuel k ok more c v x :
  vparse fuel t ok more c v = Some x -> vparse (fuel + k) t ok more c v = Some x.
Proof.
  revert ok more c v. induction fuel as [|fuel IH]; intros ok more c v.
  - destruct more; [done|]. by destruct k.
  - cbn [vparse Nat.add]. destruct (negb more); [done|].
    destruct (vstep _ _ _ _) as [[[[? ?] ?] ?]|]; [apply IH | done].
Qed.

Lemma vparse_fuel t f1 f2 ok more c v x y :
  vparse f1 t ok more c v = Some x -> vparse f2 t ok more c v = Some y -> x = y.
Proof.
  intros H1%(vparse_more _ _ f2) H2%(vparse_more _ _ f1). rewrite Nat.add_comm in H2. congruence.
Qed.

Lemma request_ok_setters r ok line r' :
  request_ok r -> parse_start r line = Ok (ok, r') -> request_ok r'.
Proof. intros Hr H. apply parse_start_headers in H as (Hh & _ & _). unfold request_ok. by rewrite Hh. Qed.

(** Bytes that are nothing or end with a line's end. *)
Definition whole_lines (p : bytes) : Prop := p = [] \/ exists q, p = q ++ kCRLF.

Lemma whole_lines_cons line p : whole_lines p -> whole_lines (line ++ kCRLF ++ p).
Proof.
  intros [->|(q & ->)]; right; [by exists line; rewrite app_nil_r|].
  exists (line ++ kCRLF ++ q). by rewrite <- !app_assoc.
Qed.

(** What a call of the parser leaves, from a context it may be called with. *)
Definition parse_post (v : bytes) (ok : bool) (c : HttpContext) (v' : bytes) : Prop :=
  request_ok (request_ c) /\
  (if ok then state_ c = kGotAll /\ v' = [] \/
              context_ok c /\ split_line v' = None /\ exists p, v = p ++ v' /\ whole_lines p
   else state_ c = kExpectRequestLine /\ v' = v).

(** One iteration from a context that expects the headers. *)
Lemma header_line_ok c line :
  request_ok (request_ c) -> state_ c = kExpectHeaders ->
  request_ok (request_ (header_line c line)) /\
  (state_ (header_line c line) = kExpectHeaders \/ state_ (header_line c line) = kExpectBody).
Proof.
  intros Hr Hs. unfold header_line. destruct (negb _); cbn; [|auto].
  split; [by apply addHeader_ok | auto].
Qed.

Lemma vparse_headers t fuel c v :
  (length v + 2 <= fuel)%nat -> request_ok (request_ c) ->
  state_ c = kExpectHeaders \/ state_ c = kExpectBody ->
  exists c' v', vparse fuel t true true c v = Some (Ok (true, c', v')) /\ parse_post v true c' v'.
Proof.
  revert c v. induction fuel as [|fuel IH]; intros c v Hf Hr Hs; [lia|].
  cbn [vparse negb]. unfold vstep. destruct Hs as [Hs|Hs]; rewrite Hs.
  - destruct (split_line v) as [[line rest]|] eqn:E.
    + destruct (header_line_ok c line Hr Hs) as [Hr' Hs'].
      apply split_line_length in E as Hlen.
      destruct (IH (header_line c line) rest) as (c' & v' & -> & Hpost & Hp); [lia|done|done|].
      exists c', v'. split; [done|]. split; [done|].
      destruct Hp as [Hp|(Hc & Hn & p & -> & Hl)]; [by left|right].
      apply split_line_some in E as ->. split; [done|]. split; [done|].
      exists (line ++ kCRLF ++ p). split; [by rewrite <- !app_assoc | by apply whole_lines_cons].
    + exists c, v. destruct fuel; [lia|]. split; [done|]. split; [done|]. right. split; [|split; [done|by exists []; split; [|left]]].
      split; [done|]. split; congruence.
  - destruct fuel; [lia|]. eexists _, _. split; [done|]. split; [by destruct Hr|]. by left.
Qed.

Lemma vparse_total t fuel c v :
  (length v + 2 <= fuel)%nat -> context_ok c ->
  exists ok c' v', vparse fuel t true true c v = Some (Ok (ok, c', v')) /\ parse_post v ok c' v'.
Proof.
  intros Hf (Hr & Hg & Hm). destruct (state_ c) eqn:Hs; [|..|done].
  - destruct fuel as [|fuel]; [lia|]. cbn [vparse negb]. unfold vstep. rewrite Hs.
    specialize (Hm eq_refl). destruct (split_line v) as [[line rest]|] eqn:E.
    + destruct (parse_start_total (request_ c) line Hm) as (ok & r & Hst).
      rewrite processRequestLine_eq, Hst. cbn [mbind res_bind].
      pose proof (request_ok_setters _ _ _ _ Hr Hst) as Hr'. apply split_line_length in E as Hlen.
      destruct ok.
      * destruct (vparse_headers t fuel (mkHttpContext kExpectHeaders (setReceiveTime r t)) rest)
          as (c' & v' & -> & Hpost & Hp); [lia | done | by left |].
        exists true, c', v'. split; [done|]. split; [done|].
        destruct Hp as [Hp|(Hc & Hn & p & -> & Hl)]; [by left|right].
        apply split_line_some in E as ->. split; [done|]. split; [done|].
        exists (line ++ kCRLF ++ p). split; [by rewrite <- !app_assoc | by apply whole_lines_cons].
      * destruct fuel; [lia|]. eexists false, _, v. split; [done|]. by split.
    + destruct fuel; [lia|]. exists true, c, v. split; [done|]. split; [done|]. right.
      split; [|split; [done | by exists []; split; [|left]]]. split; [done|]. split; congruence.
  - destruct (vparse_headers t fuel c v) as (c' & v' & ? & ?); eauto.
  - destruct (vparse_headers t fuel c v) as (c' & v' & ? & ?); eauto.
Qed.

(** The abstract parser of a whole call. *)
Definition vparseRequest (t : Z) (c : HttpContext) (v : bytes) :
    option (res (bool * HttpContext * bytes)) :=
  vparse (length v + 2) t true true c v.

Lemma parseRequest_view t c buf :
  buffer_ok buf ->
  same_result buf (parseRequest t c buf) (vparseRequest t c (toStringView buf)).
Proof.
  intros Hb. unfold parseRequest, vparseRequest.
  replace (length (toStringView buf) + 2)%nat with (parse_fuel buf).
  - by apply parse_loop_view.
  - unfold parse_fuel. rewrite <- zlen_toStringView by done. unfold zlen. lia.
Qed.

(** ** Requests on the wire *)

Record wire_request := mkWire {
  w_start : start_line;
  w_headers : list (bytes * bytes);
  w_body : bytes
}.

Definition render_header (h : bytes * bytes) : bytes := (h.1 ++ COLON :: h.2) ++ kCRLF.

Definition render_request (w : wire_request) : bytes :=
  render_start (w_start w) ++ kCRLF ++ concat (map render_header (w_headers w)) ++
  kCRLF ++ w_body w.

Definition header_ok (h : bytes * bytes) : Prop :=
  (COLON ∉ h.1) /\ (CR ∉ h.1) /\ (CR ∉ h.2).

Definition wire_ok (w : wire_request) : Prop :=
  start_ok (w_start w) /\ (CR ∉ render_start (w_start w)) /\ Forall header_ok (w_headers w).

(** The value [addHeader] keeps of the bytes after the colon. *)
Definition stored_value (s : bytes) : bytes := trim_right (skip_nonspace s).

Definition add_headers (m : list (bytes * bytes)) (hs : list (bytes * bytes)) :
    list (bytes * bytes) :=
  fold_left (fun m h => map_assign h.1 (stored_value h.2) m) hs m.

(** The request that the parser makes of a wire request received at [t]. *)
Definition parsed_request (t : Z) (w : wire_request) : HttpRequest :=
  let l := w_start w in
  mkHttpRequest (sl_method l) (sl_version l) (sl_path l) (sl_query l) t
    (add_headers [] (w_headers w)) (w_body w).

Lemma header_line_field r h :
  header_ok h ->
  header_line (mkHttpContext kExpectHeaders r) (h.1 ++ COLON :: h.2) =
  mkHttpContext kExpectHeaders
    (mkHttpRequest (method_ r) (version_ r) (path_ r) (query_ r) (receiveTime_ r)
       (map_assign h.1 (stored_value h.2) (headers_ r)) (body_ r)).
Proof.
  destruct h as [n v]. cbn [fst snd]. intros (Hc & _ & _). unfold header_line.
  rewrite find_byte_hit by done.
  rewrite (proj2 (Z.eqb_neq _ _)) by zlen_lia. cbn [negb state_ request_].
  unfold addHeader. rewrite slice_prefix by done.
  replace (n ++ COLON :: v) with ((n ++ [COLON]) ++ v) by (by rewrite <- app_assoc).
  rewrite drop_zlen; [done | zlen_lia].
Qed.

Lemma header_line_blank r :
  header_line (mkHttpContext kExpectHeaders r) [] = mkHttpContext kExpectBody r.
Proof. done. Qed.

Lemma vparse_fields t hs r body fuel :
  Forall header_ok hs ->
  vparse (length hs + S (S fuel)) t true true (mkHttpContext kExpectHeaders r)
    (concat (map render_header hs) ++ kCRLF ++ body) =
  Some (Ok (true, mkHttpContext kGotAll
    (mkHttpRequest (method_ r) (version_ r) (path_ r) (query_ r) (receiveTime_ r)
       (add_headers (headers_ r) hs) body), [])).
Proof.
  revert r. induction hs as [|h hs IH]; intros r Hhs.
  - cbn [length Nat.add vparse negb map concat app]. unfold vstep. cbn [state_].
    rewrite (split_line_blank body).
    rewrite header_line_blank. cbn [state_ request_ negb]. by destruct fuel.
  - apply Forall_cons in Hhs as [Hh Hhs]. cbn [length Nat.add vparse negb map concat].
    unfold vstep. cbn [state_]. unfold render_header at 1. rewrite <- !app_assoc.
    rewrite (app_assoc h.1). rewrite split_line_hit.
    + rewrite header_line_field by done. rewrite IH by done. done.
    + destruct Hh as (_ & H1 & H2). rewrite elem_of_app, elem_of_cons.
      intros [?|[?|?]]; done.
Qed.

(** ** Splitting the input *)

(** One iteration that goes on does the same on a longer input. *)
Lemma vstep_app t ok c v d ok' c' v' :
  vstep t ok c v = Ok (ok', true, c', v') -> vstep t ok c (v ++ d) = Ok (ok', true, c', v' ++ d).
Proof.
  unfold vstep. destruct (state_ c).
  - destruct (split_line v) as [[l rest]|] eqn:E; [|done]. rewrite (split_line_app _ _ _ d E).
    destruct (processRequestLine _ _) as [[[] r]|]; [|done..]. by intros [= <- <- <-].
  - destruct (split_line v) as [[l rest]|] eqn:E; [|done]. rewrite (split_line_app _ _ _ d E).
    by intros [= <- <- <-].
  - done.
  - by intros [= <- <- <-].
Qed.

(** An iteration that stops without an error and without the whole request
    changed nothing. *)
Lemma vstep_stop t c v c' v' :
  vstep t true c v = Ok (true, false, c', v') -> state_ c' <> kGotAll -> c' = c /\ v' = v.
Proof.
  unfold vstep. destruct (state_ c).
  - destruct (split_line v) as [[l rest]|]; [|by intros [= <- <-]].
    by destruct (processRequestLine _ _) as [[[] r]|].
  - destruct (split_line v) as [[l rest]|]; [done|by intros [= <- <-]].
  - by intros [= <- <-].
  - done.
Qed.

Lemma vstep_ok t c v ok' more c' v' :
  vstep t true c v = Ok (ok', more, c', v') -> ok' = false -> more = false.
Proof.
  unfold vstep. destruct (state_ c); [| |by intros [= <- <- _ _]..].
  - destruct (split_line v) as [[l rest]|]; [|by intros [= <- <- _ _]].
    destruct (processRequestLine _ _) as [[[] r]|]; by intros [= <- <- _ _].
  - destruct (split_line v) as [[l rest]|]; by intros [= <- <- _ _].
Qed.

Lemma vparse_app t f1 f2 c v d c1 v1 x :
  vparse f1 t true true c v = Some (Ok (true, c1, v1)) -> state_ c1 <> kGotAll ->
  vparse f2 t true true c1 (v1 ++ d) = Some x ->
  vparse (f1 + f2) t true true c (v ++ d) = Some x.
Proof.
  intros H1 Hs H2. revert c v H1. induction f1 as [|f1 IH]; intros c v H1; [done|].
  cbn [vparse negb] in H1. destruct (vstep t true c v) as [[[[ok more] c'] v']|] eqn:E; [|done].
  destruct more.
  - destruct ok; [|by pose proof (vstep_ok _ _ _ _ _ _ _ E eq_refl)].
    cbn [Nat.add vparse negb]. rewrite (vstep_app _ _ _ _ d _ _ _ E). by apply IH.
  - assert (ok = true /\ c' = c1 /\ v' = v1) as (-> & -> & ->)
      by (destruct f1; by injection H1 as -> -> ->).
    destruct (vstep_stop _ _ _ _ _ E Hs) as [-> ->].
    rewrite Nat.add_comm. by apply vparse_more.
Qed.

(** Once the start line is parsed the time plays no part. *)
Lemma vstep_time t t' ok c v : state_ c <> kExpectRequestLine -> vstep t ok c v = vstep t' ok c v.
Proof. unfold vstep. by destruct (state_ c). Qed.

Lemma vstep_past t ok c v ok' more c' v' :
  vstep t ok c v = Ok (ok', more, c', v') ->
  state_ c <> kExpectRequestLine \/ more = true -> state_ c' <> kExpectRequestLine.
Proof.
  unfold vstep. destruct (state_ c) eqn:Hs; [intros H [?| ->]; [done|]|intros H _..].
  - destruct (split_line v) as [[l rest]|]; [|done]. destruct (processRequestLine _ _) as [[[] r]|]; [|done..].
    by injection H as <- <- <-.
  - destruct (split_line v) as [[l rest]|]; injection H as <- <- <- <-; [|congruence].
    unfold header_line. by destruct (negb _); cbn; rewrite ?Hs.
  - by injection H as <- <- <- <-.
  - injection H as <- <- <- <-. congruence.
Qed.

Lemma vparse_time t t' fuel : forall ok more c v,
  state_ c <> kExpectRequestLine -> vparse fuel t ok more c v = vparse fuel t' ok more c v.
Proof.
  induction fuel as [|fuel IH]; intros ok more c v Hs; [done|]. cbn [vparse].
  rewrite (vstep_time t t') by done. destruct (vstep t' ok c v) as [[[[ok' more'] c'] v']|] eqn:E; [|done].
  destruct (negb more); [done|]. apply IH. by eapply vstep_past; [exact E|left].
Qed.

Lemma vparse_past t fuel : forall ok more c v ok' c' v',
  vparse fuel t ok more c v = Some (Ok (ok', c', v')) ->
  state_ c <> kExpectRequestLine -> state_ c' <> kExpectRequestLine.
Proof.
  induction fuel as [|fuel IH]; intros ok more c v ok' c' v' H Hs; cbn [vparse] in H.
  - destruct (negb more); [|done]. by injection H as <- <- <-.
  - destruct (negb more); [by injection H as <- <- <-|].
    destruct (vstep t ok c v) as [[[[ok1 more1] c1] v1]|] eqn:E; [|done].
    eapply IH; [exact H|]. by eapply vstep_past; [exact E|left].
Qed.

(** Nothing was consumed while the start line is still expected. *)
Lemma vparse_waiting t t' fuel c v c' v' :
  vparse fuel t true true c v = Some (Ok (true, c', v')) -> state_ c' = kExpectRequestLine ->
  c' = c /\ v' = v /\ vparse fuel t' true true c v = Some (Ok (true, c', v')).
Proof.
  destruct fuel as [|fuel]; intros H Hs; cbn [vparse negb] in H |- *; [done|].
  destruct (vstep t true c v) as [[[[ok1 more1] c1] v1]|] eqn:E; [|done]. destruct more1.
  - destruct (vparse_past _ _ _ _ _ _ _ _ _ H); [|done]. by eapply vstep_past; [exact E|right].
  - assert (ok1 = true /\ c1 = c' /\ v1 = v') as (-> & -> & ->) by (by destruct fuel; injection H as -> -> ->).
    destruct (vstep_stop _ _ _ _ _ E) as [-> ->]; [congruence|]. split; [done|]. split; [done|].
    unfold vstep in E |- *. rewrite Hs in E |- *. destruct (split_line v) as [[l rest]|].
    + by destruct (processRequestLine _ _) as [[[] r]|].
    + by destruct fuel.
Qed.

(** More bytes behind a whole request lengthen its body. *)
Lemma vparse_got_app t d fuel : forall c v ok c1 v1,
  vparse fuel t true true c v = Some (Ok (ok, c1, v1)) ->
  state_ c <> kGotAll -> state_ c1 = kGotAll ->
  vparse fuel t true true c (v ++ d) =
    Some (Ok (ok, mkHttpContext kGotAll (setBody (request_ c1) (body_ (request_ c1) ++ d)), [])).
Proof.
  induction fuel as [|fuel IH]; intros c v ok c1 v1 H Hs Hg; cbn [vparse negb] in H |- *; [done|].
  destruct (vstep t true c v) as [[[[ok' more] c'] v']|] eqn:E; [|done]. destruct more.
  - destruct ok'; [|by pose proof (vstep_ok _ _ _ _ _ _ _ E eq_refl)].
    rewrite (vstep_app _ _ _ _ d _ _ _ E). eapply IH; [exact H| |done].
    unfold vstep in E. destruct (state_ c) eqn:Hsc; [| |done..].
    + destruct (split_line v) as [[l rest]|]; [|done].
      destruct (processRequestLine _ _) as [[[] r]|]; [|done..]. by injection E as <- <-.
    + destruct (split_line v) as [[l rest]|]; [|done]. injection E as <- <-.
      unfold header_line. destruct (negb _); cbn; congruence.
  - assert (ok' = ok /\ c' = c1 /\ v' = v1) as (-> & -> & ->) by (by destruct fuel; injection H as -> -> ->).
    unfold vstep in E |- *. destruct (state_ c) eqn:Hsc; [| | |done].
    + destruct (split_line v) as [[l rest]|]; [|by injection E as <- <- <-; congruence].
      destruct (processRequestLine _ _) as [[[] r]|]; [done| |done]. injection E as <- <- <-. cbn in Hg. congruence.
    + destruct (split_line v) as [[l rest]|]; [done|]. injection E as <- <- <-. congruence.
    + injection E as <- <- <-. by destruct fuel.
Qed.

(** A refused start line stays refused. *)
Lemma vparse_bad_app t d fuel : forall c v c1 v1,
  vparse fuel t true true c v = Some (Ok (false, c1, v1)) ->
  vparse fuel t true true c (v ++ d) = Some (Ok (false, c1, v1 ++ d)).
Proof.
  induction fuel as [|fuel IH]; intros c v c1 v1 H; cbn [vparse negb] in H |- *; [done|].
  destruct (vstep t true c v) as [[[[ok' more] c'] v']|] eqn:E; [|done]. destruct more.
  - destruct ok'; [|by pose proof (vstep_ok _ _ _ _ _ _ _ E eq_refl)].
    rewrite (vstep_app _ _ _ _ d _ _ _ E). by apply IH.
  - assert (ok' = false /\ c' = c1 /\ v' = v1) as (-> & -> & ->) by (by destruct fuel; injection H as -> -> ->).
    unfold vstep in E |- *. destruct (state_ c) eqn:Hsc; [|by destruct (split_line v) as [[l rest]|]|done..].
    destruct (split_line v) as [[l rest]|] eqn:El; [|done]. rewrite (split_line_app _ _ _ d El).
    destruct (processRequestLine _ _) as [[[] r]|]; [done| |done]. injection E as <- <-. by destruct fuel.
Qed.

(** ** A whole call *)

Lemma vparseRequest_post t c buf :
  buffer_ok buf -> context_ok c ->
  exists ok c' buf',
    parseRequest t c buf = Some (Ok (ok, c', buf')) /\
    buffer_ok buf' /\ buffer_ buf' = buffer_ buf /\
    vparseRequest t c (toStringView buf) = Some (Ok (ok, c', toStringView buf')) /\
    parse_post (toStringView buf) ok c' (toStringView buf').
Proof.
  intros Hb Hc. pose proof (parseRequest_view t c buf Hb) as Hv.
  destruct (vparse_total t (length (toStringView buf) + 2) c (toStringView buf))
    as (ok & c' & v' & Hr & Hp); [done..|].
  unfold same_result, vparseRequest in *. rewrite Hr in Hv |- *.
  destruct Hv as (buf' & ? & ? & <- & ?). exists ok, c', buf'. done.
Qed.

Lemma HttpContext_ctor_ok : context_ok HttpContext_ctor.
Proof. split; [apply HttpRequest_ctor_ok | done]. Qed.

(** The parser on the bytes of a rendered request. *)
Lemma vparse_wire t w : wire_ok w ->
  vparse (S (length (w_headers w) + 2)) t true true HttpContext_ctor (render_request w) =
    Some (Ok (true, mkHttpContext kGotAll (parsed_request t w), [])).
Proof.
  intros (Hst & Hcr & Hhs). cbn [vparse negb]. unfold vstep, HttpContext_ctor. cbn [state_ request_].
  unfold render_request. rewrite split_line_hit, processRequestLine_eq by done.
  rewrite (proj2 (parse_start_grammar HttpRequest_ctor _ (apply_start HttpRequest_ctor (w_start w))))
    by (split; [done | by exists (w_start w)]).
  cbn [mbind res_bind]. rewrite vparse_fields by done. unfold parsed_request, apply_start, setReceiveTime.
  cbn. by destruct (sl_query (w_start w)).
Qed.

Lemma parseRequest_wire t w buf :
  buffer_ok buf -> wire_ok w -> toStringView buf = render_request w ->
  exists buf', parseRequest t HttpContext_ctor buf =
      Some (Ok (true, mkHttpContext kGotAll (parsed_request t w), buf')) /\
    buffer_ok buf' /\ toStringView buf' = [].
Proof.
  intros Hb Hw Hv. pose proof (vparse_wire t w Hw) as Hrun.
  destruct (vparseRequest_post t HttpContext_ctor buf Hb) as (ok & c & buf' & H1 & Hb' & _ & Hv' & _).
  { apply HttpContext_ctor_ok. }
  unfold vparseRequest in Hv'. rewrite Hv in Hv'.
  pose proof (vparse_fuel _ _ _ _ _ _ _ _ _ Hrun Hv') as [= <- <- Hview]. by exists buf'.
Qed.

(** ** A request that arrives in pieces *)

Definition without_body (w : wire_request) : wire_request := mkWire (w_start w) (w_headers w) [].
Definition render_head (w : wire_request) : bytes := render_request (without_body w).

Lemma render_body w : render_request w = render_head w ++ w_body w.
Proof.
  unfold render_head, render_request, without_body. cbn [w_start w_headers w_body].
  by rewrite app_nil_r, <- !app_assoc.
Qed.

(** The context and the bytes left after [p], the beginning of a request, has
    arrived at the times [ts]. *)
Definition arrived (ts : list Z) (p : bytes) (c : HttpContext) (v : bytes) : Prop :=
  state_ c <> kGotAll /\ exists t, (t ∈ ts \/ state_ c = kExpectRequestLine) /\
    vparseRequest t HttpContext_ctor p = Some (Ok (true, c, v)).

Lemma arrived_start : arrived [] [] HttpContext_ctor [].
Proof. split; [done|]. exists 0. split; [by right|done]. Qed.

Lemma arrived_ok ts p c v : arrived ts p c v -> context_ok c.
Proof.
  intros (Hs & t & _ & H).
  destruct (vparse_total t (length p + 2) HttpContext_ctor p) as (ok & c' & v' & H' & Hp);
    [done|apply HttpContext_ctor_ok|].
  unfold vparseRequest in H. rewrite H in H'. injection H' as <- <- <-. by destruct Hp as (_ & [[]|[]]).
Qed.

(** Parsing the next piece is parsing everything so far at one of the times. *)
Lemma arrived_parse ts p c v t d x :
  arrived ts p c v -> vparseRequest t c (v ++ d) = Some x ->
  exists t', (t' ∈ t :: ts) /\ vparseRequest t' c (v ++ d) = Some x /\
    exists f, vparse f t' true true HttpContext_ctor (p ++ d) = Some x.
Proof.
  intros (Hs & t0 & Ht & H) Hx. unfold vparseRequest in *.
  destruct (decide (state_ c = kExpectRequestLine)) as [E|E].
  - destruct (vparse_waiting _ t _ _ _ _ _ H E) as (_ & _ & H'). exists t.
    split; [left|]. split; [done|]. eexists. by eapply vparse_app.
  - destruct Ht as [Ht|]; [|done]. rewrite (vparse_time t t0) in Hx by done. exists t0.
    split; [by right|]. split; [done|]. eexists. by eapply vparse_app.
Qed.

Lemma arrived_more w ts p c v t d rest :
  wire_ok w -> arrived ts p c v -> (p ++ d) ++ rest = render_head w -> rest <> [] ->
  exists c' v', vparseRequest t c (v ++ d) = Some (Ok (true, c', v')) /\ arrived (t :: ts) (p ++ d) c' v'.
Proof.
  intros Hw Ha Hp Hrest.
  destruct (vparse_total t (length (v ++ d) + 2) c (v ++ d)) as (ok & c' & v' & H & _);
    [done|by eapply arrived_ok|].
  fold (vparseRequest t c (v ++ d)) in H.
  destruct (arrived_parse _ _ _ _ _ _ _ Ha H) as (t' & Ht' & _ & f & Hf).
  assert (wire_ok (without_body w)) as Hw0 by exact Hw.
  pose proof (vparse_wire t' _ Hw0) as Hall. fold (render_head w) in Hall. rewrite <- Hp in Hall.
  assert (ok = true) as ->.
  { destruct ok; [done|]. apply (vparse_bad_app _ rest) in Hf.
    by pose proof (vparse_fuel _ _ _ _ _ _ _ _ _ Hf Hall). }
  assert (state_ c' <> kGotAll) as Hg.
  { intros Hg. apply (vparse_got_app _ rest) in Hf; [|done..].
    pose proof (vparse_fuel _ _ _ _ _ _ _ _ _ Hf Hall) as Heq.
    apply (f_equal (fun x => match x with Ok (_, c, _) => body_ (request_ c) | _ => [] end)) in Heq.
    cbn in Heq. by apply app_nil in Heq as [_ ?]. }
  exists c', v'. split; [done|]. split; [done|]. exists t'. split; [by left|].
  destruct (vparse_total t' (length (p ++ d) + 2) HttpContext_ctor (p ++ d)) as (ok1 & c1 & v1 & H1 & _);
    [done|apply HttpContext_ctor_ok|].
  pose proof (vparse_fuel _ _ _ _ _ _ _ _ _ Hf H1) as [= <- <- <-]. exact H1.
Qed.

Lemma arrived_all w ts p c v t d :
  wire_ok w -> arrived ts p c v -> p ++ d = render_request w ->
  exists t', (t' ∈ t :: ts) /\
    vparseRequest t c (v ++ d) = Some (Ok (true, mkHttpContext kGotAll (parsed_request t' w), [])).
Proof.
  intros Hw Ha Hp.
  destruct (vparse_total t (length (v ++ d) + 2) c (v ++ d)) as (ok & c' & v' & H & _);
    [done|by eapply arrived_ok|].
  fold (vparseRequest t c (v ++ d)) in H.
  destruct (arrived_parse _ _ _ _ _ _ _ Ha H) as (t' & Ht' & _ & f & Hf). rewrite Hp in Hf.
  exists t'. split; [done|]. rewrite H. f_equal.
  by pose proof (vparse_fuel _ _ _ _ _ _ _ _ _ Hf (vparse_wire t' w Hw)).
Qed.

(** ** Examples *)

Definition split_example : Buffer := buffer_of (lit "GET / HTTP/1.1" ++ kCRLF ++ lit "Ho").

Definition wire_example : wire_request :=
  mkWire (mkStartLine kPost (lit "/form") (lit "?q") kHttp1_1)
    [(lit "Host", lit " a.b"); (lit "X", lit " 1 "); (lit "Host", lit "nospace")] (lit "data").

Lemma wire_example_ok : wire_ok wire_example.
Proof.
  split; [repeat split; [done | done | decide_now..]|]. split; [decide_now|].
  repeat (constructor; [repeat split; decide_now|]). constructor.
Qed.

(** ** Properties *)

(** What a call of the parser does from any context whose request is not
    complete.  After a refused start line the method may be set already. *)
Definition refused_again (c : HttpContext) (v : bytes) : bool :=
  bool_decide (state_ c = kExpectRequestLine /\ method_ (request_ c) <> kInvalid) &&
  match split_line v with Some (line, _) => bool_decide (SP ∈ line) | None => false end.

Definition call_post (c : HttpContext) (v : bytes) (ok : bool) (c' : HttpContext) (v' : bytes) : Prop :=
  request_ok (request_ c') /\
  (if ok then state_ c' = kGotAll /\ v' = [] \/
              state_ c' <> kGotAll /\ (context_ok c -> context_ok c') /\ split_line v' = None /\
              exists p, v = p ++ v' /\ whole_lines p
   else state_ c' = kExpectRequestLine /\ v' = v).

Lemma refused_again_ok c v : context_ok c -> refused_again c v = false.
Proof. intros (_ & _ & Hm). unfold refused_again. rewrite bool_decide_false; [done|]. tauto. Qed.

Lemma cut_in c (l : bytes) : c ∈ l <-> cut c l <> None.
Proof.
  destruct (cut c l) as [[p s]|] eqn:E.
  - apply cut_some in E as [-> _]. split; [done|]. intros _. set_solver.
  - apply cut_none in E. by split.
Qed.

(** The call with the method set. *)
Lemma vparse_refused t c v :
  request_ok (request_ c) -> state_ c = kExpectRequestLine -> method_ (request_ c) <> kInvalid ->
  if refused_again c v then vparseRequest t c v = Some (Err AssertFail)
  else exists ok, vparseRequest t c v = Some (Ok (ok, c, v)) /\ call_post c v ok c v.
Proof.
  intros Hr Hs Hm. unfold refused_again. rewrite bool_decide_true by done. cbn [andb].
  unfold vparseRequest. rewrite Nat.add_comm. cbn [Nat.add vparse negb]. unfold vstep. rewrite Hs.
  destruct (split_line v) as [[line rest]|] eqn:E.
  - rewrite processRequestLine_eq. unfold parse_start.
    destruct (cut SP line) as [[m l]|] eqn:Ec.
    + rewrite bool_decide_true by (apply cut_in; congruence).
      unfold setMethod. by rewrite (bool_decide_false (method_ (request_ c) = kInvalid)).
    + rewrite bool_decide_false by (intros Hin%cut_in; congruence). exists false. cbn [mbind res_bind].
      replace (mkHttpContext kExpectRequestLine (request_ c)) with c by (destruct c; cbn in *; congruence).
      by repeat split; destruct Hr.
  - exists true. split; [done|]. split; [done|]. right. split; [congruence|]. split; [done|].
    split; [done|]. exists []. by split; [|left].
Qed.

(** C22: a call of the parser on any buffer, from any context whose request
    is not complete, either fails an assertion, which it does exactly when the
    method is set already (by an earlier call that refused the start line) and
    a line with a space has arrived, or returns: the loop ends within the fuel
    and no access is out of range.  When it returns, it has the whole request
    and the buffer is empty; or it needs more bytes and has consumed whole
    lines only; or it refused the start line and consumed nothing. *)
Theorem parseRequest_total t c buf :
  buffer_ok buf -> request_ok (request_ c) -> state_ c <> kGotAll ->
  if refused_again c (toStringView buf) then parseRequest t c buf = Some (Err AssertFail)
  else exists ok c' buf',
    parseRequest t c buf = Some (Ok (ok, c', buf')) /\
    buffer_ok buf' /\ buffer_ buf' = buffer_ buf /\
    call_post c (toStringView buf) ok c' (toStringView buf').
Proof.
  intros Hb Hr Hg.
  destruct (decide (state_ c = kExpectRequestLine /\ method_ (request_ c) <> kInvalid)) as [[Hs Hm]|Hno].
  - pose proof (vparse_refused t c (toStringView buf) Hr Hs Hm) as Hv.
    pose proof (parseRequest_view t c buf Hb) as Hsame. unfold same_result in Hsame.
    destruct (refused_again c (toStringView buf)); [by rewrite Hv in Hsame|].
    destruct Hv as (ok & Hv & Hpost). rewrite Hv in Hsame. destruct Hsame as (buf' & H1 & H2 & H3 & H4).
    exists ok, c, buf'. by rewrite H3.
  - assert (context_ok c) as Hc.
    { split; [done|]. split; [done|]. intros Hs. destruct (decide (method_ (request_ c) = kInvalid)); tauto. }
    rewrite (refused_again_ok _ _ Hc).
    destruct (vparseRequest_post t c buf Hb Hc) as (ok & c' & buf' & H1 & H2 & H3 & _ & H5 & H6).
    exists ok, c', buf'. split; [done|]. split; [done|]. split; [done|]. split; [done|].
    destruct ok; [|done]. destruct H6 as [|(Hc' & H6)]; [by left|right]. split; [by destruct Hc' as (_ & ? & _)|].
    by split.
Qed.

(** The server's first call, and the call after a refused start line. *)
Definition refused_context : HttpContext :=
  mkHttpContext kExpectRequestLine (mkHttpRequest kGet kUnknown [] [] 0 [] []).

Lemma parseRequest_total_witness :
  let buf := buffer_of (lit "GET / HTTP/1.1" ++ kCRLF ++ lit "Host: a" ++ kCRLF ++ lit "Acc") in
  buffer_ok buf /\ request_ok (request_ HttpContext_ctor) /\ request_ok (request_ refused_context) /\
  (exists ok c' buf',
    parseRequest 7 HttpContext_ctor buf = Some (Ok (ok, c', buf')) /\
    buffer_ok buf' /\ buffer_ buf' = buffer_ buf /\
    call_post HttpContext_ctor (toStringView buf) ok c' (toStringView buf')) /\
  parseRequest 7 refused_context buf = Some (Err AssertFail).
Proof.
  cbn zeta. set (buf := buffer_of _). assert (buffer_ok buf) as Hb by decide_now.
  assert (request_ok (request_ refused_context)) as Hr by (split; constructor).
  split; [done|]. split; [apply HttpRequest_ctor_ok|]. split; [done|]. split.
  - apply (parseRequest_total 7 HttpContext_ctor buf); [done|apply HttpRequest_ctor_ok|done].
  - apply (parseRequest_total 7 refused_context buf); [done|done|done].
Defined.

(** In state [kGotAll] the loop of the parser never ends, whatever the
    buffer holds: the server must reset the context after every request. *)
Theorem parse_loop_gotAll_diverges t fuel ok c buf :
  state_ c = kGotAll -> parse_loop t fuel ok true c buf = None.
Proof.
  intros Hs. revert ok. induction fuel as [|fuel IH]; intros ok; [done|].
  cbn [parse_loop negb]. unfold parse_body. by rewrite Hs.
Qed.

Lemma parse_loop_gotAll_diverges_witness :
  state_ (mkHttpContext kGotAll HttpRequest_ctor) = kGotAll /\
  parse_loop 7 1000 true true (mkHttpContext kGotAll HttpRequest_ctor) (buffer_of []) = None.
Proof. split; [done | by apply parse_loop_gotAll_diverges]. Defined.

(** C28: the start line is accepted exactly when it is a supported method, a
    space, a path and an optional query without spaces, a space and HTTP/1.0
    or HTTP/1.1; the request then holds those fields, the query with its
    question mark. *)
Theorem processRequestLine_grammar r line r' :
  method_ r = kInvalid ->
  processRequestLine r line = Ok (true, r') <->
  exists l, start_ok l /\ line = render_start l /\ r' = apply_start r l.
Proof.
  intros Hm. rewrite processRequestLine_eq, parse_start_grammar. tauto.
Qed.

Lemma processRequestLine_grammar_witness :
  let line := lit "GET /a?x=1 HTTP/1.0" in
  let l := mkStartLine kGet (lit "/a") (lit "?x=1") kHttp1_0 in
  method_ HttpRequest_ctor = kInvalid /\ start_ok l /\
  processRequestLine HttpRequest_ctor line = Ok (true, apply_start HttpRequest_ctor l).
Proof.
  cbn zeta. assert (start_ok (mkStartLine kGet (lit "/a") (lit "?x=1") kHttp1_0)) as Hok.
  { repeat split; [done | done | decide_now..]. }
  split; [done|]. split; [done|]. apply processRequestLine_grammar; [done|].
  by eexists.
Defined.

(** C8: the parser does not depend on how the network splits the start line
    and the headers: parsing what has arrived, then the rest together with what
    was left, gives what parsing everything at once gives. *)
Theorem parseRequest_split t c buf d c1 buf1 buf2 bufd :
  buffer_ok buf -> context_ok c -> zlen (buffer_ buf) + zlen d <= max_size ->
  parseRequest t c buf = Some (Ok (true, c1, buf1)) -> state_ c1 <> kGotAll ->
  append buf1 d = Ok buf2 -> append buf d = Ok bufd ->
  exists ok c2 b2 b2',
    parseRequest t c1 buf2 = Some (Ok (ok, c2, b2)) /\
    parseRequest t c bufd = Some (Ok (ok, c2, b2')) /\
    toStringView b2 = toStringView b2'.
Proof.
  intros Hb Hc Hmax H1 Hs Ha1 Ha2.
  destruct (vparseRequest_post t c buf Hb Hc) as (ok1 & c1' & b1' & H1' & Hb1 & Hbuf & Hv1 & Hp1).
  rewrite H1 in H1'. injection H1' as <- <- <-.
  destruct Hp1 as (_ & [[? _]|(Hc1 & _)]); [done|].
  destruct (append_ok buf1 d) as (? & Ha1' & Hb2 & Hview2 & _); [done | rewrite <- Hbuf in Hmax; buf_lia |].
  rewrite Ha1 in Ha1'. injection Ha1' as <-.
  destruct (append_ok buf d) as (? & Ha2' & Hbd & Hviewd & _); [done | buf_lia |].
  rewrite Ha2 in Ha2'. injection Ha2' as <-.
  destruct (vparseRequest_post t c1 buf2 Hb2 Hc1) as (ok & c2 & b2 & H2 & _ & _ & Hv2 & _).
  destruct (vparseRequest_post t c bufd Hbd Hc) as (ok' & c2' & b2' & H2' & _ & _ & Hv2' & _).
  unfold vparseRequest in *. rewrite Hview2 in Hv2. rewrite Hviewd in Hv2'.
  pose proof (vparse_app _ _ _ _ _ _ _ _ _ Hv1 Hs Hv2) as Hall.
  pose proof (vparse_fuel _ _ _ _ _ _ _ _ _ Hall Hv2') as [= <- <- Hview].
  by exists ok, c2, b2, b2'.
Qed.

Lemma parseRequest_split_witness :
  exists c1 buf1 buf2 bufd,
    buffer_ok split_example /\ context_ok HttpContext_ctor /\
    parseRequest 7 HttpContext_ctor split_example = Some (Ok (true, c1, buf1)) /\
    state_ c1 <> kGotAll /\ append buf1 (lit "st") = Ok buf2 /\
    append split_example (lit "st") = Ok bufd /\
    exists ok c2 b2 b2',
      parseRequest 7 c1 buf2 = Some (Ok (ok, c2, b2)) /\
      parseRequest 7 HttpContext_ctor bufd = Some (Ok (ok, c2, b2')) /\
      toStringView b2 = toStringView b2'.
Proof.
  eexists _, _, _, _. split; [decide_now|]. split; [apply HttpContext_ctor_ok|].
  split; [vm_compute; reflexivity|]. split; [done|].
  split; [vm_compute; reflexivity|]. split; [vm_compute; reflexivity|].
  eapply (parseRequest_split 7 HttpContext_ctor split_example (lit "st"));
    [decide_now | apply HttpContext_ctor_ok | decide_now | vm_compute; reflexivity | done
    | vm_compute; reflexivity | vm_compute; reflexivity].
Defined.

(** The value of the last field of a name on the wire. *)
Definition last_field (k : bytes) (fs : list (bytes * bytes)) : option bytes :=
  snd <$> last (filter (fun f => f.1 = k) fs).

(** What is kept of the bytes [v] after the colon: what precedes the first
    whitespace is lost, that whitespace is kept, and the whitespace at the end
    is lost. *)
Definition kept (v s : bytes) : Prop :=
  exists p q, v = p ++ s ++ q /\ Forall (fun b => isspace b = false) p /\
    Forall (fun b => isspace b = true) q /\
    (s = [] \/ exists b s', s = b :: s' /\ isspace b = true) /\
    (s = [] \/ exists s' b, s = s' ++ [b] /\ isspace b = false).

Lemma stored_value_kept v : kept v (stored_value v).
Proof.
  unfold stored_value. destruct (skip_nonspace_spec v) as (p & Hp & Hf & Hh).
  destruct (trim_right_spec (skip_nonspace v)) as (q & Hq & Hqs & Hl).
  set (s := trim_right (skip_nonspace v)) in *. exists p, q. split; [by rewrite <- Hq|].
  split; [done|]. split; [done|]. split.
  - destruct s as [|b s']; [by left|right]. rewrite Hq in Hh. by exists b, s'.
  - destruct (decide (s = [])) as [|Hne]; [by left|right].
    destruct (exists_last Hne) as (u & b & Hu). exists u, b. split; [done|]. by rewrite Hu, reverse_snoc in Hl.
Qed.

Lemma last_field_snoc k fs f : last_field k (fs ++ [f]) = if decide (f.1 = k) then Some f.2 else last_field k fs.
Proof.
  unfold last_field. rewrite filter_app. case_decide as Hk.
  - rewrite (filter_cons_True _ f []) by done. by rewrite last_app.
  - rewrite (filter_cons_False _ f []) by done. by rewrite app_nil_r.
Qed.

Lemma getHeader_parsed t w k :
  getHeader (parsed_request t w) k =
    match last_field k (w_headers w) with Some v => stored_value v | None => [] end.
Proof.
  unfold getHeader, parsed_request. cbn [headers_]. generalize (w_headers w). intros fs.
  induction fs as [|f fs IH] using rev_ind; [done|].
  rewrite last_field_snoc. unfold add_headers in *. rewrite fold_left_app. cbn [fold_left]. case_decide as Hk.
  - rewrite <- Hk. by rewrite map_find_assign_eq.
  - by rewrite map_find_assign_ne.
Qed.

(** C3: a request whose bytes have all arrived is read back: method, version,
    path, query and body are those on the wire, and the buffer is empty.  A
    header is looked up by the last field of its name, but its value is not
    read back: of the bytes after the colon only [kept] is returned, so that
    [Host:x] gives an empty value and [Host: x] gives [x] with the space before
    it, where the unit test of the source expects [x]. *)
Theorem parseRequest_fields t w buf :
  buffer_ok buf -> wire_ok w -> toStringView buf = render_request w ->
  exists r buf', parseRequest t HttpContext_ctor buf = Some (Ok (true, mkHttpContext kGotAll r, buf')) /\
    buffer_ok buf' /\ toStringView buf' = [] /\
    method_ r = sl_method (w_start w) /\ version_ r = sl_version (w_start w) /\
    path_ r = sl_path (w_start w) /\ query_ r = sl_query (w_start w) /\
    receiveTime_ r = t /\ body_ r = w_body w /\
    forall k, match last_field k (w_headers w) with
              | Some v => kept v (getHeader r k)
              | None => getHeader r k = []
              end.
Proof.
  intros Hb Hw Hv. destruct (parseRequest_wire t w buf Hb Hw Hv) as (buf' & H1 & H2 & H3).
  exists (parsed_request t w), buf'. do 9 (split; [done|]). intros k. rewrite getHeader_parsed.
  destruct (last_field k (w_headers w)); [apply stored_value_kept | done].
Qed.

Lemma parseRequest_fields_witness :
  let buf := buffer_of (render_request wire_example) in
  buffer_ok buf /\ wire_ok wire_example /\ toStringView buf = render_request wire_example /\
  exists r buf', parseRequest 7 HttpContext_ctor buf = Some (Ok (true, mkHttpContext kGotAll r, buf')) /\
    toStringView buf' = [] /\ method_ r = kPost /\ path_ r = lit "/form" /\ query_ r = lit "?q" /\
    body_ r = lit "data" /\ kept (lit " 1 ") (getHeader r (lit "X")) /\
    kept (lit "nospace") (getHeader r (lit "Host")) /\ getHeader r (lit "Y") = [].
Proof.
  cbn zeta. pose proof wire_example_ok as Hw.
  split; [decide_now|]. split; [done|]. split; [vm_compute; reflexivity|].
  destruct (parseRequest_fields 7 wire_example (buffer_of (render_request wire_example)))
    as (r & buf' & H1 & _ & H3 & H4 & _ & H6 & H7 & _ & H9 & H10);
    [decide_now | done | vm_compute; reflexivity|].
  exists r, buf'. split; [exact H1|]. split; [exact H3|]. split; [exact H4|]. split; [exact H6|].
  split; [exact H7|]. split; [exact H9|]. split; [exact (H10 (lit "X"))|].
  split; [exact (H10 (lit "Host")) | exact (H10 (lit "Y"))].
Defined.

(** The request of the source's unit test. *)
Example unittest_host :
  let buf := buffer_of (lit "GET /index.html HTTP/1.1" ++ kCRLF ++ lit "Host: www.baidu.com" ++ kCRLF ++ kCRLF) in
  match parseRequest 7 HttpContext_ctor buf with
  | Some (Ok (ok, c, _)) => ok = true /\ getHeader (request_ c) (lit "Host") = lit " www.baidu.com"
  | _ => False
  end.
Proof. vm_compute. done. Qed.
