(* ===== verification/HttpResponse.v ===== *)
(** * HTTP responses: tmuduo/net/http/HttpResponse.h and HttpResponse.cc *)

From S2P Require Import Prelude StdContainers Format Buffer.

(** ** Data *)

Inductive HttpStatusCode :=
| kUnknownStatus | k200Ok | k301MovedPermanently | k400BadRequest | k404NotFound.

(** The values of the enumerators. *)
Definition status_value (c : HttpStatusCode) : Z :=
  match c with
  | kUnknownStatus => 0
  | k200Ok => 200
  | k301MovedPermanently => 301
  | k400BadRequest => 400
  | k404NotFound => 404
  end.

Record HttpResponse := mkHttpResponse {
  headers_ : list (bytes * bytes);
  statusCode_ : HttpStatusCode;
  statusMessage_ : bytes;
  closeConnection_ : bool;
  body_ : bytes
}.

Definition HttpResponse_ctor (close : bool) : HttpResponse :=
  mkHttpResponse [] kUnknownStatus [] close [].

(** ** Operations *)

Definition setStatusCode (r : HttpResponse) (code : HttpStatusCode) : HttpResponse :=
  mkHttpResponse (headers_ r) code (statusMessage_ r) (closeConnection_ r) (body_ r).
Definition setStatusMessage (r : HttpResponse) (m : bytes) : HttpResponse :=
  mkHttpResponse (headers_ r) (statusCode_ r) m (closeConnection_ r) (body_ r).
Definition setCloseConnection (r : HttpResponse) (on : bool) : HttpResponse :=
  mkHttpResponse (headers_ r) (statusCode_ r) (statusMessage_ r) on (body_ r).
Definition isCloseConnection (r : HttpResponse) : bool := closeConnection_ r.
Definition addHeader (r : HttpResponse) (key value : bytes) : HttpResponse :=
  mkHttpResponse (map_assign key value (headers_ r)) (statusCode_ r) (statusMessage_ r)
    (closeConnection_ r) (body_ r).
Definition setContentType (r : HttpResponse) (contentType : bytes) : HttpResponse :=
  addHeader r (lit "Content-Type") contentType.
Definition setBody (r : HttpResponse) (b : bytes) : HttpResponse :=
  mkHttpResponse (headers_ r) (statusCode_ r) (statusMessage_ r) (closeConnection_ r) b.

(** The loop over the headers. *)
Fixpoint append_headers (output : Buffer) (hs : list (bytes * bytes)) : res Buffer :=
  match hs with
  | [] => Ok output
  | (key, value) :: hs =>
      output ← append output key;
      output ← append output (lit ": ");
      output ← append output value;
      output ← append output kCRLF;
      append_headers output hs
  end.

Definition appendToBuffer (r : HttpResponse) (output : Buffer) : res Buffer :=
  let buf := snprintf 32 (lit "HTTP/1.1 " ++ print_d (status_value (statusCode_ r)) ++ lit " ") in
  output ← append output buf;
  output ← append output (statusMessage_ r);
  output ← append output kCRLF;
  output ← (if closeConnection_ r
            then append output (lit "Connection: close" ++ kCRLF)
            else
              let buf := snprintf 32 (lit "Content-Length: " ++ print_d (zlen (body_ r)) ++ kCRLF) in
              output ← append output buf;
              append output (lit "Connection: keep-Alive" ++ kCRLF));
  output ← append_headers output (headers_ r);
  output ← append output kCRLF;
  append output (body_ r).

(** ** The specification: the bytes of a response *)

Definition render_field (h : bytes * bytes) : bytes := h.1 ++ lit ": " ++ h.2 ++ kCRLF.

Definition status_line (r : HttpResponse) : bytes :=
  lit "HTTP/1.1 " ++ print_d (status_value (statusCode_ r)) ++ lit " " ++ statusMessage_ r.

(** The headers the code adds itself. *)
Definition connection_fields (r : HttpResponse) : list (bytes * bytes) :=
  if closeConnection_ r then [(lit "Connection", lit "close")]
  else [(lit "Content-Length", print_d (zlen (body_ r))); (lit "Connection", lit "keep-Alive")].

Definition render_response (r : HttpResponse) : bytes :=
  status_line r ++ kCRLF ++
  concat (map render_field (connection_fields r ++ headers_ r)) ++ kCRLF ++ body_ r.

(** ** Lemmas *)

Lemma status_fits c :
  snprintf 32 (lit "HTTP/1.1 " ++ print_d (status_value c) ++ lit " ") =
  lit "HTTP/1.1 " ++ print_d (status_value c) ++ lit " ".
Proof. by destruct c. Qed.

(** The buffer of 32 characters holds the length of a body of up to 13 digits. *)
Lemma length_fits n :
  0 <= n < 10 ^ 13 ->
  snprintf 32 (lit "Content-Length: " ++ print_d n ++ kCRLF) =
  lit "Content-Length: " ++ print_d n ++ kCRLF.
Proof.
  intros Hn. apply snprintf_fits. unfold print_d. rewrite (proj2 (Z.ltb_ge _ _)) by lia.
  pose proof (print_u_length 13 n Hn (Nat.lt_0_succ _)).
  rewrite !length_app. change (length (lit "Content-Length: ")) with 16%nat.
  change (length kCRLF) with 2%nat. lia.
Qed.

Lemma append_headers_grows hs output :
  buffer_ok output -> zlen (buffer_ output) + zlen (concat (map render_field hs)) <= max_size ->
  exists b', append_headers output hs = Ok b' /\
    grows output b' (concat (map render_field hs)).
Proof.
  revert output. induction hs as [|[k v] hs IH]; intros output Hb Hm.
  - exists output. split; [done | by apply grows_refl].
  - cbn [map concat append_headers] in *. unfold render_field at 1. unfold render_field at 1 in Hm.
    cbn [fst snd] in *. rewrite <- !app_assoc in *.
    do 4 (apply append_bind; [done..|]; clear output Hb Hm; intros output Hb Hm). by apply IH.
Qed.

Lemma bind_grows m k b d e :
  (exists b1, m = Ok b1 /\ grows b b1 d) ->
  zlen (buffer_ b) + zlen (d ++ e) <= max_size ->
  (forall b1, buffer_ok b1 -> zlen (buffer_ b1) + zlen e <= max_size ->
     exists b', k b1 = Ok b' /\ grows b1 b' e) ->
  exists b', m ≫= k = Ok b' /\ grows b b' (d ++ e).
Proof.
  intros (b1 & -> & Hg) Hm Hk. rewrite zlen_app in Hm.
  destruct (Hk b1) as (b' & Hk1 & Hg'); [apply Hg | destruct Hg as (_ & _ & ?); lia |].
  exists b'. split; [done|]. by eapply grows_trans.
Qed.

Lemma render_chunks r :
  render_response r =
  (lit "HTTP/1.1 " ++ print_d (status_value (statusCode_ r)) ++ lit " ") ++ statusMessage_ r ++
  kCRLF ++ concat (map render_field (connection_fields r)) ++
  concat (map render_field (headers_ r)) ++ kCRLF ++ body_ r.
Proof.
  unfold render_response, status_line. by rewrite map_app, concat_app, <- !app_assoc.
Qed.

(** The branch on [closeConnection_]. *)
Lemma connection_grows r output :
  buffer_ok output -> zlen (body_ r) < 10 ^ 13 ->
  zlen (buffer_ output) + zlen (concat (map render_field (connection_fields r))) <= max_size ->
  exists b', (if closeConnection_ r
              then append output (lit "Connection: close" ++ kCRLF)
              else
                output ← append output
                  (snprintf 32 (lit "Content-Length: " ++ print_d (zlen (body_ r)) ++ kCRLF));
                append output (lit "Connection: keep-Alive" ++ kCRLF)) = Ok b' /\
    grows output b' (concat (map render_field (connection_fields r))).
Proof.
  intros Hb Hbody Hm. pose proof (zlen_nonneg (body_ r)). unfold connection_fields in *.
  destruct (closeConnection_ r).
  - by apply append_grows.
  - rewrite length_fits by lia. cbn [map concat] in *. rewrite app_nil_r in *.
    replace (render_field (lit "Content-Length", print_d (zlen (body_ r))))
      with (lit "Content-Length: " ++ print_d (zlen (body_ r)) ++ kCRLF) in * by done.
    apply append_bind; [done..|]. intros b1 Hb1 Hm1. by apply append_grows.
Qed.

Lemma appendToBuffer_grows r output :
  buffer_ok output -> zlen (body_ r) < 10 ^ 13 ->
  zlen (buffer_ output) + zlen (render_response r) <= max_size ->
  exists output', appendToBuffer r output = Ok output' /\ grows output output' (render_response r).
Proof.
  intros Hb Hbody. rewrite render_chunks. intros Hm. unfold appendToBuffer. rewrite status_fits.
  do 3 (apply append_bind; [done..|]; clear output Hb Hm; intros output Hb Hm).
  apply bind_grows; [|done|].
  { apply connection_grows; [done..|]. rewrite zlen_app in Hm.
    pose proof (zlen_nonneg (concat (map render_field (headers_ r)) ++ kCRLF ++ body_ r)). lia. }
  clear output Hb Hm. intros output Hb Hm. apply bind_grows; [|done|].
  { apply append_headers_grows; [done..|]. rewrite zlen_app in Hm.
    pose proof (zlen_nonneg (kCRLF ++ body_ r)). lia. }
  clear output Hb Hm. intros output Hb Hm. apply append_bind; [done..|].
  intros b1 Hb1 Hm1. by apply append_grows.
Qed.

(** ** Reading a response back *)

(** A header field: what precedes the colon, and what follows the space. *)
Definition read_field (line : bytes) : option (bytes * bytes) :=
  '(key, v) ← cut COLON line; Some (key, drop 1 v).

(** The fields up to the blank line, and the rest. *)
Fixpoint read_fields (fuel : nat) (v : bytes) : option (list (bytes * bytes) * bytes) :=
  match fuel with
  | O => None
  | S fuel =>
      '(line, rest) ← split_line v;
      match line with
      | [] => Some ([], rest)
      | _ => f ← read_field line; '(fs, body) ← read_fields fuel rest; Some (f :: fs, body)
      end
  end.

(** Status line, fields and body, as a client splits them. *)
Definition read_response (v : bytes) : option (bytes * list (bytes * bytes) * bytes) :=
  '(line, rest) ← split_line v;
  '(fs, body) ← read_fields (length v) rest;
  Some (line, fs, body).

Definition field_ok (h : bytes * bytes) : Prop :=
  (COLON ∉ h.1) /\ (CR ∉ h.1) /\ (CR ∉ h.2).

Definition response_ok (r : HttpResponse) : Prop :=
  (CR ∉ statusMessage_ r) /\ Forall field_ok (headers_ r) /\ zlen (body_ r) < 10 ^ 13.

Lemma print_u_not_in b n : ~ 48 <= b2z b < 58 -> b ∉ print_u n.
Proof.
  intros Hb Hin. pose proof (print_u_digits n) as Hd. rewrite Forall_forall in Hd. by apply Hb, Hd.
Qed.

Lemma connection_fields_ok r : Forall field_ok (connection_fields r).
Proof.
  unfold connection_fields. destruct (closeConnection_ r);
    repeat (constructor; [repeat split; try decide_now|]); try constructor.
  cbn [snd]. unfold print_d. pose proof (zlen_nonneg (body_ r)).
  rewrite (proj2 (Z.ltb_ge _ _)) by lia. apply print_u_not_in. by vm_compute; intros [].
Qed.

Lemma read_fields_render hs body fuel :
  Forall field_ok hs -> (length hs < fuel)%nat ->
  read_fields fuel (concat (map render_field hs) ++ kCRLF ++ body) = Some (hs, body).
Proof.
  revert fuel. induction hs as [|[k v] hs IH]; intros [|fuel] Hhs Hf; cbn in Hf; try lia.
  - cbn [map concat app read_fields]. by rewrite split_line_blank.
  - apply Forall_cons in Hhs as [(Hc & H1 & H2) Hhs]. cbn [fst snd] in *.
    cbn [map concat read_fields]. unfold render_field at 1. cbn [fst snd]. rewrite <- !app_assoc.
    replace (k ++ lit ": " ++ v ++ kCRLF ++ concat (map render_field hs) ++ kCRLF ++ body)
      with ((k ++ COLON :: SP :: v) ++ kCRLF ++ concat (map render_field hs) ++ kCRLF ++ body)
      by (by rewrite <- app_assoc).
    rewrite split_line_hit.
    + cbn [mbind option_bind]. unfold read_field. rewrite cut_hit by done.
      destruct (k ++ COLON :: SP :: v) eqn:E; [by destruct k|].
      cbn [mbind option_bind]. rewrite IH by (done || lia). done.
    + rewrite elem_of_app, !elem_of_cons. intros [?|[?|[?|?]]]; done.
Qed.

Lemma render_fields_length hs : (length hs <= length (concat (map render_field hs)))%nat.
Proof.
  induction hs as [|h hs IH]; cbn [map concat length]; [lia|].
  rewrite length_app. unfold render_field at 1. rewrite !length_app.
  change (length kCRLF) with 2%nat. lia.
Qed.

(** ** Properties *)

(** C29: a response appends its status line, the connection headers, its own
    headers in key order, a blank line and the body to the buffer, whatever it
    held; a client that splits at CR LF reads back the same fields and body,
    and the announced Content-Length of a kept connection is that of the body. *)
Theorem appendToBuffer_framing r output :
  buffer_ok output -> response_ok r ->
  zlen (buffer_ output) + zlen (render_response r) <= max_size ->
  exists output', appendToBuffer r output = Ok output' /\ buffer_ok output' /\
    toStringView output' = toStringView output ++ render_response r /\
    read_response (render_response r) =
      Some (status_line r, connection_fields r ++ headers_ r, body_ r) /\
    (closeConnection_ r = false ->
     exists s, In (lit "Content-Length", s) (connection_fields r) /\ dec_value s = zlen (body_ r)).
Proof.
  intros Hb (Hmsg & Hhs & Hbody) Hm.
  destruct (appendToBuffer_grows r output) as (output' & Ha & Hok & Hv & _); [done..|].
  exists output'. split; [done|]. split; [done|]. split; [done|]. split.
  - unfold read_response, render_response. rewrite split_line_hit.
    + cbn [mbind option_bind]. rewrite read_fields_render; [done| |].
      * apply Forall_app. split; [apply connection_fields_ok | done].
      * pose proof (render_fields_length (connection_fields r ++ headers_ r)).
        rewrite (length_app (status_line r)), (length_app kCRLF), (length_app (concat _)).
        change (length kCRLF) with 2%nat. lia.
    + unfold status_line. rewrite !elem_of_app.
      intros [H|[H|[H|H]]]; [| |revert H; decide_now|done].
      * revert H. decide_now.
      * revert H. destruct (statusCode_ r); decide_now.
  - intros Hc. exists (print_d (zlen (body_ r))). unfold connection_fields. rewrite Hc.
    split; [by left|]. pose proof (zlen_nonneg (body_ r)). unfold print_d.
    rewrite (proj2 (Z.ltb_ge _ _)) by lia. by apply dec_value_print.
Qed.

Definition response_example : HttpResponse :=
  setBody (setContentType (setStatusMessage (setStatusCode (HttpResponse_ctor false) k200Ok)
    (lit "OK")) (lit "text/plain")) (lit "hello").

Lemma appendToBuffer_framing_witness :
  buffer_ok buffer_init /\ response_ok response_example /\
  exists output', appendToBuffer response_example buffer_init = Ok output' /\ buffer_ok output' /\
    toStringView output' = toStringView buffer_init ++ render_response response_example /\
    read_response (render_response response_example) =
      Some (status_line response_example,
            connection_fields response_example ++ headers_ response_example,
            body_ response_example) /\
    (closeConnection_ response_example = false ->
     exists s, In (lit "Content-Length", s) (connection_fields response_example) /\
       dec_value s = zlen (body_ response_example)).
Proof.
  assert (response_ok response_example) as Hr.
  { split; [decide_now|]. split; [|decide_now].
    repeat (constructor; [repeat split; decide_now|]). constructor. }
  split; [apply buffer_init_ok|]. split; [done|].
  apply appendToBuffer_framing; [apply buffer_init_ok | done | decide_now].
Defined.
