(* ===== verification/HttpServer.v ===== *)
(** * The HTTP server: tmuduo/net/http/HttpServer.cc

    What the server does with a connection is the list of the calls it makes
    on it; the application's [HttpCallback] is a parameter, a function from the
    request and the fresh response to the response it fills in. *)

From S2P Require Import Prelude StdContainers Buffer HttpRequest HttpContext.
From S2P Require HttpResponse.
Import HttpResponse(HttpResponse, HttpResponse_ctor, appendToBuffer, isCloseConnection,
  setStatusCode, setStatusMessage, setCloseConnection, k404NotFound, render_response,
  appendToBuffer_grows).

(** ** State and calls *)

(** [TcpConnection::send] and [TcpConnection::shutdown]. *)
Inductive conn_call :=
| CallSend (message : bytes)
| CallShutdown.

#[global] Instance conn_call_eq_dec : EqDecision conn_call.
Proof. solve_decision. Defined.

(** [detail::defaultHttpCallback]. *)
Definition defaultHttpCallback (_ : HttpRequest) (response : HttpResponse) : HttpResponse :=
  setCloseConnection
    (setStatusMessage (setStatusCode response k404NotFound) (lit "Not Found")) true.

(** Whether the server means to close: the local [close] of [onRequest]. *)
Definition close_of (req : HttpRequest) : bool :=
  let connection := getHeader req (lit "Connection") in
  bool_decide (connection = lit "close") ||
  (bool_decide (version_ req = kHttp1_0) && bool_decide (connection <> lit "Keep-Alive")).

(** The context of a connection is a [std::any], empty until it is set. *)
Definition onConnection (connected : bool) (context : option HttpContext) : option HttpContext :=
  if connected then Some HttpContext_ctor else context.

Definition bad_request : bytes := lit "HTTP/1.1 400 Bad Request" ++ kCRLF ++ kCRLF.

Section Server.
Context (httpCallback : HttpRequest -> HttpResponse -> HttpResponse).

Definition onRequest (req : HttpRequest) : res (list conn_call) :=
  let response := HttpResponse_ctor (close_of req) in
  let response := httpCallback req response in
  buf ← Buffer_ctor;
  buf ← appendToBuffer response buf;
  Ok (CallSend (toStringView buf) ::
      if isCloseConnection response then [CallShutdown] else []).

Definition onMessage (context : option HttpContext) (buf : Buffer) (receiveTime : Z) :
    option (res (HttpContext * Buffer * list conn_call)) :=
  match context with
  | None => Some (Err NullDereference)
  | Some c =>
      match parseRequest receiveTime c buf with
      | None => None
      | Some (Err e) => Some (Err e)
      | Some (Ok (ok, c, buf)) =>
          let calls := if ok : bool then [] else [CallSend bad_request; CallShutdown] in
          Some (if gotAll c
                then served ← onRequest (request_ c); Ok (reset c, buf, calls ++ served)
                else Ok (c, buf, calls))
      end
  end.

(** The application's responses fit in a buffer. *)
Definition responses_fit : Prop :=
  forall req close, let r := httpCallback req (HttpResponse_ctor close) in
  zlen (HttpResponse.body_ r) < 10 ^ 13 /\ 1032 + zlen (render_response r) <= max_size.

(** What a served request makes of the connection. *)
Definition answer (req : HttpRequest) : list conn_call :=
  let r := httpCallback req (HttpResponse_ctor (close_of req)) in
  CallSend (render_response r) :: if isCloseConnection r then [CallShutdown] else [].

Lemma onRequest_answer req : responses_fit -> onRequest req = Ok (answer req).
Proof.
  intros Hfit. destruct (Hfit req (close_of req)) as [Hbody Hmax].
  unfold onRequest, answer. rewrite Buffer_ctor_init. cbn [mbind res_bind].
  destruct (appendToBuffer_grows (httpCallback req (HttpResponse_ctor (close_of req))) buffer_init)
    as (out & -> & _ & Hv & _); [apply buffer_init_ok | done | exact Hmax |].
  cbn [mbind res_bind]. rewrite Hv. done.
Qed.
End Server.

(** ** Lemmas *)

(** No stored header value is a bare token: the loop of [addHeader] keeps the
    whitespace after the colon. *)
Lemma header_not_token req k b s :
  request_ok req -> isspace b = false -> getHeader req k <> b :: s.
Proof.
  intros Hr%(getHeader_ok req k) Hb Hk. rewrite Hk in Hr. unfold header_value_ok in Hr.
  by rewrite Hb in Hr.
Qed.

Lemma context_reset_ok c : context_ok (reset c).
Proof. split; [apply HttpRequest_ctor_ok | done]. Qed.

(** A refused start line that set the method cannot be parsed again. *)
Lemma parse_start_again r line r' :
  parse_start r line = Ok (false, r') -> method_ r = kInvalid -> method_ r' <> kInvalid ->
  parse_start r' line = Err AssertFail.
Proof.
  unfold parse_start. destruct (cut SP line) as [[m rest]|]; [|intros [= <-]; congruence].
  intros _ _ Hm. unfold setMethod. by rewrite (bool_decide_false (method_ _ = _)).
Qed.

(** The default callback's response is small. *)
Lemma default_fits : responses_fit defaultHttpCallback.
Proof. intros req close. split; decide_now. Qed.

(** ** Properties *)

(** The [Connection] header never decides anything: for every request
    the parser can produce, the server closes the connection exactly when the
    version is HTTP/1.0 (before the application's own choice), because the
    stored value is never "close" nor "Keep-Alive". *)
Theorem close_is_version req :
  request_ok req -> close_of req = bool_decide (version_ req = kHttp1_0).
Proof.
  intros Hr. unfold close_of.
  rewrite (bool_decide_false (_ = lit "close"))
    by exact (header_not_token req _ x63 (lit "lose") Hr eq_refl).
  rewrite (bool_decide_true (_ <> lit "Keep-Alive"))
    by exact (header_not_token req _ x4b (lit "eep-Alive") Hr eq_refl).
  by rewrite andb_true_r.
Qed.

Lemma close_is_version_witness :
  let req := request_ (header_line (mkHttpContext kExpectHeaders
               (setVersion HttpRequest_ctor kHttp1_1)) (lit "Connection: close")) in
  request_ok req /\ getHeader req (lit "Connection") = lit " close" /\
  close_of req = bool_decide (version_ req = kHttp1_0) /\ close_of req = false.
Proof.
  cbn zeta.
  assert (request_ok (request_ (header_line (mkHttpContext kExpectHeaders
            (setVersion HttpRequest_ctor kHttp1_1)) (lit "Connection: close")))) as Hr.
  { apply header_line_ok; [apply HttpRequest_ctor_ok | done]. }
  split; [done|]. split; [vm_compute; reflexivity|].
  rewrite (close_is_version _ Hr). split; [done | vm_compute; reflexivity].
Defined.

(** A whole request that arrives in one read on a fresh connection is
    served: the response the application made goes out, the connection is shut
    down when the response says so, the context is fresh again and the buffer
    is empty. *)
Theorem onMessage_serves cb t w buf :
  responses_fit cb -> buffer_ok buf -> wire_ok w -> toStringView buf = render_request w ->
  exists buf', onMessage cb (onConnection true None) buf t =
      Some (Ok (HttpContext_ctor, buf', answer cb (parsed_request t w))) /\
    buffer_ok buf' /\ toStringView buf' = [].
Proof.
  intros Hfit Hb Hw Hv. destruct (parseRequest_wire t w buf Hb Hw Hv) as (buf' & Hp & ? & ?).
  exists buf'. split; [|done]. unfold onMessage, onConnection. rewrite Hp. cbn [gotAll state_].
  rewrite onRequest_answer by done. done.
Qed.

Lemma onMessage_serves_witness :
  let buf := buffer_of (render_request wire_example) in
  responses_fit defaultHttpCallback /\ buffer_ok buf /\ wire_ok wire_example /\
  toStringView buf = render_request wire_example /\
  exists buf', onMessage defaultHttpCallback (onConnection true None) buf 7 =
      Some (Ok (HttpContext_ctor, buf',
                answer defaultHttpCallback (parsed_request 7 wire_example))) /\
    buffer_ok buf' /\ toStringView buf' = [].
Proof.
  cbn zeta. split; [apply default_fits|]. split; [decide_now|].
  split; [apply wire_example_ok|]. split; [vm_compute; reflexivity|].
  apply onMessage_serves; [apply default_fits | decide_now | apply wire_example_ok
    | vm_compute; reflexivity].
Defined.

(** A message on a connection whose context is as the parser needs it is
    handled without a failure and without a hang: either the context stays so,
    and nothing is sent or a request is answered, or the start line was
    malformed and the connection is answered with 400 and shut down. *)
Theorem onMessage_safe cb t c buf :
  responses_fit cb -> buffer_ok buf -> context_ok c ->
  exists c' buf' calls,
    onMessage cb (Some c) buf t = Some (Ok (c', buf', calls)) /\ buffer_ok buf' /\
    (context_ok c' /\ (calls = [] \/ exists req, request_ok req /\ calls = answer cb req) \/
     calls = [CallSend bad_request; CallShutdown] /\ toStringView buf' = toStringView buf).
Proof.
  intros Hfit Hb Hc.
  destruct (vparseRequest_post t c buf Hb Hc) as (ok & c' & buf' & Hp & Hb' & _ & _ & Hr & Hpost).
  unfold onMessage. rewrite Hp. unfold gotAll. destruct ok.
  - destruct Hpost as [[Hs _]|(Hc' & _)].
    + rewrite Hs, bool_decide_true, onRequest_answer by done.
      eexists _, _, _. split; [done|]. split; [done|]. left. split; [apply context_reset_ok|].
      right. by exists (request_ c').
    + rewrite bool_decide_false by apply Hc'. eexists _, _, _. split; [done|]. split; [done|].
      left. auto.
  - destruct Hpost as [Hs Hv]. rewrite Hs, bool_decide_false by done.
    eexists _, _, _. split; [done|]. split; [done|]. by right.
Qed.

Lemma onMessage_safe_witness :
  responses_fit defaultHttpCallback /\ buffer_ok split_example /\ context_ok HttpContext_ctor /\
  exists c' buf' calls,
    onMessage defaultHttpCallback (Some HttpContext_ctor) split_example 7 =
      Some (Ok (c', buf', calls)) /\ buffer_ok buf' /\
    (context_ok c' /\
       (calls = [] \/ exists req, request_ok req /\ calls = answer defaultHttpCallback req) \/
     calls = [CallSend bad_request; CallShutdown] /\
       toStringView buf' = toStringView split_example).
Proof.
  split; [apply default_fits|]. split; [decide_now|]. split; [apply HttpContext_ctor_ok|].
  apply onMessage_safe; [apply default_fits | decide_now | apply HttpContext_ctor_ok].
Defined.

(** A start line with a known method that is malformed after it is
    answered with 400, but stays in the buffer with the method set: any further
    byte on the connection makes the assertion of [setMethod] abort the
    server. *)
Theorem bad_start_line_aborts cb t t' c buf line rest d r' :
  buffer_ok buf -> context_ok c -> state_ c = kExpectRequestLine ->
  zlen (buffer_ buf) + zlen d <= max_size ->
  split_line (toStringView buf) = Some (line, rest) ->
  processRequestLine (request_ c) line = Ok (false, r') -> method_ r' <> kInvalid ->
  exists c' buf' buf2,
    onMessage cb (Some c) buf t = Some (Ok (c', buf', [CallSend bad_request; CallShutdown])) /\
    append buf' d = Ok buf2 /\
    onMessage cb (Some c') buf2 t' = Some (Err AssertFail).
Proof.
  intros Hb Hc Hs Hmax Hl Hline Hm. rewrite processRequestLine_eq in Hline.
  pose proof (parseRequest_view t c buf Hb) as Hv1. unfold vparseRequest in Hv1.
  rewrite Nat.add_comm in Hv1. cbn [vparse negb Nat.add] in Hv1. unfold vstep in Hv1.
  rewrite Hs, Hl, processRequestLine_eq, Hline in Hv1. cbn [mbind res_bind vparse negb] in Hv1.
  destruct Hv1 as (buf' & Hp & Hb' & Hview & Hbuf).
  destruct (append_grows buf' d) as (buf2 & Ha & Hb2 & Hv2 & _); [done | by rewrite Hbuf |].
  eexists _, buf', buf2. split; [|split; [exact Ha|]].
  - unfold onMessage. rewrite Hp. done.
  - pose proof (parseRequest_view t' (mkHttpContext kExpectRequestLine r') buf2 Hb2) as Hv3.
    unfold vparseRequest in Hv3. rewrite Nat.add_comm in Hv3.
    cbn [vparse negb Nat.add] in Hv3. unfold vstep in Hv3. cbn [state_ request_] in Hv3.
    rewrite Hv2, Hview, (split_line_app _ _ _ d Hl), processRequestLine_eq in Hv3.
    rewrite (parse_start_again _ _ _ Hline) in Hv3 by (done || by apply Hc).
    unfold onMessage. by rewrite Hv3.
Qed.

Lemma bad_start_line_aborts_witness :
  let buf := buffer_of (lit "GET /" ++ kCRLF) in
  exists r', processRequestLine HttpRequest_ctor (lit "GET /") = Ok (false, r') /\
    method_ r' <> kInvalid /\
    exists c' buf' buf2,
      onMessage defaultHttpCallback (Some HttpContext_ctor) buf 7 =
        Some (Ok (c', buf', [CallSend bad_request; CallShutdown])) /\
      append buf' (lit "x") = Ok buf2 /\
      onMessage defaultHttpCallback (Some c') buf2 8 = Some (Err AssertFail).
Proof.
  cbn zeta. eexists. split; [vm_compute; reflexivity|]. split; [done|].
  eapply (bad_start_line_aborts defaultHttpCallback 7 8 HttpContext_ctor
            (buffer_of (lit "GET /" ++ kCRLF)) (lit "GET /") [] (lit "x"));
    [decide_now | apply HttpContext_ctor_ok | done | decide_now | vm_compute; reflexivity
    | vm_compute; reflexivity | done].
Defined.
