(* ===== verification/Channel.v ===== *)
(** * Channels: tmuduo/net/Channel.h and Channel.cc

    A channel is the interest of a loop in one descriptor, and the callbacks
    to run when it is ready.  Channels are shared by pointer (the pollers keep
    [Channel*]), so they live in a store.  The callbacks are given by whether
    they are set; [handleEvent] returns the ones it calls, in order.  The
    methods that go through the loop ([update], [remove], [enableReading] and
    its likes) are in EventLoop.v. *)

From S2P Require Import Prelude Format.

(** ** Events *)

Definition POLLIN : Z := 1.
Definition POLLPRI : Z := 2.
Definition POLLOUT : Z := 4.
Definition POLLERR : Z := 8.
Definition POLLHUP : Z := 16.
Definition POLLNVAL : Z := 32.
Definition POLLRDHUP : Z := 8192.

Definition kNoneEvent : Z := 0.
Definition kReadEvent : Z := Z.lor POLLIN POLLPRI.
Definition kWriteEvent : Z := POLLOUT.

(** [ev & mask] as a condition. *)
Definition has_event (ev mask : Z) : bool := negb (Z.land ev mask =? 0).

(** ** State *)

(** The loop a channel belongs to, by its address. *)
Record Channel := mkChannel {
  loop_ : Z;
  fd_ : Z;
  events_ : Z;
  revents_ : Z;
  index_ : Z;
  logHup_ : bool;
  (** [tied_] and whether [tie_.lock()] still finds the object. *)
  tied_ : bool;
  tie_alive : bool;
  eventHandling_ : bool;
  addedToLoop_ : bool;
  readCallback_ : bool;
  writeCallback_ : bool;
  closeCallback_ : bool;
  errorCallback_ : bool
}.

#[global] Instance Channel_eq_dec : EqDecision Channel.
Proof. solve_decision. Defined.

Definition Channel_ctor (loop fd : Z) : Channel :=
  mkChannel loop fd 0 0 (-1) true false false false false false false false false.

Definition setEvents (c : Channel) (ev : Z) : Channel :=
  mkChannel (loop_ c) (fd_ c) ev (revents_ c) (index_ c) (logHup_ c) (tied_ c) (tie_alive c)
    (eventHandling_ c) (addedToLoop_ c) (readCallback_ c) (writeCallback_ c) (closeCallback_ c)
    (errorCallback_ c).

Definition setRevents (c : Channel) (revt : Z) : Channel :=
  mkChannel (loop_ c) (fd_ c) (events_ c) revt (index_ c) (logHup_ c) (tied_ c) (tie_alive c)
    (eventHandling_ c) (addedToLoop_ c) (readCallback_ c) (writeCallback_ c) (closeCallback_ c)
    (errorCallback_ c).

Definition setIndex (c : Channel) (idx : Z) : Channel :=
  mkChannel (loop_ c) (fd_ c) (events_ c) (revents_ c) idx (logHup_ c) (tied_ c) (tie_alive c)
    (eventHandling_ c) (addedToLoop_ c) (readCallback_ c) (writeCallback_ c) (closeCallback_ c)
    (errorCallback_ c).

Definition setAddedToLoop (c : Channel) (b : bool) : Channel :=
  mkChannel (loop_ c) (fd_ c) (events_ c) (revents_ c) (index_ c) (logHup_ c) (tied_ c) (tie_alive c)
    (eventHandling_ c) b (readCallback_ c) (writeCallback_ c) (closeCallback_ c) (errorCallback_ c).

Definition setHandling (c : Channel) (b : bool) : Channel :=
  mkChannel (loop_ c) (fd_ c) (events_ c) (revents_ c) (index_ c) (logHup_ c) (tied_ c) (tie_alive c) b
    (addedToLoop_ c) (readCallback_ c) (writeCallback_ c) (closeCallback_ c) (errorCallback_ c).

Definition setCallbacks (c : Channel) (r w cl e : bool) : Channel :=
  mkChannel (loop_ c) (fd_ c) (events_ c) (revents_ c) (index_ c) (logHup_ c) (tied_ c) (tie_alive c)
    (eventHandling_ c) (addedToLoop_ c) r w cl e.

(** [tie]: the object is alive when it is tied. *)
Definition tie (c : Channel) : Channel :=
  mkChannel (loop_ c) (fd_ c) (events_ c) (revents_ c) (index_ c) (logHup_ c) true true
    (eventHandling_ c) (addedToLoop_ c) (readCallback_ c) (writeCallback_ c) (closeCallback_ c)
    (errorCallback_ c).

Definition doNotLogHup (c : Channel) : Channel :=
  mkChannel (loop_ c) (fd_ c) (events_ c) (revents_ c) (index_ c) false (tied_ c) (tie_alive c)
    (eventHandling_ c) (addedToLoop_ c) (readCallback_ c) (writeCallback_ c) (closeCallback_ c)
    (errorCallback_ c).

Definition isNoneEvent (c : Channel) : bool := events_ c =? kNoneEvent.
Definition isWriting (c : Channel) : bool := has_event (events_ c) kWriteEvent.
Definition isReading (c : Channel) : bool := has_event (events_ c) kReadEvent.

(** ** Dispatch *)

Inductive channel_callback := CbClose | CbError | CbRead (receiveTime : Z) | CbWrite.

#[global] Instance channel_callback_eq_dec : EqDecision channel_callback.
Proof. solve_decision. Defined.

Definition call_if (set : bool) (cb : channel_callback) : list channel_callback :=
  if set then [cb] else [].

Definition handleEventWithguard (c : Channel) (receiveTime : Z) : list channel_callback :=
  let r := revents_ c in
  (if has_event r POLLHUP && negb (has_event r POLLIN)
   then call_if (closeCallback_ c) CbClose else []) ++
  (if has_event r (Z.lor POLLERR POLLNVAL)
   then call_if (errorCallback_ c) CbError else []) ++
  (if has_event r (Z.lor (Z.lor POLLIN POLLPRI) POLLRDHUP)
   then call_if (readCallback_ c) (CbRead receiveTime) else []) ++
  (if has_event r POLLOUT
   then call_if (writeCallback_ c) CbWrite else []).

Definition handleEvent (c : Channel) (receiveTime : Z) : list channel_callback :=
  if tied_ c
  then (if tie_alive c then handleEventWithguard c receiveTime else [])
  else handleEventWithguard c receiveTime.

Definition eventsToString (fd ev : Z) : bytes :=
  print_d fd ++ lit " " ++
  (if has_event ev POLLIN then lit "IN " else []) ++
  (if has_event ev POLLPRI then lit "PRI " else []) ++
  (if has_event ev POLLOUT then lit "OUT " else []) ++
  (if has_event ev POLLHUP then lit "HUP " else []) ++
  (if has_event ev POLLRDHUP then lit "RDHUP " else []) ++
  (if has_event ev POLLERR then lit "ERR " else []) ++
  (if has_event ev POLLNVAL then lit "NVAL " else []).

(** ** The store of channels *)

Abbreviation ptr := Z (only parsing).
Abbreviation heap := (gmap Z Channel).

(** Reading through a [Channel*]. *)
Definition deref (h : heap) (p : ptr) : res Channel :=
  match h !! p with Some c => Ok c | None => Err UseAfterFree end.

(** ** Interest masks *)

(** The masks [enableReading] and its likes produce. *)
Definition interest_ok (ev : Z) : Prop := 0 <= ev < 8.

Definition enable (mask ev : Z) : Z := Z.lor ev mask.
Definition disable (mask ev : Z) : Z := Z.land ev (Z.lnot mask).

Lemma interest_cases (P : Z -> Prop) ev :
  interest_ok ev -> P 0 -> P 1 -> P 2 -> P 3 -> P 4 -> P 5 -> P 6 -> P 7 -> P ev.
Proof.
  unfold interest_ok. intros Hev. intros.
  assert (ev = 0 \/ ev = 1 \/ ev = 2 \/ ev = 3 \/ ev = 4 \/ ev = 5 \/ ev = 6 \/ ev = 7) as Hc by lia.
  by destruct Hc as [->|[->|[->|[->|[->|[->|[->| ->]]]]]]].
Qed.

Lemma enable_ok mask ev : interest_ok mask -> interest_ok ev -> interest_ok (enable mask ev).
Proof.
  intros Hm He. revert mask Hm. apply (interest_cases (fun ev => forall mask, interest_ok mask ->
    interest_ok (enable mask ev)) ev He); intros mask Hm;
    apply (interest_cases (fun mask => interest_ok (enable mask _)) mask Hm); decide_now.
Qed.

Lemma disable_ok mask ev : interest_ok mask -> interest_ok ev -> interest_ok (disable mask ev).
Proof.
  intros Hm He. revert mask Hm. apply (interest_cases (fun ev => forall mask, interest_ok mask ->
    interest_ok (disable mask ev)) ev He); intros mask Hm;
    apply (interest_cases (fun mask => interest_ok (disable mask _)) mask Hm); decide_now.
Qed.

(** Reading and writing interest are independent bits. *)
Lemma interest_bits ev :
  interest_ok ev ->
  has_event (enable kReadEvent ev) kReadEvent = true /\
  has_event (disable kReadEvent ev) kReadEvent = false /\
  has_event (enable kWriteEvent ev) kWriteEvent = true /\
  has_event (disable kWriteEvent ev) kWriteEvent = false /\
  has_event (enable kReadEvent ev) kWriteEvent = has_event ev kWriteEvent /\
  has_event (disable kReadEvent ev) kWriteEvent = has_event ev kWriteEvent /\
  has_event (enable kWriteEvent ev) kReadEvent = has_event ev kReadEvent /\
  has_event (disable kWriteEvent ev) kReadEvent = has_event ev kReadEvent.
Proof.
  intros He. pattern ev. apply interest_cases; [done | repeat split..].
Qed.
