(* ===== verification/Poller.v ===== *)
(** * The poller interface: tmuduo/net/Poller.h

    [Poller] has the virtual functions of the class, over the store of
    channels; [PollerLaws] is the contract the loop relies on.  EPollPoller.v
    gives both, PollPoller.v the operations and where they break the
    contract.  [in_loop] says whether the caller runs in the owner loop's
    thread. *)

From S2P Require Import Prelude Channel.

(** [assertInLoopThread]: [LOG_FATAL] aborts. *)
Definition assertInLoopThread (in_loop : bool) : res unit := guard_ FatalLog in_loop.

Class Poller (P : Type) := {
  (** What the polling system call returned. *)
  poll_ret : Type;
  poll : heap -> P -> poll_ret -> res (heap * P * list ptr);
  updateChannel : bool -> heap -> P -> ptr -> res (heap * P);
  removeChannel : bool -> heap -> P -> ptr -> res (heap * P);
  (** [channels_.find(fd)]. *)
  registered : P -> Z -> option ptr;
  (** The events the system call watches for a descriptor. *)
  watched : P -> Z -> Z
}.

(** What a poller reads of a channel. *)
Definition poll_view (c : Channel) : Z * Z * Z := (fd_ c, events_ c, index_ c).

Definition same_views (h h' : heap) : Prop := forall p, poll_view <$> h' !! p = poll_view <$> h !! p.

(** Only what the system call returned has changed. *)
Definition only_revents (h h' : heap) : Prop :=
  forall p c, h' !! p = Some c -> exists c0 r, h !! p = Some c0 /\ c = setRevents c0 r.

(** A function changed at one point. *)
Definition changed_at {A} (f g : Z -> A) (fd : Z) (v : A) : Prop :=
  g fd = v /\ forall fd', fd' <> fd -> g fd' = f fd'.

Class PollerLaws (P : Type) {PI : Poller P} := {
  poller_inv : heap -> P -> Prop;
  ready_ok : heap -> P -> poll_ret -> Prop;
  inv_views h h' s : poller_inv h s -> same_views h h' -> poller_inv h' s;
  inv_alloc h s p c :
    poller_inv h s -> h !! p = None -> index_ c = -1 -> poller_inv (<[p := c]> h) s;
  (** Updating a channel makes its mask the watched one. *)
  update_law h s p c ev :
    poller_inv h s -> h !! p = Some c -> interest_ok ev ->
    registered s (fd_ c) = None \/ registered s (fd_ c) = Some p ->
    exists i s', updateChannel true (<[p := setEvents c ev]> h) s p =
        Ok (<[p := setIndex (setEvents c ev) i]> h, s') /\
      poller_inv (<[p := setIndex (setEvents c ev) i]> h) s' /\
      changed_at (registered s) (registered s') (fd_ c) (Some p) /\
      changed_at (watched s) (watched s') (fd_ c) ev;
  (** Removing a channel that is not interested in anything forgets it. *)
  remove_law h s p c :
    poller_inv h s -> h !! p = Some c -> events_ c = 0 -> registered s (fd_ c) = Some p ->
    exists i s', removeChannel true h s p = Ok (<[p := setIndex c i]> h, s') /\
      poller_inv (<[p := setIndex c i]> h) s' /\ i = -1 /\
      changed_at (registered s) (registered s') (fd_ c) None /\
      changed_at (watched s) (watched s') (fd_ c) 0;
  (** What the system call reports reaches the channels. *)
  poll_law h s r :
    poller_inv h s -> ready_ok h s r ->
    exists h' s' active, poll h s r = Ok (h', s', active) /\
      poller_inv h' s' /\ same_views h h' /\
      (forall fd, registered s' fd = registered s fd) /\
      (forall fd, watched s' fd = watched s fd) /\
      forall p, p ∈ active ->
        exists c, h' !! p = Some c /\ registered s' (fd_ c) = Some p /\ revents_ c <> 0;
  poll_frame h s r h' s' active : poll h s r = Ok (h', s', active) -> only_revents h h'
}.

(** ** Lemmas *)

Lemma same_views_refl h : same_views h h.
Proof. done. Qed.

Lemma only_revents_refl h : only_revents h h.
Proof. intros p c Hp. exists c, (revents_ c). split; [done|by destruct c]. Qed.

Lemma only_revents_insert h h' p c r :
  h !! p = Some c -> only_revents (<[p := setRevents c r]> h) h' -> only_revents h h'.
Proof.
  intros Hp H q d Hq. destruct (H q d Hq) as (d0 & r' & Hd & ->).
  apply lookup_insert_Some in Hd as [[<- <-]|[_ Hd]]; [by exists c, r'|by exists d0, r'].
Qed.

Lemma same_views_trans h1 h2 h3 : same_views h1 h2 -> same_views h2 h3 -> same_views h1 h3.
Proof. intros H1 H2 p. by rewrite H2. Qed.

Lemma same_views_insert h p c c' :
  h !! p = Some c -> poll_view c' = poll_view c -> same_views h (<[p := c']> h).
Proof.
  intros Hp Hv q. destruct (decide (q = p)) as [->|Hne].
  - rewrite lookup_insert_eq, Hp. cbn. by rewrite Hv.
  - by rewrite lookup_insert_ne.
Qed.

(** A store reached by changes a poller does not see. *)
Lemma same_views_lookup h h' p c :
  same_views h h' -> h !! p = Some c -> exists c', h' !! p = Some c' /\ poll_view c' = poll_view c.
Proof.
  intros Hs Hp. specialize (Hs p). rewrite Hp in Hs. cbn in Hs.
  destruct (h' !! p) as [c'|]; [|done]. exists c'. split; [done|]. by apply (inj Some) in Hs.
Qed.

Lemma same_views_sym h h' : same_views h h' -> same_views h' h.
Proof. intros Hs p. by rewrite Hs. Qed.

#[export] Instance same_views_equiv : Equivalence same_views.
Proof.
  split; [exact same_views_refl | exact same_views_sym | exact same_views_trans].
Qed.

(** The invariant of a poller is stable under changes it does not see. *)
#[export] Instance poller_inv_proper {P} `{PollerLaws P} :
  Proper (same_views ==> eq ==> iff) poller_inv.
Proof.
  intros h h' Hs s _ <-. split; intros; eapply inv_views; eauto. by symmetry.
Qed.
