(* ===== verification/EPollPoller.v ===== *)
(** * The epoll poller: tmuduo/net/poller/EPollPoller.h and EPollPoller.cc

    The kernel's epoll instance is a parameter with what epoll_ctl(2)
    documents: adding a descriptor that is not in the interest list, changing
    and removing one that is, succeed and touch that entry only, and the other
    uses fail. *)

From S2P Require Import Prelude Channel Poller.

(** ** The kernel *)

Inductive epoll_op := EPOLL_CTL_ADD | EPOLL_CTL_DEL | EPOLL_CTL_MOD.

(** [epoll_ctl] returns -1 ([None]) or changes the interest list, which maps a
    descriptor to [event.events] and [event.data.ptr]. *)
Class EpollKernel (K : Type) := {
  epoll_ctl : K -> epoll_op -> Z -> Z * ptr -> option K;
  interest : K -> Z -> option (Z * ptr);
  ctl_add k fd e :
    interest k fd = None ->
    exists k', epoll_ctl k EPOLL_CTL_ADD fd e = Some k' /\
      changed_at (interest k) (interest k') fd (Some e);
  ctl_mod k fd e0 e :
    interest k fd = Some e0 ->
    exists k', epoll_ctl k EPOLL_CTL_MOD fd e = Some k' /\
      changed_at (interest k) (interest k') fd (Some e);
  ctl_del k fd e0 e :
    interest k fd = Some e0 ->
    exists k', epoll_ctl k EPOLL_CTL_DEL fd e = Some k' /\
      changed_at (interest k) (interest k') fd None;
  ctl_add_present k fd e0 e : interest k fd = Some e0 -> epoll_ctl k EPOLL_CTL_ADD fd e = None;
  ctl_mod_absent k fd e : interest k fd = None -> epoll_ctl k EPOLL_CTL_MOD fd e = None;
  ctl_del_absent k fd e : interest k fd = None -> epoll_ctl k EPOLL_CTL_DEL fd e = None
}.

(** ** State *)

Definition kNew : Z := -1.
Definition kAdded : Z := 1.
Definition kDeleted : Z := 2.
Definition kInitEventListSize : Z := 16.

Record EPollPoller (K : Type) := mkEPollPoller {
  epollfd_ : K;
  events_size : Z;
  channels_ : gmap Z ptr
}.
Arguments mkEPollPoller {K}.
Arguments epollfd_ {K}.
Arguments events_size {K}.
Arguments channels_ {K}.

Inductive wait_ret :=
| WaitErr (savedErrno : Z)
| WaitEvents (evs : list (Z * ptr)).

Section EPoll.
Context {K : Type} `{EpollKernel K}.
Implicit Types (s : EPollPoller K) (h : heap).

(** The constructor, on a fresh epoll instance. *)
Definition EPollPoller_ctor (k : K) : EPollPoller K :=
  mkEPollPoller k kInitEventListSize ∅.

(** [event.events] is 32 bits wide. *)
Definition update s (operation : epoll_op) (p : ptr) (channel : Channel) : res (EPollPoller K) :=
  let event := (wrapu 32 (events_ channel), p) in
  match epoll_ctl (epollfd_ s) operation (fd_ channel) event with
  | Some k => Ok (mkEPollPoller k (events_size s) (channels_ s))
  | None =>
      match operation with
      | EPOLL_CTL_DEL => Ok s
      | _ => Err FatalLog
      end
  end.

Definition epoll_updateChannel (in_loop : bool) h s (p : ptr) : res (heap * EPollPoller K) :=
  assertInLoopThread in_loop;;
  channel ← deref h p;
  let index := index_ channel in
  let fd := fd_ channel in
  if (index =? kNew) || (index =? kDeleted) then
    s ← (if index =? kNew
         then
           assert_ (bool_decide (channels_ s !! fd = None));;
           Ok (mkEPollPoller (epollfd_ s) (events_size s) (<[fd := p]> (channels_ s)))
         else
           assert_ (bool_decide (channels_ s !! fd <> None));;
           assert_ (bool_decide (channels_ s !! fd = Some p));;
           Ok s);
    let channel := setIndex channel kAdded in
    s ← update s EPOLL_CTL_ADD p channel;
    Ok (<[p := channel]> h, s)
  else
    assert_ (bool_decide (channels_ s !! fd <> None));;
    assert_ (bool_decide (channels_ s !! fd = Some p));;
    assert_ (index =? kAdded);;
    if isNoneEvent channel then
      s ← update s EPOLL_CTL_DEL p channel;
      Ok (<[p := setIndex channel kDeleted]> h, s)
    else
      s ← update s EPOLL_CTL_MOD p channel;
      Ok (h, s).

Definition epoll_removeChannel (in_loop : bool) h s (p : ptr) : res (heap * EPollPoller K) :=
  assertInLoopThread in_loop;;
  channel ← deref h p;
  let fd := fd_ channel in
  assert_ (bool_decide (channels_ s !! fd <> None));;
  assert_ (bool_decide (channels_ s !! fd = Some p));;
  assert_ (isNoneEvent channel);;
  let index := index_ channel in
  assert_ ((index =? kAdded) || (index =? kDeleted));;
  let s := mkEPollPoller (epollfd_ s) (events_size s) (delete fd (channels_ s)) in
  s ← (if index =? kAdded then update s EPOLL_CTL_DEL p channel else Ok s);
  Ok (<[p := setIndex channel kNew]> h, s).

(** The loop of [fillActiveChannels] over the returned events. *)
Fixpoint fill_loop h s (evs : list (Z * ptr)) : res (heap * list ptr) :=
  match evs with
  | [] => Ok (h, [])
  | (revents, p) :: evs =>
      channel ← deref h p;
      assert_ (bool_decide (channels_ s !! fd_ channel <> None));;
      assert_ (bool_decide (channels_ s !! fd_ channel = Some p));;
      '(h, active) ← fill_loop (<[p := setRevents channel revents]> h) s evs;
      Ok (h, p :: active)
  end.

Definition epoll_fillActiveChannels h s (evs : list (Z * ptr)) : res (heap * list ptr) :=
  assert_ (zlen evs <=? events_size s);;
  fill_loop h s evs.

Definition epoll_poll h s (r : wait_ret) : res (heap * EPollPoller K * list ptr) :=
  match r with
  | WaitErr _ => Ok (h, s, [])
  | WaitEvents [] => Ok (h, s, [])
  | WaitEvents evs =>
      '(h, active) ← epoll_fillActiveChannels h s evs;
      let s := if zlen evs =? events_size s
               then mkEPollPoller (epollfd_ s) (events_size s * 2) (channels_ s) else s in
      Ok (h, s, active)
  end.

#[export] Instance EPollPoller_ops : Poller (EPollPoller K) := {|
  poll_ret := wait_ret;
  poll := epoll_poll;
  updateChannel := epoll_updateChannel;
  removeChannel := epoll_removeChannel;
  registered := fun s fd => channels_ s !! fd;
  watched := fun s fd => match interest (epollfd_ s) fd with Some (ev, _) => ev | None => 0 end
|}.

(** ** The invariant

    A registered channel is alive, knows whether the kernel watches it, and
    the kernel's entry is its mask and its address; every other channel is
    new, and every other descriptor unknown to the kernel. *)

Definition entry_ok s (fd : Z) (p : ptr) (c : Channel) : Prop :=
  fd_ c = fd /\ interest_ok (events_ c) /\
  (index_ c = kAdded /\ interest (epollfd_ s) fd = Some (events_ c, p) \/
   index_ c = kDeleted /\ interest (epollfd_ s) fd = None /\ events_ c = 0).

Record epoll_inv h s : Prop := {
  inv_registered fd p : channels_ s !! fd = Some p ->
    exists c, h !! p = Some c /\ entry_ok s fd p c;
  inv_unregistered fd : channels_ s !! fd = None -> interest (epollfd_ s) fd = None;
  inv_new p c : h !! p = Some c -> channels_ s !! fd_ c <> Some p -> index_ c = kNew;
  inv_size : 0 < events_size s
}.

(** What epoll_wait(2) documents: entries of the interest list, no more than
    [maxevents], with a non-empty set of events. *)
Definition wait_ok s (r : wait_ret) : Prop :=
  match r with
  | WaitErr _ => True
  | WaitEvents evs =>
      zlen evs <= events_size s /\
      Forall (fun e => e.1 <> 0 /\ exists fd ev, interest (epollfd_ s) fd = Some (ev, e.2)) evs
  end.

(** ** Lemmas *)

Lemma wrapu_interest ev : interest_ok ev -> wrapu 32 ev = ev.
Proof. unfold interest_ok. intros. apply wrapu_small. lia. Qed.

Lemma epoll_inv_views h h' s : epoll_inv h s -> same_views h h' -> epoll_inv h' s.
Proof.
  intros [Hr Hu Hn Hsz] Hs. split; [|done| |done].
  - intros fd p Hp. destruct (Hr fd p Hp) as (c & Hc & He).
    destruct (same_views_lookup _ _ _ _ Hs Hc) as (c' & Hc' & [= Hf Hev Hi]).
    exists c'. split; [done|]. unfold entry_ok. by rewrite Hf, Hev, Hi.
  - intros p c' Hc'. symmetry in Hs.
    destruct (same_views_lookup _ _ _ _ Hs Hc') as (c & Hc & [= Hf Hev Hi]).
    rewrite <- Hf, <- Hi. eauto.
Qed.

Lemma epoll_inv_alloc h s p c :
  epoll_inv h s -> h !! p = None -> index_ c = -1 -> epoll_inv (<[p := c]> h) s.
Proof.
  intros [Hr Hu Hn Hsz] Hp Hi. split; [|done| |done].
  - intros fd q Hq. destruct (Hr fd q Hq) as (d & Hd & He). exists d. split; [|done].
    rewrite lookup_insert_ne; [done|congruence].
  - intros q d Hd. destruct (decide (q = p)) as [->|Hne].
    + rewrite lookup_insert_eq in Hd. by injection Hd as <-.
    + rewrite lookup_insert_ne in Hd by done. eauto.
Qed.

(** Registered entries of other descriptors are other channels. *)
Lemma registered_other h s fd p c q :
  epoll_inv h s -> h !! p = Some c -> channels_ s !! fd = Some q -> fd <> fd_ c -> q <> p.
Proof.
  intros Hi Hp Hq Hne ->. destruct (inv_registered _ _ Hi fd p Hq) as (d & Hd & <- & _). congruence.
Qed.

(** The invariant after the entry of one channel changed. *)
Lemma epoll_inv_step h s p c c' s' :
  epoll_inv h s -> h !! p = Some c -> fd_ c' = fd_ c ->
  channels_ s !! fd_ c = None \/ channels_ s !! fd_ c = Some p ->
  events_size s' = events_size s ->
  (forall fd, fd <> fd_ c -> channels_ s' !! fd = channels_ s !! fd) ->
  (forall fd, fd <> fd_ c -> interest (epollfd_ s') fd = interest (epollfd_ s) fd) ->
  (channels_ s' !! fd_ c = Some p /\ entry_ok s' (fd_ c) p c' \/
   channels_ s' !! fd_ c = None /\ interest (epollfd_ s') (fd_ c) = None /\ index_ c' = kNew) ->
  epoll_inv (<[p := c']> h) s'.
Proof.
  intros Hi Hp Hfd Hreg Hsz Hch Hint Hown. pose proof Hi as [Hr Hu Hn Hs].
  split; [| | |by rewrite Hsz].
  - intros fd q Hq. destruct (decide (fd = fd_ c)) as [->|Hne].
    + destruct Hown as [[Ho He]|[Ho _]]; [|congruence]. rewrite Ho in Hq. injection Hq as <-.
      exists c'. by rewrite lookup_insert_eq.
    + rewrite Hch in Hq by done. destruct (Hr fd q Hq) as (d & Hd & He).
      exists d. rewrite lookup_insert_ne by (symmetry; eapply registered_other; eauto).
      split; [done|]. unfold entry_ok in *. by rewrite Hint.
  - intros fd Hq. destruct (decide (fd = fd_ c)) as [->|Hne].
    + destruct Hown as [[Ho _]|(_ & Ho & _)]; [congruence | done].
    + rewrite Hint by done. apply Hu. by rewrite <- Hch.
  - intros q d Hd Hnot. destruct (decide (q = p)) as [->|Hqp].
    + rewrite lookup_insert_eq in Hd. injection Hd as <-. rewrite Hfd in Hnot.
      destruct Hown as [[Ho _]|(_ & _ & Ho)]; [congruence | done].
    + rewrite lookup_insert_ne in Hd by done. apply (Hn q d Hd). intros Hq. apply Hnot.
      destruct (decide (fd_ d = fd_ c)) as [He|Hne].
      * rewrite He in Hq. destruct Hreg; congruence.
      * by rewrite Hch.
Qed.
(** A call of [epoll_ctl] that the kernel accepts. *)
Lemma update_ctl s op p c k' :
  epoll_ctl (epollfd_ s) op (fd_ c) (wrapu 32 (events_ c), p) = Some k' ->
  update s op p c = Ok (mkEPollPoller k' (events_size s) (channels_ s)).
Proof. intros Hk. unfold update. by rewrite Hk. Qed.

(** The three ways [updateChannel] goes: the state it ends in. *)
Record update_post h s p c ev i s' : Prop := {
  up_inv : epoll_inv (<[p := setIndex (setEvents c ev) i]> h) s';
  up_registered : changed_at (fun fd => channels_ s !! fd) (fun fd => channels_ s' !! fd) (fd_ c) (Some p);
  up_interest : changed_at (interest (epollfd_ s)) (interest (epollfd_ s')) (fd_ c)
    (if (ev =? 0) && (index_ c =? kAdded) then None else Some (ev, p))
}.

Lemma update_add h s p c ev :
  epoll_inv h s -> h !! p = Some c -> interest_ok ev ->
  channels_ s !! fd_ c = None \/ channels_ s !! fd_ c = Some p ->
  index_ c <> kAdded -> interest (epollfd_ s) (fd_ c) = None ->
  exists k', epoll_ctl (epollfd_ s) EPOLL_CTL_ADD (fd_ c) (wrapu 32 ev, p) = Some k' /\
    update_post h s p c ev kAdded (mkEPollPoller k' (events_size s) (<[fd_ c := p]> (channels_ s))).
Proof.
  intros Hi Hp Hev Hreg Hidx Hint. rewrite wrapu_interest by done.
  destruct (ctl_add (epollfd_ s) (fd_ c) (ev, p) Hint) as (k' & Hk & Hat & Hother).
  exists k'. split; [done|].
  assert (forall fd, fd <> fd_ c -> <[fd_ c := p]> (channels_ s) !! fd = channels_ s !! fd) as Hch.
  { intros fd Hne. by rewrite lookup_insert_ne by congruence. }
  split.
  - apply (epoll_inv_step h s p c); [done..|]. left. cbn. rewrite lookup_insert_eq. split; [done|].
    split; [done|]. split; [done|]. by left.
  - split; [cbn; by rewrite lookup_insert_eq | exact Hch].
  - rewrite (proj2 (Z.eqb_neq (index_ c) kAdded)), andb_false_r by done. by split.
Qed.

Lemma update_registered h s p c ev :
  epoll_inv h s -> h !! p = Some c -> interest_ok ev ->
  channels_ s !! fd_ c = Some p -> index_ c = kAdded ->
  exists k', epoll_ctl (epollfd_ s) (if ev =? 0 then EPOLL_CTL_DEL else EPOLL_CTL_MOD) (fd_ c)
      (wrapu 32 ev, p) = Some k' /\
    update_post h s p c ev (if ev =? 0 then kDeleted else kAdded)
      (mkEPollPoller k' (events_size s) (channels_ s)).
Proof.
  intros Hi Hp Hev Hreg Hidx. rewrite wrapu_interest by done.
  destruct (inv_registered _ _ Hi _ _ Hreg) as (c0 & Hc0 & _ & _ & [[_ Hint]|[Hbad _]]);
    replace c0 with c in * by congruence; [|unfold kAdded, kDeleted in *; congruence]. clear c0 Hc0.
  destruct (Z.eqb_spec ev 0) as [->|Hne].
  - destruct (ctl_del (epollfd_ s) (fd_ c) _ (0, p) Hint) as (k' & Hk & Hat & Hother).
    exists k'. split; [done|]. split; [|split; [exact Hreg | done]|].
    + apply (epoll_inv_step h s p c); [done|done|done|by right|done..|]. left. split; [done|].
      split; [done|]. split; [done|]. by right.
    + rewrite Hidx. by split.
  - destruct (ctl_mod (epollfd_ s) (fd_ c) _ (ev, p) Hint) as (k' & Hk & Hat & Hother).
    exists k'. split; [done|]. split; [|split; [exact Hreg | done]|].
    + apply (epoll_inv_step h s p c); [done|done|done|by right|done..|]. left. split; [done|].
      split; [done|]. split; [done|]. by left.
    + rewrite (proj2 (Z.eqb_neq ev 0)) by done. by split.
Qed.

(** What [updateChannel] does from the invariant, exactly. *)
Lemma epoll_update_exact h s p c ev :
  epoll_inv h s -> h !! p = Some c -> interest_ok ev ->
  channels_ s !! fd_ c = None \/ channels_ s !! fd_ c = Some p ->
  exists i s', epoll_updateChannel true (<[p := setEvents c ev]> h) s p =
      Ok (<[p := setIndex (setEvents c ev) i]> h, s') /\
    update_post h s p c ev i s'.
Proof.
  intros Hi Hp Hev Hreg. unfold epoll_updateChannel, deref. cbn [assertInLoopThread guard_ mbind res_bind].
  rewrite lookup_insert_eq. cbn [mbind res_bind index_ setEvents fd_].
  destruct Hreg as [Hreg|Hreg].
  - assert (index_ c = kNew) as Hidx by (eapply inv_new; eauto; congruence).
    destruct (update_add h s p c ev) as (k' & Hk & Hpost);
      [done..|by left|by rewrite Hidx|by apply (inv_unregistered _ _ Hi)|].
    rewrite Hidx. cbn [kNew kDeleted Z.eqb Pos.eqb orb]. rewrite Hreg, bool_decide_true by done.
    cbn [assert_ mbind res_bind]. erewrite update_ctl by exact Hk. cbn [mbind res_bind].
    eexists _, _. split; [by rewrite insert_insert_eq|]. done.
  - destruct (inv_registered _ _ Hi _ _ Hreg) as (c0 & Hc0 & _ & Hev0 & Hidx).
    replace c0 with c in * by congruence. clear c0 Hc0.
    assert (bool_decide (channels_ s !! fd_ c <> None) = true /\
            bool_decide (channels_ s !! fd_ c = Some p) = true) as [Hb1 Hb2]
      by (rewrite Hreg, !bool_decide_true; done).
    destruct Hidx as [[Hidx _]|(Hidx & Hint & _)]; rewrite Hidx; cbn [kAdded kNew kDeleted Z.eqb Pos.eqb orb];
      rewrite Hb1, Hb2; cbn [assert_ mbind res_bind Z.eqb Pos.eqb].
    + destruct (update_registered h s p c ev) as (k' & Hk & Hpost); [done..|].
      unfold isNoneEvent, kNoneEvent. cbn [events_ setEvents].
      destruct (Z.eqb_spec ev 0) as [He|He]; erewrite update_ctl by exact Hk; cbn [mbind res_bind];
        eexists _, _; (split; [|exact Hpost]); f_equal; f_equal.
      * by rewrite insert_insert_eq.
      * unfold setIndex. cbn. unfold setEvents. by rewrite <- Hidx.
    + destruct (update_add h s p c ev) as (k' & Hk & Hpost); [done..|by right|by rewrite Hidx|done|].
      rewrite insert_id in Hpost by done. erewrite update_ctl by exact Hk. cbn [mbind res_bind].
      eexists _, _. split; [by rewrite insert_insert_eq|]. done.
Qed.
Lemma epoll_remove_exact h s p c :
  epoll_inv h s -> h !! p = Some c -> events_ c = 0 -> channels_ s !! fd_ c = Some p ->
  exists s', epoll_removeChannel true h s p = Ok (<[p := setIndex c kNew]> h, s') /\
    epoll_inv (<[p := setIndex c kNew]> h) s' /\
    changed_at (fun fd => channels_ s !! fd) (fun fd => channels_ s' !! fd) (fd_ c) None /\
    changed_at (interest (epollfd_ s)) (interest (epollfd_ s')) (fd_ c) None.
Proof.
  intros Hi Hp Hev Hreg. unfold epoll_removeChannel, deref. rewrite Hp.
  cbn [assertInLoopThread guard_ mbind res_bind].
  rewrite Hreg, !bool_decide_true by done. unfold isNoneEvent, kNoneEvent. rewrite Hev.
  cbn [assert_ Z.eqb mbind res_bind].
  destruct (inv_registered _ _ Hi _ _ Hreg) as (c0 & Hc0 & _ & _ & Hidx).
  replace c0 with c in * by congruence. clear c0 Hc0.
  assert (forall fd, fd <> fd_ c -> delete (fd_ c) (channels_ s) !! fd = channels_ s !! fd) as Hch.
  { intros fd Hne. by rewrite lookup_delete_ne by congruence. }
  destruct Hidx as [[Hidx Hint]|(Hidx & Hint & _)]; rewrite Hidx;
    cbn [kAdded kDeleted Z.eqb Pos.eqb orb assert_ mbind res_bind].
  - destruct (ctl_del (epollfd_ s) (fd_ c) _ (wrapu 32 (events_ c), p) Hint) as (k' & Hk & Hat & Hother).
    erewrite update_ctl by exact Hk. cbn [mbind res_bind]. eexists. split; [done|].
    split; [|split; split; [cbn; apply lookup_delete_eq | exact Hch | done..]].
    apply (epoll_inv_step h s p c); [done|done|done|by right|done..|]. right.
    cbn. by rewrite lookup_delete_eq.
  - eexists. split; [done|].
    split; [|split; split; [cbn; apply lookup_delete_eq | exact Hch | done..]].
    apply (epoll_inv_step h s p c); [done|done|done|by right|done..|]. right.
    cbn. by rewrite lookup_delete_eq.
Qed.

(** An event the kernel reports carries a registered channel. *)
Lemma interest_channel h s fd ev p :
  epoll_inv h s -> interest (epollfd_ s) fd = Some (ev, p) ->
  exists c, h !! p = Some c /\ fd_ c = fd /\ events_ c = ev /\ channels_ s !! fd_ c = Some p.
Proof.
  intros Hi Hint. destruct (channels_ s !! fd) as [q|] eqn:E.
  - destruct (inv_registered _ _ Hi _ _ E) as (c & Hc & Hfd & _ & [[_ Hc']|(_ & Hc' & _)]).
    + exists c. rewrite Hfd. rewrite Hint in Hc'. injection Hc' as -> ->. done.
    + congruence.
  - rewrite (inv_unregistered _ _ Hi _ E) in Hint. done.
Qed.

Definition reported s (e : Z * ptr) : Prop :=
  e.1 <> 0 /\ exists fd ev, interest (epollfd_ s) fd = Some (ev, e.2).

Lemma setRevents_view c r : poll_view (setRevents c r) = poll_view c.
Proof. done. Qed.

(** Every reported channel is active, and its [revents_] is the last reported. *)
Lemma fill_loop_ok h s evs :
  epoll_inv h s -> Forall (reported s) evs ->
  exists h', fill_loop h s evs = Ok (h', evs.*2) /\ same_views h h' /\
    (forall p, p ∈ evs.*2 -> exists c r, h' !! p = Some c /\ (r, p) ∈ evs /\ revents_ c = r) /\
    (forall p, p ∉ evs.*2 -> h' !! p = h !! p).
Proof.
  revert h. induction evs as [|[r p] evs IH]; intros h Hi Hevs.
  - exists h. split; [done|]. split; [done|]. split; [|done]. by intros p ?%elem_of_nil.
  - apply Forall_cons in Hevs as [(Hr & fd & ev & Hint) Hevs]. cbn [fst snd] in *.
    destruct (interest_channel _ _ _ _ _ Hi Hint) as (c & Hc & _ & _ & Hreg).
    cbn [fill_loop fmap list_fmap snd]. unfold deref. rewrite Hc. cbn [mbind res_bind].
    rewrite Hreg, !bool_decide_true by done. cbn [assert_ mbind res_bind].
    pose proof (same_views_insert h p c (setRevents c r) Hc eq_refl) as Hs.
    destruct (IH (<[p := setRevents c r]> h)) as (h' & -> & Hs' & Hin & Hout);
      [by eapply epoll_inv_views | done |].
    exists h'. split; [done|]. split; [by eapply same_views_trans|]. split.
    + intros q Hq. destruct (decide (q ∈ evs.*2)) as [Hq'|Hq'].
      * destruct (Hin q Hq') as (c' & r' & ? & ? & ?). exists c', r'.
        split; [done|]. split; [by right | done].
      * apply elem_of_cons in Hq as [->|Hq]; [|done].
        exists (setRevents c r), r. rewrite Hout, lookup_insert_eq by done.
        split; [done|]. split; [by left | done].
    + intros q Hq. apply not_elem_of_cons in Hq as [Hqp Hq].
      rewrite Hout by done. by rewrite lookup_insert_ne by congruence.
Qed.

Lemma epoll_poll_ok h s r :
  epoll_inv h s -> wait_ok s r ->
  exists h' s', epoll_poll h s r =
      Ok (h', s', match r with WaitErr _ => [] | WaitEvents evs => evs.*2 end) /\
    epoll_inv h' s' /\ same_views h h' /\ channels_ s' = channels_ s /\ epollfd_ s' = epollfd_ s /\
    forall p, p ∈ match r with WaitErr _ => [] | WaitEvents evs => evs.*2 end ->
      exists c, h' !! p = Some c /\ channels_ s' !! fd_ c = Some p /\ revents_ c <> 0.
Proof.
  intros Hi Hr. destruct r as [err|evs].
  { exists h, s. do 5 (split; [done|]). by intros p ?%elem_of_nil. }
  destruct Hr as [Hn Hevs]. destruct (fill_loop_ok h s evs Hi Hevs) as (h' & Hf & Hs & Hin & _).
  assert (forall s', channels_ s' = channels_ s -> forall p, p ∈ evs.*2 ->
    exists c, h' !! p = Some c /\ channels_ s' !! fd_ c = Some p /\ revents_ c <> 0) as Hact.
  { intros s' -> p Hp. destruct (Hin p Hp) as (c' & r & Hc' & Hrp & <-). exists c'. split; [done|].
    rewrite Forall_forall in Hevs. destruct (Hevs _ Hrp) as (Hne & fd & ev & Hint). cbn in *.
    destruct (interest_channel _ _ _ _ _ Hi Hint) as (c & Hc & _ & _ & Hreg).
    destruct (same_views_lookup _ _ _ _ Hs Hc) as (c'' & Hc'' & [= Hfd _ _]).
    rewrite Hc' in Hc''. injection Hc'' as <-. by rewrite Hfd. }
  destruct evs as [|e evs].
  { exists h, s. do 5 (split; [done|]). by intros p ?%elem_of_nil. }
  unfold epoll_poll, epoll_fillActiveChannels. rewrite assert_true by lia. cbn [mbind res_bind].
  rewrite Hf. cbn [mbind res_bind].
  eexists h', _. split; [done|]. destruct (zlen (e :: evs) =? events_size s).
  - split; [|split; [done|split; [done|split; [done|by apply Hact]]]].
    eapply epoll_inv_views; [|exact Hs]. destruct Hi as [? ? ? ?]. split; cbn; [done..|lia].
  - split; [by eapply epoll_inv_views|]. split; [done|]. split; [done|]. split; [done|]. by apply Hact.
Qed.

(** Shrinking an interest entry to its mask. *)
Definition mask_of (e : option (Z * ptr)) : Z := match e with Some (ev, _) => ev | None => 0 end.

Lemma changed_at_map {A B} (g : A -> B) f f' fd v :
  changed_at f f' fd v -> changed_at (fun x => g (f x)) (fun x => g (f' x)) fd (g v).
Proof. intros [H1 H2]. split; [by rewrite H1|]. intros fd' Hne. by rewrite H2. Qed.

Lemma fill_loop_frame evs s : forall h h' active,
  fill_loop h s evs = Ok (h', active) -> only_revents h h'.
Proof.
  induction evs as [|[r p] evs IH]; intros h h' active; cbn [fill_loop].
  - intros [= <- _]. apply only_revents_refl.
  - unfold deref. destruct (h !! p) as [c|] eqn:Hp; [|done].
    intros (c' & [= <-] & (? & _ & (? & _ & ([h1 a1] & E & [= <- _])%bind_ok_inv)%bind_ok_inv)%bind_ok_inv)%bind_ok_inv.
    by eapply only_revents_insert, IH.
Qed.

#[export] Program Instance EPollPoller_laws : PollerLaws (EPollPoller K) := {|
  poller_inv := epoll_inv;
  ready_ok := fun _ s r => wait_ok s r
|}.
Next Obligation. exact epoll_inv_views. Qed.
Next Obligation. exact epoll_inv_alloc. Qed.
Next Obligation.
  intros h s p c ev Hi Hp Hev Hreg.
  destruct (epoll_update_exact h s p c ev Hi Hp Hev Hreg) as (i & s' & Hu & [H1 H2 H3]).
  exists i, s'. split; [done|]. split; [done|]. split; [done|].
  replace ev with (mask_of (if (ev =? 0) && (index_ c =? kAdded) then None else Some (ev, p))).
  - apply (changed_at_map mask_of _ _ _ _ H3).
  - destruct (Z.eqb_spec ev 0) as [->|]; [|done]. by destruct (index_ c =? kAdded).
Qed.
Next Obligation.
  intros h s p c Hi Hp Hev Hreg.
  destruct (epoll_remove_exact h s p c Hi Hp Hev Hreg) as (s' & Hu & H1 & H2 & H3).
  exists kNew, s'. split; [done|]. split; [done|]. split; [done|]. split; [done|].
  apply (changed_at_map mask_of _ _ _ _ H3).
Qed.
Next Obligation.
  intros h s r Hi Hr.
  destruct (epoll_poll_ok h s r Hi Hr) as (h' & s' & Hp & H1 & H2 & H3 & H4 & H5).
  eexists h', s', _. split; [exact Hp|]. split; [done|]. split; [done|].
  split; [intros fd; cbn; by rewrite H3|]. split; [intros fd; cbn; by rewrite H4|]. exact H5.
Qed.
Next Obligation.
  intros h s [e|[|ev evs]] h' s' active; cbn; [by intros [= <- _ _]; apply only_revents_refl..|].
  unfold epoll_fillActiveChannels.
  intros ([h1 a1] & (? & _ & E)%bind_ok_inv & [= <- _ _])%bind_ok_inv. by eapply fill_loop_frame.
Qed.
End EPoll.

(** ** A kernel that behaves as documented: a finite map *)

Definition map_ctl (k : gmap Z (Z * ptr)) (op : epoll_op) (fd : Z) (e : Z * ptr) :
    option (gmap Z (Z * ptr)) :=
  match op, k !! fd with
  | EPOLL_CTL_ADD, None => Some (<[fd := e]> k)
  | EPOLL_CTL_MOD, Some _ => Some (<[fd := e]> k)
  | EPOLL_CTL_DEL, Some _ => Some (delete fd k)
  | _, _ => None
  end.

#[export] Program Instance map_kernel : EpollKernel (gmap Z (Z * ptr)) := {|
  epoll_ctl := map_ctl;
  interest := fun k fd => k !! fd
|}.
Next Obligation.
  intros k fd e Hk. eexists. unfold map_ctl. rewrite Hk. split; [done|].
  split; [apply lookup_insert_eq|]. intros. by rewrite lookup_insert_ne by congruence.
Qed.
Next Obligation.
  intros k fd e0 e Hk. eexists. unfold map_ctl. rewrite Hk. split; [done|].
  split; [apply lookup_insert_eq|]. intros. by rewrite lookup_insert_ne by congruence.
Qed.
Next Obligation.
  intros k fd e0 e Hk. eexists. unfold map_ctl. rewrite Hk. split; [done|].
  split; [apply lookup_delete_eq|]. intros. by rewrite lookup_delete_ne by congruence.
Qed.
Next Obligation. intros k fd e0 e Hk. unfold map_ctl. by rewrite Hk. Qed.
Next Obligation. intros k fd e Hk. unfold map_ctl. by rewrite Hk. Qed.
Next Obligation. intros k fd e Hk. unfold map_ctl. by rewrite Hk. Qed.

(** A fresh poller satisfies the invariant, with any channels not yet added. *)
Lemma epoll_ctor_inv {K} `{EpollKernel K} (h : heap) (k : K) :
  (forall fd, interest k fd = None) -> (forall p c, h !! p = Some c -> index_ c = -1) ->
  epoll_inv h (EPollPoller_ctor k).
Proof.
  intros Hk Hh. split; [|intros fd _; apply Hk | intros p c Hc _; eauto | done].
  intros fd p Hp. cbn in Hp. by rewrite lookup_empty in Hp.
Qed.

(** ** Properties *)

(** C26: the epoll poller keeps the kernel's interest list in step with its
    channels: from the invariant, for any new interest mask, [updateChannel]
    passes its assertions, chooses an operation the kernel accepts (so it is
    never fatal), keeps the invariant, and leaves the channel registered with
    exactly that mask and its own address; an added channel that loses all
    interest leaves the list.  Nothing else changes. *)
Theorem epoll_updateChannel_correct {K} `{EpollKernel K} (h : heap) (s : EPollPoller K) p c ev :
  epoll_inv h s -> h !! p = Some c -> interest_ok ev ->
  channels_ s !! fd_ c = None \/ channels_ s !! fd_ c = Some p ->
  exists i s', epoll_updateChannel true (<[p := setEvents c ev]> h) s p =
      Ok (<[p := setIndex (setEvents c ev) i]> h, s') /\
    epoll_inv (<[p := setIndex (setEvents c ev) i]> h) s' /\
    channels_ s' !! fd_ c = Some p /\
    interest (epollfd_ s') (fd_ c) =
      (if (ev =? 0) && (index_ c =? kAdded) then None else Some (ev, p)) /\
    forall fd, fd <> fd_ c ->
      channels_ s' !! fd = channels_ s !! fd /\
      interest (epollfd_ s') fd = interest (epollfd_ s) fd.
Proof.
  intros Hi Hp Hev Hreg.
  destruct (epoll_update_exact h s p c ev Hi Hp Hev Hreg) as (i & s' & Hu & [H1 [H2 H2'] [H3 H3']]).
  exists i, s'. split; [done|]. split; [done|]. split; [exact H2|]. split; [exact H3|].
  intros fd Hne. split; [by apply H2' | by apply H3'].
Qed.

Definition demo_channel (fd : Z) : Channel := setCallbacks (Channel_ctor 0 fd) true true true true.
Definition two_channels : heap := <[1 := demo_channel 7]> (<[2 := demo_channel 9]> ∅).

Lemma two_channels_inv : epoll_inv two_channels (EPollPoller_ctor (K := gmap Z (Z * ptr)) ∅).
Proof.
  apply epoll_ctor_inv; [done|]. intros p c Hp. unfold two_channels in Hp.
  apply lookup_insert_Some in Hp as [[_ <-]|[_ Hp]]; [done|].
  apply lookup_insert_Some in Hp as [[_ <-]|[_ Hp]]; [done|]. by rewrite lookup_empty in Hp.
Qed.

Lemma epoll_updateChannel_correct_witness :
  let c := demo_channel 7 in
  let s := EPollPoller_ctor (K := gmap Z (Z * ptr)) ∅ in
  epoll_inv two_channels s /\ two_channels !! 1 = Some c /\ interest_ok kReadEvent /\
  exists i s', epoll_updateChannel true (<[1 := setEvents c kReadEvent]> two_channels) s 1 =
      Ok (<[1 := setIndex (setEvents c kReadEvent) i]> two_channels, s') /\
    epoll_inv (<[1 := setIndex (setEvents c kReadEvent) i]> two_channels) s' /\
    channels_ s' !! 7 = Some 1 /\ interest (epollfd_ s') 7 = Some (kReadEvent, 1) /\
    forall fd, fd <> 7 ->
      channels_ s' !! fd = channels_ s !! fd /\
      interest (epollfd_ s') fd = interest (epollfd_ s) fd.
Proof.
  cbn zeta. split; [apply two_channels_inv|]. split; [vm_compute; reflexivity|].
  split; [decide_now|].
  apply (epoll_updateChannel_correct two_channels
           (EPollPoller_ctor (K := gmap Z (Z * ptr)) ∅) 1 (demo_channel 7) kReadEvent).
  - apply two_channels_inv.
  - vm_compute. reflexivity.
  - decide_now.
  - left. vm_compute. reflexivity.
Defined.

(** After [epoll_wait] reported events of the interest list, the active
    channels are those reported, in that order; each is alive, registered
    under its descriptor and holds events that were reported for it; the
    invariant holds, and a full event list doubles. *)
Theorem epoll_poll_correct {K} `{EpollKernel K} (h : heap) (s : EPollPoller K) evs :
  epoll_inv h s -> wait_ok s (WaitEvents evs) ->
  exists h' s', epoll_poll h s (WaitEvents evs) = Ok (h', s', evs.*2) /\
    epoll_inv h' s' /\
    (forall p, p ∈ evs.*2 -> exists c r, h' !! p = Some c /\ channels_ s' !! fd_ c = Some p /\
       (r, p) ∈ evs /\ revents_ c = r) /\
    (forall p, p ∉ evs.*2 -> h' !! p = h !! p) /\
    events_size s' = (if zlen evs =? events_size s then 2 * events_size s else events_size s).
Proof.
  intros Hi Hr. destruct (epoll_poll_ok h s _ Hi Hr) as (h' & s' & Hp & Hi' & Hs & Hch & _ & Hact).
  destruct Hr as [Hn Hevs]. destruct (fill_loop_ok h s evs Hi Hevs) as (h1 & Hf & _ & Hin & Hout).
  assert (h' = h1 /\ events_size s' = (if zlen evs =? events_size s then 2 * events_size s
            else events_size s)) as [-> Hsz].
  { destruct evs as [|e evs].
    - injection Hp as <- <-. injection Hf as <-. split; [done|].
      destruct (Z.eqb_spec (zlen (A := Z * ptr) []) (events_size s)) as [Hz|]; [|done].
      pose proof (inv_size _ _ Hi). rewrite zlen_nil in Hz. lia.
    - unfold epoll_poll, epoll_fillActiveChannels in Hp. rewrite assert_true in Hp by lia.
      cbn [mbind res_bind] in Hp. rewrite Hf in Hp. cbn [mbind res_bind] in Hp.
      destruct (zlen (e :: evs) =? events_size s); injection Hp as <- <-;
        (split; [done|]); cbn [events_size]; [apply Z.mul_comm | done]. }
  exists h1, s'. split; [done|]. split; [done|]. split; [|done].
  intros p Hpin. destruct (Hin p Hpin) as (c & r & Hc & Hrp & Hrev).
  destruct (Hact p Hpin) as (c' & Hc' & Hreg & _). exists c, r. split; [done|].
  split; [congruence | done].
Qed.

Lemma epoll_poll_correct_witness :
  exists h s evs, epoll_inv h s /\ wait_ok (K := gmap Z (Z * ptr)) s (WaitEvents evs) /\
    evs = [(POLLIN, 1)] /\
    exists h' s', epoll_poll h s (WaitEvents evs) = Ok (h', s', evs.*2) /\
      epoll_inv h' s' /\
      (forall p, p ∈ evs.*2 -> exists c r, h' !! p = Some c /\ channels_ s' !! fd_ c = Some p /\
         (r, p) ∈ evs /\ revents_ c = r) /\
      (forall p, p ∉ evs.*2 -> h' !! p = h !! p) /\
      events_size s' = (if zlen evs =? events_size s then 2 * events_size s else events_size s).
Proof.
  destruct (epoll_update_exact two_channels (EPollPoller_ctor (K := gmap Z (Z * ptr)) ∅) 1
    (demo_channel 7) kReadEvent) as (i & s & _ & [Hi _ [Hint _]]);
    [apply two_channels_inv | vm_compute; reflexivity | decide_now | left; vm_compute; reflexivity|].
  assert (wait_ok s (WaitEvents [(POLLIN, 1)])) as Hw.
  { split; [pose proof (inv_size _ _ Hi); rewrite zlen_cons, zlen_nil; lia|]. constructor; [|constructor]. split; [done|]. exists 7, kReadEvent. exact Hint. }
  exists (<[1 := setIndex (setEvents (demo_channel 7) kReadEvent) i]> two_channels), s, [(POLLIN, 1)].
  split; [exact Hi|]. split; [exact Hw|]. split; [reflexivity|].
  apply epoll_poll_correct; [exact Hi | exact Hw].
Defined.
