(* ===== verification/PollPoller.v ===== *)
(** * The poll poller: tmuduo/net/poller/PollPoller.h and PollPoller.cc

    The array handed to poll(2) and the map from descriptors to channels.  A
    channel knows the position of its entry; an entry whose channel is not
    interested in anything holds [-fd - 1], which poll(2) ignores. *)

From S2P Require Import Prelude Channel Poller.

(** ** State *)

Record pollfd := mkPollfd { pfd_fd : Z; pfd_events : Z; pfd_revents : Z }.

#[global] Instance pollfd_eq_dec : EqDecision pollfd.
Proof. solve_decision. Defined.

Record PollPoller := mkPollPoller {
  pollfds_ : list pollfd;
  channels_ : gmap Z ptr
}.

Definition PollPoller_ctor : PollPoller := mkPollPoller [] ∅.

(** What poll(2) did: an error, or the number of ready entries and the
    [revents] it stored in every entry. *)
Inductive poll_result :=
| PollErr
| PollReady (numEvents : Z) (revents : list Z).

(** [static_cast<short>]. *)
Definition to_short (ev : Z) : Z := wraps 16 ev.

(** ** Operations *)

(** The loop of [fillActiveChannels], as it is written. *)
Fixpoint fillActiveChannels (channels : gmap Z ptr) (h : heap) (pfds : list pollfd) (numEvents : Z) :
    res (heap * list ptr) :=
  match pfds with
  | [] => Ok (h, [])
  | pfd :: pfds =>
      if 0 <? numEvents then
        assert_ (bool_decide (channels !! pfd_fd pfd <> None));;
        match channels !! pfd_fd pfd with
        | None => Err AssertFail
        | Some p =>
            channel ← deref h p;
            assert_ (fd_ channel =? pfd_fd pfd);;
            '(h, active) ← fillActiveChannels channels
              (<[p := setRevents channel (pfd_revents pfd)]> h) pfds (numEvents - 1);
            Ok (h, p :: active)
        end
      else fillActiveChannels channels h pfds numEvents
  end.

(** The kernel stores the returned events in the array. *)
Definition store_revents (pfds : list pollfd) (revents : list Z) : list pollfd :=
  zip_with (fun pfd r => mkPollfd (pfd_fd pfd) (pfd_events pfd) r) pfds revents.

Definition poll_poll (h : heap) (s : PollPoller) (r : poll_result) :
    res (heap * PollPoller * list ptr) :=
  match r with
  | PollErr => Ok (h, s, [])
  | PollReady numEvents revents =>
      let s := mkPollPoller (store_revents (pollfds_ s) revents) (channels_ s) in
      if 0 <? numEvents then
        '(h, active) ← fillActiveChannels (channels_ s) h (pollfds_ s) numEvents;
        Ok (h, s, active)
      else Ok (h, s, [])
  end.

Definition poll_updateChannel (in_loop : bool) (h : heap) (s : PollPoller) (p : ptr) :
    res (heap * PollPoller) :=
  assertInLoopThread in_loop;;
  channel ← deref h p;
  let fd := fd_ channel in
  if index_ channel <? 0 then
    assert_ (bool_decide (channels_ s !! fd = None));;
    let pfd := mkPollfd fd (to_short (events_ channel)) 0 in
    let pollfds := pollfds_ s ++ [pfd] in
    let idx := zlen pollfds - 1 in
    Ok (<[p := setIndex channel idx]> h, mkPollPoller pollfds (<[fd := p]> (channels_ s)))
  else
    assert_ (bool_decide (channels_ s !! fd <> None));;
    assert_ (bool_decide (channels_ s !! fd = Some p));;
    let idx := index_ channel in
    assert_ ((0 <=? idx) && (idx <? zlen (pollfds_ s)));;
    match pollfds_ s !! Z.to_nat idx with
    | None => Err OutOfBounds
    | Some pfd =>
        assert_ ((pfd_fd pfd =? fd) || (pfd_fd pfd =? - fd - 1));;
        let pfd := mkPollfd (if isNoneEvent channel then - fd - 1 else pfd_fd pfd)
                     (to_short (events_ channel)) 0 in
        Ok (h, mkPollPoller (<[Z.to_nat idx := pfd]> (pollfds_ s)) (channels_ s))
    end.

(** [pop_back]. *)
Definition pop_back {A} (l : list A) : list A := take (length l - 1) l.

Definition poll_removeChannel (in_loop : bool) (h : heap) (s : PollPoller) (p : ptr) :
    res (heap * PollPoller) :=
  assertInLoopThread in_loop;;
  channel ← deref h p;
  let fd := fd_ channel in
  assert_ (bool_decide (channels_ s !! fd <> None));;
  assert_ (bool_decide (channels_ s !! fd = Some p));;
  assert_ (isNoneEvent channel);;
  let idx := index_ channel in
  assert_ ((0 <=? idx) && (idx <? zlen (pollfds_ s)));;
  match pollfds_ s !! Z.to_nat idx with
  | None => Err OutOfBounds
  | Some pfd =>
      assert_ ((pfd_fd pfd =? - fd - 1) && (events_ channel =? pfd_events pfd));;
      let channels := delete fd (channels_ s) in
      if idx =? zlen (pollfds_ s) - 1 then
        Ok (h, mkPollPoller (pop_back (pollfds_ s)) channels)
      else
        match last (pollfds_ s) with
        | None => Err OutOfBounds
        | Some back =>
            let channelAtEnd := pfd_fd back in
            let swapped := <[Z.to_nat idx := back]> (<[(length (pollfds_ s) - 1)%nat := pfd]> (pollfds_ s)) in
            let channelAtEnd := if channelAtEnd <? 0 then - channelAtEnd - 1 else channelAtEnd in
            match channels !! channelAtEnd with
            | None => Err NullDereference
            | Some q =>
                other ← deref h q;
                Ok (<[q := setIndex other idx]> h, mkPollPoller (pop_back swapped) channels)
            end
        end
  end.

(** The events watched for a descriptor: those of the entry that holds it. *)
Definition poll_watched (s : PollPoller) (fd : Z) : Z :=
  match list_find (fun e => pfd_fd e = fd) (pollfds_ s) with
  | Some (_, e) => pfd_events e
  | None => 0
  end.

#[export] Instance PollPoller_ops : Poller PollPoller := {|
  poll_ret := poll_result;
  poll := poll_poll;
  updateChannel := poll_updateChannel;
  removeChannel := poll_removeChannel;
  registered := fun s fd => channels_ s !! fd;
  watched := poll_watched
|}.

(** ** The invariant: positions and entries agree *)

(** The descriptor an entry stands for, ignored or not. *)
Definition entry_fd (fd : Z) : Z := if fd <? 0 then - fd - 1 else fd.

(** The channel [c] of descriptor [fd] has its entry at its index. *)
Definition indexed (s : PollPoller) (fd : Z) (c : Channel) : Prop :=
  fd_ c = fd /\ 0 <= fd /\ interest_ok (events_ c) /\ 0 <= index_ c /\
  exists e, pollfds_ s !! Z.to_nat (index_ c) = Some e /\
    entry_fd (pfd_fd e) = fd /\ pfd_events e = events_ c.

Record poll_inv (h : heap) (s : PollPoller) : Prop := {
  pinv_registered fd p : channels_ s !! fd = Some p -> exists c, h !! p = Some c /\ indexed s fd c;
  pinv_entries i e : pollfds_ s !! i = Some e ->
    exists p c, channels_ s !! entry_fd (pfd_fd e) = Some p /\ h !! p = Some c /\ index_ c = Z.of_nat i
}.

(** ** Lemmas *)

Lemma poll_inv_ctor h : poll_inv h PollPoller_ctor.
Proof. split; intros * Hp; by rewrite ?lookup_empty, ?lookup_nil in Hp. Qed.

Lemma to_short_ok ev : interest_ok ev -> to_short ev = ev.
Proof. unfold interest_ok. intros. apply wraps_small; lia. Qed.

Lemma entry_fd_neg fd : 0 <= fd -> entry_fd (- fd - 1) = fd.
Proof. intros. unfold entry_fd. rewrite (proj2 (Z.ltb_lt _ _)) by lia. lia. Qed.

Lemma entry_fd_pos fd : 0 <= fd -> entry_fd fd = fd.
Proof. intros. unfold entry_fd. by rewrite (proj2 (Z.ltb_ge _ _)) by lia. Qed.

(** A registered channel is the one its entry leads to. *)
Lemma indexed_unique h s fd p c :
  poll_inv h s -> channels_ s !! fd = Some p -> h !! p = Some c -> indexed s fd c.
Proof. intros Hi Hp Hc. destruct (pinv_registered _ _ Hi fd p Hp) as (d & Hd & ?). congruence. Qed.

(** Two registered channels at the same position are the same. *)
Lemma index_inj h s fd1 p1 c1 fd2 p2 c2 :
  poll_inv h s -> channels_ s !! fd1 = Some p1 -> h !! p1 = Some c1 ->
  channels_ s !! fd2 = Some p2 -> h !! p2 = Some c2 -> index_ c1 = index_ c2 -> fd1 = fd2.
Proof.
  intros Hi H1 Hc1 H2 Hc2 He.
  destruct (indexed_unique _ _ _ _ _ Hi H1 Hc1) as (_ & _ & _ & _ & e1 & He1 & <- & _).
  destruct (indexed_unique _ _ _ _ _ Hi H2 Hc2) as (_ & _ & _ & _ & e2 & He2 & <- & _).
  congruence.
Qed.

Lemma registered_ptr h s fd p c :
  poll_inv h s -> channels_ s !! fd = Some p -> h !! p = Some c -> fd_ c = fd.
Proof. intros Hi H1 H2. by destruct (indexed_unique _ _ _ _ _ Hi H1 H2). Qed.

(** [updateChannel] on a channel that is not in the array. *)
Lemma poll_update_new h s p c ev :
  poll_inv h s -> h !! p = Some c -> interest_ok ev -> index_ c < 0 -> 0 <= fd_ c ->
  channels_ s !! fd_ c = None ->
  let c' := setIndex (setEvents c ev) (zlen (pollfds_ s)) in
  let s' := mkPollPoller (pollfds_ s ++ [mkPollfd (fd_ c) ev 0]) (<[fd_ c := p]> (channels_ s)) in
  poll_updateChannel true (<[p := setEvents c ev]> h) s p = Ok (<[p := c']> h, s') /\
  poll_inv (<[p := c']> h) s'.
Proof.
  intros Hi Hp Hev Hidx Hfd Hreg c' s'. split.
  - unfold poll_updateChannel, deref. rewrite lookup_insert_eq. cbn [assertInLoopThread guard_ mbind res_bind].
    cbn [index_ setEvents fd_ events_]. rewrite (proj2 (Z.ltb_lt _ _)) by done.
    rewrite Hreg, bool_decide_true, to_short_ok, insert_insert_eq by done.
    cbn [assert_ mbind res_bind]. unfold c', s'. rewrite zlen_app, zlen_cons, zlen_nil.
    replace (zlen (pollfds_ s) + (1 + 0) - 1) with (zlen (pollfds_ s)) by lia. done.
  - assert (forall fd q, channels_ s !! fd = Some q -> q <> p) as Hother.
    { intros fd q Hq ->. pose proof (registered_ptr _ _ _ _ _ Hi Hq Hp) as <-. congruence. }
    split; cbn [channels_ pollfds_ s'].
    + intros fd q [[<- <-]|[Hne Hq]]%lookup_insert_Some.
      * exists c'. rewrite lookup_insert_eq. split; [done|].
        refine (conj eq_refl (conj Hfd (conj Hev (conj (zlen_nonneg _) _)))).
        cbn. eexists. unfold zlen. rewrite Nat2Z.id, lookup_app_r, Nat.sub_diag by lia.
        split; [done|]. split; [by apply entry_fd_pos | done].
      * destruct (pinv_registered _ _ Hi fd q Hq) as (d & Hd & H1 & H2 & H3 & H4 & e & He & Hent).
        exists d. rewrite lookup_insert_ne by (symmetry; eauto). split; [done|].
        do 4 (split; [done|]). exists e. unfold s'. cbn [pollfds_]. rewrite lookup_app_l by (by eapply lookup_lt_Some). done.
    + intros i e He. apply lookup_app_Some in He as [He|[Hle He]].
      * destruct (pinv_entries _ _ Hi i e He) as (q & d & Hq & Hd & Hix). exists q, d.
        rewrite lookup_insert_ne by congruence. rewrite lookup_insert_ne by (symmetry; eauto). done.
      * destruct (i - length (pollfds_ s))%nat eqn:E; [|done]. injection He as <-.
        exists p, c'. cbn [pfd_fd]. rewrite entry_fd_pos, !lookup_insert_eq by done.
        split; [done|]. split; [done|]. cbn. unfold zlen. lia.
Qed.

(** The entry [updateChannel] leaves for a channel in the array. *)
Definition updated_entry (e : pollfd) (c : Channel) (ev : Z) : pollfd :=
  mkPollfd (if ev =? 0 then - fd_ c - 1 else pfd_fd e) ev 0.

Lemma entry_fd_cases fd e : entry_fd (pfd_fd e) = fd -> pfd_fd e = fd \/ pfd_fd e = - fd - 1.
Proof. unfold entry_fd. destruct (Z.ltb_spec (pfd_fd e) 0); lia. Qed.

Lemma poll_update_old h s p c ev e :
  poll_inv h s -> h !! p = Some c -> interest_ok ev -> channels_ s !! fd_ c = Some p ->
  pollfds_ s !! Z.to_nat (index_ c) = Some e ->
  let s' := mkPollPoller (<[Z.to_nat (index_ c) := updated_entry e c ev]> (pollfds_ s)) (channels_ s) in
  poll_updateChannel true (<[p := setEvents c ev]> h) s p = Ok (<[p := setEvents c ev]> h, s') /\
  poll_inv (<[p := setEvents c ev]> h) s'.
Proof.
  intros Hi Hp Hev Hreg He s'.
  destruct (indexed_unique _ _ _ _ _ Hi Hreg Hp) as (_ & Hfd & _ & Hidx & e' & He' & Hent & _).
  replace e' with e in * by congruence. clear e' He'.
  pose proof (lookup_lt_Some _ _ _ He) as Hlt. pose proof (entry_fd_cases _ _ Hent) as Hcase.
  assert (entry_fd (pfd_fd (updated_entry e c ev)) = fd_ c) as Hent'.
  { cbn. destruct (ev =? 0); [by apply entry_fd_neg | done]. }
  split.
  - unfold poll_updateChannel, deref. rewrite lookup_insert_eq. cbn [assertInLoopThread guard_ mbind res_bind].
    cbn [index_ setEvents fd_ events_]. rewrite (proj2 (Z.ltb_ge _ _)) by done.
    rewrite Hreg, !bool_decide_true, to_short_ok, He by done. cbn [assert_ mbind res_bind].
    rewrite !assert_true by (unfold zlen; lia). done.
  - split; cbn [channels_ pollfds_ s'].
    + intros fd q Hq. destruct (decide (q = p)) as [->|Hqp].
      * pose proof (registered_ptr _ _ _ _ _ Hi Hq Hp) as <-. exists (setEvents c ev).
        rewrite lookup_insert_eq. split; [done|]. do 4 (split; [done|]).
        eexists. unfold s'. cbn [pollfds_ index_ setEvents]. rewrite list_lookup_insert_eq by done. done.
      * destruct (pinv_registered _ _ Hi fd q Hq) as (d & Hd & H1 & H2 & H3 & H4 & e' & He' & Hent2).
        exists d. rewrite lookup_insert_ne by done. split; [done|]. do 4 (split; [done|]).
        exists e'. unfold s'. cbn [pollfds_]. rewrite list_lookup_insert_ne; [done|]. intros Hix.
        apply Hqp. assert (fd = fd_ c) as ->; [|congruence].
        eapply (index_inj h s); eauto. lia.
    + intros i e' Hi'. destruct (decide (i = Z.to_nat (index_ c))) as [->|Hne].
      * rewrite list_lookup_insert_eq in Hi' by done. injection Hi' as <-.
        exists p, (setEvents c ev). rewrite Hent', lookup_insert_eq. cbn. split; [done|]. split; [done|lia].
      * rewrite list_lookup_insert_ne in Hi' by done.
        destruct (pinv_entries _ _ Hi i e' Hi') as (q & d & Hq & Hd & Hix). exists q, d.
        split; [done|]. split; [|done]. rewrite lookup_insert_ne; [done|].
        intros <-. replace d with c in * by congruence. lia.
Qed.

(** The array after the entry at [i] was overwritten by the last one and the
    last one dropped. *)
Lemma swap_pop_lookup {A} (l : list A) i back x j :
  (i < length l - 1)%nat ->
  pop_back (<[i := back]> (<[(length l - 1)%nat := x]> l)) !! j =
    if decide (j < length l - 1)%nat then (if decide (j = i) then Some back else l !! j) else None.
Proof.
  intros Hi. unfold pop_back. rewrite !length_insert. case_decide as Hj.
  - rewrite lookup_take_lt by done. case_decide as Hji.
    + subst. rewrite list_lookup_insert_eq; [done | rewrite length_insert; lia].
    + rewrite !list_lookup_insert_ne by lia. done.
  - apply lookup_take_ge. lia.
Qed.

Lemma pop_back_lookup {A} (l : list A) j :
  pop_back l !! j = if decide (j < length l - 1)%nat then l !! j else None.
Proof.
  unfold pop_back. case_decide; [by apply lookup_take_lt | apply lookup_take_ge; lia].
Qed.

(** The invariant after the last entry was dropped. *)
Lemma poll_inv_pop h s p c :
  poll_inv h s -> h !! p = Some c -> channels_ s !! fd_ c = Some p ->
  index_ c = zlen (pollfds_ s) - 1 ->
  poll_inv h (mkPollPoller (pop_back (pollfds_ s)) (delete (fd_ c) (channels_ s))).
Proof.
  intros Hi Hp Hreg Hidx. split; cbn [channels_ pollfds_].
  - intros fd q [Hne Hq]%lookup_delete_Some.
    destruct (pinv_registered _ _ Hi fd q Hq) as (d & Hd & H1 & H2 & H3 & H4 & e & He & Hent).
    exists d. split; [done|]. do 4 (split; [done|]). exists e. cbn [pollfds_].
    rewrite pop_back_lookup, decide_True; [done|].
    pose proof (lookup_lt_Some _ _ _ He). assert (index_ d <> index_ c) as Hix.
    { intros Hix. apply Hne. symmetry. eapply (index_inj h s fd q d (fd_ c) p c); eauto. }
    unfold zlen in Hidx. lia.
  - intros i e. rewrite pop_back_lookup. case_decide as Hlt; [|done]. intros He.
    destruct (pinv_entries _ _ Hi i e He) as (q & d & Hq & Hd & Hix). exists q, d.
    rewrite lookup_delete_ne; [done|]. intros Hfd. rewrite <- Hfd in Hq.
    replace q with p in * by congruence. replace d with c in * by congruence.
    unfold zlen in Hidx. lia.
Qed.

(** The invariant after the last entry took the place of the removed one. *)
Lemma poll_inv_swap h s p c e back q d :
  poll_inv h s -> h !! p = Some c -> channels_ s !! fd_ c = Some p ->
  pollfds_ s !! (length (pollfds_ s) - 1)%nat = Some back ->
  0 <= index_ c < zlen (pollfds_ s) - 1 ->
  channels_ s !! entry_fd (pfd_fd back) = Some q -> h !! q = Some d ->
  index_ d = zlen (pollfds_ s) - 1 ->
  poll_inv (<[q := setIndex d (index_ c)]> h)
    (mkPollPoller (pop_back (<[Z.to_nat (index_ c) := back]>
                     (<[(length (pollfds_ s) - 1)%nat := e]> (pollfds_ s))))
       (delete (fd_ c) (channels_ s))).
Proof.
  intros Hi Hp Hreg Hback Hidx Hq Hd Hdix. unfold zlen in *.
  assert (Z.to_nat (index_ c) < length (pollfds_ s) - 1)%nat as Hc by lia.
  assert (entry_fd (pfd_fd back) <> fd_ c) as Hne.
  { intros Hx. rewrite Hx in Hq. replace q with p in * by congruence.
    replace d with c in * by congruence. lia. }
  split; cbn [channels_ pollfds_].
  - intros fd r [Hfd Hr]%lookup_delete_Some.
    destruct (pinv_registered _ _ Hi fd r Hr) as (b & Hb & H1 & H2 & H3 & H4 & e0 & He0 & Hent).
    destruct (decide (r = q)) as [->|Hrq].
    + replace b with d in * by congruence.
      exists (setIndex d (index_ c)). rewrite lookup_insert_eq. split; [done|].
      split; [done|]. do 2 (split; [done|]). split; [apply Hidx|]. exists back.
      cbn [pollfds_ index_ setIndex events_]. rewrite swap_pop_lookup, !decide_True by done.
      split; [done|]. rewrite Hdix, Z2Nat.inj_sub, Nat2Z.id in He0 by lia.
      change (Z.to_nat 1) with 1%nat in He0. replace e0 with back in * by congruence. done.
    + exists b. rewrite lookup_insert_ne by congruence. split; [done|].
      do 4 (split; [done|]). exists e0. cbn [pollfds_]. rewrite swap_pop_lookup by done.
      pose proof (lookup_lt_Some _ _ _ He0).
      assert (index_ b <> index_ c) by (intros Hx; apply Hfd; symmetry;
        eapply (index_inj h s fd r b (fd_ c) p c); eauto).
      assert (index_ b <> index_ d) by (intros Hx; apply Hrq;
        pose proof (index_inj h s fd r b _ q d Hi Hr Hb Hq Hd Hx); congruence).
      rewrite decide_True, decide_False by lia. done.
  - intros i e0. rewrite swap_pop_lookup by done. case_decide as Hlt; [|done].
    case_decide as Hix.
    + intros [= <-]. exists q, (setIndex d (index_ c)).
      rewrite lookup_delete_ne, lookup_insert_eq by congruence. cbn. split; [done|]. split; [done|lia].
    + intros He0. destruct (pinv_entries _ _ Hi i e0 He0) as (r & b & Hr & Hb & Hbx). exists r, b.
      assert (r <> q) by (intros ->; replace b with d in * by congruence; lia).
      rewrite lookup_insert_ne by congruence. rewrite lookup_delete_ne; [done|].
      intros Hfd. rewrite <- Hfd in Hr. replace r with p in * by congruence.
      replace b with c in * by congruence. lia.
Qed.

Lemma poll_remove_ok h s p c e :
  poll_inv h s -> h !! p = Some c -> channels_ s !! fd_ c = Some p -> events_ c = 0 ->
  pollfds_ s !! Z.to_nat (index_ c) = Some e -> pfd_fd e = - fd_ c - 1 ->
  exists h' s', poll_removeChannel true h s p = Ok (h', s') /\ poll_inv h' s' /\
    channels_ s' = delete (fd_ c) (channels_ s) /\
    length (pollfds_ s') = (length (pollfds_ s) - 1)%nat /\ h' !! p = Some c.
Proof.
  intros Hi Hp Hreg Hev He Hneg.
  destruct (indexed_unique _ _ _ _ _ Hi Hreg Hp) as (_ & Hfd & _ & Hidx & e' & He' & Hent & Heve).
  replace e' with e in * by congruence. clear e' He'. pose proof (lookup_lt_Some _ _ _ He) as Hlt.
  unfold poll_removeChannel, deref. rewrite Hp. cbn [assertInLoopThread guard_ mbind res_bind].
  rewrite Hreg, !bool_decide_true, He by done. unfold isNoneEvent, kNoneEvent. rewrite Hev.
  cbn [assert_ Z.eqb mbind res_bind]. rewrite Hev in Heve.
  rewrite !assert_true by (rewrite ?Heve; unfold zlen; lia). cbn [mbind res_bind].
  destruct (Z.eqb_spec (index_ c) (zlen (pollfds_ s) - 1)) as [Hl|Hl].
  - eexists _, _. split; [done|]. split; [by apply (poll_inv_pop h s p c)|].
    split; [done|]. split; [|done]. cbn. unfold pop_back. rewrite length_take. lia.
  - unfold zlen in Hl. rewrite last_lookup.
    destruct (lookup_lt_is_Some_2 (pollfds_ s) (length (pollfds_ s) - 1)) as [back Hback]; [lia|].
    replace (pred (length (pollfds_ s))) with (length (pollfds_ s) - 1)%nat by lia. rewrite Hback.
    destruct (pinv_entries _ _ Hi _ _ Hback) as (q & d & Hq & Hd & Hdx).
    fold (entry_fd (pfd_fd back)). assert (entry_fd (pfd_fd back) <> fd_ c) as Hne.
    { intros Hx. rewrite Hx in Hq. replace q with p in * by congruence.
      replace d with c in * by congruence. lia. }
    rewrite lookup_delete_ne, Hq, Hd by congruence. cbn [mbind res_bind].
    eexists _, _. split; [done|]. split; [|split; [done|split]].
    + apply (poll_inv_swap h s p c e back q d); unfold zlen; (done || lia).
    + cbn. unfold pop_back. rewrite length_take, !length_insert. lia.
    + rewrite lookup_insert_ne; [done|]. intros ->. replace d with c in * by congruence. lia.
Qed.

(** ** What is reported *)

(** Every entry leads to a live channel of its descriptor. *)
Definition entries_live (channels : gmap Z ptr) (h : heap) (pfds : list pollfd) : Prop :=
  Forall (fun e => exists p c, channels !! entry_fd (pfd_fd e) = Some p /\ h !! p = Some c /\
                     fd_ c = entry_fd (pfd_fd e)) pfds.

Lemma poll_inv_live h s : poll_inv h s -> entries_live (channels_ s) h (pollfds_ s).
Proof.
  intros Hi. apply Forall_lookup. intros i e He.
  destruct (pinv_entries _ _ Hi i e He) as (p & c & Hp & Hc & _). exists p, c.
  split; [done|]. split; [done|]. by apply (registered_ptr h s _ p).
Qed.

Lemma entries_live_views channels h h' pfds :
  entries_live channels h pfds -> same_views h h' -> entries_live channels h' pfds.
Proof.
  intros Hl Hs. eapply Forall_impl; [exact Hl|]. intros e (p & c & Hp & Hc & Hfd).
  destruct (same_views_lookup _ _ _ _ Hs Hc) as (c' & Hc' & [= Hfd' _ _]). exists p, c'.
  split; [done|]. split; [done|]. congruence.
Qed.

Lemma entries_live_store channels h pfds revents :
  entries_live channels h pfds -> entries_live channels h (store_revents pfds revents).
Proof.
  intros Hl. revert revents. induction Hl as [|e pfds He Hl IH]; intros [|r revents]; try constructor;
    [exact He | apply IH].
Qed.

(** The loop takes the first [n] entries, or aborts at an ignored one. *)
Lemma fill_prefix channels h pfds (n : nat) :
  entries_live channels h pfds ->
  (forall fd p, channels !! fd = Some p -> 0 <= fd) ->
  if bool_decide (Forall (fun e => 0 <= pfd_fd e) (take n pfds))
  then exists h' active, fillActiveChannels channels h pfds (Z.of_nat n) = Ok (h', active) /\
         Forall2 (fun e p => channels !! pfd_fd e = Some p) (take n pfds) active
  else fillActiveChannels channels h pfds (Z.of_nat n) = Err AssertFail.
Proof.
  intros Hl Hpos. revert h n Hl. induction pfds as [|e pfds IH]; intros h n Hl.
  - rewrite take_nil, bool_decide_true by constructor. by exists h, [].
  - apply Forall_cons in Hl as [(p & c & Hp & Hc & Hfd) Hl]. destruct n as [|n].
    + rewrite take_0, bool_decide_true by constructor. cbn [fillActiveChannels].
      specialize (IH h 0%nat Hl). rewrite take_0, bool_decide_true in IH by constructor.
      destruct IH as (h' & active & Hf & Ha). apply Forall2_nil_inv_l in Ha as ->. exists h', [].
      split; [exact Hf | constructor].
    + cbn [take fillActiveChannels]. rewrite (proj2 (Z.ltb_lt 0 _)) by lia.
      destruct (decide (0 <= pfd_fd e)) as [He|He].
      * rewrite entry_fd_pos in Hp, Hfd by done. rewrite Hp. unfold deref. rewrite Hc.
        rewrite (bool_decide_true (Some p <> None)) by done. cbn [assert_ mbind res_bind].
        rewrite assert_true by lia. cbn [mbind res_bind].
        replace (Z.of_nat (S n) - 1) with (Z.of_nat n) by lia.
        assert (entries_live channels (<[p := setRevents c (pfd_revents e)]> h) pfds) as Hl'.
        { eapply entries_live_views; [exact Hl|]. by apply (same_views_insert h p c). }
        specialize (IH _ n Hl'). rewrite (bool_decide_ext (Forall _ (e :: _))
          (Forall (fun e => 0 <= pfd_fd e) (take n pfds))) by (rewrite Forall_cons; tauto).
        case_bool_decide; [|by rewrite IH]. destruct IH as (h' & active & -> & Ha).
        exists h', (p :: active). split; [done|]. by constructor.
      * rewrite bool_decide_false by (rewrite Forall_cons; tauto).
        destruct (channels !! pfd_fd e) as [q|] eqn:E; [by apply Hpos in E|].
        rewrite bool_decide_false; [done | tauto].
Qed.

Lemma store_revents_fds pfds revents :
  length revents = length pfds -> map pfd_fd (store_revents pfds revents) = map pfd_fd pfds.
Proof.
  revert revents. induction pfds as [|e pfds IH]; intros [|r revents] Hl; cbn in *; try done.
  f_equal. apply IH. lia.
Qed.

(** ** An example: descriptors 7 (reading), 9 (disabled) and 12 (writing) *)

Definition chan_example (fd ev idx : Z) : Channel := setIndex (setEvents (Channel_ctor 0 fd) ev) idx.

Definition heap_example : heap :=
  <[1 := chan_example 7 kReadEvent 0]> (<[2 := chan_example 9 0 1]>
  (<[3 := chan_example 12 kWriteEvent 2]> ∅)).

Definition poller_example : PollPoller :=
  mkPollPoller [mkPollfd 7 kReadEvent 0; mkPollfd (-10) 0 0; mkPollfd 12 kWriteEvent 0]
    (<[7 := 1]> (<[9 := 2]> (<[12 := 3]> ∅))).

Lemma poller_example_inv : poll_inv heap_example poller_example.
Proof.
  split; unfold poller_example; cbn [channels_ pollfds_].
  - intros fd p Hp.
    apply lookup_insert_Some in Hp as [[<- <-]|[_ Hp]];
      [|apply lookup_insert_Some in Hp as [[<- <-]|[_ Hp]];
        [|apply lookup_insert_Some in Hp as [[<- <-]|[_ Hp]]; [|by rewrite lookup_empty in Hp]]];
      eexists; (split; [vm_compute; reflexivity|]); (split; [done|]); (split; [done|]);
      (split; [decide_now|]); (split; [decide_now|]); eexists;
      (split; [vm_compute; reflexivity|]); done.
  - intros [|[|[|i]]] e [= <-]; eexists _, _;
      (split; [vm_compute; reflexivity|]); (split; [vm_compute; reflexivity | done]).
Qed.

(** ** Properties *)

(** [removeChannel] keeps the array and the map consistent: for a channel
    that was disabled after it was added, every assertion holds, the last entry
    takes the place of the removed one, every other channel still finds its
    own entry at its index, and the descriptor is forgotten. *)
Theorem poll_removeChannel_correct h s p c e :
  poll_inv h s -> h !! p = Some c -> channels_ s !! fd_ c = Some p -> events_ c = 0 ->
  pollfds_ s !! Z.to_nat (index_ c) = Some e -> pfd_fd e = - fd_ c - 1 ->
  exists h' s', poll_removeChannel true h s p = Ok (h', s') /\ poll_inv h' s' /\
    channels_ s' = delete (fd_ c) (channels_ s) /\
    length (pollfds_ s') = (length (pollfds_ s) - 1)%nat.
Proof.
  intros Hi Hp Hreg Hev He Hneg.
  destruct (poll_remove_ok h s p c e) as (h' & s' & ? & ? & ? & ? & _); [done..|].
  by exists h', s'.
Qed.

Lemma poll_removeChannel_correct_witness :
  poll_inv heap_example poller_example /\
  exists h' s', poll_removeChannel true heap_example poller_example 2 = Ok (h', s') /\
    poll_inv h' s' /\ channels_ s' = delete 9 (channels_ poller_example) /\
    length (pollfds_ s') = 2%nat.
Proof.
  split; [apply poller_example_inv|].
  apply (poll_removeChannel_correct heap_example poller_example 2 (chan_example 9 0 1)
           (mkPollfd (-10) 0 0));
    [apply poller_example_inv | vm_compute; reflexivity..].
Defined.

(** [poll] does not report the ready channels: when poll(2) says that
    [n] entries are ready, the active channels are those of the first [n]
    entries, whatever events were returned, and an ignored entry among them
    fails an assertion. *)
Theorem poll_reports_prefix h s (n : nat) revents :
  poll_inv h s -> length revents = length (pollfds_ s) -> (0 < n)%nat ->
  if bool_decide (Forall (fun fd => 0 <= fd) (take n (map pfd_fd (pollfds_ s))))
  then exists h' s' active, poll_poll h s (PollReady (Z.of_nat n) revents) = Ok (h', s', active) /\
         Forall2 (fun fd p => channels_ s !! fd = Some p) (take n (map pfd_fd (pollfds_ s))) active
  else poll_poll h s (PollReady (Z.of_nat n) revents) = Err AssertFail.
Proof.
  intros Hi Hlen Hn. pose proof (fill_prefix (channels_ s) h (store_revents (pollfds_ s) revents) n) as Hf.
  unfold poll_poll. rewrite (proj2 (Z.ltb_lt 0 _)) by lia. cbn [channels_ pollfds_].
  rewrite <- (store_revents_fds _ revents Hlen), firstn_map.
  set (pfds := store_revents (pollfds_ s) revents) in *.
  rewrite (bool_decide_ext _ (Forall (fun e => 0 <= pfd_fd e) (take n pfds)))
    by apply Forall_map.
  assert (entries_live (channels_ s) h pfds) as Hl
    by by apply entries_live_store, poll_inv_live.
  specialize (Hf Hl). case_bool_decide.
  - destruct Hf as (h' & active & -> & Ha).
    { intros fd p Hp. by destruct (pinv_registered _ _ Hi fd p Hp) as (c & _ & _ & ? & _). }
    eexists h', _, active. split; [done|]. by apply Forall2_fmap_l.
  - rewrite Hf; [done|].
    intros fd p Hp. by destruct (pinv_registered _ _ Hi fd p Hp) as (c & _ & _ & ? & _).
Qed.

(** One ready entry, descriptor 12; the channel of descriptor 7 is reported. *)
Lemma poll_reports_prefix_witness :
  poll_inv heap_example poller_example /\
  exists h' s' active,
    poll_poll heap_example poller_example (PollReady 1 [0; 0; POLLOUT]) = Ok (h', s', active) /\
    Forall2 (fun fd p => channels_ poller_example !! fd = Some p) [7] active.
Proof.
  split; [apply poller_example_inv|].
  exact (poll_reports_prefix heap_example poller_example 1 [0; 0; POLLOUT]
           poller_example_inv eq_refl (Nat.lt_0_succ 0)).
Defined.

(** A channel that was disabled is never watched again: after
    [disableAll] and any later update, the entry still holds [-fd - 1], so
    poll(2) ignores the descriptor whatever the mask.  The contract
    [update_law] of the interface does not hold for this poller. *)
Theorem poll_reenable_ignored h s p c ev :
  poll_inv h s -> h !! p = Some c -> channels_ s !! fd_ c = Some p -> interest_ok ev ->
  exists h1 s1 h2 s2,
    poll_updateChannel true (<[p := setEvents c 0]> h) s p = Ok (h1, s1) /\
    poll_updateChannel true (<[p := setEvents c ev]> h1) s1 p = Ok (h2, s2) /\
    poll_watched s2 (fd_ c) = 0 /\ poll_inv h2 s2.
Proof.
  intros Hi Hp Hreg Hev.
  destruct (indexed_unique _ _ _ _ _ Hi Hreg Hp) as (_ & Hfd & _ & Hidx & e & He & _ & _).
  destruct (poll_update_old h s p c 0 e) as [H1 Hi1]; [done|done|done|done|done|].
  set (s1 := mkPollPoller _ _) in *. pose proof (lookup_lt_Some _ _ _ He) as Hlt.
  destruct (poll_update_old (<[p := setEvents c 0]> h) s1 p (setEvents c 0) ev
    (updated_entry e c 0)) as [H2 Hi2];
    [done | apply lookup_insert_eq | done | done | cbn; by apply list_lookup_insert_eq |].
  eexists _, _, _, _. split; [exact H1|]. split; [exact H2|]. split; [|exact Hi2].
  unfold poll_watched. cbn [pollfds_]. set (l := <[_ := _]> (pollfds_ s1)) in *.
  destruct (list_find (fun e => pfd_fd e = fd_ c) l) as [[i e']|] eqn:E; [|done].
  apply list_find_Some in E as (Hl & Hfd' & _).
  destruct (pinv_entries _ _ Hi2 i e' Hl) as (q & d & Hq & Hd & Hix). cbn [channels_] in Hq.
  rewrite Hfd', entry_fd_pos in Hq by done. cbn in Hq. replace q with p in * by congruence.
  rewrite lookup_insert_eq in Hd. injection Hd as <-. cbn in Hix.
  unfold l in Hl. cbn in Hl. rewrite Hix, Nat2Z.id, list_lookup_insert_eq in Hl
    by (rewrite length_insert; lia).
  injection Hl as <-. exfalso. revert Hfd'. cbn. destruct (ev =? 0); lia.
Qed.

Lemma poll_reenable_ignored_witness :
  poll_inv heap_example poller_example /\
  exists h1 s1 h2 s2,
    poll_updateChannel true (<[1 := setEvents (chan_example 7 kReadEvent 0) 0]> heap_example)
      poller_example 1 = Ok (h1, s1) /\
    poll_updateChannel true (<[1 := setEvents (chan_example 7 kReadEvent 0) kReadEvent]> h1) s1 1 =
      Ok (h2, s2) /\
    poll_watched s2 7 = 0 /\ poll_inv h2 s2.
Proof.
  split; [apply poller_example_inv|].
  apply (poll_reenable_ignored heap_example poller_example 1 (chan_example 7 kReadEvent 0) kReadEvent);
    [apply poller_example_inv | vm_compute; reflexivity | vm_compute; reflexivity | decide_now].
Defined.
