(* ===== verification/EventLoop.v ===== *)
(** * The event loop: tmuduo/net/EventLoop.h and EventLoop.cc

    Module [Chan] is the loop as the owner of channels: [updateChannel] and
    [removeChannel] and the methods of [Channel] that call them, over any
    poller.  Module [Queue] is the loop as a task queue shared by threads: a
    step relation in which the steps of the loop thread and of the others
    interleave, each step between two accesses to the shared state. *)

From S2P Require Import Prelude Channel Poller EPollPoller.

Module Chan.

(** ** State *)

(** The members the channel operations read; [tid] is the calling thread. *)
Record EventLoop (P : Type) := mkEventLoop {
  this : Z;
  threadId_ : Z;
  eventHandling_ : bool;
  activeChannels_ : list ptr;
  currentActiveChannel_ : option ptr;
  channels : heap;
  poller_ : P
}.
Arguments mkEventLoop {P}.
Arguments this {P}.
Arguments threadId_ {P}.
Arguments eventHandling_ {P}.
Arguments activeChannels_ {P}.
Arguments currentActiveChannel_ {P}.
Arguments channels {P}.
Arguments poller_ {P}.

Section Ops.
Context {P : Type} `{PL : PollerLaws P}.
Implicit Types (l : EventLoop P).

Definition isInLoopThread l (tid : Z) : bool := threadId_ l =? tid.

Definition set_store l (h : heap) (s : P) : EventLoop P :=
  mkEventLoop (this l) (threadId_ l) (eventHandling_ l) (activeChannels_ l)
    (currentActiveChannel_ l) h s.

Definition loop_updateChannel (tid : Z) l (p : ptr) : res (EventLoop P) :=
  channel ← deref (channels l) p;
  assert_ (loop_ channel =? this l);;
  assertInLoopThread (isInLoopThread l tid);;
  '(h, s) ← updateChannel (isInLoopThread l tid) (channels l) (poller_ l) p;
  Ok (set_store l h s).

Definition loop_removeChannel (tid : Z) l (p : ptr) : res (EventLoop P) :=
  channel ← deref (channels l) p;
  assert_ (loop_ channel =? this l);;
  assertInLoopThread (isInLoopThread l tid);;
  (if eventHandling_ l
   then assert_ (bool_decide (currentActiveChannel_ l = Some p) ||
                 negb (bool_decide (p ∈ activeChannels_ l)))
   else Ok tt);;
  '(h, s) ← removeChannel (isInLoopThread l tid) (channels l) (poller_ l) p;
  Ok (set_store l h s).

(** [Channel::update], after the mask was changed. *)
Definition channel_update (tid : Z) l (p : ptr) (f : Z -> Z) : res (EventLoop P) :=
  c ← deref (channels l) p;
  let c := setEvents c (f (events_ c)) in
  let c := setAddedToLoop c true in
  loop_updateChannel tid (set_store l (<[p := c]> (channels l)) (poller_ l)) p.

Definition enableReading (tid : Z) l p := channel_update tid l p (enable kReadEvent).
Definition disableReading (tid : Z) l p := channel_update tid l p (disable kReadEvent).
Definition enableWriting (tid : Z) l p := channel_update tid l p (enable kWriteEvent).
Definition disableWriting (tid : Z) l p := channel_update tid l p (disable kWriteEvent).
Definition disableAll (tid : Z) l p := channel_update tid l p (fun _ => kNoneEvent).

(** [Channel::remove]. *)
Definition channel_remove (tid : Z) l (p : ptr) : res (EventLoop P) :=
  c ← deref (channels l) p;
  assert_ (isNoneEvent c);;
  let c := setAddedToLoop c false in
  loop_removeChannel tid (set_store l (<[p := c]> (channels l)) (poller_ l)) p.

(** ** Dispatch

    [callback] is what the application, the connections and the timers do in a
    callback of a channel. *)
Section Dispatch.
Context (callback : ptr -> channel_callback -> EventLoop P -> res (EventLoop P)).

Definition set_dispatch l (handling : bool) (current : option ptr) : EventLoop P :=
  mkEventLoop (this l) (threadId_ l) handling (activeChannels_ l) current (channels l) (poller_ l).

(** The callbacks of a channel's events, in order; the channel is read again
    after each. *)
Fixpoint run_callbacks l (p : ptr) (cbs : list channel_callback) : res (EventLoop P) :=
  match cbs with
  | [] => Ok l
  | cb :: cbs =>
      l ← callback p cb l;
      _ ← deref (channels l) p;
      run_callbacks l p cbs
  end.

(** [Channel::handleEvent]: nothing for a tied object that is gone. *)
Definition handle_channel l (p : ptr) (receiveTime : Z) : res (EventLoop P) :=
  c ← deref (channels l) p;
  if tied_ c && negb (tie_alive c) then Ok l
  else
    l ← run_callbacks (set_store l (<[p := setHandling c true]> (channels l)) (poller_ l)) p
          (handleEventWithguard c receiveTime);
    c ← deref (channels l) p;
    Ok (set_store l (<[p := setHandling c false]> (channels l)) (poller_ l)).

Fixpoint handle_active l (active : list ptr) (pollReturnTime : Z) : res (EventLoop P) :=
  match active with
  | [] => Ok l
  | p :: active =>
      l ← handle_channel (set_dispatch l true (Some p)) p pollReturnTime;
      handle_active l active pollReturnTime
  end.

(** One turn of [loop()], up to [doPendingFunctors]. *)
Definition loop_once l (r : poll_ret) (now : Z) : res (EventLoop P) :=
  '(h, s, active) ← poll (channels l) (poller_ l) r;
  let l := mkEventLoop (this l) (threadId_ l) true active (currentActiveChannel_ l) h s in
  l ← handle_active l active now;
  Ok (set_dispatch l false None).
End Dispatch.

(** ** Sequences of channel operations *)

Inductive chan_op :=
| EnableReading | DisableReading | EnableWriting | DisableWriting | DisableAll | Remove.

Definition run_op (tid : Z) l (p : ptr) (op : chan_op) : res (EventLoop P) :=
  match op with
  | EnableReading => enableReading tid l p
  | DisableReading => disableReading tid l p
  | EnableWriting => enableWriting tid l p
  | DisableWriting => disableWriting tid l p
  | DisableAll => disableAll tid l p
  | Remove => channel_remove tid l p
  end.

Fixpoint run_ops (tid : Z) l (ops : list (ptr * chan_op)) : res (EventLoop P) :=
  match ops with
  | [] => Ok l
  | (p, op) :: ops => l ← run_op tid l p op; run_ops tid l ops
  end.

(** The mask an operation leaves, [None] when it forgets the channel. *)
Definition op_mask (op : chan_op) (ev : Z) : option Z :=
  match op with
  | EnableReading => Some (enable kReadEvent ev)
  | DisableReading => Some (disable kReadEvent ev)
  | EnableWriting => Some (enable kWriteEvent ev)
  | DisableWriting => Some (disable kWriteEvent ev)
  | DisableAll => Some 0
  | Remove => None
  end.

(** The specification: the interest masks of the registered channels. *)
Abbreviation interests := (gmap Z Z).

Definition spec_op (m : interests) (p : ptr) (op : chan_op) : option interests :=
  match op with
  | Remove => match m !! p with Some 0 => Some (delete p m) | _ => None end
  | _ =>
      match op_mask op (default 0 (m !! p)) with
      | Some ev => Some (<[p := ev]> m)
      | None => None
      end
  end.

Fixpoint spec_ops (m : interests) (ops : list (ptr * chan_op)) : option interests :=
  match ops with
  | [] => Some m
  | (p, op) :: ops => m ← spec_op m p op; spec_ops m ops
  end.

(** The loop implements the masks: each registered channel is in the poller,
    which watches its descriptor for its mask; other descriptors are not
    watched.  Channels of the loop have distinct descriptors. *)
Record loop_rel (m : interests) l : Prop := {
  rel_inv : poller_inv (channels l) (poller_ l);
  rel_owner p c : channels l !! p = Some c -> loop_ c = this l;
  rel_fds p q c d : channels l !! p = Some c -> channels l !! q = Some d -> fd_ c = fd_ d -> p = q;
  rel_known p ev : m !! p = Some ev -> is_Some (channels l !! p);
  rel_mask p c : channels l !! p = Some c ->
    events_ c = default 0 (m !! p) /\ interest_ok (events_ c) /\
    (registered (poller_ l) (fd_ c) = Some p <-> is_Some (m !! p)) /\
    (registered (poller_ l) (fd_ c) = Some p \/ registered (poller_ l) (fd_ c) = None) /\
    watched (poller_ l) (fd_ c) = default 0 (m !! p)
}.
(** ** Lemmas *)

(** The relation after one channel changed: [o] is its new mask, if any. *)
Lemma rel_change m l p c c' s' o :
  loop_rel m l -> channels l !! p = Some c ->
  fd_ c' = fd_ c -> loop_ c' = loop_ c -> events_ c' = default 0 o -> interest_ok (events_ c') ->
  poller_inv (<[p := c']> (channels l)) s' ->
  changed_at (registered (poller_ l)) (registered s') (fd_ c) (match o with Some _ => Some p | None => None end) ->
  changed_at (watched (poller_ l)) (watched s') (fd_ c) (default 0 o) ->
  loop_rel (partial_alter (fun _ => o) p m) (set_store l (<[p := c']> (channels l)) s').
Proof.
  intros [Hi Ho Hf Hk Hm] Hp Hfd Hloop Hev Hok Hi' [Hr Hr'] [Hw Hw'].
  assert (forall q d, <[p := c']> (channels l) !! q = Some d ->
            q = p /\ d = c' \/ q <> p /\ channels l !! q = Some d) as Hcases.
  { intros q d [[-> ->]|[? ?]]%lookup_insert_Some; [by left | right; auto]. }
  split; cbn [channels poller_ set_store this].
  - exact Hi'.
  - intros q d [[-> ->]|[_ Hq]]%Hcases; [rewrite Hloop; eauto | eauto].
  - intros q r d e [[-> ->]|[Hqp Hq]]%Hcases [[-> ->]|[Hrp Hrr]]%Hcases He; [done|..|eauto];
      [exfalso; apply Hrp | exfalso; apply Hqp]; rewrite Hfd in He; eauto.
  - intros q ev Hq. destruct (decide (q = p)) as [->|Hne]; [rewrite lookup_insert_eq; eauto|].
    rewrite lookup_partial_alter_ne in Hq by congruence. rewrite lookup_insert_ne by congruence. eauto.
  - intros q d [[-> ->]|[Hne Hq]]%Hcases.
    + rewrite lookup_partial_alter_eq, Hfd, Hr, Hw. split; [done|]. split; [done|].
      split; [|split; [|done]]; destruct o; [split; eauto | | by left | by right].
      split; [done | by intros []].
    + destruct (Hm q d Hq) as (H1 & H2 & H3 & H4 & H5).
      assert (fd_ d <> fd_ c) as Hfne by (intros He; apply Hne; eauto).
      rewrite lookup_partial_alter_ne by congruence. rewrite Hr', Hw' by done. done.
Qed.

(** What dispatch reads of a channel. *)
Definition dispatch_view (c : Channel) :=
  (fd_ c, revents_ c, tied_ c && negb (tie_alive c), readCallback_ c, writeCallback_ c, closeCallback_ c,
   errorCallback_ c).

(** What every operation keeps of the loop's other members. *)
Definition same_loop l l' : Prop :=
  this l' = this l /\ threadId_ l' = threadId_ l /\ eventHandling_ l' = eventHandling_ l /\
  activeChannels_ l' = activeChannels_ l /\ currentActiveChannel_ l' = currentActiveChannel_ l /\
  forall q c, channels l !! q = Some c -> exists c', channels l' !! q = Some c' /\ dispatch_view c' = dispatch_view c.

Lemma same_loop_store l p c s :
  (forall d, channels l !! p = Some d -> dispatch_view c = dispatch_view d) ->
  same_loop l (set_store l (<[p := c]> (channels l)) s).
Proof.
  intros Hc. do 5 (split; [done|]). intros q d Hq. cbn. destruct (decide (q = p)) as [->|Hne].
  - rewrite lookup_insert_eq. eauto.
  - rewrite lookup_insert_ne by congruence. eauto.
Qed.

Lemma in_loop l : isInLoopThread l (threadId_ l) = true.
Proof. apply Z.eqb_refl. Qed.

Lemma channel_update_ok m l p c f :
  loop_rel m l -> channels l !! p = Some c -> interest_ok (f (events_ c)) ->
  exists l', channel_update (threadId_ l) l p f = Ok l' /\
    loop_rel (<[p := f (default 0 (m !! p))]> m) l' /\ same_loop l l'.
Proof.
  intros Hrel Hp Hok. destruct (rel_mask _ _ Hrel p c Hp) as (Hev & _ & _ & Hreg & _).
  rewrite <- Hev. set (c1 := setAddedToLoop c true).
  destruct (update_law (<[p := c1]> (channels l)) (poller_ l) p c1 (f (events_ c)))
    as (i & s' & Hu & Hinv & Hr & Hw).
  - eapply inv_views; [apply (rel_inv _ _ Hrel)|]. by apply (same_views_insert _ p c).
  - apply lookup_insert_eq.
  - done.
  - cbn. tauto.
  - do 2 rewrite insert_insert_eq in Hu. rewrite insert_insert_eq in Hinv.
    exists (set_store l (<[p := setIndex (setEvents c1 (f (events_ c))) i]> (channels l)) s').
    split; [|split; [|apply same_loop_store; intros d Hd; by simplify_eq]].
    + unfold channel_update, loop_updateChannel, deref. rewrite Hp. cbn [mbind res_bind].
      cbn [channels set_store poller_]. rewrite lookup_insert_eq. cbn [mbind res_bind].
      cbn [loop_ setAddedToLoop setEvents this].
      rewrite (rel_owner _ _ Hrel p c Hp), Z.eqb_refl. cbn [assert_ mbind res_bind].
      change (isInLoopThread (set_store _ _ _) (threadId_ l)) with (isInLoopThread l (threadId_ l)).
      rewrite in_loop. cbn [assertInLoopThread guard_ mbind res_bind].
      change (setAddedToLoop (setEvents c (f (events_ c))) true) with (setEvents c1 (f (events_ c))).
      rewrite Hu. done.
    + apply (rel_change m l p c _ s' (Some (f (events_ c)))); done.
Qed.

(** [removeChannel]'s assertion on the active channels. *)
Definition removable l (p : ptr) : Prop :=
  eventHandling_ l = true -> currentActiveChannel_ l = Some p \/ p ∉ activeChannels_ l.

Lemma channel_remove_ok m l p :
  loop_rel m l -> m !! p = Some 0 -> removable l p ->
  exists l', channel_remove (threadId_ l) l p = Ok l' /\ loop_rel (delete p m) l' /\ same_loop l l'.
Proof.
  intros Hrel Hm Hrem. destruct (rel_known _ _ Hrel p 0 Hm) as [c Hp].
  destruct (rel_mask _ _ Hrel p c Hp) as (Hev & _ & Hreg & _). rewrite Hm in Hev. cbn in Hev.
  assert (registered (poller_ l) (fd_ c) = Some p) as Hr0 by (apply Hreg; eauto).
  set (c1 := setAddedToLoop c false).
  destruct (remove_law (<[p := c1]> (channels l)) (poller_ l) p c1) as (i & s' & Hu & Hinv & _ & Hr & Hw).
  - eapply inv_views; [apply (rel_inv _ _ Hrel)|]. by apply (same_views_insert _ p c).
  - apply lookup_insert_eq.
  - done.
  - done.
  - rewrite insert_insert_eq in Hu. rewrite insert_insert_eq in Hinv.
    exists (set_store l (<[p := setIndex c1 i]> (channels l)) s'). split; [|split; [|apply same_loop_store; intros d Hd; by simplify_eq]].
    + unfold channel_remove, loop_removeChannel, deref. rewrite Hp. cbn [mbind res_bind].
      unfold isNoneEvent. rewrite Hev. cbn [kNoneEvent Z.eqb assert_ mbind res_bind].
      cbn [channels set_store poller_]. rewrite lookup_insert_eq. cbn [mbind res_bind].
      cbn [loop_ setAddedToLoop this eventHandling_ currentActiveChannel_ activeChannels_].
      rewrite (rel_owner _ _ Hrel p c Hp), Z.eqb_refl. cbn [assert_ mbind res_bind].
      change (isInLoopThread (set_store _ _ _) (threadId_ l)) with (isInLoopThread l (threadId_ l)).
      rewrite in_loop. cbn [assertInLoopThread guard_ mbind res_bind].
      replace (if eventHandling_ l then _ else _) with (Ok tt : res unit).
      * cbn [mbind res_bind]. fold c1. by rewrite Hu.
      * destruct (eventHandling_ l) eqn:E; [|done]. symmetry. apply assert_true, orb_true_iff.
        destruct (Hrem E) as [H1|H1]; [left; by rewrite bool_decide_true |].
        right. by rewrite bool_decide_false.
    + apply (rel_change m l p c _ s' None); try done. cbn. by rewrite Hev.
Qed.

Lemma run_op_ok m l p op m' :
  loop_rel m l -> is_Some (channels l !! p) -> (op = Remove -> removable l p) -> spec_op m p op = Some m' ->
  exists l', run_op (threadId_ l) l p op = Ok l' /\ loop_rel m' l' /\ same_loop l l'.
Proof.
  intros Hrel [c Hp] Hrem Hspec. destruct (rel_mask _ _ Hrel p c Hp) as (_ & Hok & _).
  destruct op; cbn in Hspec; try (injection Hspec as <-).
  - apply (channel_update_ok m l p c); [done..|]. by apply enable_ok.
  - apply (channel_update_ok m l p c); [done..|]. by apply disable_ok.
  - apply (channel_update_ok m l p c); [done..|]. by apply enable_ok.
  - apply (channel_update_ok m l p c); [done..|]. by apply disable_ok.
  - apply (channel_update_ok m l p c (fun _ => kNoneEvent)); done.
  - destruct (m !! p) as [[| |]|] eqn:E; try done. injection Hspec as <-.
    apply channel_remove_ok; auto.
Qed.

Lemma removable_same l l' p : same_loop l l' -> removable l p -> removable l' p.
Proof. intros (_ & _ & H1 & H2 & H3 & _). unfold removable. by rewrite H1, H2, H3. Qed.

Lemma same_loop_refl l : same_loop l l.
Proof. do 5 (split; [done|]). eauto. Qed.

Lemma same_loop_trans l1 l2 l3 : same_loop l1 l2 -> same_loop l2 l3 -> same_loop l1 l3.
Proof.
  intros (H1 & H2 & H3 & H4 & H5 & H6) (K1 & K2 & K3 & K4 & K5 & K6).
  do 5 (split; [congruence|]). intros q c Hq. destruct (H6 q c Hq) as (c1 & Hc1 & E1).
  destruct (K6 q c1 Hc1) as (c2 & Hc2 & E2). exists c2. split; [done|congruence].
Qed.

(** The operations a sequence may make in a loop. *)
Definition op_allowed l (x : ptr * chan_op) : Prop :=
  is_Some (channels l !! x.1) /\ (x.2 = Remove -> removable l x.1).

Lemma op_allowed_same l l' x : same_loop l l' -> op_allowed l x -> op_allowed l' x.
Proof.
  intros Hs [[c Hc] Hr]. split; [|intros E; eapply removable_same; eauto].
  destruct Hs as (_ & _ & _ & _ & _ & H). by destruct (H _ _ Hc) as (c' & -> & _).
Qed.

Lemma run_ops_ok ops : forall m l m',
  loop_rel m l -> Forall (op_allowed l) ops -> spec_ops m ops = Some m' ->
  exists l', run_ops (threadId_ l) l ops = Ok l' /\ loop_rel m' l' /\ same_loop l l'.
Proof.
  induction ops as [|[p op] ops IH]; intros m l m' Hrel Hops Hspec.
  - injection Hspec as <-. exists l. split; [done|]. split; [done|apply same_loop_refl].
  - cbn [spec_ops] in Hspec. destruct (spec_op m p op) as [m1|] eqn:E; [|done]. cbn [mbind option_bind] in Hspec.
    apply Forall_cons in Hops as [[Hp Hrem] Hops].
    destruct (run_op_ok m l p op m1) as (l1 & H1 & Hrel1 & Hsame); [done..|].
    destruct (IH m1 l1 m') as (l' & H2 & Hrel' & Hsame'); [done| |done|].
    + eapply Forall_impl; [exact Hops|]. intros x. by apply op_allowed_same.
    + exists l'. cbn [run_ops]. rewrite H1. cbn [mbind res_bind].
      replace (threadId_ l) with (threadId_ l1) by apply Hsame. split; [done|]. split; [done|].
      by eapply same_loop_trans.
Qed.

(** *** Dispatch *)

Lemma dispatch_view_fd c c' : dispatch_view c' = dispatch_view c -> fd_ c' = fd_ c.
Proof. by intros [= ? ? ? ? ? ? ?]. Qed.

Lemma handleEvent_view c c' now : dispatch_view c' = dispatch_view c -> handleEvent c' now = handleEvent c now.
Proof.
  unfold dispatch_view, handleEvent, handleEventWithguard. intros [= H1 H2 H3 H4 H5 H6 H7].
  rewrite H2, H4, H5, H6, H7. destruct (tied_ c'), (tie_alive c'), (tied_ c), (tie_alive c); done.
Qed.

(** Marking a channel as being handled. *)
Lemma rel_handling m l p c b :
  loop_rel m l -> channels l !! p = Some c ->
  loop_rel m (set_store l (<[p := setHandling c b]> (channels l)) (poller_ l)).
Proof.
  intros Hrel Hp. destruct (rel_mask _ _ Hrel p c Hp) as (He & Hok & Hr & Hr' & Hw).
  replace m with (partial_alter (fun _ => m !! p) p m) by apply partial_alter_self.
  apply (rel_change m l p c); try done.
  - eapply inv_views; [apply (rel_inv _ _ Hrel)|]. by apply (same_views_insert _ p c).
  - split; [|done]. destruct (m !! p); [apply Hr; eauto|].
    destruct Hr' as [E|E]; [|done]. apply Hr in E as [? ?]. done.
Qed.

Lemma rel_dispatch m l b o : loop_rel m l -> loop_rel m (set_dispatch l b o).
Proof. intros [? ? ? ? ?]. by split. Qed.

(** What a turn keeps of the loop. *)
Definition same_turn l l' : Prop :=
  this l' = this l /\ threadId_ l' = threadId_ l /\ activeChannels_ l' = activeChannels_ l /\
  forall q c, channels l !! q = Some c -> exists c', channels l' !! q = Some c' /\ dispatch_view c' = dispatch_view c.

Lemma same_loop_turn l l' : same_loop l l' -> same_turn l l'.
Proof. intros (? & ? & ? & ? & ? & ?). done. Qed.

Lemma same_turn_trans l1 l2 l3 : same_turn l1 l2 -> same_turn l2 l3 -> same_turn l1 l3.
Proof.
  intros (H1 & H2 & H4 & H6) (K1 & K2 & K4 & K6).
  do 3 (split; [congruence|]). intros q c Hq. destruct (H6 q c Hq) as (c1 & Hc1 & E1).
  destruct (K6 q c1 Hc1) as (c2 & Hc2 & E2). exists c2. split; [done|congruence].
Qed.

Section Programs.
(** Callbacks that make channel operations. *)
Context (prog : ptr -> channel_callback -> list (ptr * chan_op)).

Definition ops_callback (p : ptr) (cb : channel_callback) l : res (EventLoop P) :=
  run_ops (threadId_ l) l (prog p cb).

(** The operations of a turn, in order. *)
Definition channel_ops (h : heap) (now : Z) (p : ptr) : list (ptr * chan_op) :=
  match h !! p with Some c => concat (map (prog p) (handleEvent c now)) | None => [] end.
Definition turn_ops (h : heap) (now : Z) (active : list ptr) : list (ptr * chan_op) :=
  concat (map (channel_ops h now) active).

(** A callback removes no other active channel. *)
Definition prog_ok (h : heap) (active : list ptr) (p : ptr) : Prop :=
  forall cb, Forall (fun x => is_Some (h !! x.1) /\ (x.2 = Remove -> x.1 = p \/ x.1 ∉ active)) (prog p cb).

Lemma prog_ok_turn l l' active p : same_turn l l' -> prog_ok (channels l) active p -> prog_ok (channels l') active p.
Proof.
  intros (_ & _ & _ & H) Hp cb. eapply Forall_impl; [apply (Hp cb)|]. cbn. intros x [[c Hc] ?].
  split; [|done]. by destruct (H _ _ Hc) as (c' & -> & _).
Qed.

Lemma spec_ops_app m ops1 ops2 : spec_ops m (ops1 ++ ops2) = m1 ← spec_ops m ops1; spec_ops m1 ops2.
Proof.
  revert m. induction ops1 as [|[p op] ops1 IH]; intros m; cbn [spec_ops app]; [done|].
  destruct (spec_op m p op); [apply IH|done].
Qed.

Lemma run_callbacks_ok cbs p : forall m l m',
  loop_rel m l -> is_Some (channels l !! p) -> currentActiveChannel_ l = Some p ->
  prog_ok (channels l) (activeChannels_ l) p -> spec_ops m (concat (map (prog p) cbs)) = Some m' ->
  exists l', run_callbacks ops_callback l p cbs = Ok l' /\ loop_rel m' l' /\ same_loop l l'.
Proof.
  induction cbs as [|cb cbs IH]; intros m l m' Hrel Hp Hcur Hok Hspec; cbn [run_callbacks map concat] in *.
  - injection Hspec as <-. exists l. split; [done|]. split; [done|apply same_loop_refl].
  - rewrite spec_ops_app in Hspec. destruct (spec_ops m (prog p cb)) as [m1|] eqn:E1; [|done].
    cbn [mbind option_bind] in Hspec.
    destruct (run_ops_ok (prog p cb) m l m1) as (l1 & E & Hrel1 & Hs1); [done| |done|].
    { eapply Forall_impl; [apply (Hok cb)|]. cbn. intros x [Hx Hr]. split; [done|]. intros Hx2 _.
      destruct (Hr Hx2) as [->|?]; [by left|by right]. }
    change (ops_callback p cb l) with (run_ops (threadId_ l) l (prog p cb)). rewrite E. cbn [mbind res_bind].
    assert (is_Some (channels l1 !! p)) as Hp1.
    { destruct Hp as [c Hc]. destruct Hs1 as (_ & _ & _ & _ & _ & H). by destruct (H _ _ Hc) as (c' & -> & _). }
    unfold deref at 1. destruct Hp1 as [c1 Hc1]. rewrite Hc1. cbn [mbind res_bind].
    destruct (IH m1 l1 m') as (l' & E' & Hrel' & Hs'); [done|by eexists| | |done|].
    + destruct Hs1 as (_ & _ & _ & _ & Hc & _). congruence.
    + replace (activeChannels_ l1) with (activeChannels_ l) by (destruct Hs1 as (_ & _ & _ & ? & _); congruence).
      eapply prog_ok_turn; [|exact Hok]. by apply same_loop_turn.
    + exists l'. split; [done|]. split; [done|]. by eapply same_loop_trans.
Qed.

Lemma handle_channel_ok m l p now m' :
  loop_rel m l -> is_Some (channels l !! p) -> currentActiveChannel_ l = Some p ->
  prog_ok (channels l) (activeChannels_ l) p -> spec_ops m (channel_ops (channels l) now p) = Some m' ->
  exists l', handle_channel ops_callback l p now = Ok l' /\ loop_rel m' l' /\ same_turn l l'.
Proof.
  intros Hrel [c Hc] Hcur Hok Hspec. unfold handle_channel, deref. rewrite Hc. cbn [mbind res_bind].
  unfold channel_ops in Hspec. rewrite Hc in Hspec. unfold handleEvent in Hspec.
  destruct (tied_ c && negb (tie_alive c)) eqn:Ht.
  - apply andb_prop in Ht as [Ht Ha]. rewrite Ht in Hspec. destruct (tie_alive c); [done|].
    injection Hspec as <-. exists l. split; [done|]. split; [done|]. by apply same_loop_turn, same_loop_refl.
  - replace (if tied_ c then _ else _) with (handleEventWithguard c now) in Hspec
      by (destruct (tied_ c), (tie_alive c); done).
    set (l0 := set_store l (<[p := setHandling c true]> (channels l)) (poller_ l)).
    assert (same_loop l l0) as Hs0 by (apply same_loop_store; intros d Hd; rewrite Hc in Hd; by injection Hd as <-).
    destruct (run_callbacks_ok (handleEventWithguard c now) p m l0 m') as (l1 & -> & Hrel1 & Hs1); [|..|done|].
    + by apply rel_handling.
    + cbn. rewrite lookup_insert_eq. by eexists.
    + done.
    + eapply prog_ok_turn; [|exact Hok]. by apply same_loop_turn.
    + cbn [mbind res_bind]. pose proof (same_loop_trans _ _ _ Hs0 Hs1) as (T1 & T2 & T3 & T4 & T5 & T6).
      destruct (T6 p c Hc) as (c1 & Hc1 & Hv1). rewrite Hc1. cbn [mbind res_bind].
      eexists. split; [done|]. split; [by apply rel_handling|].
      eapply same_turn_trans; [apply same_loop_turn; by eapply same_loop_trans|].
      apply same_loop_turn, same_loop_store. intros d Hd. rewrite Hc1 in Hd. by injection Hd as <-.
Qed.

Lemma channel_ops_turn l l' now p :
  same_turn l l' -> is_Some (channels l !! p) -> channel_ops (channels l') now p = channel_ops (channels l) now p.
Proof.
  intros (_ & _ & _ & H) [c Hc]. unfold channel_ops. rewrite Hc. destruct (H p c Hc) as (c' & -> & Hv).
  by rewrite (handleEvent_view c c').
Qed.

Lemma handle_active_ok now active : forall m l m',
  loop_rel m l -> Forall (fun p => is_Some (channels l !! p) /\ prog_ok (channels l) (activeChannels_ l) p) active ->
  spec_ops m (turn_ops (channels l) now active) = Some m' ->
  exists l', handle_active ops_callback l active now = Ok l' /\ loop_rel m' l' /\ same_turn l l'.
Proof.
  induction active as [|p active IH]; intros m l m' Hrel Hact Hspec; cbn [handle_active].
  - injection Hspec as <-. exists l. split; [done|]. split; [done|]. by apply same_loop_turn, same_loop_refl.
  - apply Forall_cons in Hact as [[Hp Hok] Hact]. unfold turn_ops in Hspec. cbn [map concat] in Hspec.
    rewrite spec_ops_app in Hspec. destruct (spec_ops m (channel_ops _ _ p)) as [m1|] eqn:E1; [|done].
    cbn [mbind option_bind] in Hspec.
    destruct (handle_channel_ok m (set_dispatch l true (Some p)) p now m1) as (l1 & -> & Hrel1 & Hs1);
      [by apply rel_dispatch|done..|]. cbn [mbind res_bind].
    destruct (IH m1 l1 m') as (l' & E & Hrel' & Hs'); [done| | |].
    + eapply Forall_impl; [exact Hact|]. cbn. intros q [Hq Hqok]. pose proof Hs1 as (_ & _ & Ha & Hd).
      split; [destruct Hq as [cq Hq]; by destruct (Hd _ _ Hq) as (? & -> & _)|].
      rewrite Ha. by eapply (prog_ok_turn (set_dispatch l true (Some p))).
    + rewrite <- Hspec. f_equal. unfold turn_ops. f_equal. apply map_ext_in. intros q Hq.
      apply list_elem_of_In in Hq. rewrite Forall_forall in Hact. destruct (Hact q Hq) as [Hq' _].
      by apply (channel_ops_turn (set_dispatch l true (Some p))).
    + exists l'. split; [done|]. split; [done|]. eapply same_turn_trans; [|done]. exact Hs1.
Qed.
End Programs.

(** ** Properties *)

(** C11: for any poller that keeps the contract of the interface, every
    sequence of channel operations made in the loop's thread that the
    specification allows (a channel is removed only when it is registered and
    has no interest) passes all assertions, and leaves the poller watching
    every registered channel for exactly the mask the operations gave it. *)
Theorem channel_ops_refine m l ops m' :
  loop_rel m l ->
  Forall (fun x => is_Some (channels l !! x.1) /\ (x.2 = Remove -> removable l x.1)) ops ->
  spec_ops m ops = Some m' ->
  exists l', run_ops (threadId_ l) l ops = Ok l' /\ loop_rel m' l' /\
    forall p ev, m' !! p = Some ev ->
      exists c, channels l' !! p = Some c /\ events_ c = ev /\
        registered (poller_ l') (fd_ c) = Some p /\ watched (poller_ l') (fd_ c) = ev.
Proof.
  intros Hrel Hops Hspec. destruct (run_ops_ok ops m l m') as (l' & E & Hrel' & _); [done..|].
  exists l'. split; [done|]. split; [done|]. intros p ev Hp.
  destruct (rel_known _ _ Hrel' p ev Hp) as [c Hc]. exists c.
  destruct (rel_mask _ _ Hrel' p c Hc) as (He & _ & Hr & _ & Hw). rewrite Hp in *. cbn in *.
  split; [done|]. split; [done|]. split; [by apply Hr | done].
Qed.
(** C12: a turn of the loop, for any poller that keeps the contract and any
    callbacks that make channel operations and remove no active channel but
    their own: what poll reports are registered channels with events; every
    channel's callbacks run, in order, with it as the current channel; no
    assertion fails, those of [removeChannel] included; and the poller ends up
    watching the masks that the operations of all callbacks make. *)
Theorem loop_once_dispatches prog m l r now :
  loop_rel m l -> ready_ok (channels l) (poller_ l) r ->
  exists h s active, poll (channels l) (poller_ l) r = Ok (h, s, active) /\
    (forall p, p ∈ active -> exists c, h !! p = Some c /\ registered s (fd_ c) = Some p /\ revents_ c <> 0) /\
    forall m', (forall p, p ∈ active -> prog_ok prog h active p) ->
      spec_ops m (turn_ops prog h now active) = Some m' ->
      exists l', loop_once (ops_callback prog) l r now = Ok l' /\ loop_rel m' l' /\
        eventHandling_ l' = false /\ currentActiveChannel_ l' = None.
Proof.
  intros Hrel Hr. destruct (poll_law (channels l) (poller_ l) r (rel_inv _ _ Hrel) Hr)
    as (h & s & active & E & Hi & Hv & Hreg & Hw & Hact).
  exists h, s, active. split; [done|]. split; [done|]. intros m' Hok Hspec. unfold loop_once. rewrite E.
  cbn [mbind res_bind]. set (l1 := mkEventLoop _ _ _ _ _ _ _).
  assert (loop_rel m l1) as Hrel1.
  { pose proof (poll_frame _ _ _ _ _ _ E) as Hf. destruct Hrel as [R1 R2 R3 R4 R5].
    split; cbn [channels poller_ this l1]; [done|..].
    - intros p c Hp. destruct (Hf p c Hp) as (c0 & r0 & Hc0 & ->). by apply (R2 p c0).
    - intros p q c d Hp Hq. destruct (Hf p c Hp) as (c0 & r0 & Hc0 & ->).
      destruct (Hf q d Hq) as (d0 & r1 & Hd0 & ->). by apply (R3 p q c0 d0).
    - intros p ev Hp. destruct (R4 p ev Hp) as [c Hc].
      destruct (same_views_lookup _ _ _ _ Hv Hc) as (c' & -> & _). by eexists.
    - intros p c Hp. destruct (Hf p c Hp) as (c0 & r0 & Hc0 & ->). cbn. rewrite Hreg, Hw. by apply (R5 p c0). }
  destruct (handle_active_ok prog now active m l1 m') as (l' & -> & Hrel' & _); [done| |done|].
  { apply Forall_forall. intros p Hp. destruct (Hact p Hp) as (c & Hc & _). split; [by exists c|by apply Hok]. }
  cbn [mbind res_bind]. eexists. split; [done|]. split; [by apply rel_dispatch|done].
Qed.
End Ops.

(** A loop with the epoll poller and two channels. *)
Definition loop_example : EventLoop (EPollPoller (gmap Z (Z * ptr))) :=
  mkEventLoop 0 100 false [] None two_channels (EPollPoller_ctor ∅).

Definition ops_example : list (ptr * chan_op) :=
  [(1, EnableReading); (2, EnableWriting); (1, EnableWriting); (1, DisableReading);
   (2, DisableAll); (2, Remove)].

Lemma two_channels_cases p c :
  two_channels !! p = Some c -> p = 1 /\ c = demo_channel 7 \/ p = 2 /\ c = demo_channel 9.
Proof.
  unfold two_channels. intros Hp.
  apply lookup_insert_Some in Hp as [[<- <-]|[_ Hp]]; [by left|].
  apply lookup_insert_Some in Hp as [[<- <-]|[_ Hp]]; [by right|]. by rewrite lookup_empty in Hp.
Qed.

Lemma loop_example_rel : loop_rel ∅ loop_example.
Proof.
  split; unfold loop_example; cbn [channels poller_ this].
  - apply two_channels_inv.
  - intros p c [[-> ->]|[-> ->]]%two_channels_cases; done.
  - intros p q c d [[-> ->]|[-> ->]]%two_channels_cases [[-> ->]|[-> ->]]%two_channels_cases; done.
  - intros p ev Hp. by rewrite lookup_empty in Hp.
  - intros p c Hp. rewrite lookup_empty. cbn [default].
    assert (events_ c = 0 /\ registered (poller_ loop_example) (fd_ c) = None /\
            watched (poller_ loop_example) (fd_ c) = 0) as (H1 & H2 & H3).
    { apply two_channels_cases in Hp as [[-> ->]|[-> ->]]; vm_compute; done. }
    cbn in H2, H3 |- *. rewrite H1, H2, H3. split; [done|]. split; [decide_now|].
    split; [split; [done | by intros []]|]. split; [by right | done].
Qed.

Lemma channel_ops_refine_witness :
  loop_rel ∅ loop_example /\
  exists l', run_ops 100 loop_example ops_example = Ok l' /\ loop_rel {[1 := kWriteEvent]} l' /\
    forall p ev, ({[1 := kWriteEvent]} : gmap Z Z) !! p = Some ev ->
      exists c, channels l' !! p = Some c /\ events_ c = ev /\
        registered (poller_ l') (fd_ c) = Some p /\ watched (poller_ l') (fd_ c) = ev.
Proof.
  split; [apply loop_example_rel|].
  apply (channel_ops_refine ∅ loop_example ops_example {[1 := kWriteEvent]}).
  - apply loop_example_rel.
  - repeat (constructor; [split; [by eexists | done]|]). constructor.
  - vm_compute. reflexivity.
Defined.

(** Both channels are read; a poll finds both readable. *)
Definition loop_reading : EventLoop (EPollPoller (gmap Z (Z * ptr))) :=
  match run_ops 100 loop_example [(1, EnableReading); (2, EnableReading)] with
  | Ok l => l
  | Err _ => loop_example
  end.

(** The first channel writes from then on, the second one goes away. *)
Definition prog_example (p : ptr) (cb : channel_callback) : list (ptr * chan_op) :=
  match cb with
  | CbRead _ => if p =? 1 then [(1, EnableWriting)] else [(2, DisableAll); (2, Remove)]
  | _ => []
  end.

Lemma loop_reading_rel : loop_rel {[1 := kReadEvent; 2 := kReadEvent]} loop_reading.
Proof.
  destruct (run_ops_ok [(1, EnableReading); (2, EnableReading)] ∅ loop_example {[1 := kReadEvent; 2 := kReadEvent]})
    as (l & E & Hrel & _).
  - apply loop_example_rel.
  - repeat (constructor; [split; [by eexists|done]|]). constructor.
  - vm_compute. reflexivity.
  - unfold loop_reading. change 100 with (threadId_ loop_example). by rewrite E.
Qed.

Lemma loop_once_dispatches_witness :
  let r := WaitEvents [(POLLIN, 1); (POLLIN, 2)] in
  exists h s active, poll (channels loop_reading) (poller_ loop_reading) r = Ok (h, s, active) /\
    (forall p, p ∈ active -> exists c, h !! p = Some c /\ registered s (fd_ c) = Some p /\ revents_ c <> 0) /\
    forall m', (forall p, p ∈ active -> prog_ok prog_example h active p) ->
      spec_ops {[1 := kReadEvent; 2 := kReadEvent]} (turn_ops prog_example h 5 active) = Some m' ->
      exists l', loop_once (ops_callback prog_example) loop_reading r 5 = Ok l' /\ loop_rel m' l' /\
        eventHandling_ l' = false /\ currentActiveChannel_ l' = None.
Proof.
  apply (loop_once_dispatches prog_example {[1 := kReadEvent; 2 := kReadEvent]} loop_reading).
  - apply loop_reading_rel.
  - split; [by vm_compute|]. repeat constructor; cbn; try done; [exists 7|exists 9]; eexists; vm_compute; reflexivity.
Defined.

(** The turn, and one in which a callback removes the other active channel. *)
Example dispatch_example :
  (l ← loop_once (ops_callback prog_example) loop_reading (WaitEvents [(POLLIN, 1); (POLLIN, 2)]) 5;
   Ok (watched (poller_ l) 7, watched (poller_ l) 9, registered (poller_ l) 9))
  = Ok (Z.lor kReadEvent kWriteEvent, 0, None) /\
  (l ← loop_once (ops_callback (fun p _ => if p =? 1 then [(2, DisableAll); (2, Remove)] else []))
         loop_reading (WaitEvents [(POLLIN, 1); (POLLIN, 2)]) 5; Ok tt) = Err AssertFail.
Proof. split; vm_compute; reflexivity. Qed.
End Chan.

Module Queue.

(** ** State *)

(** What a callback or a functor does to the loop it runs in: [queueInLoop],
    [quit], or nothing the loop sees. *)
Inductive loop_action (T : Type) :=
| ActQueue (t : T)
| ActQuit
| ActOther.
Arguments ActQueue {T} t.
Arguments ActQuit {T}.
Arguments ActOther {T}.

(** Where the loop thread is: out of [loop()] (before it, or after it
    returned), before the test of [quit_], in [poll], in the callbacks of the
    active channels (the actions left; [None] is the read of the wakeup
    descriptor), before the swap, or in the functors (the actions left of the
    current one, and the functors after it). *)
Inductive phase (T : Type) :=
| PIdle
| PCheck
| PPoll
| PHandle (acts : list (option (loop_action T)))
| PSwap
| PRun (acts : list (loop_action T)) (rest : list T).
Arguments PIdle {T}.
Arguments PCheck {T}.
Arguments PPoll {T}.
Arguments PHandle {T} acts.
Arguments PSwap {T}.
Arguments PRun {T} acts rest.

(** [owed] counts the other threads that are between their push (or the store
    to [quit_]) and their write to the wakeup descriptor.  [submitted] and [ran]
    are histories: the functors queued, and those started, in order; [early]
    are the pending functors the loop's own thread queued out of [loop()]. *)
Record queue_state (T : Type) := mkQueue {
  pendingFunctors_ : list T;
  wakeupCount : Z;
  quit_ : bool;
  callingPendingFunctors_ : bool;
  at_phase : phase T;
  owed : nat;
  submitted : list T;
  ran : list T;
  early : list T
}.
Arguments mkQueue {T}.
Arguments pendingFunctors_ {T}.
Arguments wakeupCount {T}.
Arguments quit_ {T}.
Arguments callingPendingFunctors_ {T}.
Arguments at_phase {T}.
Arguments owed {T}.
Arguments submitted {T}.
Arguments ran {T}.
Arguments early {T}.

Section Steps.
Context {T : Type}.
(** What each functor does, in order. *)
Context (body : T -> list (loop_action T)).
Implicit Types (s : queue_state T).

Definition init_state : queue_state T := mkQueue [] 0 false false PIdle 0 [] [] [].

Definition set_phase s (ph : phase T) : queue_state T :=
  mkQueue (pendingFunctors_ s) (wakeupCount s) (quit_ s) (callingPendingFunctors_ s) ph (owed s)
    (submitted s) (ran s) (early s).

(** [wakeup()]: the eventfd adds one, unless that would overflow its counter
    (the write fails and the counter is not zero anyway). *)
Definition eventfd_add (n : Z) : Z := if n <? 2 ^ 64 - 2 then n + 1 else n.
#[local] Arguments eventfd_add : simpl never.

Definition wakeup s : queue_state T :=
  mkQueue (pendingFunctors_ s) (eventfd_add (wakeupCount s)) (quit_ s) (callingPendingFunctors_ s) (at_phase s) (owed s)
    (submitted s) (ran s) (early s).

(** [handleRead()]: the eventfd is reset. *)
Definition handleRead s : queue_state T :=
  mkQueue (pendingFunctors_ s) 0 (quit_ s) (callingPendingFunctors_ s) (at_phase s) (owed s)
    (submitted s) (ran s) (early s).

(** The critical section of [queueInLoop]. *)
Definition push s (t : T) : queue_state T :=
  mkQueue (pendingFunctors_ s ++ [t]) (wakeupCount s) (quit_ s) (callingPendingFunctors_ s)
    (at_phase s) (owed s) (submitted s ++ [t]) (ran s) (early s).

Definition owe s (n : nat) : queue_state T :=
  mkQueue (pendingFunctors_ s) (wakeupCount s) (quit_ s) (callingPendingFunctors_ s) (at_phase s) n
    (submitted s) (ran s) (early s).

Definition set_quit s : queue_state T :=
  mkQueue (pendingFunctors_ s) (wakeupCount s) true (callingPendingFunctors_ s) (at_phase s) (owed s)
    (submitted s) (ran s) (early s).

(** [queueInLoop]; in another thread the wakeup is a later step. *)
Definition queueInLoop (inLoopThread : bool) s (t : T) : queue_state T :=
  let s := push s t in
  if negb inLoopThread then owe s (S (owed s))
  else if callingPendingFunctors_ s then wakeup s else s.

(** [quit]. *)
Definition quit (inLoopThread : bool) s : queue_state T :=
  let s := set_quit s in
  if negb inLoopThread then owe s (S (owed s)) else s.

(** [runInLoop]: in the loop's thread the functor runs at once, which is one
    of the actions of its caller. *)
Definition runInLoop (inLoopThread : bool) s (t : T) : list (loop_action T) * queue_state T :=
  if inLoopThread then (body t, s) else ([], queueInLoop false s t).

(** An action of the loop thread. *)
Definition do_action s (a : loop_action T) : queue_state T :=
  match a with
  | ActQueue t => queueInLoop true s t
  | ActQuit => quit true s
  | ActOther => s
  end.

(** The same out of [loop()], with the functor noted. *)
Definition idle_action s (a : loop_action T) : queue_state T :=
  let s' := do_action s a in
  mkQueue (pendingFunctors_ s') (wakeupCount s') (quit_ s') (callingPendingFunctors_ s') (at_phase s') (owed s')
    (submitted s') (ran s') (early s ++ match a with ActQueue t => [t] | _ => [] end).

(** [doPendingFunctors]: up to the lock, and the swap under it. *)
Definition begin_functors s : queue_state T :=
  mkQueue (pendingFunctors_ s) (wakeupCount s) (quit_ s) true PSwap (owed s) (submitted s) (ran s)
    (early s).
Definition swap_functors s : queue_state T :=
  mkQueue [] (wakeupCount s) (quit_ s) (callingPendingFunctors_ s) (PRun [] (pendingFunctors_ s))
    (owed s) (submitted s) (ran s) [].
Definition start_functor s (t : T) (rest : list T) : queue_state T :=
  mkQueue (pendingFunctors_ s) (wakeupCount s) (quit_ s) (callingPendingFunctors_ s)
    (PRun (body t) rest) (owed s) (submitted s) (ran s ++ [t]) (early s).
Definition end_functors s : queue_state T :=
  mkQueue (pendingFunctors_ s) (wakeupCount s) (quit_ s) false PCheck (owed s) (submitted s) (ran s)
    (early s).

(** ** Steps *)

(** The loop's thread.  It may queue functors and quit before it calls
    [loop()] and after it returned ([quit_] is never reset, so that a second
    call returns at once).  [poll] may return at any time (a descriptor, the
    timeout or the wakeup), and then runs callbacks with any actions. *)
Inductive loop_step : queue_state T -> queue_state T -> Prop :=
| step_idle s a : at_phase s = PIdle -> loop_step s (idle_action s a)
| step_loop s : at_phase s = PIdle -> loop_step s (set_phase s PCheck)
| step_check s :
    at_phase s = PCheck -> loop_step s (set_phase s (if quit_ s then PIdle else PPoll))
| step_poll s acts : at_phase s = PPoll -> loop_step s (set_phase s (PHandle acts))
| step_wakeup_read s acts :
    at_phase s = PHandle (None :: acts) -> loop_step s (set_phase (handleRead s) (PHandle acts))
| step_callback s a acts :
    at_phase s = PHandle (Some a :: acts) -> loop_step s (set_phase (do_action s a) (PHandle acts))
| step_begin s : at_phase s = PHandle [] -> loop_step s (begin_functors s)
| step_swap s : at_phase s = PSwap -> loop_step s (swap_functors s)
| step_action s a acts rest :
    at_phase s = PRun (a :: acts) rest -> loop_step s (set_phase (do_action s a) (PRun acts rest))
| step_functor s t rest : at_phase s = PRun [] (t :: rest) -> loop_step s (start_functor s t rest)
| step_end s : at_phase s = PRun [] [] -> loop_step s (end_functors s).

(** The other threads. *)
Inductive other_step : queue_state T -> queue_state T -> Prop :=
| step_queue s t : other_step s (queueInLoop false s t)
| step_quit s : other_step s (quit false s)
| step_write s n : owed s = S n -> other_step s (owe (wakeup s) n).

Definition step s s' : Prop := loop_step s s' \/ other_step s s'.
Definition reachable s : Prop := rtc step init_state s.

(** ** Invariants *)

(** Functors that were swapped out and have not started. *)
Definition swapped s : list T :=
  match at_phase s with PRun _ rest => rest | _ => [] end.

(** In these phases a functor that is pending must wake the loop. *)
Definition must_wake s : Prop :=
  match at_phase s with PRun _ _ | PIdle | PCheck | PPoll => True | _ => False end.

(** A write to the wakeup descriptor was made and not read, or is under way. *)
Definition woken s : Prop := 0 < wakeupCount s \/ (0 < owed s)%nat.

Record queue_inv s : Prop := {
  inv_fifo : submitted s = ran s ++ swapped s ++ pendingFunctors_ s;
  inv_count : 0 <= wakeupCount s;
  inv_wake : must_wake s -> woken s \/ pendingFunctors_ s = early s;
  inv_quit : at_phase s = PPoll -> quit_ s = true -> woken s;
  inv_first : early s <> [] \/ at_phase s = PIdle -> ran s = [] \/ quit_ s = true;
  inv_late : match at_phase s with PRun _ _ => early s = [] | _ => True end;
  inv_calling : callingPendingFunctors_ s = true <->
                match at_phase s with PSwap | PRun _ _ => True | _ => False end
}.

Lemma queue_inv_init : queue_inv init_state.
Proof. split; cbn; try done; auto. Qed.

Lemma eventfd_pos n : 0 <= n -> 0 < eventfd_add n.
Proof. intros. unfold eventfd_add. destruct (Z.ltb_spec n (2 ^ 64 - 2)); lia. Qed.

Lemma do_action_handle s a acts acts' :
  queue_inv s -> at_phase s = PHandle acts -> queue_inv (set_phase (do_action s a) (PHandle acts')).
Proof.
  intros [Hf Hc Hw Hq He Hl Hcall] Hph. unfold must_wake, swapped in *. rewrite Hph in *.
  assert (callingPendingFunctors_ s = false) as Hno
    by (destruct (callingPendingFunctors_ s); [by destruct (proj1 Hcall eq_refl)|done]).
  destruct a as [t| |]; unfold do_action, queueInLoop, quit; cbn [negb callingPendingFunctors_ push];
    rewrite ?Hno; split; cbn; rewrite ?Hno; try done; try (intros [Hne|]; [|done]; auto; fail).
  by rewrite Hf, <- !app_assoc.
Qed.

Lemma do_action_run s a acts acts' rest :
  queue_inv s -> at_phase s = PRun acts rest -> queue_inv (set_phase (do_action s a) (PRun acts' rest)).
Proof.
  intros [Hf Hc Hw Hq He Hl Hcall] Hph. unfold must_wake, swapped in *. rewrite Hph in *.
  pose proof (proj2 Hcall I) as Hyes. pose proof (eventfd_pos _ Hc) as Hpos.
  destruct a as [t| |]; unfold do_action, queueInLoop, quit; cbn [negb callingPendingFunctors_ push];
    rewrite ?Hyes; split; cbn; rewrite ?Hyes; try done; try lia;
    try (intros [Hne|]; [|done]; auto; fail); unfold woken; cbn; [|lia|exact Hw..].
  by rewrite Hf, <- !app_assoc.
Qed.

Lemma idle_action_inv s a : queue_inv s -> at_phase s = PIdle -> queue_inv (idle_action s a).
Proof.
  intros [Hf Hc Hw Hq He Hl Hcall] Hph. unfold must_wake, swapped in *. rewrite Hph in *.
  assert (callingPendingFunctors_ s = false) as Hno
    by (destruct (callingPendingFunctors_ s); [by destruct (proj1 Hcall eq_refl)|done]).
  specialize (Hw I). specialize (He (or_intror eq_refl)).
  destruct a as [t| |]; unfold idle_action, do_action, queueInLoop, quit;
    cbn [negb callingPendingFunctors_ push]; rewrite ?Hno; rewrite ?app_nil_r;
    split; unfold woken, swapped in *; cbn; rewrite ?Hph, ?Hno, ?app_nil_r; try done; auto.
  - by rewrite Hf, <- !app_assoc.
  - intros _. destruct Hw as [|Hw]; [by left|right]. by rewrite Hw.
Qed.

Lemma loop_step_inv s s' : queue_inv s -> loop_step s s' -> queue_inv s'.
Proof.
  intros Hi Hs. pose proof Hi as [Hf Hc Hw Hq He Hl Hcall]. destruct Hs as
    [s a Hph|s Hph|s Hph|s acts Hph|s acts Hph|s a acts Hph|s Hph|s Hph|s a acts rest Hph|s t rest Hph|s Hph];
    [by apply idle_action_inv|..]; try (by eapply do_action_handle); try (by eapply do_action_run);
    unfold swapped, must_wake, woken in *; rewrite Hph in *; clear Hi.
  - split; cbn; try done. intros [Hne|]; [|done]. apply He. by right.
  - split; cbn; unfold swapped; cbn; destruct (quit_ s) eqn:E; try done; auto.
    intros [Hne|]; [|done]. apply He. by left.
  - split; cbn; try done. intros [Hne|]; [|done]. apply He. by left.
  - split; cbn; try done. intros [Hne|]; [|done]. apply He. by left.
  - split; cbn; try done. intros [Hne|]; [|done]. apply He. by left.
  - split; cbn; try done; [by rewrite app_nil_r|by right|by intros [|]].
  - split; cbn; try done; [by rewrite <- !app_assoc|]. intros [Hne|]; done.
  - split; cbn; try done. intros [Hne|]; [|done]. by rewrite Hl in Hne.
Qed.

Lemma other_step_inv s s' : queue_inv s -> other_step s s' -> queue_inv s'.
Proof.
  intros [Hf Hc Hw Hq He Hl Hcall] Hs. destruct Hs as [s t|s|s n Ho].
  - split; unfold queueInLoop, woken; cbn; try done; try (intros; left; lia); try (intros; right; lia).
    unfold swapped in *. cbn. by rewrite Hf, <- !app_assoc.
  - split; unfold quit, woken; cbn; try done; auto; intros; [left|]; right; lia.
  - pose proof (eventfd_pos _ Hc) as Hpos. split; unfold woken; cbn; try done; try lia; intros; left; by left.
Qed.

Lemma reachable_inv s : reachable s -> queue_inv s.
Proof.
  unfold reachable. intros Hr. remember init_state as s0 eqn:E.
  assert (queue_inv s0) as Hi by (subst; apply queue_inv_init). clear E.
  induction Hr as [s|s1 s2 s3 [Hs|Hs] _ IH]; [done|..]; apply IH;
    [by eapply loop_step_inv | by eapply other_step_inv].
Qed.
(** ** Running a batch *)

(** The functors a list of actions queues. *)
Definition queued (acts : list (loop_action T)) : list T :=
  omap (fun a => match a with ActQueue t => Some t | _ => None end) acts.

(** The loop thread alone, from the actions of one functor to the next one. *)
Lemma run_actions s acts rest :
  at_phase s = PRun acts rest ->
  exists s', rtc loop_step s s' /\ at_phase s' = PRun [] rest /\ ran s' = ran s /\ early s' = early s /\
    pendingFunctors_ s' = pendingFunctors_ s ++ queued acts.
Proof.
  revert s. induction acts as [|a acts IH]; intros s Hph.
  - exists s. split; [done|]. split; [done|]. split; [done|]. split; [done|]. by rewrite app_nil_r.
  - destruct (IH (set_phase (do_action s a) (PRun acts rest))) as (s' & Hs & H1 & H2 & H4 & H3); [done|].
    exists s'. split; [eapply rtc_l; [by apply step_action | exact Hs]|]. split; [done|].
    rewrite H2, H3, H4. destruct a as [t| |]; cbn; [|done..].
    unfold queueInLoop. cbn. destruct (callingPendingFunctors_ s); cbn; by rewrite <- app_assoc.
Qed.

Lemma run_functors s rest :
  at_phase s = PRun [] rest ->
  exists s', rtc loop_step s s' /\ at_phase s' = PCheck /\ ran s' = ran s ++ rest /\ early s' = early s /\
    pendingFunctors_ s' = pendingFunctors_ s ++ concat (map (fun t => queued (body t)) rest).
Proof.
  revert s. induction rest as [|t rest IH]; intros s Hph.
  - exists (end_functors s). split; [apply rtc_once; by apply step_end|].
    cbn. by rewrite !app_nil_r.
  - destruct (run_actions (start_functor s t rest) (body t) rest) as (s1 & Hs1 & H1 & H2 & H4 & H3); [done|].
    destruct (IH s1 H1) as (s' & Hs' & H1' & H2' & H4' & H3'). exists s'.
    split; [eapply rtc_l; [by apply step_functor|]; by etrans|]. split; [done|].
    rewrite H2', H3', H4', H2, H3, H4. cbn. by rewrite <- !app_assoc.
Qed.

(** ** Properties *)

(** In every reachable state, with any number of threads queueing functors
    at any moment, the functors that were started, those swapped out and those
    pending are together the functors submitted, in order: none is lost,
    duplicated or overtaken. *)
Theorem functors_fifo s :
  reachable s -> submitted s = ran s ++ swapped s ++ pendingFunctors_ s.
Proof. intros Hr. apply (inv_fifo _ (reachable_inv s Hr)). Qed.

(** C10: when the loop is in [poll] with a functor pending, or after [quit],
    the wakeup descriptor is readable or a thread is about to write to it, so
    that [poll] does not sleep until its timeout, with one exception: in the
    first turn of [loop()], when every functor queued so far was queued by the
    loop's own thread before it called [loop()] (such a call of [queueInLoop]
    does not write to the descriptor, see [early_functor_sleeps]). *)
Theorem no_lost_wakeup s :
  reachable s -> at_phase s = PPoll -> pendingFunctors_ s <> [] \/ quit_ s = true ->
  woken s \/
  (quit_ s = false /\ ran s = [] /\ pendingFunctors_ s = early s /\ submitted s = early s).
Proof.
  intros Hr Hph Hor. pose proof (reachable_inv s Hr) as [Hf _ Hw Hquit He _ _].
  unfold must_wake, swapped in *. rewrite Hph in *.
  destruct (quit_ s) eqn:E; [left; by apply Hquit|]. destruct Hor as [Hp|]; [|done].
  destruct (Hw I) as [|Hearly]; [by left|right]. destruct (He (or_introl (fun H => Hp (eq_trans Hearly H)))) as [Hran|]; [|done].
  rewrite Hran in Hf. by rewrite <- Hearly.
Qed.

(** The exception happens: a functor queued by the loop's thread before
    [loop()] is pending in the first [poll], and nothing wakes it up. *)
Lemma early_functor_sleeps t : exists s,
  reachable s /\ at_phase s = PPoll /\ pendingFunctors_ s = [t] /\ wakeupCount s = 0 /\ owed s = 0%nat.
Proof.
  exists (set_phase (set_phase (idle_action init_state (ActQueue t)) PCheck) PPoll).
  split; [|done]. eapply rtc_l; [left; by apply (step_idle init_state (ActQueue t))|]. eapply rtc_l; [left; by apply step_loop|].
  apply rtc_once. left. by apply (step_check (set_phase (idle_action init_state (ActQueue t)) PCheck)).
Qed.

(** One turn of the loop runs exactly the functors that were pending, in
    order, and ends: the functors they queue meanwhile are left for the next
    turn, with the wakeup descriptor readable or a write to it under way. *)
Theorem turn_runs_pending s :
  reachable s -> at_phase s = PPoll ->
  exists s', rtc loop_step s s' /\ at_phase s' = PCheck /\
    ran s' = ran s ++ pendingFunctors_ s /\
    pendingFunctors_ s' = concat (map (fun t => queued (body t)) (pendingFunctors_ s)) /\
    (pendingFunctors_ s' <> [] -> 0 < wakeupCount s' \/ (0 < owed s')%nat).
Proof.
  intros Hr Hph. set (s1 := swap_functors (begin_functors (set_phase (handleRead
    (set_phase s (PHandle [None]))) (PHandle [])))).
  assert (rtc loop_step s s1) as Hs1.
  { eapply rtc_l; [apply (step_poll s [None] Hph)|]. eapply rtc_l; [by apply step_wakeup_read|].
    eapply rtc_l; [by apply step_begin|]. apply rtc_once. by apply step_swap. }
  destruct (run_functors s1 (pendingFunctors_ s)) as (s' & Hs' & H1 & H2 & H4 & H3); [done|].
  exists s'. assert (rtc loop_step s s') as Hall by by etrans.
  split; [done|]. split; [done|]. split; [done|]. split; [done|].
  assert (queue_inv s') as Hi.
  { apply reachable_inv. unfold reachable in *. etrans; [exact Hr|].
    eapply rtc_subrel; [|exact Hall]. intros a b Hab. by left. }
  intros Hne. destruct (inv_wake _ Hi) as [|He]; [unfold must_wake; by rewrite H1|done|].
    by rewrite He, H4 in Hne.
Qed.
End Steps.

(** Functor 1 queues functor 2; another thread has queued functor 1. *)
Definition body_example (t : Z) : list (loop_action Z) := if t =? 1 then [ActQueue 2] else [].

Definition state_example : queue_state Z :=
  queueInLoop false (set_phase (set_phase init_state PCheck) PPoll) 1.

Lemma state_example_reachable : reachable body_example state_example.
Proof.
  eapply rtc_l; [left; by apply step_loop|]. eapply rtc_l; [left; by apply step_check|].
  apply rtc_once. right. apply step_queue.
Qed.

Lemma functors_fifo_witness :
  reachable body_example state_example /\
  submitted state_example = ran state_example ++ swapped state_example ++ pendingFunctors_ state_example.
Proof.
  split; [apply state_example_reachable|].
  apply (functors_fifo body_example), state_example_reachable.
Defined.

Lemma no_lost_wakeup_witness :
  reachable body_example state_example /\ at_phase state_example = PPoll /\
  pendingFunctors_ state_example <> [] /\
  (woken state_example \/
   (quit_ state_example = false /\ ran state_example = [] /\
    pendingFunctors_ state_example = early state_example /\ submitted state_example = early state_example)).
Proof.
  split; [apply state_example_reachable|]. split; [done|]. split; [done|].
  apply (no_lost_wakeup body_example); [apply state_example_reachable | done | by left].
Defined.

Lemma turn_runs_pending_witness :
  reachable body_example state_example /\ at_phase state_example = PPoll /\
  exists s', rtc (loop_step body_example) state_example s' /\ at_phase s' = PCheck /\
    ran s' = [1] /\ pendingFunctors_ s' = [2] /\
    (pendingFunctors_ s' <> [] -> 0 < wakeupCount s' \/ (0 < owed s')%nat).
Proof.
  split; [apply state_example_reachable|]. split; [done|].
  apply (turn_runs_pending body_example state_example); [apply state_example_reachable | done].
Defined.
End Queue.
