(* ===== verification/Timestamp.v ===== *)
(** * Time: tmuduo/base/Timestamp.h and Timestamp.cc

    A [Timestamp] is its microseconds since the epoch, a 64-bit integer.
    [double] is the IEEE binary64 format of the standard library's SpecFloat.
    Signed overflow and out-of-range conversions, which are undefined, are
    faults. *)

From Stdlib Require Import Floats.SpecFloat.
From S2P Require Import Prelude Format.

(** ** Doubles *)

Abbreviation double := spec_float.

(** The conversion of an integer, and the product and the quotient. *)
Definition double_of (z : Z) : double := binary_normalize 53 1024 z 0 false.
Definition dmul : double -> double -> double := SFmul 53 1024.
Definition ddiv : double -> double -> double := SFdiv 53 1024.

(** [interval > 0.0]. *)
Definition dpos (x : double) : bool := SFltb (S754_zero false) x.

(** [static_cast<int64_t>]: truncation towards zero. *)
Definition int64_of (x : double) : res Z :=
  match x with
  | S754_zero _ => Ok 0
  | S754_finite s m e =>
      let a := if 0 <=? e then Zpos m * 2 ^ e else Zpos m / 2 ^ (- e) in
      let v := if s then - a else a in
      guard_ IntOverflow ((- 2 ^ 63 <=? v) && (v <? 2 ^ 63));;
      Ok v
  | _ => Err IntOverflow
  end.

Definition add_int64 (a b : Z) : res Z :=
  guard_ IntOverflow ((- 2 ^ 63 <=? a + b) && (a + b <? 2 ^ 63));; Ok (a + b).
Definition sub_int64 (a b : Z) : res Z :=
  guard_ IntOverflow ((- 2 ^ 63 <=? a - b) && (a - b <? 2 ^ 63));; Ok (a - b).
Definition mul_int64 (a b : Z) : res Z :=
  guard_ IntOverflow ((- 2 ^ 63 <=? a * b) && (a * b <? 2 ^ 63));; Ok (a * b).

(** ** Timestamps *)

Abbreviation Timestamp := Z (only parsing).

Definition kMicroSecondsPerSecond : Z := 1000 * 1000.

Definition valid (t : Timestamp) : bool := 0 <? t.
Definition invalid : Timestamp := 0.

Definition secondsSinceEpoch (t : Timestamp) : Z := Z.quot t kMicroSecondsPerSecond.

Definition fromUnixTime (t microseconds : Z) : res Timestamp :=
  s ← mul_int64 t kMicroSecondsPerSecond; add_int64 s microseconds.

(** [Timestamp::now], from what [gettimeofday] stored. *)
Definition now_of (tv_sec tv_usec : Z) : res Timestamp :=
  s ← mul_int64 tv_sec kMicroSecondsPerSecond; add_int64 s tv_usec.

Definition timeDifference (high low : Timestamp) : res double :=
  diff ← sub_int64 high low;
  Ok (ddiv (double_of diff) (double_of kMicroSecondsPerSecond)).

Definition addTime (t : Timestamp) (seconds : double) : res Timestamp :=
  delta ← int64_of (dmul seconds (double_of kMicroSecondsPerSecond));
  add_int64 t delta.

(** ** Formatting *)

Definition toString (t : Timestamp) : res bytes :=
  let seconds := Z.quot t kMicroSecondsPerSecond in
  seconds ← add_int64 seconds (8 * 60 * 60);
  let microseconds := Z.rem t kMicroSecondsPerSecond in
  Ok (snprintf 31 (print_d seconds ++ lit "." ++ print_0d 6 microseconds)).

(** The fields of [struct tm] the code reads. *)
Record tm := mkTm {
  tm_year : Z; tm_mon : Z; tm_mday : Z; tm_hour : Z; tm_min : Z; tm_sec : Z }.

Section Formatted.
(** [gmtime_r]. *)
Context (gmtime : Z -> tm).

(** The hour is shown for UTC+8 by adding 8 to the hour of the day. *)
Definition toFormattedString (showMicroseconds : bool) (t : Timestamp) : bytes :=
  let tm_time := gmtime (Z.quot t kMicroSecondsPerSecond) in
  let date :=
    print_wd 4 (tm_year tm_time + 1900) ++ print_0d 2 (tm_mon tm_time + 1) ++
    print_0d 2 (tm_mday tm_time) ++ lit " " ++ print_0d 2 (tm_hour tm_time + 8) ++ lit ":" ++
    print_0d 2 (tm_min tm_time) ++ lit ":" ++ print_0d 2 (tm_sec tm_time) in
  if showMicroseconds
  then snprintf 64 (date ++ lit "." ++ print_0d 6 (Z.rem t kMicroSecondsPerSecond))
  else snprintf 64 date.
End Formatted.

(** ** Lemmas *)

Lemma add_int64_ok a b c : add_int64 a b = Ok c -> c = a + b.
Proof. unfold add_int64, guard_. destruct (_ && _); cbn; congruence. Qed.

(** Seconds and microseconds are the digits of a time. *)
Lemma seconds_microseconds t :
  0 <= t -> t = kMicroSecondsPerSecond * secondsSinceEpoch t + Z.rem t kMicroSecondsPerSecond /\
  0 <= Z.rem t kMicroSecondsPerSecond < kMicroSecondsPerSecond.
Proof.
  intros Ht. unfold secondsSinceEpoch, kMicroSecondsPerSecond.
  pose proof (Z.quot_rem' t (1000 * 1000)). pose proof (Z.rem_bound_pos t (1000 * 1000)). lia.
Qed.

Lemma fromUnixTime_seconds t us s :
  0 <= t -> 0 <= us < kMicroSecondsPerSecond -> fromUnixTime t us = Ok s ->
  secondsSinceEpoch s = t /\ Z.rem s kMicroSecondsPerSecond = us.
Proof.
  unfold fromUnixTime. intros Ht Hus H. apply bind_ok_inv in H as (a & Ha & ->%add_int64_ok).
  unfold mul_int64, guard_ in Ha. destruct (_ && _) in Ha; [|done]. injection Ha as <-.
  unfold secondsSinceEpoch, kMicroSecondsPerSecond in *.
  rewrite Z.quot_div_nonneg, Z.rem_mod_nonneg by lia.
  rewrite Z.div_add_l, Z.div_small by lia. split; [lia|].
  rewrite Z.add_comm, Z.mod_add by lia. apply Z.mod_small. lia.
Qed.

(** A whole number of seconds, as the interval of a timer, is exact here. *)
Example addTime_seconds :
  map (addTime 1000) [double_of 0; double_of 1; double_of 3600; double_of 86400]
  = [Ok 1000; Ok 1001000; Ok 3600001000; Ok 86400001000].
Proof. vm_compute. reflexivity. Qed.

(** 16:00 UTC is shown as 24:00 of the same day. *)
Lemma formatted_hour_overflows gmtime :
  gmtime 57600 = mkTm 70 0 1 16 0 0 ->
  toFormattedString gmtime false (57600 * kMicroSecondsPerSecond) = lit "19700101 24:00:00".
Proof.
  intros Hg. unfold toFormattedString.
  change (Z.quot (57600 * kMicroSecondsPerSecond) kMicroSecondsPerSecond) with 57600.
  rewrite Hg. vm_compute. reflexivity.
Qed.
