(* ===== verification/TimerQueue.v ===== *)
(** * Timers: tmuduo/net/Timer.h, Timer.cc, TimerId.h, TimerQueue.h and
      TimerQueue.cc

    [timerEntries_] is a [std::set] of (expiration, sequence) pairs, in order;
    [timers_] maps a sequence to its timer.  The clock is a parameter: [now n]
    is the result of the [n]th call of [Timestamp::now], and the state counts
    the calls.  A callback is a name; [callback] gives what it does to the
    queue, and [runs_] records the calls of the callbacks, each with the
    sequence of its timer, in order.  [armed_] is the time the timer descriptor
    is set to fire at. *)

From S2P Require Import Prelude StdContainers Timestamp.

(** ** Timers *)

(** A [TimerId] is a sequence number. *)
Abbreviation TimerId := Z (only parsing).

Record Timer := mkTimer {
  callback_ : Z;
  expiration_ : Timestamp;
  interval_ : double;
  repeat_ : bool;
  sequence_ : Z
}.

(** The constructor; [numCreated] is [s_numCreated_] before it. *)
Definition Timer_ctor (numCreated : Z) (cb : Z) (when : Timestamp) (interval : double) : Timer :=
  mkTimer cb when interval (dpos interval) (numCreated + 1).

Definition restart (t : Timer) (now : Timestamp) : res Timer :=
  if repeat_ t
  then e ← addTime now (interval_ t); Ok (mkTimer (callback_ t) e (interval_ t) (repeat_ t) (sequence_ t))
  else Ok (mkTimer (callback_ t) invalid (interval_ t) (repeat_ t) (sequence_ t)).

(** ** State *)

Abbreviation TimerEntry := (Z * Z)%type (only parsing).

Record TimerQueue := mkTimerQueue {
  timers_ : gmap Z Timer;
  timerEntries_ : list TimerEntry;
  armed_ : option Z;
  s_numCreated_ : Z;
  now_calls : nat;
  runs_ : list (Z * Z)
}.

Definition TimerQueue_ctor : TimerQueue := mkTimerQueue ∅ [] None 0 0 [].

(** What a callback does to the queue of its loop. *)
Inductive timer_action :=
| ActAddTimer (cb : Z) (when : Timestamp) (interval : double)
| ActCancel (timerId : TimerId)
| ActNone.

Definition INT64_MAX : Z := 2 ^ 63 - 1.

(** The relative time given to [timerfd_settime], as a [timespec]. *)
Definition howMuchTimeFromNow (when now : Timestamp) : res (Z * Z) :=
  microseconds ← sub_int64 when now;
  let microseconds := if microseconds <? 100 then 100 else microseconds in
  Ok (Z.quot microseconds kMicroSecondsPerSecond, Z.rem microseconds kMicroSecondsPerSecond * 1000).

Section Queue.
Context (now : nat -> Timestamp).
Context (callback : Z -> list timer_action).
Implicit Types (q : TimerQueue).

(** [Timestamp::now()]. *)
Definition get_now q : Timestamp * TimerQueue :=
  (now (now_calls q),
   mkTimerQueue (timers_ q) (timerEntries_ q) (armed_ q) (s_numCreated_ q) (S (now_calls q))
     (runs_ q)).

Definition set_armed q (d : Z) : TimerQueue :=
  mkTimerQueue (timers_ q) (timerEntries_ q) (Some d) (s_numCreated_ q) (now_calls q) (runs_ q).
Definition set_timers q (m : gmap Z Timer) : TimerQueue :=
  mkTimerQueue m (timerEntries_ q) (armed_ q) (s_numCreated_ q) (now_calls q) (runs_ q).
Definition add_run q (timer : Timer) : TimerQueue :=
  mkTimerQueue (timers_ q) (timerEntries_ q) (armed_ q) (s_numCreated_ q) (now_calls q)
    (runs_ q ++ [(sequence_ timer, callback_ timer)]).
Definition set_entries q (es : list TimerEntry) : TimerQueue :=
  mkTimerQueue (timers_ q) es (armed_ q) (s_numCreated_ q) (now_calls q) (runs_ q).

(** [resetTimerfd]: the descriptor fires after the relative time. *)
Definition resetTimerfd q (expiration : Timestamp) : res TimerQueue :=
  let '(t, q) := get_now q in
  '(sec, nsec) ← howMuchTimeFromNow expiration t;
  Ok (set_armed q (t + sec * kMicroSecondsPerSecond + Z.quot nsec 1000)).

Definition addTimerInLoop q (timer : Timer) : res TimerQueue :=
  let when := expiration_ timer in
  earliestChanged ←
    (if bool_decide (timers_ q = ∅) then Ok true
     else match timerEntries_ q with
          | [] => Err EndDereference
          | (first, _) :: _ => Ok (when <? first)
          end);
  q ← (if earliestChanged : bool then resetTimerfd q (expiration_ timer) else Ok q);
  let timerId := sequence_ timer in
  let q := set_entries q (set_insert (expiration_ timer, timerId) (timerEntries_ q)) in
  Ok (set_timers q (<[timerId := timer]> (timers_ q))).

(** [addTimer] in the loop's thread, where [runInLoop] runs the functor at
    once. *)
Definition addTimer q (cb : Z) (when : Timestamp) (interval : double) : res (TimerId * TimerQueue) :=
  let timer := Timer_ctor (s_numCreated_ q) cb when interval in
  let q := mkTimerQueue (timers_ q) (timerEntries_ q) (armed_ q) (s_numCreated_ q + 1) (now_calls q)
             (runs_ q) in
  q ← addTimerInLoop q timer;
  Ok (sequence_ timer, q).

(** [timers_[timerId]] makes a null entry when there is none, and the
    assertion fails on it. *)
Definition cancelInLoop q (timerId : TimerId) : res TimerQueue :=
  match timers_ q !! timerId with
  | None => Err AssertFail
  | Some t =>
      let q := set_entries q (set_erase (expiration_ t, timerId) (timerEntries_ q)) in
      Ok (set_timers q (delete timerId (timers_ q)))
  end.

Definition cancel q (timerId : TimerId) : res TimerQueue := cancelInLoop q timerId.

Definition getExpired q (t : Timestamp) : res (list TimerEntry * TimerQueue) :=
  let sentry := (t, INT64_MAX) in
  let expired := set_lower sentry (timerEntries_ q) in
  let rest := set_upper sentry (timerEntries_ q) in
  assert_ (match rest with [] => true | (first, _) :: _ => t <? first end);;
  Ok (expired, set_entries q rest).

(** ** Running callbacks *)

Definition run_action q (a : timer_action) : res TimerQueue :=
  match a with
  | ActAddTimer cb when interval => '(_, q) ← addTimer q cb when interval; Ok q
  | ActCancel timerId => cancel q timerId
  | ActNone => Ok q
  end.

Fixpoint run_actions q (acts : list timer_action) : res TimerQueue :=
  match acts with
  | [] => Ok q
  | a :: acts => q ← run_action q a; run_actions q acts
  end.

(** [Timer::run]: the callback is called. *)
Definition Timer_run q (timer : Timer) : res TimerQueue :=
  run_actions (add_run q timer) (callback (callback_ timer)).

(** One turn of the loop of [handleRead].  The reference [timer] dangles when
    the callback erased its own timer. *)
Definition run_expired q (timerId : TimerId) : res TimerQueue :=
  match timers_ q !! timerId with
  | None => Err AssertFail
  | Some timer =>
      q ← Timer_run q timer;
      match timers_ q !! timerId with
      | None => Err UseAfterFree
      | Some timer =>
          if repeat_ timer then
            let '(t, q) := get_now q in
            timer ← restart timer t;
            let q := set_timers q (<[timerId := timer]> (timers_ q)) in
            Ok (set_entries q (set_insert (expiration_ timer, sequence_ timer) (timerEntries_ q)))
          else Ok (set_timers q (delete timerId (timers_ q)))
      end
  end.

Fixpoint run_all q (expired : list TimerEntry) : res TimerQueue :=
  match expired with
  | [] => Ok q
  | (_, timerId) :: expired => q ← run_expired q timerId; run_all q expired
  end.

(** [handleRead], with the callbacks run, in order. *)
Definition handleRead q : res (list TimerEntry * TimerQueue) :=
  let '(t, q) := get_now q in
  '(expired, q) ← getExpired q t;
  q ← run_all q expired;
  q ← match timerEntries_ q with
      | [] => Ok q
      | (nextExpireTime, _) :: _ =>
          if valid nextExpireTime then resetTimerfd q nextExpireTime else Ok q
      end;
  Ok (expired, q).

(** ** The invariant

    [running] are the timers taken out of the set by [getExpired] and not yet
    run; outside [handleRead] there are none.  Times are positive and below
    2^62 microseconds (the year 148000), so that no difference overflows. *)

Definition time_ok (t : Timestamp) : Prop := 0 < t < 2 ^ 62.

(** A repeating timer can be restarted at any time the clock shows. *)
Definition restartable (interval : double) : Prop :=
  dpos interval = true -> forall n, exists e, addTime (now n) interval = Ok e /\ time_ok e.

Record timer_ok (numCreated id : Z) (t : Timer) : Prop := {
  ok_sequence : sequence_ t = id;
  ok_id : 0 < id <= numCreated;
  ok_expiration : time_ok (expiration_ t);
  ok_repeat : repeat_ t = dpos (interval_ t);
  ok_restart : restartable (interval_ t)
}.

Record timers_ok (running : list TimerEntry) q : Prop := {
  ok_sorted : set_ok (timerEntries_ q);
  ok_entry w id : (w, id) ∈ timerEntries_ q \/ (w, id) ∈ running <->
    exists t, timers_ q !! id = Some t /\ expiration_ t = w;
  ok_timer id t : timers_ q !! id = Some t -> timer_ok (s_numCreated_ q) id t;
  ok_disjoint e : e ∈ running -> e ∉ timerEntries_ q;
  ok_running : NoDup running.*2;
  ok_created : 0 <= s_numCreated_ q < INT64_MAX
}.

(** The descriptor is set to fire no later than the first entry is due (or
    100 microseconds after a call of the clock already made). *)
Definition armed_ok q : Prop :=
  match timerEntries_ q with
  | [] => True
  | (w, _) :: _ => exists d, armed_ q = Some d /\
      (d <= w \/ exists n, (n < now_calls q)%nat /\ d <= now n + 100)
  end.

(** The clock stays in range. *)
Context (Hclock : forall n, time_ok (now n)).

(** ** Lemmas *)

Lemma time_ok_wide t : time_ok t -> 0 < t < 2 ^ 62.
Proof. done. Qed.

Lemma resetTimerfd_ok q w :
  time_ok w ->
  resetTimerfd q w = Ok (set_armed (snd (get_now q)) (Z.max w (now (now_calls q) + 100))).
Proof.
  intros Hw. unfold resetTimerfd, get_now, howMuchTimeFromNow. cbn [snd].
  pose proof (Hclock (now_calls q)) as Hn. set (t := now (now_calls q)) in *. unfold time_ok in *.
  unfold sub_int64. rewrite guard_true by lia. cbn [mbind res_bind].
  set (us := if w - t <? 100 then 100 else w - t).
  assert (us = Z.max 100 (w - t)) as Hus by (unfold us; destruct (Z.ltb_spec (w - t) 100); lia).
  f_equal. f_equal. rewrite Z.quot_mul by lia.
  unfold kMicroSecondsPerSecond. pose proof (Z.quot_rem' us (1000 * 1000)). lia.
Qed.

Lemma entries_empty q : timers_ok [] q -> timers_ q = ∅ -> timerEntries_ q = [].
Proof.
  intros Hq He. destruct (timerEntries_ q) as [|[w id] es] eqn:E; [done|].
  assert (exists t, timers_ q !! id = Some t /\ expiration_ t = w) as (t & Ht & _).
  { apply (ok_entry _ _ Hq). left. rewrite E. by left. }
  by rewrite He, lookup_empty in Ht.
Qed.

(** The timer a new call creates. *)
Definition new_timer q cb when interval : Timer := Timer_ctor (s_numCreated_ q) cb when interval.

Lemma timer_ok_more n n' id t : timer_ok n id t -> n <= n' -> timer_ok n' id t.
Proof. intros [? ? ? ? ?] Hn. split; try done. lia. Qed.

(** Inserting a fresh timer keeps the invariant. *)
Lemma timers_ok_insert running q cb when interval q' :
  timers_ok running q -> time_ok when -> restartable interval ->
  s_numCreated_ q + 1 < INT64_MAX ->
  let id := s_numCreated_ q + 1 in
  timers_ q' = <[id := new_timer q cb when interval]> (timers_ q) ->
  timerEntries_ q' = set_insert (when, id) (timerEntries_ q) ->
  s_numCreated_ q' = id -> timers_ok running q'.
Proof.
  intros Hq Hwhen Hint Hmax id Ht He Hn.
  assert (timers_ q !! id = None) as Hfresh.
  { destruct (timers_ q !! id) as [t|] eqn:E; [|done].
    pose proof (ok_id _ _ _ (ok_timer _ _ Hq _ _ E)). unfold id in *. lia. }
  split; rewrite ?Ht, ?He, ?Hn.
  - apply set_insert_ok, (ok_sorted _ _ Hq).
  - intros w i. rewrite elem_of_set_insert. destruct (decide (i = id)) as [->|Hne].
    + rewrite lookup_insert_eq. split.
      * intros [[[= ->]|Hin]|Hin]; [eexists; by split|..];
          destruct (proj1 (ok_entry _ _ Hq w id)) as (t & Hid & _); try congruence; auto.
      * intros (t & [= <-] & <-). left. by left.
    + rewrite lookup_insert_ne by congruence. rewrite <- (ok_entry _ _ Hq w i).
      split; [intros [[[= ? ?]|?]|?]; [congruence|auto..] | intros [?|?]; auto].
  - intros i t [[<- <-]|[_ Hi]]%lookup_insert_Some.
    + split; cbn; try done. pose proof (ok_created _ _ Hq). unfold id. lia.
    + eapply timer_ok_more; [by apply (ok_timer _ _ Hq)|]. unfold id. lia.
  - intros [w i] Hin. rewrite elem_of_set_insert. intros [[= -> ->]|Hin'].
    + destruct (proj1 (ok_entry _ _ Hq when id)) as (t & Hid & _); [by right | congruence].
    + by apply (ok_disjoint _ _ Hq (w, i)).
  - apply (ok_running _ _ Hq).
  - pose proof (ok_created _ _ Hq). unfold id. lia.
Qed.

Lemma armed_max w n :
  Z.max w (now n + 100) <= w \/ exists k, (k < S n)%nat /\ Z.max w (now n + 100) <= now k + 100.
Proof.
  destruct (Z.max_spec w (now n + 100)) as [[_ ->]|[_ ->]]; [right; exists n; lia | left; lia].
Qed.

(** The head of the set after an insertion. *)
Lemma set_insert_head (e : TimerEntry) es :
  set_insert e es = match es with
                    | [] => [e]
                    | f :: _ => if slt e f then e :: es else f :: tail (set_insert e es)
                    end.
Proof.
  destruct es as [|f es]; [done|]. cbn [set_insert]. destruct (slt e f); [done|].
  by destruct (slt f e).
Qed.

Lemma addTimer_ok running q cb when interval :
  timers_ok running q -> time_ok when -> restartable interval ->
  s_numCreated_ q + 1 < INT64_MAX -> timers_ q = ∅ \/ timerEntries_ q <> [] ->
  exists q', addTimer q cb when interval = Ok (s_numCreated_ q + 1, q') /\
    timers_ok running q' /\ timerEntries_ q' <> [] /\
    (timers_ q = ∅ \/ armed_ok q -> armed_ok q') /\
    timers_ q' = <[s_numCreated_ q + 1 := new_timer q cb when interval]> (timers_ q) /\
    timerEntries_ q' = set_insert (when, s_numCreated_ q + 1) (timerEntries_ q) /\
    s_numCreated_ q' = s_numCreated_ q + 1 /\ runs_ q' = runs_ q /\ (now_calls q <= now_calls q')%nat.
Proof.
  intros Hq Hwhen Hint Hmax Hne. unfold addTimer, addTimerInLoop.
  cbn [timers_ timerEntries_ expiration_ sequence_ Timer_ctor].
  set (q1 := mkTimerQueue _ _ _ (s_numCreated_ q + 1) _ _).
  set (early := if bool_decide (timers_ q = ∅) then true
                else match timerEntries_ q with [] => false | (first, _) :: _ => when <? first end).
  replace (if bool_decide (timers_ q = ∅) then Ok true else _) with (Ok early).
  2:{ unfold early. case_bool_decide; [done|]. destruct (timerEntries_ q) as [|[first i] es]; [|done].
      by destruct Hne. }
  cbn [mbind res_bind].
  assert (exists q2, (if early then resetTimerfd q1 when else Ok q1) = Ok q2 /\
    timers_ q2 = timers_ q /\ timerEntries_ q2 = timerEntries_ q /\
    s_numCreated_ q2 = s_numCreated_ q + 1 /\ runs_ q2 = runs_ q /\ (now_calls q <= now_calls q2)%nat /\
    if early then armed_ q2 = Some (Z.max when (now (now_calls q) + 100)) /\ now_calls q2 = S (now_calls q)
    else armed_ q2 = armed_ q) as (q2 & -> & H1 & H2 & H3 & H6 & H4 & H5).
  { destruct early.
    - rewrite resetTimerfd_ok by done. eexists. split; [done|]. cbn. repeat split; lia.
    - exists q1. done. }
  cbn [mbind res_bind]. eexists. split; [done|]. cbn [timers_ timerEntries_ s_numCreated_ now_calls runs_ set_timers set_entries armed_].
  rewrite H1, H2, H3. split; [|split; [|split; [|done]]].
  - eapply (timers_ok_insert running q cb when interval); done.
  - rewrite set_insert_head. destruct (timerEntries_ q) as [|f es]; [done|]. by destruct (slt _ f).
  - intros Harmed. unfold armed_ok. cbn [timerEntries_ set_timers set_entries armed_ now_calls].
    rewrite set_insert_head. unfold early in H5.
    destruct (timerEntries_ q) as [|[first i] es] eqn:E.
    + destruct Hne as [He|]; [|done]. rewrite bool_decide_true in H5 by done. destruct H5 as [Ha Hc].
      eexists. split; [exact Ha|]. rewrite Hc. by apply armed_max.
    + assert (timers_ q <> ∅) as Hnon.
      { intros He. destruct (proj1 (ok_entry _ _ Hq first i)) as (t & Ht & _); [left; rewrite E; by left|].
        by rewrite He, lookup_empty in Ht. }
      rewrite bool_decide_false in H5 by done.
      assert (slt (when, s_numCreated_ q + 1) (first, i) = (when <? first)) as ->.
      { destruct (proj1 (ok_entry _ _ Hq first i)) as (t & Ht & _); [left; rewrite E; by left|].
        pose proof (ok_id _ _ _ (ok_timer _ _ Hq _ _ Ht)). cbn. lia. }
      destruct (Z.ltb_spec when first).
      * destruct H5 as [Ha Hc]. eexists. split; [exact Ha|]. rewrite Hc. by apply armed_max.
      * destruct Harmed as [|Harmed]; [done|]. unfold armed_ok in Harmed. rewrite E in Harmed.
        destruct Harmed as (d & Hd & Hle). exists d. rewrite H5. split; [done|].
        destruct Hle as [Hle|(n & Hn & Hle)]; [by left | right; exists n; lia].
Qed.
Lemma cancel_ok running q id t :
  timers_ok running q -> timers_ q !! id = Some t -> (expiration_ t, id) ∉ running ->
  exists q', cancel q id = Ok q' /\ timers_ok running q' /\
    timers_ q' = delete id (timers_ q) /\
    (s_numCreated_ q' = s_numCreated_ q /\ runs_ q' = runs_ q /\ now_calls q' = now_calls q) /\
    (forall e, e ∈ timerEntries_ q' <-> e ∈ timerEntries_ q /\ e <> (expiration_ t, id)) /\
    (armed_ok q -> armed_ok q').
Proof.
  intros Hq Hid Hrun. unfold cancel, cancelInLoop. rewrite Hid. eexists. split; [done|].
  pose proof (ok_sorted _ _ Hq) as Hs.
  assert (forall w i, (w, i) <> (expiration_ t, id) -> ((w, i) ∈ timerEntries_ q \/ (w, i) ∈ running) ->
            i <> id) as Hother.
  { intros w i Hne Hin ->. apply (ok_entry _ _ Hq) in Hin as (t' & Ht' & Hw). congruence. }
  split; [|split; [done|split; [done|split]]].
  - split; cbn [timers_ timerEntries_ set_timers set_entries s_numCreated_].
    + by apply set_erase_ok.
    + intros w i. rewrite elem_of_set_erase by done. split.
      * intros Hin. assert ((w, i) <> (expiration_ t, id)) as Hne
          by (destruct Hin as [[_ Hne]|Hin]; [done | congruence]).
        rewrite lookup_delete_ne by (symmetry; eapply Hother; [exact Hne|]; tauto).
        apply (ok_entry _ _ Hq). tauto.
      * intros (t' & [Hne Ht']%lookup_delete_Some & Hw).
        destruct (proj2 (ok_entry _ _ Hq w i)) as [Hin|Hin]; [by exists t' | left | by right].
        split; [done|]. congruence.
    + intros i t' [_ Ht']%lookup_delete_Some. by apply (ok_timer _ _ Hq).
    + intros e He. rewrite elem_of_set_erase by done. intros [He' _]. by apply (ok_disjoint _ _ Hq e).
    + apply (ok_running _ _ Hq).
    + apply (ok_created _ _ Hq).
  - intros e. cbn. by apply elem_of_set_erase.
  - unfold armed_ok. cbn [timerEntries_ set_timers set_entries armed_ now_calls].
    destruct (timerEntries_ q) as [|[w i] es] eqn:E; [done|]. cbn [set_erase].
    intros Harmed. destruct (slt (w, i) _) eqn:E1; [done|]. destruct (slt _ (w, i)); [done|].
    destruct es as [|[w' i'] es]; [done|]. destruct Harmed as (d & Hd & Hle). exists d.
    split; [done|]. destruct Hle as [Hle|Hle]; [left|by right].
    apply set_ok_cons in Hs as [_ Hs]. specialize (Hs (w', i')).
    cbn in Hs. assert ((w <? w') || negb (w' <? w) && (i <? i') = true); [apply Hs; by left | lia].
Qed.

(** The entries due at [t], in order, and the others. *)
Lemma due_entry (t w id : Z) : id < INT64_MAX -> slt (w, id) (t, INT64_MAX) = (w <=? t).
Proof. intros. cbn. lia. Qed.

Lemma getExpired_ok q t :
  timers_ok [] q ->
  exists expired q', getExpired q t = Ok (expired, q') /\
    timerEntries_ q = expired ++ timerEntries_ q' /\
    (forall e, e ∈ expired <-> e ∈ timerEntries_ q /\ e.1 <= t) /\
    (forall e, e ∈ timerEntries_ q' <-> e ∈ timerEntries_ q /\ t < e.1) /\
    timers_ok expired q' /\
    timers_ q' = timers_ q /\ s_numCreated_ q' = s_numCreated_ q /\
    now_calls q' = now_calls q /\ runs_ q' = runs_ q.
Proof.
  intros Hq. pose proof (ok_sorted _ _ Hq) as Hs.
  set (lo := set_lower (t, INT64_MAX) (timerEntries_ q)).
  set (hi := set_upper (t, INT64_MAX) (timerEntries_ q)).
  assert (forall e, e ∈ timerEntries_ q -> slt e (t, INT64_MAX) = (e.1 <=? t)) as Hdue.
  { intros [w id] Hin. apply due_entry.
    destruct (proj1 (ok_entry _ _ Hq w id)) as (tm & Htm & _); [by left|].
    pose proof (ok_id _ _ _ (ok_timer _ _ Hq _ _ Htm)). pose proof (ok_created _ _ Hq). lia. }
  assert (forall e, e ∈ lo <-> e ∈ timerEntries_ q /\ e.1 <= t) as Hlo.
  { intros e. unfold lo. rewrite elem_of_set_lower by done.
    split; intros [Hin H]; (split; [done|]); pose proof (Hdue e Hin) as He; rewrite ?He in *; lia. }
  assert (forall e, e ∈ hi <-> e ∈ timerEntries_ q /\ t < e.1) as Hhi.
  { intros e. unfold hi. rewrite elem_of_set_upper by done.
    split; intros [Hin H]; (split; [done|]); pose proof (Hdue e Hin) as He; rewrite ?He in *; lia. }
  assert (timerEntries_ q = lo ++ hi) as Happ by apply set_lower_upper.
  pose proof Hs as Hs'. rewrite Happ in Hs'. apply set_ok_app in Hs' as (Hslo & Hshi & Hlt).
  exists lo, (set_entries q hi). split.
  { unfold getExpired. fold lo hi. rewrite assert_true; [done|].
    destruct hi as [|[w id] hi'] eqn:E; [done|]. apply Z.ltb_lt.
    apply (Hhi (w, id)). by left. }
  split; [done|]. split; [done|]. split; [done|]. split; [|done].
  split; cbn [timers_ timerEntries_ set_entries s_numCreated_].
  - done.
  - intros w id. rewrite <- (ok_entry _ _ Hq w id), Happ, elem_of_app, elem_of_nil. tauto.
  - apply (ok_timer _ _ Hq).
  - intros e [_ H1]%Hlo [_ H2]%Hhi. lia.
  - apply NoDup_fmap_2_strong.
    + intros [w1 i1] [w2 i2] [Hin1 _]%Hlo [Hin2 _]%Hlo Heq. cbn in Heq. subst.
      destruct (proj1 (ok_entry _ _ Hq w1 i2)) as (t1 & Ht1 & <-); [by left|].
      destruct (proj1 (ok_entry _ _ Hq w2 i2)) as (t2 & Ht2 & <-); [by left|]. congruence.
    + by apply set_ok_nodup.
  - apply (ok_created _ _ Hq).
Qed.
(** ** What the callbacks of a batch do

    [adds] and [cancels] are what a list of actions asks for.  [addTimer] in a
    callback needs an entry left in the set (see
    [add_in_callback_end_dereference]), and [cancel] a timer that is
    registered and not in the batch. *)

Definition adds (acts : list timer_action) : list (Z * Timestamp * double) :=
  omap (fun a => match a with ActAddTimer cb w d => Some (cb, w, d) | _ => None end) acts.
Definition cancels (acts : list timer_action) : list TimerId :=
  omap (fun a => match a with ActCancel id => Some id | _ => None end) acts.

Definition add_ok (a : Z * Timestamp * double) : Prop := time_ok a.1.2 /\ restartable a.2.

(** The timer the addition [a] makes under the sequence [id]. *)
Definition added_timer (a : Z * Timestamp * double) (id : Z) : Timer :=
  mkTimer a.1.1 a.1.2 a.2 (dpos a.2) id.

(** The cancellations [cs] and additions [as_] can be carried out, in any
    order, while the timers [running] run. *)
Record can_run (running : list TimerEntry) q (cs : list Z) (as_ : list (Z * Timestamp * double)) : Prop := {
  can_nodup : NoDup cs;
  can_cancel id : id ∈ cs -> is_Some (timers_ q !! id) /\ id ∉ running.*2;
  can_add : as_ = [] \/ exists e, e ∈ timerEntries_ q /\ e.2 ∉ cs;
  can_added : Forall add_ok as_;
  can_created : s_numCreated_ q + zlen as_ < INT64_MAX
}.

(** What was done between [q] and [q']: the timers [own] were taken care of,
    [cs] cancelled, [as_] added, and the callbacks [rs] were called. *)
Record did (own cs : list Z) (as_ : list (Z * Timestamp * double)) (rs : list (Z * Z)) q q' : Prop := {
  did_runs : runs_ q' = runs_ q ++ rs;
  did_created : s_numCreated_ q' = s_numCreated_ q + zlen as_;
  did_calls : (now_calls q <= now_calls q')%nat;
  did_entries e : e ∈ timerEntries_ q -> e.2 ∉ cs -> e ∈ timerEntries_ q';
  did_same id : id <= s_numCreated_ q -> id ∉ own -> id ∉ cs -> timers_ q' !! id = timers_ q !! id;
  did_cancel id : id ∈ cs -> timers_ q' !! id = None;
  did_add i a : as_ !! i = Some a ->
    timers_ q' !! (s_numCreated_ q + 1 + Z.of_nat i) = Some (added_timer a (s_numCreated_ q + 1 + Z.of_nat i))
}.

Lemma did_nothing q : did [] [] [] [] q q.
Proof. split; try done; [by rewrite app_nil_r | zlen_lia | by intros ? ?%elem_of_nil]. Qed.

(** Two pieces of work compose when the second is about timers that exist
    before the first and does not take up the ones the first cancelled. *)
Lemma did_trans own1 cs1 as1 rs1 own2 cs2 as2 rs2 q q1 q2 :
  did own1 cs1 as1 rs1 q q1 -> did own2 cs2 as2 rs2 q1 q2 ->
  (forall id, id ∈ cs1 ++ cs2 ++ own2 -> id <= s_numCreated_ q) ->
  (forall id, id ∈ cs1 -> id ∉ own2) ->
  did (own1 ++ own2) (cs1 ++ cs2) (as1 ++ as2) (rs1 ++ rs2) q q2.
Proof.
  intros [R1 N1 K1 E1 S1 C1 A1] [R2 N2 K2 E2 S2 C2 A2] Hold Hdis.
  pose proof (zlen_nonneg as1). split.
  - by rewrite R2, R1, app_assoc.
  - rewrite N2, N1, zlen_app. lia.
  - lia.
  - intros e He [Hc1 Hc2]%not_elem_of_app. auto.
  - intros id Hid [Ho1 Ho2]%not_elem_of_app [Hc1 Hc2]%not_elem_of_app. rewrite S2 by (done || lia). auto.
  - intros id [Hc|Hc]%elem_of_app; [|by apply C2]. destruct (decide (id ∈ cs2)) as [|Hn]; [by apply C2|].
    rewrite S2; [by apply C1 | | by apply Hdis | done].
    assert (id <= s_numCreated_ q); [apply Hold; set_solver | lia].
  - intros i a [Hi|[Hlen Hi]]%lookup_app_Some.
    + pose proof (lookup_lt_Some _ _ _ Hi). rewrite S2; [by apply A1| | |].
      * rewrite N1. unfold zlen. lia.
      * intros Hin. assert (s_numCreated_ q + 1 + Z.of_nat i <= s_numCreated_ q); [apply Hold; set_solver | lia].
      * intros Hin. assert (s_numCreated_ q + 1 + Z.of_nat i <= s_numCreated_ q); [apply Hold; set_solver | lia].
    + specialize (A2 _ _ Hi). rewrite N1 in A2. unfold zlen in *.
      by replace (s_numCreated_ q + Z.of_nat (length as1) + 1 + Z.of_nat (i - length as1))
        with (s_numCreated_ q + 1 + Z.of_nat i) in A2 by lia.
Qed.

(** What is left to do can be carried out after a first piece of work. *)
Lemma can_run_after running running' q q1 own cs1 as1 rs1 cs2 as2 :
  can_run running q (cs1 ++ cs2) (as1 ++ as2) -> timers_ok running q ->
  did own cs1 as1 rs1 q q1 -> own ⊆ running.*2 -> running' ⊆ running ->
  can_run running' q1 cs2 as2.
Proof.
  intros [Hnd Hc Ha Hok Hn] Hq [R1 N1 K1 E1 S1 C1 A1] Hown Hsub.
  apply NoDup_app in Hnd as (_ & Hdis & Hnd). split.
  - done.
  - intros id Hid. destruct (Hc id) as [[t Ht] Hr]; [set_solver|]. split.
    + exists t. rewrite S1; [done| | |].
      * pose proof (ok_id _ _ _ (ok_timer _ _ Hq _ _ Ht)). lia.
      * intros Hin. by apply Hr, Hown.
      * intros Hin. by apply (Hdis id).
    + intros Hin. apply Hr. apply list_elem_of_fmap in Hin as (e & -> & He).
      apply list_elem_of_fmap. exists e. auto.
  - destruct Ha as [Ha|(e & He & Hne)]; [left; by apply app_eq_nil in Ha as [_ ?]|right].
    apply not_elem_of_app in Hne as [Hne1 Hne2]. exists e. auto.
  - by apply Forall_app in Hok as [_ ?].
  - rewrite N1. rewrite zlen_app in Hn. lia.
Qed.

Lemma add_did running q cb when interval as_ cs :
  timers_ok running q -> can_run running q cs ((cb, when, interval) :: as_) ->
  exists id q', addTimer q cb when interval = Ok (id, q') /\ timers_ok running q' /\
    did [] [] [(cb, when, interval)] [] q q'.
Proof.
  intros Hq [_ _ Ha Hok Hn]. apply Forall_cons in Hok as [[Hwhen Hint] _].
  rewrite zlen_cons in Hn. pose proof (zlen_nonneg as_).
  destruct (addTimer_ok running q cb when interval)
    as (q' & H1 & Hq' & _ & _ & Ht & He & Hc & Hr & Hk); [done..|lia| |].
  { right. destruct Ha as [|(e & Hin & _)]; [done|]. intros Hnil. rewrite Hnil in Hin. by apply elem_of_nil in Hin. }
  eexists _, q'. split; [done|]. split; [done|]. split.
  - by rewrite Hr, app_nil_r.
  - rewrite Hc. zlen_lia.
  - done.
  - intros e Hin _. rewrite He. apply elem_of_set_insert. by right.
  - intros id Hid _ _. by rewrite Ht, lookup_insert_ne by lia.
  - by intros ? ?%elem_of_nil.
  - intros [|i] a [= <-]. change (Z.of_nat 0) with 0. rewrite Z.add_0_r, Ht. by rewrite lookup_insert_eq.
Qed.

Lemma cancel_did running q id cs as_ :
  timers_ok running q -> can_run running q (id :: cs) as_ ->
  exists q', cancel q id = Ok q' /\ timers_ok running q' /\ did [] [id] [] [] q q'.
Proof.
  intros Hq [_ Hc _ _ _]. destruct (Hc id) as [[t Ht] Hr]; [by left|].
  destruct (cancel_ok running q id t) as (q' & H1 & Hq' & Hts & (Hn & Hrs & Hk) & He & _); [done|done| |].
  { intros Hin. by apply (list_elem_of_fmap_2 snd) in Hin. }
  exists q'. split; [done|]. split; [done|]. split.
  - by rewrite Hrs, app_nil_r.
  - rewrite Hn. zlen_lia.
  - lia.
  - intros e Hin Hne. apply He. split; [done|]. intros ->. apply Hne. by left.
  - intros i _ _ Hne. rewrite Hts, lookup_delete_ne; [done|]. intros ->. apply Hne. by left.
  - intros i ->%list_elem_of_singleton. by rewrite Hts, lookup_delete_eq.
  - done.
Qed.

(** The timers to cancel exist. *)
Lemma can_old running q cs as_ id : timers_ok running q -> can_run running q cs as_ ->
  id ∈ cs -> id <= s_numCreated_ q.
Proof.
  intros Hq Hc [[t Ht] _]%(can_cancel _ _ _ _ Hc).
  pose proof (ok_id _ _ _ (ok_timer _ _ Hq _ _ Ht)). lia.
Qed.

Lemma run_actions_ok running q acts cs as_ :
  timers_ok running q -> can_run running q (cancels acts ++ cs) (adds acts ++ as_) ->
  exists q', run_actions q acts = Ok q' /\ timers_ok running q' /\
    did [] (cancels acts) (adds acts) [] q q'.
Proof.
  revert q. induction acts as [|a acts IH]; intros q Hq Hcan.
  { exists q. split; [done|]. split; [done|]. apply did_nothing. }
  assert (exists cs1 as1 q1, cancels (a :: acts) = cs1 ++ cancels acts /\ adds (a :: acts) = as1 ++ adds acts /\
    run_action q a = Ok q1 /\ timers_ok running q1 /\ did [] cs1 as1 [] q q1)
    as (cs1 & as1 & q1 & Hcs & Has & H1 & Hq1 & Hd1).
  { destruct a as [cb when interval|id|].
    - destruct (add_did running q cb when interval (adds acts ++ as_) (cancels acts ++ cs))
        as (id & q1 & H1 & Hq1 & Hd); [done..|].
      exists [], [(cb, when, interval)], q1. cbn [run_action]. by rewrite H1.
    - destruct (cancel_did running q id (cancels acts ++ cs) (adds acts ++ as_)) as (q1 & H1 & Hq1 & Hd); [done..|].
      by exists [id], [], q1.
    - exists [], [], q. split; [done|]. split; [done|]. split; [done|]. split; [done|]. apply did_nothing. }
  rewrite Hcs, Has in Hcan. pose proof Hcan as Hcan'. rewrite <- !app_assoc in Hcan.
  destruct (IH q1) as (q' & H2 & Hq' & Hd2); [done| |].
  { eapply can_run_after; [exact Hcan|done|exact Hd1|set_solver|done]. }
  exists q'. cbn [run_actions]. rewrite H1. cbn [mbind res_bind]. split; [done|]. split; [done|].
  rewrite Hcs, Has. apply (did_trans [] _ _ [] [] _ _ [] q q1 q'); [done..| |set_solver].
  intros id Hid. eapply can_old; [done|exact Hcan'|set_solver].
Qed.

(** What becomes of a timer that ran. *)
Definition fate (t : Timer) (after : option Timer) : Prop :=
  if repeat_ t
  then exists n e, addTime (now n) (interval_ t) = Ok e /\
         after = Some (mkTimer (callback_ t) e (interval_ t) (repeat_ t) (sequence_ t))
  else after = None.

(** The invariant after the timer of a running entry was forgotten. *)
Lemma timers_ok_finish running q w id t :
  timers_ok ((w, id) :: running) q -> timers_ q !! id = Some t ->
  timers_ok running (set_timers q (delete id (timers_ q))).
Proof.
  intros Hq Ht. pose proof (ok_running _ _ Hq) as Hnd. cbn in Hnd. apply NoDup_cons in Hnd as [Hnot Hnd].
  assert (expiration_ t = w) as Hw.
  { destruct (proj1 (ok_entry _ _ Hq w id)) as (t' & ? & ?); [right; by left | congruence]. }
  split; cbn [timers_ timerEntries_ set_timers s_numCreated_].
  - apply (ok_sorted _ _ Hq).
  - intros w' i. destruct (decide (i = id)) as [->|Hne].
    + rewrite lookup_delete_eq. split; [|by intros (? & ? & _)]. intros [Hin|Hin]; exfalso.
      * destruct (proj1 (ok_entry _ _ Hq w' id)) as (t' & ? & Hw'); [by left|].
        apply (ok_disjoint _ _ Hq (w, id)); [by left|]. congruence.
      * apply Hnot. by apply (list_elem_of_fmap_2 snd) in Hin.
    + rewrite lookup_delete_ne by congruence. rewrite <- (ok_entry _ _ Hq w' i), elem_of_cons.
      split; [tauto|]. intros [?|[[= -> ->]|?]]; tauto.
  - intros i t' [_ Ht']%lookup_delete_Some. by apply (ok_timer _ _ Hq).
  - intros e He. apply (ok_disjoint _ _ Hq). by right.
  - done.
  - apply (ok_created _ _ Hq).
Qed.

(** The invariant after the timer of a running entry was restarted. *)
Lemma timers_ok_restart running q w id t e :
  timers_ok ((w, id) :: running) q -> timers_ q !! id = Some t -> time_ok e ->
  let t' := mkTimer (callback_ t) e (interval_ t) (repeat_ t) (sequence_ t) in
  timers_ok running (set_entries (set_timers q (<[id := t']> (timers_ q)))
    (set_insert (e, id) (timerEntries_ q))).
Proof.
  intros Hq Ht He t'. pose proof (ok_running _ _ Hq) as Hnd. cbn in Hnd. apply NoDup_cons in Hnd as [Hnot Hnd].
  assert (forall w', (w', id) ∉ running) as Hnot'.
  { intros w' Hin. apply Hnot. by apply (list_elem_of_fmap_2 snd) in Hin. }
  assert (forall w', (w', id) ∈ timerEntries_ q -> w' = w /\ False) as Hno.
  { intros w' Hin. destruct (proj1 (ok_entry _ _ Hq w' id)) as (t1 & H1 & <-); [by left|].
    destruct (proj1 (ok_entry _ _ Hq w id)) as (t2 & H2 & <-); [right; by left|].
    replace t2 with t1 in * by congruence. split; [done|].
    apply (ok_disjoint _ _ Hq (expiration_ t1, id)); [by left | done]. }
  split; cbn [timers_ timerEntries_ set_timers set_entries s_numCreated_].
  - apply set_insert_ok, (ok_sorted _ _ Hq).
  - intros w' i. rewrite elem_of_set_insert. destruct (decide (i = id)) as [->|Hne].
    + rewrite lookup_insert_eq. split.
      * intros [[[= ->]|Hin]|Hin]; [eexists; by split | by destruct (Hno _ Hin) | by apply Hnot' in Hin].
      * intros (t1 & [= <-] & <-). left. by left.
    + rewrite lookup_insert_ne by congruence. rewrite <- (ok_entry _ _ Hq w' i), elem_of_cons.
      split; [intros [[[= -> ->]|?]|?]; tauto|]. intros [?|[[= -> ->]|?]]; tauto.
  - intros i t1 [[<- <-]|[_ Hi]]%lookup_insert_Some; [|by apply (ok_timer _ _ Hq)].
    destruct (ok_timer _ _ Hq _ _ Ht) as [? ? ? ? ?]. split; done.
  - intros [w' i] Hin. rewrite elem_of_set_insert. intros [[= -> ->]|Hin'].
    + by apply Hnot' in Hin.
    + apply (ok_disjoint _ _ Hq (w', i)); [by right | done].
  - done.
  - apply (ok_created _ _ Hq).
Qed.

(** The timer of a running entry is put back or forgotten after its run. *)
Lemma finish_did running q w id t :
  timers_ok ((w, id) :: running) q -> timers_ q !! id = Some t ->
  exists q', (if repeat_ t then
      let '(t0, q) := get_now q in
      timer ← restart t t0;
      let q := set_timers q (<[id := timer]> (timers_ q)) in
      Ok (set_entries q (set_insert (expiration_ timer, sequence_ timer) (timerEntries_ q)))
    else Ok (set_timers q (delete id (timers_ q)))) = Ok q' /\
    timers_ok running q' /\ did [id] [] [] [] q q' /\ fate t (timers_ q' !! id).
Proof.
  intros Hq Ht. destruct (ok_timer _ _ Hq _ _ Ht) as [Hseq Hid Hexp Hrep Hres].
  unfold fate. destruct (repeat_ t) eqn:Er.
  - destruct (Hres ltac:(congruence) (now_calls q)) as (e & He & Hok).
    cbn [get_now]. unfold restart. rewrite Er, He. cbn [mbind res_bind expiration_ sequence_].
    rewrite Hseq. eexists. split; [done|].
    assert (timers_ok ((w, id) :: running) (snd (get_now q))) as Hq1 by (by destruct Hq; split).
    split; [|split].
    + pose proof (timers_ok_restart running _ w id t e Hq1 Ht Hok) as Hfin. cbn zeta in Hfin.
      rewrite Er, Hseq in Hfin. exact Hfin.
    + split; cbn [timers_ timerEntries_ set_timers set_entries s_numCreated_ now_calls runs_].
      * by rewrite app_nil_r.
      * zlen_lia.
      * lia.
      * intros e' Hin _. apply elem_of_set_insert. by right.
      * intros i _ Hne _. rewrite lookup_insert_ne; [done|]. set_solver.
      * by intros ? ?%elem_of_nil.
      * done.
    + exists (now_calls q), e. cbn [timers_ set_timers set_entries]. by rewrite lookup_insert_eq.
  - eexists. split; [done|]. split; [by eapply timers_ok_finish|].
    cbn [timers_ set_timers]. split; [|by rewrite lookup_delete_eq].
    split; cbn [timers_ timerEntries_ set_timers s_numCreated_ now_calls runs_].
    + by rewrite app_nil_r.
    + zlen_lia.
    + done.
    + done.
    + intros i _ Hne _. rewrite lookup_delete_ne; [done|]. set_solver.
    + by intros ? ?%elem_of_nil.
    + done.
Qed.

Lemma Timer_run_ok running q t cs as_ :
  let acts := callback (callback_ t) in
  timers_ok running q -> can_run running q (cancels acts ++ cs) (adds acts ++ as_) ->
  exists q', Timer_run q t = Ok q' /\ timers_ok running q' /\
    did [] (cancels acts) (adds acts) [(sequence_ t, callback_ t)] q q'.
Proof.
  intros acts Hq [H1 H2 H3 H4 H5]. unfold Timer_run.
  destruct (run_actions_ok running (add_run q t) acts cs as_) as (q' & HR & Hq' & [R N K E S C A]);
    [by destruct Hq; split | by split|].
  exists q'. split; [done|]. split; [done|]. split; try done. rewrite R. by rewrite app_nil_r.
Qed.

Lemma run_expired_ok running q w id t cs as_ :
  let acts := callback (callback_ t) in
  timers_ok ((w, id) :: running) q -> timers_ q !! id = Some t ->
  can_run ((w, id) :: running) q (cancels acts ++ cs) (adds acts ++ as_) ->
  exists q', run_expired q id = Ok q' /\ timers_ok running q' /\
    did [id] (cancels acts) (adds acts) [(id, callback_ t)] q q' /\ fate t (timers_ q' !! id).
Proof.
  intros acts Hq Ht Hcan. unfold run_expired. rewrite Ht.
  destruct (ok_timer _ _ Hq _ _ Ht) as [Hseq Hid _ _ _].
  destruct (Timer_run_ok _ q t cs as_ Hq Hcan) as (q1 & -> & Hq1 & Hd1). cbn [mbind res_bind].
  assert (id ∉ cancels acts) as Hnc.
  { intros Hin. destruct (can_cancel _ _ _ _ Hcan id) as [_ Hr]; [set_solver|]. apply Hr. by left. }
  assert (timers_ q1 !! id = Some t) as Ht1 by (rewrite (did_same _ _ _ _ _ _ Hd1); [done|lia|set_solver|done]).
  rewrite Ht1. destruct (finish_did running q1 w id t Hq1 Ht1) as (q' & H2 & Hq' & Hd2 & Hfate).
  exists q'. split; [exact H2|]. split; [done|]. split; [|done]. rewrite Hseq in Hd1.
  pose proof (did_trans [] _ _ _ [id] [] [] [] q q1 q' Hd1 Hd2) as Hd. rewrite !app_nil_r in Hd.
  apply Hd; clear Hd.
  - intros i [Hi|Hi]%elem_of_app; [|rewrite app_nil_l in Hi; apply list_elem_of_singleton in Hi as ->; lia].
    eapply can_old; [exact Hq|exact Hcan|set_solver].
  - intros i Hi ->%list_elem_of_singleton. done.
Qed.

(** What the callbacks of the timers [ts] ask for, in order. *)
Definition batch_cancels (ts : list Timer) : list Z := ts ≫= fun t => cancels (callback (callback_ t)).
Definition batch_adds (ts : list Timer) : list (Z * Timestamp * double) :=
  ts ≫= fun t => adds (callback (callback_ t)).

Lemma run_all_ok expired ts q :
  timers_ok expired q -> Forall2 (fun e t => timers_ q !! e.2 = Some t) expired ts ->
  can_run expired q (batch_cancels ts) (batch_adds ts) ->
  exists q', run_all q expired = Ok q' /\ timers_ok [] q' /\
    did expired.*2 (batch_cancels ts) (batch_adds ts) ((fun t => (sequence_ t, callback_ t)) <$> ts) q q' /\
    (forall t, t ∈ ts -> fate t (timers_ q' !! sequence_ t)).
Proof.
  intros Hq Hts. revert q ts Hq Hts. induction expired as [|[w id] expired IH]; intros q ts Hq Hts Hcan.
  { apply Forall2_nil_inv_l in Hts as ->. exists q. split; [done|]. split; [done|].
    split; [apply did_nothing | by intros ? ?%elem_of_nil]. }
  apply Forall2_cons_inv_l in Hts as (t & ts' & Ht & Hts & ->). cbn [snd] in Ht.
  unfold batch_cancels, batch_adds in Hcan. rewrite !bind_cons in Hcan. fold (batch_cancels ts') (batch_adds ts') in Hcan.
  destruct (run_expired_ok expired q w id t _ _ Hq Ht Hcan) as (q1 & H1 & Hq1 & Hd1 & Hfate1).
  pose proof (ok_running _ _ Hq) as Hnd. cbn in Hnd. apply NoDup_cons in Hnd as [Hnot Hnd].
  destruct (ok_timer _ _ Hq _ _ Ht) as [Hseq Hid _ _ _].
  assert (forall e tm, e ∈ expired -> timers_ q !! e.2 = Some tm -> timers_ q1 !! e.2 = timers_ q !! e.2) as Hkeep.
  { intros e tm He Htm. apply (did_same _ _ _ _ _ _ Hd1).
    - pose proof (ok_id _ _ _ (ok_timer _ _ Hq _ _ Htm)). lia.
    - intros Hin%list_elem_of_singleton. apply Hnot. rewrite <- Hin. by apply list_elem_of_fmap_2.
    - intros Hin. destruct (can_cancel _ _ _ _ Hcan e.2) as [_ Hr]; [set_solver|].
      apply Hr. right. by apply list_elem_of_fmap_2. }
  destruct (IH q1 ts') as (q' & H2 & Hq' & Hd2 & Hfate2); [done| | |].
  { eapply Forall2_impl with (P := fun e t => e ∈ expired /\ timers_ q !! e.2 = Some t).
    - apply Forall2_same_length_lookup. split; [by eapply Forall2_length|].
      intros i e tm He Htm. split; [by eapply list_elem_of_lookup_2|]. by eapply Forall2_lookup_lr in Hts.
    - intros e tm [He Htm]. by rewrite (Hkeep e tm). }
  { eapply can_run_after; [exact Hcan|done|exact Hd1| |]; [intros i ->%list_elem_of_singleton; by left | set_solver]. }
  exists q'. cbn [run_all]. rewrite H1. cbn [mbind res_bind]. split; [done|]. split; [done|]. split.
  - rewrite !fmap_cons, Hseq. refine (did_trans [id] _ _ [_] expired.*2 _ _ _ q q1 q' Hd1 Hd2 _ _).
    + intros i [Hi|[Hi|Hi]%elem_of_app]%elem_of_app; [eapply can_old; [exact Hq|exact Hcan|set_solver]..|].
      apply list_elem_of_fmap in Hi as (e & -> & He).
      destruct (proj1 (ok_entry _ _ Hq e.1 e.2)) as (te & Hte & _); [right; right; by destruct e|].
      pose proof (ok_id _ _ _ (ok_timer _ _ Hq _ _ Hte)). lia.
    + intros i Hi Hin. destruct (can_cancel _ _ _ _ Hcan i) as [_ Hr]; [set_solver|]. apply Hr. by right.
  - intros tm [->|Hin]%elem_of_cons; [|by apply Hfate2]. rewrite Hseq.
    rewrite (did_same _ _ _ _ _ _ Hd2); [done| |done|].
    + rewrite (did_created _ _ _ _ _ _ Hd1). pose proof (zlen_nonneg (adds (callback (callback_ t)))). lia.
    + intros Hin. destruct (can_cancel _ _ _ _ Hcan id) as [_ Hr]; [set_solver|]. apply Hr. by left.
Qed.

(** Arming the descriptor for the first entry. *)
Lemma rearm_ok q :
  timers_ok [] q ->
  exists q', match timerEntries_ q with
      | [] => Ok q
      | (nextExpireTime, _) :: _ =>
          if valid nextExpireTime then resetTimerfd q nextExpireTime else Ok q
      end = Ok q' /\ timers_ok [] q' /\ armed_ok q' /\
    timers_ q' = timers_ q /\ timerEntries_ q' = timerEntries_ q /\
    s_numCreated_ q' = s_numCreated_ q /\ runs_ q' = runs_ q.
Proof.
  intros Hq. destruct (timerEntries_ q) as [|[w id] es] eqn:E.
  - exists q. split; [done|]. split; [done|]. unfold armed_ok. by rewrite E.
  - assert (time_ok w) as Hw.
    { destruct (proj1 (ok_entry _ _ Hq w id)) as (t & Ht & <-); [left; rewrite E; by left|].
      apply (ok_expiration _ _ _ (ok_timer _ _ Hq _ _ Ht)). }
    unfold valid. rewrite (proj2 (Z.ltb_lt _ _)) by apply Hw. rewrite resetTimerfd_ok by done.
    eexists. split; [done|]. split; [by destruct Hq; split|]. split; [|done].
    unfold armed_ok. cbn. rewrite E. eexists. split; [done|]. apply armed_max.
Qed.

(** ** Properties *)

(** A timer added in the loop's thread (when no batch has emptied the set)
    is registered under a fresh sequence with its expiration, every other
    timer is kept, and the descriptor is set to fire no later than the first
    expiration, or 100 microseconds from now. *)
Theorem addTimer_correct running q cb when interval :
  timers_ok running q -> time_ok when -> restartable interval ->
  s_numCreated_ q + 1 < INT64_MAX -> timers_ q = ∅ \/ timerEntries_ q <> [] ->
  let id := s_numCreated_ q + 1 in
  exists q', addTimer q cb when interval = Ok (id, q') /\ timers_ok running q' /\
    timers_ q !! id = None /\
    timers_ q' = <[id := mkTimer cb when interval (dpos interval) id]> (timers_ q) /\
    (forall e, e ∈ timerEntries_ q' <-> e = (when, id) \/ e ∈ timerEntries_ q) /\
    (timers_ q = ∅ \/ armed_ok q -> armed_ok q').
Proof.
  intros Hq Hwhen Hint Hmax Hne id.
  destruct (addTimer_ok running q cb when interval)
    as (q' & H1 & Hq' & _ & Harm & Ht & He & _); [done..|].
  exists q'. split; [done|]. split; [done|]. split; [|split; [done|split; [|done]]].
  - destruct (timers_ q !! id) as [t|] eqn:E; [|done].
    pose proof (ok_id _ _ _ (ok_timer _ _ Hq _ _ E)). unfold id in *. lia.
  - intros e. rewrite He. apply elem_of_set_insert.
Qed.

Lemma list_filter_full {A} (P : A -> Prop) `{!forall x, Decision (P x)} (l : list A) :
  Forall P l -> filter P l = l.
Proof. induction 1; [done|]. rewrite filter_cons_True by done. by f_equal. Qed.

Lemma list_filter_nil {A} (P : A -> Prop) `{!forall x, Decision (P x)} (l : list A) :
  Forall (fun x => ~ P x) l -> filter P l = [].
Proof. induction 1; [done|]. by rewrite filter_cons_False. Qed.

(** The entries that are due when [handleRead] reads the clock, and their
    timers, in the order of the set. *)
Definition due q : list TimerEntry := filter (fun e => e.1 <= now (now_calls q)) (timerEntries_ q).
Definition due_timers q : list Timer := omap (fun e : TimerEntry => timers_ q !! e.2) (due q).

Lemma getExpired_due q expired q1 :
  getExpired (snd (get_now q)) (now (now_calls q)) = Ok (expired, q1) ->
  timerEntries_ q = expired ++ timerEntries_ q1 ->
  (forall e, e ∈ expired <-> e ∈ timerEntries_ q /\ e.1 <= now (now_calls q)) ->
  (forall e, e ∈ timerEntries_ q1 <-> e ∈ timerEntries_ q /\ now (now_calls q) < e.1) ->
  due q = expired.
Proof.
  intros _ Happ Hlo Hhi. unfold due. rewrite Happ, filter_app.
  replace (filter _ (timerEntries_ q1)) with (@nil TimerEntry).
  2:{ symmetry. apply list_filter_nil, Forall_forall. intros e [_ He]%Hhi. lia. }
  rewrite app_nil_r. apply list_filter_full, Forall_forall. by intros e [_ He]%Hlo.
Qed.

Lemma due_timers_lookup q :
  timers_ok [] q -> Forall2 (fun e t => timers_ q !! e.2 = Some t) (due q) (due_timers q).
Proof.
  intros Hq. unfold due_timers.
  assert (forall e, e ∈ due q -> is_Some (timers_ q !! e.2)) as Hin.
  { intros [w id] [_ He]%list_elem_of_filter. destruct (proj1 (ok_entry _ _ Hq w id)) as (t & Ht & _); [by left|].
    by exists t. }
  induction (due q) as [|e es IH]; [constructor|]. cbn [omap list_omap].
  destruct (Hin e) as [t Ht]; [by left|]. cbn [omap list_omap]. rewrite Ht. constructor; [done|].
  apply IH. intros e' He'. apply Hin. by right.
Qed.

(** C9: [handleRead] calls the callbacks of exactly the timers that are due
    at the time it reads, each once, in the order of expiration and sequence,
    and nothing else; a repeating one is back in the set at a later reading of
    the clock plus its interval and a one-shot one is gone.  What the callbacks
    ask for is done: every timer they add is registered under the next
    sequence, in the order of the calls, and every timer they cancel is gone.
    All other timers are untouched, and the descriptor is set for the first
    entry left.  The callbacks may cancel timers that are registered and not
    due, none twice (cancelling any other aborts or dangles, see
    [self_cancel_dangles]), and may add timers when an entry that is neither
    due nor cancelled is left (see [add_in_callback_end_dereference]). *)
Theorem handleRead_correct q :
  let cs := batch_cancels (due_timers q) in
  let as_ := batch_adds (due_timers q) in
  timers_ok [] q -> NoDup cs ->
  (forall id, id ∈ cs -> exists t, timers_ q !! id = Some t /\ now (now_calls q) < expiration_ t) ->
  as_ = [] \/ (exists e, e ∈ timerEntries_ q /\ now (now_calls q) < e.1 /\ e.2 ∉ cs) ->
  Forall add_ok as_ -> s_numCreated_ q + zlen as_ < INT64_MAX ->
  exists q', handleRead q = Ok (due q, q') /\ timers_ok [] q' /\ armed_ok q' /\
    runs_ q' = runs_ q ++ ((fun t => (sequence_ t, callback_ t)) <$> due_timers q) /\
    (forall t, t ∈ due_timers q -> fate t (timers_ q' !! sequence_ t)) /\
    s_numCreated_ q' = s_numCreated_ q + zlen as_ /\
    (forall i a, as_ !! i = Some a -> let id := s_numCreated_ q + 1 + Z.of_nat i in
       timers_ q' !! id = Some (added_timer a id)) /\
    (forall id, id ∈ cs -> timers_ q' !! id = None) /\
    (forall id, id <= s_numCreated_ q -> id ∉ (due q).*2 -> id ∉ cs -> timers_ q' !! id = timers_ q !! id).
Proof.
  intros cs as_ Hq Hnd Hcs Hleft Has Hmax. pose proof (due_timers_lookup q Hq) as Hts. unfold handleRead.
  assert (timers_ok [] (snd (get_now q))) as Hq0 by (by destruct Hq; split).
  destruct (getExpired_ok _ (now (now_calls q)) Hq0)
    as (expired & q1 & HE & Happ & Hexp & Hrest & Hq1 & Ht1 & Hn1 & Hk1 & Hr1).
  pose proof (getExpired_due _ _ _ HE Happ Hexp Hrest) as Hdue. cbn [get_now snd] in HE, Ht1, Hn1, Hr1.
  cbn [get_now]. rewrite HE. cbn [mbind res_bind]. rewrite <- Hdue in *.
  destruct (run_all_ok (due q) (due_timers q) q1) as (q2 & -> & Hq2 & [R2 N2 _ _ S2 C2 A2] & Hfate).
  { done. }
  { eapply Forall2_impl; [exact Hts|]. intros e t He. by rewrite Ht1. }
  { split; [done| | |done|by rewrite Hn1].
    - intros id Hid. destruct (Hcs id Hid) as (t & Ht & Hlt). split; [exists t; by rewrite Ht1|].
      intros ([w i] & -> & [Hw Hin]%list_elem_of_filter)%list_elem_of_fmap. cbn in Ht, Hw.
      destruct (proj1 (ok_entry _ _ Hq w i)) as (t' & Ht' & <-); [by left|].
      replace t' with t in * by congruence. lia.
    - destruct Hleft as [|(e & He & Hlt & Hne)]; [by left|right]. exists e. split; [by apply Hrest|done]. }
  cbn [mbind res_bind]. destruct (rearm_ok q2 Hq2) as (q3 & -> & Hq3 & Harm & Ht3 & _ & Hn3 & Hr3).
  rewrite Hn1 in *. rewrite Ht1 in S2. exists q3. rewrite Ht3, Hn3, Hr3, R2, Hr1. split; [done|].
  split; [done|]. split; [done|]. split; [done|]. split; [exact Hfate|]. split; [exact N2|].
  split; [exact A2|]. split; [exact C2|]. exact S2.
Qed.

(** A callback that cancels its own timer destroys the timer that is
    running: [handleRead] then reads it after it was freed. *)
Theorem self_cancel_dangles q id t w es :
  timers_ok [] q -> timerEntries_ q = (w, id) :: es -> w <= now (now_calls q) ->
  timers_ q !! id = Some t -> callback (callback_ t) = [ActCancel id] ->
  handleRead q = Err UseAfterFree.
Proof.
  intros Hq He Hw Ht Hcb. unfold handleRead. cbn [get_now]. set (q0 := mkTimerQueue _ _ _ _ _ _).
  assert (timers_ok [] q0) as Hq0 by (by destruct Hq; split).
  destruct (getExpired_ok q0 (now (now_calls q)) Hq0)
    as (expired & q1 & -> & Happ & Hexp & _ & _ & Ht1 & _).
  cbn [mbind res_bind]. change (timerEntries_ q0) with (timerEntries_ q) in *. rewrite He in *.
  assert ((w, id) ∈ expired) as Hin by (apply Hexp; split; [by left | done]).
  destruct expired as [|e expired]; [by apply elem_of_nil in Hin|]. injection Happ as <- _.
  cbn [run_all]. unfold run_expired. rewrite Ht1. cbn [timers_ q0]. rewrite Ht.
  unfold Timer_run. rewrite Hcb.
  cbn [run_actions run_action]. unfold cancel, cancelInLoop. cbn [timers_ add_run]. rewrite Ht1. cbn [timers_ q0].
  rewrite Ht. cbn [mbind res_bind timers_ set_timers set_entries add_run]. by rewrite Ht1, lookup_delete_eq.
Qed.

(** A callback that adds a timer while its batch has emptied the set
    (a lone one-shot or repeating timer that calls [runAfter], say) makes
    [addTimerInLoop] dereference the end of the set. *)
Theorem add_in_callback_end_dereference q id t w cb when interval :
  timers_ok [] q -> timerEntries_ q = [(w, id)] -> w <= now (now_calls q) ->
  timers_ q !! id = Some t -> callback (callback_ t) = [ActAddTimer cb when interval] ->
  handleRead q = Err EndDereference.
Proof.
  intros Hq He Hw Ht Hcb. unfold handleRead. cbn [get_now]. unfold getExpired.
  cbn [timerEntries_]. rewrite He.
  assert (slt (w, id) (now (now_calls q), INT64_MAX) = true) as Hlt.
  { rewrite due_entry; [lia|]. pose proof (ok_id _ _ _ (ok_timer _ _ Hq _ _ Ht)).
    pose proof (ok_created _ _ Hq). lia. }
  cbn [set_upper set_lower]. rewrite Hlt. cbn [assert_ mbind res_bind].
  cbn [run_all]. unfold run_expired. cbn [timers_ set_entries]. rewrite Ht. unfold Timer_run. rewrite Hcb.
  cbn [run_actions run_action]. unfold addTimer, addTimerInLoop. cbn [timers_ timerEntries_ set_entries add_run].
  rewrite bool_decide_false; [done|]. intros Hempty. by rewrite Hempty, lookup_empty in Ht.
Qed.
End Queue.

(** ** Examples *)

Definition clock_example (n : nat) : Timestamp := Z.min (5000 + Z.of_nat n) (2 ^ 61).

Lemma clock_example_ok n : time_ok (clock_example n).
Proof. unfold time_ok, clock_example. lia. Qed.

Definition one_second : double := double_of 1.

Lemma one_second_restartable : restartable clock_example one_second.
Proof.
  intros _ n. exists (clock_example n + 1000000). unfold addTime.
  replace (int64_of (dmul one_second (double_of kMicroSecondsPerSecond)))
    with (Ok 1000000 : res Z) by (vm_compute; reflexivity).
  cbn [mbind res_bind]. pose proof (clock_example_ok n) as Hn. unfold add_int64, time_ok, clock_example in *.
  rewrite guard_true by lia. split; [done | lia].
Qed.

(** Timer 1 is due at 4000 and repeats, timers 2 and 3 are due later. *)
Definition timer1 : Timer := mkTimer 1 4000 one_second true 1.
Definition timer2 : Timer := mkTimer 2 9000 (double_of 0) false 2.
Definition timer3 : Timer := mkTimer 2 9500 (double_of 0) false 3.
Definition queue_example : TimerQueue :=
  mkTimerQueue (<[1 := timer1]> (<[2 := timer2]> (<[3 := timer3]> ∅)))
    [(4000, 1); (9000, 2); (9500, 3)] (Some 4000) 3 0 [].

Lemma queue_example_cases id t :
  timers_ queue_example !! id = Some t ->
  id = 1 /\ t = timer1 \/ id = 2 /\ t = timer2 \/ id = 3 /\ t = timer3.
Proof.
  cbn. intros Ht. do 3 (apply lookup_insert_Some in Ht as [[<- <-]|[_ Ht]]; [tauto|]).
  by rewrite lookup_empty in Ht.
Qed.

Lemma queue_example_ok : timers_ok clock_example [] queue_example.
Proof.
  split.
  - repeat constructor.
  - intros w id. cbn [timerEntries_ queue_example]. rewrite !elem_of_cons, elem_of_nil. split.
    + intros [[[= -> ->]|[[= -> ->]|[[= -> ->]|[]]]]|[]]; eexists; (split; [vm_compute; reflexivity | done]).
    + intros (t & [[-> ->]|[[-> ->]|[-> ->]]]%queue_example_cases & <-); auto.
  - intros id t [[-> ->]|[[-> ->]|[-> ->]]]%queue_example_cases; split; try done.
    apply one_second_restartable.
  - by intros e ?%elem_of_nil.
  - constructor.
  - done.
Qed.

(** Callback 1 adds a timer and cancels timer 2. *)
Definition callback_example (cb : Z) : list timer_action :=
  if cb =? 1 then [ActAddTimer 2 8000 (double_of 0); ActCancel 2] else [].

Lemma due_timers_example : due_timers clock_example queue_example = [timer1].
Proof. vm_compute. reflexivity. Qed.

Lemma addTimer_correct_witness :
  timers_ok clock_example [] queue_example /\
  exists q', addTimer clock_example queue_example 7 2000 one_second = Ok (4, q') /\
    timers_ok clock_example [] q' /\ timers_ queue_example !! 4 = None /\
    timers_ q' = <[4 := mkTimer 7 2000 one_second true 4]> (timers_ queue_example) /\
    (forall e, e ∈ timerEntries_ q' <-> e = (2000, 4) \/ e ∈ timerEntries_ queue_example) /\
    (timers_ queue_example = ∅ \/ armed_ok clock_example queue_example -> armed_ok clock_example q').
Proof.
  split; [apply queue_example_ok|].
  apply (addTimer_correct clock_example clock_example_ok [] queue_example 7 2000 one_second);
    [apply queue_example_ok | done | apply one_second_restartable | done | by right].
Defined.

(** At 5000 the callback of timer 1 is called: timer 4 is added, timer 2
    cancelled, and timer 3 left alone. *)
Lemma handleRead_correct_witness :
  timers_ok clock_example [] queue_example /\
  exists q', handleRead clock_example callback_example queue_example = Ok ([(4000, 1)], q') /\
    timers_ok clock_example [] q' /\ armed_ok clock_example q' /\ runs_ q' = [(1, 1)] /\
    fate clock_example timer1 (timers_ q' !! 1) /\ s_numCreated_ q' = 4 /\
    timers_ q' !! 4 = Some (mkTimer 2 8000 (double_of 0) false 4) /\
    timers_ q' !! 2 = None /\ timers_ q' !! 3 = Some timer3.
Proof.
  split; [apply queue_example_ok|].
  destruct (handleRead_correct clock_example callback_example clock_example_ok queue_example)
    as (q' & H1 & H2 & H3 & H4 & H5 & H6 & H7 & H8 & H9).
  - apply queue_example_ok.
  - rewrite due_timers_example. repeat constructor. by intros ?%elem_of_nil.
  - rewrite due_timers_example. intros id ->%list_elem_of_singleton. by exists timer2.
  - rewrite due_timers_example. right. exists (9500, 3). split; [right; right; by left|]. split; [done|].
    by intros ?%list_elem_of_singleton.
  - rewrite due_timers_example. repeat constructor. by intros Hp.
  - rewrite due_timers_example. done.
  - rewrite due_timers_example in H4, H5, H6, H7, H8, H9. exists q'.
    split; [exact H1|]. split; [exact H2|]. split; [exact H3|]. split; [exact H4|].
    split; [apply (H5 timer1); by left|]. split; [exact H6|].
    split; [exact (H7 0%nat _ eq_refl)|]. split; [apply H8; by left|].
    rewrite (H9 3); [done|done| |].
    + by intros ?%list_elem_of_singleton.
    + by intros ?%list_elem_of_singleton.
Defined.

Lemma self_cancel_dangles_witness :
  timers_ok clock_example [] queue_example /\
  handleRead clock_example (fun cb => if cb =? 1 then [ActCancel 1] else []) queue_example =
    Err UseAfterFree.
Proof.
  split; [apply queue_example_ok|].
  apply (self_cancel_dangles clock_example _ queue_example 1 timer1 4000 [(9000, 2); (9500, 3)]);
    [apply queue_example_ok | done | vm_compute; congruence | done | done].
Defined.

(** The queue with timer 1 alone. *)
Definition lone_example : TimerQueue :=
  mkTimerQueue (<[1 := timer1]> ∅) [(4000, 1)] (Some 4000) 1 0 [].

Lemma lone_example_ok : timers_ok clock_example [] lone_example.
Proof.
  assert (forall id t, timers_ lone_example !! id = Some t -> id = 1 /\ t = timer1) as Hcases.
  { cbn. intros id t [[<- <-]|[_ Ht]]%lookup_insert_Some; [done|]. by rewrite lookup_empty in Ht. }
  split.
  - repeat constructor.
  - intros w id. cbn [timerEntries_ lone_example]. rewrite !elem_of_cons, elem_of_nil. split.
    + intros [[[= -> ->]|[]]|[]]; eexists; (split; [vm_compute; reflexivity | done]).
    + intros (t & [-> ->]%Hcases & <-); auto.
  - intros id t [-> ->]%Hcases; split; try done. apply one_second_restartable.
  - by intros e ?%elem_of_nil.
  - constructor.
  - done.
Qed.

Definition adding_callback (cb : Z) : list timer_action :=
  if cb =? 1 then [ActAddTimer 2 8000 (double_of 0)] else [].

Lemma add_in_callback_end_dereference_witness :
  timers_ok clock_example [] lone_example /\
  handleRead clock_example adding_callback lone_example = Err EndDereference.
Proof.
  split; [apply lone_example_ok|].
  apply (add_in_callback_end_dereference clock_example adding_callback lone_example 1 timer1 4000
           2 8000 (double_of 0));
    [apply lone_example_ok | done | vm_compute; congruence | done | done].
Defined.
