(* ===== verification/LoopLifetime.v ===== *)
(** * The life of an event loop: constructor, destructor and timer calls of
      tmuduo/net/EventLoop.h and EventLoop.cc

    The thread-local pointer to a thread's loop, the two channels every loop
    registers with its poller, and what becomes of them.  The poller is any
    with the contract of the interface.  The calls for timers are those of
    TimerQueue.v. *)

From S2P Require Import Prelude Channel Poller EPollPoller EventLoop.
From S2P Require StdContainers Timestamp TimerQueue.
Import EventLoop.Chan.

(** ** Constructor and destructor *)

(** [t_loopInThisThread] of every thread that has one, by thread id. *)
Abbreviation thread_loops := (gmap Z Z).

Definition getEventLoopOfCurrentThread (t : thread_loops) (tid : Z) : option Z := t !! tid.

Section Life.
Context {P : Type} `{PL : PollerLaws P}.
Implicit Types (l : EventLoop P) (t : thread_loops).

Definition new_channel l (p : ptr) (fd : Z) : EventLoop P :=
  set_store l (<[p := Channel_ctor (this l) fd]> (channels l)) (poller_ l).

(** [createEventfd] and [createTimerfd] abort when there is no descriptor. *)
Definition created (fd : Z) : res Z := if fd <? 0 then Err FatalLog else Ok fd.

(** [TimerQueue::TimerQueue]: its channel at [pt]. *)
Definition timer_queue_ctor (tid : Z) l (pt timerfd : Z) : res (EventLoop P) :=
  fd ← created timerfd;
  enableReading tid (new_channel l pt fd) pt.

(** The members are made in the order of their declarations: the poller [s],
    the timer queue, the descriptor and the channel of the wake-ups at [pw]. *)
Definition EventLoop_ctor t (tid this : Z) (s : P) (pt timerfd pw eventfd : Z)
    : res (thread_loops * EventLoop P) :=
  let l := mkEventLoop this tid false [] None ∅ s in
  l ← timer_queue_ctor tid l pt timerfd;
  wakeupFd ← created eventfd;
  let l := new_channel l pw wakeupFd in
  match t !! tid with
  | Some _ => Err FatalLog
  | None =>
      l ← enableReading tid l pw;
      Ok (<[tid := this]> t, l)
  end.

(** The destructor in thread [tid]; the descriptors it and [~TimerQueue]
    close.  [~TimerQueue] takes its channel out of nothing. *)
Definition EventLoop_dtor t (tid : Z) l (pt timerfd pw wakeupFd : Z)
    : res (thread_loops * EventLoop P * list Z) :=
  l ← disableAll tid l pw;
  l ← channel_remove tid l pw;
  Ok (delete tid t,
      set_store l (delete pt (delete pw (channels l))) (poller_ l),
      [wakeupFd; timerfd]).

(** ** Lemmas *)

(** A new poller. *)
Definition fresh_poller (s : P) : Prop :=
  poller_inv ∅ s /\ forall fd, registered s fd = None /\ watched s fd = 0.

(** A new channel whose descriptor nobody has. *)
Lemma new_channel_rel m l p fd :
  loop_rel m l -> channels l !! p = None -> m !! p = None ->
  registered (poller_ l) fd = None -> watched (poller_ l) fd = 0 ->
  (forall q c, channels l !! q = Some c -> fd_ c <> fd) ->
  loop_rel m (new_channel l p fd).
Proof.
  intros [Hi Ho Hf Hk Hm] Hp Hmp Hr Hw Hfd.
  assert (forall q d, <[p := Channel_ctor (this l) fd]> (channels l) !! q = Some d ->
            q = p /\ d = Channel_ctor (this l) fd \/ channels l !! q = Some d) as Hcases.
  { intros q d [[-> ->]|[? ?]]%lookup_insert_Some; [by left | by right]. }
  split; cbn [channels poller_ new_channel set_store this].
  - by apply inv_alloc.
  - intros q d [[-> ->]|Hq]%Hcases; [done | eauto].
  - intros q r c d [[-> ->]|Hq]%Hcases [[-> ->]|Hr']%Hcases He; [done|..|eauto]; exfalso;
      [by apply (Hfd r d)|by apply (Hfd q c)].
  - intros q ev Hq. destruct (Hk q ev Hq) as [c Hc].
    rewrite lookup_insert_ne by congruence. eauto.
  - intros q d [[-> ->]|Hq]%Hcases; [|eauto]. rewrite Hmp. cbn. rewrite Hr, Hw.
    split; [done|]. split; [done|]. split; [split; [done|by intros []]|]. split; [by right|done].
Qed.

Lemma empty_loop_rel this tid s :
  fresh_poller s -> loop_rel ∅ (mkEventLoop this tid false [] None ∅ s).
Proof.
  intros [Hi Hs]. split; cbn [channels poller_]; [done|..]; intros *; rewrite ?lookup_empty; try done.
Qed.

(** A loop that has just been made. *)
Record started t (tid this : Z) l (pt timerfd pw eventfd : Z) : Prop := {
  st_thread : t !! tid = Some this;
  st_rel : loop_rel (<[pw := kReadEvent]> {[pt := kReadEvent]}) l;
  st_idle : eventHandling_ l = false /\ threadId_ l = tid;
  st_timer : exists c, channels l !! pt = Some c /\ fd_ c = timerfd;
  st_wakeup : exists c, channels l !! pw = Some c /\ fd_ c = eventfd
}.

Lemma enable_new m l p fd :
  loop_rel m (new_channel l p fd) -> m !! p = None -> channels l !! p = None ->
  exists l', enableReading (threadId_ l) (new_channel l p fd) p = Ok l' /\
    loop_rel (<[p := kReadEvent]> m) l' /\ same_loop l l' /\
    (exists c, channels l' !! p = Some c /\ fd_ c = fd) /\
    (forall q, q <> p -> channels l' !! q = channels l !! q) /\
    (forall fd', fd' <> fd -> registered (poller_ l') fd' = registered (poller_ l) fd' /\
       watched (poller_ l') fd' = watched (poller_ l) fd').
Proof.
  intros Hrel Hm Hp. set (c := setAddedToLoop (Channel_ctor (this l) fd) true).
  pose proof (rel_mask _ _ Hrel p (Channel_ctor (this l) fd)) as Hmask.
  cbn [channels new_channel set_store] in Hmask. rewrite lookup_insert_eq in Hmask.
  destruct (Hmask eq_refl) as (_ & _ & _ & Hreg & _).
  destruct (channel_update_ok m (new_channel l p fd) p (Channel_ctor (this l) fd) (enable kReadEvent) Hrel)
    as (l' & E & Hrel' & Hsame); [apply lookup_insert_eq|done|]. rewrite Hm in Hrel'. cbn [default] in Hrel'.
  exists l'. split; [exact E|]. split; [exact Hrel'|].
  assert (same_loop l (new_channel l p fd)) as Hsame0
    by (apply same_loop_store; intros d Hd; congruence).
  split.
  { destruct Hsame as (H1 & H2 & H3 & H4 & H5 & H6), Hsame0 as (G1 & G2 & G3 & G4 & G5 & G6).
    unfold same_loop. rewrite H1, H2, H3, H4, H5. repeat (split; [done|]).
    intros q d (d1 & Hq & Hf)%G6. apply H6 in Hq as (d2 & Hq & Hf'). exists d2. split; [done|congruence]. }
  unfold channel_update, loop_updateChannel, deref in E.
  cbn [channels new_channel set_store poller_ this threadId_] in E. rewrite lookup_insert_eq in E.
  cbn [mbind res_bind] in E. rewrite !insert_insert_eq, lookup_insert_eq in E. cbn [mbind res_bind] in E.
  cbn [loop_ setAddedToLoop setEvents Channel_ctor events_] in E. rewrite Z.eqb_refl in E.
  cbn [assert_ mbind res_bind] in E. unfold isInLoopThread in E. cbn [threadId_ set_store] in E.
  rewrite Z.eqb_refl in E. cbn [assertInLoopThread guard_ mbind res_bind] in E.
  destruct (update_law (<[p := c]> (channels l)) (poller_ l) p c kReadEvent)
    as (i & s' & Hu & _ & [_ Hr] & [_ Hw]).
  - eapply inv_views; [apply (rel_inv _ _ Hrel)|]. cbn [channels new_channel set_store].
    intros q. destruct (decide (q = p)) as [->|Hne]; [by rewrite !lookup_insert_eq|by rewrite !lookup_insert_ne].
  - apply lookup_insert_eq.
  - done.
  - cbn. destruct Hreg as [Hreg|Hreg]; cbn in Hreg; [by right|by left].
  - rewrite !insert_insert_eq in Hu. unfold c in Hu. cbn [setEvents setAddedToLoop Channel_ctor loop_ fd_] in Hu.
    change (enable kReadEvent 0) with kReadEvent in E.
    match type of E with (updateChannel _ ?h _ _ ≫= _) = _ =>
      match type of Hu with updateChannel _ ?h' _ _ = _ => replace h with h' in E by done end end.
    rewrite Hu in E. cbn [mbind res_bind] in E. injection E as <-. cbn [channels set_store poller_].
    split; [rewrite lookup_insert_eq; by eexists|].
    split; [intros q Hq; by rewrite lookup_insert_ne|].
    intros fd' Hfd'. cbn in Hr, Hw. by rewrite Hr, Hw.
Qed.

Lemma created_ok fd : 0 <= fd -> created fd = Ok fd.
Proof. intros. unfold created. by replace (fd <? 0) with false by lia. Qed.

Lemma ctor_started t tid this s pt timerfd pw eventfd :
  fresh_poller s -> t !! tid = None -> pt <> pw -> 0 <= timerfd -> 0 <= eventfd -> timerfd <> eventfd ->
  exists l, EventLoop_ctor t tid this s pt timerfd pw eventfd = Ok (<[tid := this]> t, l) /\
    started (<[tid := this]> t) tid this l pt timerfd pw eventfd /\
    (forall fd, fd <> timerfd -> fd <> eventfd -> watched (poller_ l) fd = 0).
Proof.
  intros Hs Ht Hp Hf1 Hf2 Hfd. unfold EventLoop_ctor, timer_queue_ctor. rewrite !created_ok by done.
  cbn [mbind res_bind]. set (l0 := mkEventLoop this tid false [] None ∅ s).
  pose proof (empty_loop_rel this tid s Hs) as H0. fold l0 in H0.
  pose proof Hs as [_ Hfresh].
  destruct (enable_new ∅ l0 pt timerfd) as (l1 & E1 & H1 & Hs1 & [c1 Hc1] & Hq1 & Hr1); [|apply lookup_empty|apply lookup_empty|].
  { apply new_channel_rel; [done|apply lookup_empty|apply lookup_empty|apply Hfresh|apply Hfresh|].
    intros q c. cbn. by rewrite lookup_empty. }
  change (threadId_ l0) with tid in E1. rewrite E1. cbn [mbind res_bind]. rewrite Ht.
  destruct Hs1 as (G1 & G2 & G3 & G4 & G5 & _).
  assert (channels l1 !! pw = None) as Hpw by (rewrite Hq1 by congruence; apply lookup_empty).
  destruct (enable_new {[pt := kReadEvent]} l1 pw eventfd) as (l2 & E2 & H2 & Hs2 & [c2 Hc2] & Hq2 & Hr2).
  { apply new_channel_rel; [exact H1|exact Hpw|by rewrite lookup_singleton_ne|..].
    - destruct (Hr1 eventfd ltac:(congruence)) as [-> _]. apply Hfresh.
    - destruct (Hr1 eventfd ltac:(congruence)) as [_ ->]. apply Hfresh.
    - intros q c Hq. destruct (decide (q = pt)) as [->|Hne]; [destruct Hc1; congruence|].
      rewrite Hq1 in Hq by done. cbn in Hq. by rewrite lookup_empty in Hq. }
  { by rewrite lookup_singleton_ne. }
  { exact Hpw. }
  rewrite G2 in E2. change (threadId_ l0) with tid in E2. rewrite E2. cbn [mbind res_bind].
  exists l2. split; [done|]. destruct Hs2 as (K1 & K2 & K3 & _). split.
  - split; [apply lookup_insert_eq|exact H2| | |by exists c2].
    + by rewrite K3, G3, K2, G2.
    + exists c1. by rewrite Hq2.
  - intros fd Ha Hb. destruct (Hr2 fd Hb) as [_ ->]. destruct (Hr1 fd Ha) as [_ ->]. apply Hfresh.
Qed.

Lemma dtor_ok t tid this l pt timerfd pw eventfd :
  started t tid this l pt timerfd pw eventfd -> pt <> pw ->
  exists l', EventLoop_dtor t tid l pt timerfd pw eventfd = Ok (delete tid t, l', [eventfd; timerfd]) /\
    registered (poller_ l') eventfd = None /\ watched (poller_ l') eventfd = 0 /\
    registered (poller_ l') timerfd = Some pt /\ watched (poller_ l') timerfd = kReadEvent /\
    channels l' !! pt = None /\ channels l' !! pw = None.
Proof.
  intros [_ Hrel [He Htid] (ct & Hct & Hft) (cw & Hcw & Hfw)] Hp. unfold EventLoop_dtor.
  destruct (run_op_ok _ l pw DisableAll (<[pw := 0]> (<[pw := kReadEvent]> {[pt := kReadEvent]})) Hrel) as (l1 & E1 & H1 & Hs1);
    [by eexists|intros H; congruence|done|]. cbn [run_op] in E1.
  rewrite Htid in E1. rewrite E1. cbn [mbind res_bind].
  pose proof Hs1 as (_ & T1 & V1 & _ & _ & D1).
  assert (spec_op (<[pw := 0]> (<[pw := kReadEvent]> {[pt := kReadEvent]})) pw Remove =
          Some {[pt := kReadEvent]}) as Hspec.
  { cbn [spec_op]. rewrite lookup_insert_eq. f_equal. rewrite insert_insert_eq.
    apply delete_insert_id. by rewrite lookup_singleton_ne. }
  destruct (run_op_ok _ l1 pw Remove {[pt := kReadEvent]} H1) as (l2 & E2 & H2 & Hs2);
    [destruct (D1 pw cw Hcw) as (cw1 & -> & _); by eexists|intros H; congruence|exact Hspec|]. cbn [run_op] in E2.
  rewrite T1, Htid in E2. rewrite E2. cbn [mbind res_bind].
  eexists. split; [done|]. cbn [poller_ channels set_store].
  pose proof Hs2 as (_ & _ & _ & _ & _ & D2).
  assert (forall q c, channels l !! q = Some c -> exists c', channels l2 !! q = Some c' /\ fd_ c' = fd_ c) as Hfds.
  { intros q c (c1 & Hq & Hf)%D1. apply D2 in Hq as (c2 & Hq & Hf'). exists c2. split; [done|apply dispatch_view_fd; congruence]. }
  destruct (Hfds pt ct Hct) as (ct2 & Hct2 & Ef1). destruct (Hfds pw cw Hcw) as (cw2 & Hcw2 & Ef2).
  destruct (rel_mask _ _ H2 pt ct2 Hct2) as (_ & _ & Hr1 & _ & Hw1).
  destruct (rel_mask _ _ H2 pw cw2 Hcw2) as (_ & _ & Hr2 & Ho2 & Hw2).
  rewrite Ef1, Hft in Hr1, Hw1. rewrite Ef2, Hfw in Hr2, Ho2, Hw2.
  rewrite lookup_singleton_eq in Hr1, Hw1. rewrite lookup_singleton_ne in Hr2, Hw2 by congruence.
  split; [|split; [done|split; [by apply Hr1|split; [done|]]]].
  - destruct Ho2 as [Ho2|]; [|done]. apply Hr2 in Ho2 as []. done.
  - split; [apply lookup_delete_eq|]. by rewrite lookup_delete_ne, lookup_delete_eq.
Qed.

(** A second loop of a thread aborts once its timer queue is made. *)
Lemma second_loop_fatal t tid this s pt timerfd pw eventfd :
  fresh_poller s -> is_Some (t !! tid) -> 0 <= timerfd -> 0 <= eventfd ->
  EventLoop_ctor t tid this s pt timerfd pw eventfd = Err FatalLog.
Proof.
  intros Hs [q Hq] Hf1 Hf2. unfold EventLoop_ctor, timer_queue_ctor. rewrite !created_ok by done.
  cbn [mbind res_bind]. set (l0 := mkEventLoop this tid false [] None ∅ s).
  pose proof Hs as [_ Hfresh].
  destruct (enable_new ∅ l0 pt timerfd) as (l1 & E1 & _); [|apply lookup_empty|apply lookup_empty|].
  { apply new_channel_rel; [by apply empty_loop_rel|apply lookup_empty|apply lookup_empty|apply Hfresh|apply Hfresh|].
    intros r c. cbn. by rewrite lookup_empty. }
  change (threadId_ l0) with tid in E1. rewrite E1. cbn [mbind res_bind]. by rewrite Hq.
Qed.

(** C27: over any poller with the contract, a loop made in a thread without
    one becomes the thread's loop and watches exactly its timer and its wake-up
    descriptor, for reading; a second one in the same thread aborts; and
    destroying the first in its thread takes it out of the thread again, forgets
    the wake-up channel and closes both descriptors, but leaves the destroyed
    channel of the timers registered with the poller. *)
Theorem loop_lifecycle t tid this s pt timerfd pw eventfd :
  fresh_poller s -> t !! tid = None -> pt <> pw -> 0 <= timerfd -> 0 <= eventfd -> timerfd <> eventfd ->
  exists t' l l', EventLoop_ctor t tid this s pt timerfd pw eventfd = Ok (t', l) /\
    getEventLoopOfCurrentThread t' tid = Some this /\
    (forall fd, watched (poller_ l) fd =
       if bool_decide (fd = timerfd \/ fd = eventfd) then kReadEvent else 0) /\
    (forall this2 s2 pt2 timerfd2 pw2 eventfd2, fresh_poller s2 -> 0 <= timerfd2 -> 0 <= eventfd2 ->
       EventLoop_ctor t' tid this2 s2 pt2 timerfd2 pw2 eventfd2 = Err FatalLog) /\
    EventLoop_dtor t' tid l pt timerfd pw eventfd = Ok (t, l', [eventfd; timerfd]) /\
    registered (poller_ l') eventfd = None /\
    registered (poller_ l') timerfd = Some pt /\ channels l' !! pt = None.
Proof.
  intros Hs Ht Hp Hf1 Hf2 Hfd.
  destruct (ctor_started t tid this s pt timerfd pw eventfd) as (l & E & Hst & Hz); [done..|].
  destruct (dtor_ok _ tid this l pt timerfd pw eventfd Hst Hp) as (l' & Ed & Hr1 & _ & Hr2 & _ & Hc & _).
  exists (<[tid := this]> t), l, l'. split; [done|]. split; [apply lookup_insert_eq|].
  split; [|split; [|split; [|done]]].
  - intros fd. destruct Hst as [_ Hrel _ (ct & Hct & Ef1) (cw & Hcw & Ef2)]. case_bool_decide as E0.
    + destruct (rel_mask _ _ Hrel pt ct Hct) as (_ & _ & _ & _ & Hw1).
      destruct (rel_mask _ _ Hrel pw cw Hcw) as (_ & _ & _ & _ & Hw2).
      rewrite Ef1, lookup_insert_ne, lookup_singleton_eq in Hw1 by congruence.
      rewrite Ef2, lookup_insert_eq in Hw2. by destruct E0 as [-> | ->].
    + apply Hz; tauto.
  - intros. apply second_loop_fatal; [done| |done..]. rewrite lookup_insert_eq. by eexists.
  - by rewrite delete_insert_id in Ed.
Qed.

End Life.

Lemma fresh_epoll : fresh_poller (P := EPollPoller (gmap Z (Z * ptr))) (EPollPoller_ctor ∅).
Proof.
  split.
  - apply epoll_ctor_inv; [done|]. intros p c Hp. by rewrite lookup_empty in Hp.
  - intros fd. split; [apply lookup_empty|]. done.
Qed.

Lemma loop_lifecycle_witness :
  let s := EPollPoller_ctor (K := gmap Z (Z * ptr)) ∅ in
  exists t' l l', EventLoop_ctor {[41 := 9]} 42 1 s 2 5 3 6 = Ok (t', l) /\
    getEventLoopOfCurrentThread t' 42 = Some 1 /\
    (forall fd, watched (poller_ l) fd = if bool_decide (fd = 5 \/ fd = 6) then kReadEvent else 0) /\
    (forall this2 (s2 : EPollPoller (gmap Z (Z * ptr))) pt2 timerfd2 pw2 eventfd2,
       fresh_poller s2 -> 0 <= timerfd2 -> 0 <= eventfd2 ->
       EventLoop_ctor t' 42 this2 s2 pt2 timerfd2 pw2 eventfd2 = Err FatalLog) /\
    EventLoop_dtor t' 42 l 2 5 3 6 = Ok ({[41 := 9]}, l', [6; 5]) /\
    registered (poller_ l') 6 = None /\
    registered (poller_ l') 5 = Some 2 /\ channels l' !! 2 = None.
Proof.
  apply (loop_lifecycle {[41 := 9]} 42 1 (EPollPoller_ctor ∅) 2 5 3 6); [apply fresh_epoll|done|lia..].
Defined.

(** ** The calls for timers *)

Section Timers.
Import Timestamp TimerQueue.
Context (now : nat -> Timestamp).
Implicit Types (q : TimerQueue).

Definition runAt q (time : Timestamp) (cb : Z) : res (Z * TimerQueue) :=
  addTimer now q cb time (double_of 0).

Definition runAfter q (delay : double) (cb : Z) : res (Z * TimerQueue) :=
  let '(t, q) := get_now now q in
  time ← addTime t delay;
  runAt q time cb.

Definition runEvery q (interval : double) (cb : Z) : res (Z * TimerQueue) :=
  let '(t, q) := get_now now q in
  time ← addTime t interval;
  addTimer now q cb time interval.

Definition cancel_timer q (timerId : Z) : res TimerQueue := TimerQueue.cancel q timerId.

Context (Hclock : forall n, time_ok (now n)).

Lemma get_now_ok running q : timers_ok now running q -> timers_ok now running (get_now now q).2.
Proof. intros [? ? ? ? ? ?]. by split. Qed.

(** A call for a timer with a delay the clock can be advanced by: a fresh
    timer, due when the delay is over, that repeats exactly when it was asked
    for with a positive interval. *)
Lemma runAfter_adds q delay cb time :
  timers_ok now [] q -> addTime (now (now_calls q)) delay = Ok time -> time_ok time ->
  s_numCreated_ q + 1 < INT64_MAX ->
  exists id q', runAfter q delay cb = Ok (id, q') /\ timers_ok now [] q' /\ timers_ q !! id = None /\
    timers_ q' = <[id := mkTimer cb time (double_of 0) false id]> (timers_ q).
Proof.
  intros Hq Ht Hok Hn. unfold runAfter, get_now. rewrite Ht. cbn [mbind res_bind].
  pose proof (get_now_ok [] q Hq) as Hq1. unfold get_now in Hq1. cbn [snd] in Hq1.
  destruct (addTimer_ok now Hclock [] _ cb time (double_of 0) Hq1) as (q' & E & Hq' & _ & _ & Hts & _);
    [done|by intros ?|done| |].
  - cbn. destruct (decide (timers_ q = ∅)) as [|Hne]; [by left|right]. intros He. apply Hne.
    apply map_empty. intros i. destruct (timers_ q !! i) as [tm|] eqn:Ei; [|done].
    pose proof (proj2 (ok_entry _ _ _ Hq (expiration_ tm) i)) as [Hin|Hin]; [by exists tm|..].
    + rewrite He in Hin. by apply not_elem_of_nil in Hin.
    + by apply not_elem_of_nil in Hin.
  - exists (s_numCreated_ q + 1), q'. split; [exact E|]. split; [done|]. split; [|exact Hts].
    destruct (timers_ q !! (s_numCreated_ q + 1)) as [tm|] eqn:Ei; [|done].
    pose proof (ok_id _ _ _ _ (ok_timer _ _ _ Hq _ _ Ei)). lia.
Qed.

End Timers.
