(* ===== verification/DefaultPoller.v ===== *)
(** * The default poller: tmuduo/net/poller/DefaultPoller.cc

    [newDefaultPoller] makes one of the two pollers.  A poller of either class
    is one poller, as the virtual functions have it; it keeps the contract of
    the interface when it is made without the environment variable, and a loop
    over it has all that EventLoop.v and LoopLifetime.v prove. *)

From S2P Require Import Prelude Channel Poller EPollPoller EventLoop LoopLifetime.
From S2P Require PollPoller.

Lemma fill_frame channels pfds : forall h n h' active,
  PollPoller.fillActiveChannels channels h pfds n = Ok (h', active) -> only_revents h h'.
Proof.
  induction pfds as [|pfd pfds IH]; intros h n h' active; cbn [PollPoller.fillActiveChannels].
  - intros [= <- _]. apply only_revents_refl.
  - destruct (0 <? n); [|apply IH]. intros (? & _ & H)%bind_ok_inv.
    destruct (channels !! _) as [p|]; [|done]. unfold deref in H.
    destruct (h !! p) as [c|] eqn:Hp; [|done]. cbn [mbind res_bind] in H.
    apply bind_ok_inv in H as (? & _ & ([h1 a1] & E & [= <- _])%bind_ok_inv).
    by eapply only_revents_insert, IH.
Qed.

Lemma poll_poll_frame h s r h' s' active :
  PollPoller.poll_poll h s r = Ok (h', s', active) -> only_revents h h'.
Proof.
  unfold PollPoller.poll_poll. destruct r as [|n revents]; [intros [= <- _ _]; apply only_revents_refl|].
  destruct (0 <? n); [|intros [= <- _ _]; apply only_revents_refl].
  intros ([h1 a1] & E & [= <- _ _])%bind_ok_inv. by eapply fill_frame.
Qed.

Section Default.
Context {K : Type} `{EpollKernel K}.

Inductive DefaultPoller :=
| IsEPoll (s : EPollPoller K)
| IsPoll (s : PollPoller.PollPoller).

(** [getenv("TMUDUO_USE_POLL")], and a new epoll instance. *)
Definition newDefaultPoller (getenv : option bytes) (epoll_create : K) : DefaultPoller :=
  match getenv with
  | Some _ => IsPoll PollPoller.PollPoller_ctor
  | None => IsEPoll (EPollPoller_ctor epoll_create)
  end.

(** Which poller the result of a call goes back to. *)
Definition as_epoll {A} (r : res (A * EPollPoller K)) : res (A * DefaultPoller) :=
  '(a, s) ← r; Ok (a, IsEPoll s).
Definition as_poll {A} (r : res (A * PollPoller.PollPoller)) : res (A * DefaultPoller) :=
  '(a, s) ← r; Ok (a, IsPoll s).

(** The results of both system calls; the poller makes one of them. *)
Definition default_poll (h : heap) (s : DefaultPoller) (r : wait_ret * PollPoller.poll_result)
    : res (heap * DefaultPoller * list ptr) :=
  match s with
  | IsEPoll s => '(h, s, active) ← poll h s (r.1 : poll_ret (P := EPollPoller K)); Ok (h, IsEPoll s, active)
  | IsPoll s => '(h, s, active) ← PollPoller.poll_poll h s r.2; Ok (h, IsPoll s, active)
  end.

#[export] Instance DefaultPoller_ops : Poller DefaultPoller := {|
  poll_ret := wait_ret * PollPoller.poll_result;
  poll := default_poll;
  updateChannel := fun in_loop h s p =>
    match s with
    | IsEPoll s => as_epoll (updateChannel in_loop h s p)
    | IsPoll s => as_poll (PollPoller.poll_updateChannel in_loop h s p)
    end;
  removeChannel := fun in_loop h s p =>
    match s with
    | IsEPoll s => as_epoll (removeChannel in_loop h s p)
    | IsPoll s => as_poll (PollPoller.poll_removeChannel in_loop h s p)
    end;
  registered := fun s fd =>
    match s with IsEPoll s => registered s fd | IsPoll s => PollPoller.channels_ s !! fd end;
  watched := fun s fd => match s with IsEPoll s => watched s fd | IsPoll s => PollPoller.poll_watched s fd end
|}.

(** The contract is kept by the epoll side; PollPoller.v shows where the other
    one breaks it. *)
Definition default_inv (h : heap) (s : DefaultPoller) : Prop :=
  match s with IsEPoll s => poller_inv h s | IsPoll _ => False end.
Definition default_ready (h : heap) (s : DefaultPoller) (r : wait_ret * PollPoller.poll_result) : Prop :=
  match s with IsEPoll s => ready_ok h s (r.1 : poll_ret (P := EPollPoller K)) | IsPoll _ => False end.

#[export] Program Instance DefaultPoller_laws : PollerLaws DefaultPoller := {|
  poller_inv := default_inv;
  ready_ok := default_ready
|}.
Next Obligation. intros h h' [s|s] Hi; [by apply inv_views|done]. Qed.
Next Obligation. intros h [s|s] p c Hi; [by apply inv_alloc|done]. Qed.
Next Obligation.
  intros h [s|s] p c ev Hi Hp Hev Hr; [|done].
  destruct (update_law h s p c ev Hi Hp Hev Hr) as (i & s' & E & H1 & H2 & H3).
  exists i, (IsEPoll s'). cbn [updateChannel DefaultPoller_ops]. by rewrite E.
Qed.
Next Obligation.
  intros h [s|s] p c Hi Hp Hev Hr; [|done].
  destruct (remove_law h s p c Hi Hp Hev Hr) as (i & s' & E & H1 & H2 & H3 & H4).
  exists i, (IsEPoll s'). cbn [removeChannel DefaultPoller_ops]. by rewrite E.
Qed.
Next Obligation.
  intros h [s|s] r Hi Hr; [|done].
  destruct (@poll_law _ EPollPoller_ops EPollPoller_laws h s r.1 Hi Hr) as (h' & s' & active & E & H').
  exists h', (IsEPoll s'), active. cbn [poll DefaultPoller_ops default_poll]. by rewrite E.
Qed.
Next Obligation.
  intros h [s|s] r h' s' active; cbn [poll DefaultPoller_ops default_poll];
    intros ([[h1 s1] a1] & E & [= <- _ _])%bind_ok_inv; [by eapply poll_frame|].
  by eapply poll_poll_frame.
Qed.

(** Without the variable a new loop starts with a poller that keeps the
    contract and watches nothing. *)
Lemma default_fresh (k : K) :
  (forall fd, interest k fd = None) -> fresh_poller (newDefaultPoller None k).
Proof.
  intros Hk. split; cbn.
  - apply epoll_ctor_inv; [done|]. intros p c Hp. by rewrite lookup_empty in Hp.
  - intros fd. split; [apply lookup_empty|]. by rewrite Hk.
Qed.

(** A loop over it starts, and watches its timer and its wake-up descriptor. *)
Lemma default_loop_starts (k : K) t tid this pt timerfd pw eventfd :
  (forall fd, interest k fd = None) ->
  t !! tid = None -> pt <> pw -> 0 <= timerfd -> 0 <= eventfd -> timerfd <> eventfd ->
  exists l, EventLoop_ctor t tid this (newDefaultPoller None k) pt timerfd pw eventfd
      = Ok (<[tid := this]> t, l) /\
    started (<[tid := this]> t) tid this l pt timerfd pw eventfd.
Proof.
  intros Hk Ht Hp H1 H2 H3.
  destruct (ctor_started t tid this (newDefaultPoller None k) pt timerfd pw eventfd) as (l & E & Hs & _);
    [by apply default_fresh|done..|]. by exists l.
Qed.

End Default.

(** With either poller: what a new loop watches. *)
Definition demo_watches (getenv : option bytes) : res (list Z) :=
  '(_, l) ← EventLoop_ctor ∅ 42 1 (newDefaultPoller (K := gmap Z (Z * ptr)) getenv ∅) 2 5 3 6;
  Ok (map (watched (Chan.poller_ l)) [4; 5; 6; 7]).

Example default_watches :
  map demo_watches [None; Some (lit "1")] = [Ok [0; kReadEvent; kReadEvent; 0]; Ok [0; kReadEvent; kReadEvent; 0]].
Proof. vm_compute. reflexivity. Qed.
