(* ===== verification/TcpConnection.v ===== *)
(** * TCP connections: tmuduo/net/TcpConnection.h and TcpConnection.cc

    A connection with its state, its channel, its two buffers, the functors it
    has queued in its loop and what it has done to its socket.  The results of
    the system calls are arguments of the handlers.  Calls of the application's
    callbacks are recorded in [events_]; what a callback does to the connection
    is the next operations of a run, since no handler touches the connection
    after its last callback. *)

From S2P Require Import Prelude Buffer Channel Poller.

(** ** State *)

Inductive StateE := kDisconnected | kConnecting | kConnected | kDisconnecting.

#[global] Instance StateE_eq_dec : EqDecision StateE.
Proof. solve_decision. Defined.

(** Functors in the loop's queue.  [FSendRef] is the closure of
    [send(const void*, size_t)], which holds a reference to a local string of
    its caller. *)
Inductive conn_functor :=
| FSend (message : bytes)
| FSendRef
| FShutdownInLoop
| FWriteComplete
| FHighWaterMark (n : Z).

(** Calls of the application's callbacks, and of the socket and the timers. *)
Inductive conn_event :=
| EvConnection (connected : bool)
| EvMessage
| EvClose
| EvWriteComplete
| EvHighWaterMark (n : Z)
| EvError
| EvForceCloseAfter.

#[global] Instance conn_functor_eq_dec : EqDecision conn_functor.
Proof. solve_decision. Defined.
#[global] Instance conn_event_eq_dec : EqDecision conn_event.
Proof. solve_decision. Defined.

(** [written] are the bytes the kernel took, [write_closed] whether
    [socket_->shutdownWrite()] was called, [removed] whether the channel left
    the loop. *)
Record TcpConnection := mkConn {
  state_ : StateE;
  channel_ : Channel;
  writeCompleteCallback_ : bool;
  highWaterMarkCallback_ : bool;
  highWaterMark_ : Z;
  inputBuffer_ : Buffer;
  outputBuffer_ : Buffer;
  queued : list conn_functor;
  events_ : list conn_event;
  written : bytes;
  write_closed : bool;
  removed : bool
}.

(** Field updates. *)
Definition setState (c : TcpConnection) (s : StateE) : TcpConnection :=
  mkConn s (channel_ c) (writeCompleteCallback_ c) (highWaterMarkCallback_ c) (highWaterMark_ c)
    (inputBuffer_ c) (outputBuffer_ c) (queued c) (events_ c) (written c) (write_closed c) (removed c).
Definition setChannel (c : TcpConnection) (ch : Channel) : TcpConnection :=
  mkConn (state_ c) ch (writeCompleteCallback_ c) (highWaterMarkCallback_ c) (highWaterMark_ c)
    (inputBuffer_ c) (outputBuffer_ c) (queued c) (events_ c) (written c) (write_closed c) (removed c).
Definition setInput (c : TcpConnection) (b : Buffer) : TcpConnection :=
  mkConn (state_ c) (channel_ c) (writeCompleteCallback_ c) (highWaterMarkCallback_ c) (highWaterMark_ c)
    b (outputBuffer_ c) (queued c) (events_ c) (written c) (write_closed c) (removed c).
Definition setOutput (c : TcpConnection) (b : Buffer) : TcpConnection :=
  mkConn (state_ c) (channel_ c) (writeCompleteCallback_ c) (highWaterMarkCallback_ c) (highWaterMark_ c)
    (inputBuffer_ c) b (queued c) (events_ c) (written c) (write_closed c) (removed c).
Definition queueInLoop (c : TcpConnection) (f : conn_functor) : TcpConnection :=
  mkConn (state_ c) (channel_ c) (writeCompleteCallback_ c) (highWaterMarkCallback_ c) (highWaterMark_ c)
    (inputBuffer_ c) (outputBuffer_ c) (queued c ++ [f]) (events_ c) (written c) (write_closed c) (removed c).
Definition call (c : TcpConnection) (e : conn_event) : TcpConnection :=
  mkConn (state_ c) (channel_ c) (writeCompleteCallback_ c) (highWaterMarkCallback_ c) (highWaterMark_ c)
    (inputBuffer_ c) (outputBuffer_ c) (queued c) (events_ c ++ [e]) (written c) (write_closed c) (removed c).
Definition record_written (c : TcpConnection) (d : bytes) : TcpConnection :=
  mkConn (state_ c) (channel_ c) (writeCompleteCallback_ c) (highWaterMarkCallback_ c) (highWaterMark_ c)
    (inputBuffer_ c) (outputBuffer_ c) (queued c) (events_ c) (written c ++ d) (write_closed c) (removed c).
Definition shutdownWrite (c : TcpConnection) : TcpConnection :=
  mkConn (state_ c) (channel_ c) (writeCompleteCallback_ c) (highWaterMarkCallback_ c) (highWaterMark_ c)
    (inputBuffer_ c) (outputBuffer_ c) (queued c) (events_ c) (written c) true (removed c).
Definition remove_channel (c : TcpConnection) : TcpConnection :=
  mkConn (state_ c) (channel_ c) (writeCompleteCallback_ c) (highWaterMarkCallback_ c) (highWaterMark_ c)
    (inputBuffer_ c) (outputBuffer_ c) (queued c) (events_ c) (written c) (write_closed c) true.

(** The constructor: a 64 MiB high water mark, all callbacks of the channel. *)
Definition TcpConnection_ctor (loop sockfd : Z) : res TcpConnection :=
  input ← Buffer_ctor;
  output ← Buffer_ctor;
  let channel := setCallbacks (Channel_ctor loop sockfd) true true true true in
  Ok (mkConn kConnecting channel false false (64 * 1024 * 1024) input output [] [] [] false false).

Definition setWriteCompleteCallback (c : TcpConnection) (cb : bool) : TcpConnection :=
  mkConn (state_ c) (channel_ c) cb (highWaterMarkCallback_ c) (highWaterMark_ c)
    (inputBuffer_ c) (outputBuffer_ c) (queued c) (events_ c) (written c) (write_closed c) (removed c).
Definition setHighWaterMarkCallback (c : TcpConnection) (cb : bool) (mark : Z) : TcpConnection :=
  mkConn (state_ c) (channel_ c) (writeCompleteCallback_ c) cb mark
    (inputBuffer_ c) (outputBuffer_ c) (queued c) (events_ c) (written c) (write_closed c) (removed c).

Definition connected (c : TcpConnection) : bool := bool_decide (state_ c = kConnected).

(** The channel's methods; that they reach the poller is the loop's part. *)
Definition change_events (c : TcpConnection) (f : Z -> Z) : TcpConnection :=
  setChannel c (setEvents (channel_ c) (f (Channel.events_ (channel_ c)))).
Definition enableReading (c : TcpConnection) := change_events c (enable kReadEvent).
Definition enableWriting (c : TcpConnection) := change_events c (enable kWriteEvent).
Definition disableWriting (c : TcpConnection) := change_events c (disable kWriteEvent).
Definition disableAll (c : TcpConnection) := change_events c (fun _ => kNoneEvent).

(** ** System calls *)

(** [write(2)]: an error number, or the number of bytes taken. *)
Inductive write_ret :=
| WriteErr (err : Z)
| WriteOk (n : Z).

Definition EWOULDBLOCK : Z := 11.
Definition EPIPE : Z := 32.

Definition write_ok (len : Z) (w : write_ret) : Prop :=
  match w with WriteErr _ => True | WriteOk n => 0 <= n <= len end.

(** ** Sending *)

(** The part of [sendInLoop] that queues what the direct write did not take:
    the first [remaining] bytes of the message, as the code has it. *)
Definition queue_rest (c : TcpConnection) (message : bytes) (remaining : Z) : res TcpConnection :=
  let oldLen := readableBytes (outputBuffer_ c) in
  let c := if (highWaterMark_ c <=? oldLen + remaining) && (oldLen <? highWaterMark_ c) &&
              highWaterMarkCallback_ c
           then queueInLoop c (FHighWaterMark (oldLen + remaining)) else c in
  data ← mem_read message 0 remaining;
  output ← append (outputBuffer_ c) data;
  let c := setOutput c output in
  Ok (if negb (isWriting (channel_ c)) then enableWriting c else c).

Definition sendInLoop (in_loop : bool) (c : TcpConnection) (message : bytes) (w : write_ret) :
    res TcpConnection :=
  assertInLoopThread in_loop;;
  let len := zlen message in
  if bool_decide (state_ c = kDisconnected) then Ok c else
  let '(c, remaining, error) :=
    (if negb (isWriting (channel_ c)) && (readableBytes (outputBuffer_ c) =? 0) then
       match w with
       | WriteOk nwrote =>
           let c := record_written c (take (Z.to_nat nwrote) message) in
           let remaining := len - nwrote in
           let c := if (remaining =? 0) && writeCompleteCallback_ c
                    then queueInLoop c FWriteComplete else c in
           (c, remaining, false)
       | WriteErr errno =>
           (c, len, negb (errno =? EWOULDBLOCK) && (errno =? EPIPE))
       end
     else (c, len, false)) in
  assert_ (remaining <=? len);;
  if negb error && (0 <? remaining) then queue_rest c message remaining else Ok c.

(** [send(const void*, size_t)]. *)
Definition send_pointer (in_loop : bool) (c : TcpConnection) (message : bytes) (w : write_ret) :
    res TcpConnection :=
  if connected c then
    if in_loop then sendInLoop in_loop c message w else Ok (queueInLoop c FSendRef)
  else Ok c.

(** [send(std::string&&)]. *)
Definition send_string (in_loop : bool) (c : TcpConnection) (message : bytes) (w : write_ret) :
    res TcpConnection :=
  if connected c then
    if in_loop then sendInLoop in_loop c message w else Ok (queueInLoop c (FSend message))
  else Ok c.

(** [send(Buffer&&)], with the buffer it leaves. *)
Definition send_buffer (in_loop : bool) (c : TcpConnection) (message : Buffer) (w : write_ret) :
    res (TcpConnection * Buffer) :=
  if connected c then
    if in_loop then
      data ← mem_read (buffer_ message) (peek message) (readableBytes message);
      c ← sendInLoop in_loop c data w;
      Ok (c, retrieveAll message)
    else
      (* the buffer moves into the closure, which sends all of it; the moved
         vector is empty, the indices are copied *)
      '(data, _) ← retrieveAllAsString message;
      Ok (queueInLoop c (FSend data), mkBuffer [] (readerIndex_ message) (writerIndex_ message))
  else Ok (c, message).

(** ** Closing *)

Definition shutdownInLoop (in_loop : bool) (c : TcpConnection) : res TcpConnection :=
  assertInLoopThread in_loop;;
  Ok (if negb (isWriting (channel_ c)) then shutdownWrite c else c).

Definition shutdown (in_loop : bool) (c : TcpConnection) : res TcpConnection :=
  let old := state_ c in
  let c := setState c kDisconnecting in
  if bool_decide (old = kConnected) then
    if in_loop then shutdownInLoop in_loop c else Ok (queueInLoop c FShutdownInLoop)
  else Ok c.

Definition forceClose (c : TcpConnection) : TcpConnection :=
  let oldState := state_ c in
  let c := setState c kDisconnecting in
  if bool_decide (oldState = kConnected) || bool_decide (oldState = kDisconnecting)
  then queueInLoop c FShutdownInLoop
  else setState c oldState.

(** The timer holds a weak pointer to the connection and calls [forceClose]. *)
Definition forceCloseWithDelay (c : TcpConnection) : TcpConnection :=
  let oldState := state_ c in
  let c := setState c kDisconnecting in
  if bool_decide (oldState = kConnected) || bool_decide (oldState = kDisconnecting)
  then call c EvForceCloseAfter
  else setState c oldState.

(** ** Handlers *)

Definition handleClose (in_loop : bool) (c : TcpConnection) : res TcpConnection :=
  assertInLoopThread in_loop;;
  assert_ (bool_decide (state_ c = kConnected) || bool_decide (state_ c = kDisconnecting));;
  let c := setState c kDisconnected in
  let c := disableAll c in
  let c := call c (EvConnection (connected c)) in
  Ok (call c EvClose).

Definition handleError (c : TcpConnection) : TcpConnection := call c EvError.

Definition forceCloseInLoop (in_loop : bool) (c : TcpConnection) : res TcpConnection :=
  assertInLoopThread in_loop;;
  if bool_decide (state_ c = kConnected) || bool_decide (state_ c = kDisconnecting)
  then handleClose in_loop c else Ok c.

Definition handleRead (in_loop : bool) (c : TcpConnection) (rv : readv_ret) : res TcpConnection :=
  assertInLoopThread in_loop;;
  '(n, _, input) ← readFd (inputBuffer_ c) rv;
  let c := setInput c input in
  if 0 <? n then Ok (call c EvMessage)
  else if n =? 0 then handleClose in_loop c
  else Ok (handleError c).

Definition handleWrite (in_loop : bool) (c : TcpConnection) (w : write_ret) : res TcpConnection :=
  assertInLoopThread in_loop;;
  if isWriting (channel_ c) then
    match w with
    | WriteOk n =>
        if 0 <? n then
          data ← mem_read (buffer_ (outputBuffer_ c)) (peek (outputBuffer_ c)) n;
          let c := record_written c data in
          let c := setOutput c (retrieve (outputBuffer_ c) n) in
          if readableBytes (outputBuffer_ c) =? 0 then
            let c := disableWriting c in
            let c := if writeCompleteCallback_ c then queueInLoop c FWriteComplete else c in
            if bool_decide (state_ c = kDisconnecting) then shutdownInLoop in_loop c else Ok c
          else Ok c
        else Ok c
    | WriteErr _ => Ok c
    end
  else Ok c.

Definition connectionEstablished (in_loop : bool) (c : TcpConnection) : res TcpConnection :=
  assertInLoopThread in_loop;;
  assert_ (bool_decide (state_ c = kConnecting));;
  let c := setState c kConnected in
  let c := setChannel c (tie (channel_ c)) in
  let c := enableReading c in
  Ok (call c (EvConnection (connected c))).

(** [channel_->remove()] asserts that no event is left. *)
Definition connectionDestroyed (in_loop : bool) (c : TcpConnection) : res TcpConnection :=
  assertInLoopThread in_loop;;
  let c := (if bool_decide (state_ c = kConnected)
            then
              let c := setState c kDisconnected in
              let c := disableAll c in
              call c (EvConnection (connected c))
            else c) in
  assert_ (isNoneEvent (channel_ c));;
  Ok (remove_channel c).

(** One functor of the queue, with the write it may do. *)
Definition run_functor (c : TcpConnection) (f : conn_functor) (w : write_ret) : res TcpConnection :=
  match f with
  | FSend message => sendInLoop true c message w
  | FSendRef => Err UseAfterFree
  | FShutdownInLoop => shutdownInLoop true c
  | FWriteComplete => Ok (call c EvWriteComplete)
  | FHighWaterMark n => Ok (call c (EvHighWaterMark n))
  end.

Definition pop_functor (c : TcpConnection) : TcpConnection :=
  mkConn (state_ c) (channel_ c) (writeCompleteCallback_ c) (highWaterMarkCallback_ c) (highWaterMark_ c)
    (inputBuffer_ c) (outputBuffer_ c) (tail (queued c)) (events_ c) (written c) (write_closed c) (removed c).

Definition run_next (c : TcpConnection) (w : write_ret) : res TcpConnection :=
  match queued c with
  | [] => Ok c
  | f :: _ => run_functor (pop_functor c) f w
  end.

(** ** Runs

    What may happen to a connection: the handlers the server and the loop call
    ([OpReadable], [OpWritable], [OpHangup] for the close callback of the
    channel, [OpError]), its functors, and the calls of the application, from
    the loop's thread or from another one. *)

Inductive conn_op :=
| OpEstablished
| OpSend (message : bytes) (w : write_ret)
| OpSendFromThread (message : bytes)
| OpRunFunctor (w : write_ret)
| OpReadable (rv : readv_ret)
| OpWritable (w : write_ret)
| OpHangup
| OpError
| OpShutdown (in_loop : bool)
| OpForceClose
| OpForceCloseWithDelay
| OpDestroyed.

Definition conn_step (c : TcpConnection) (op : conn_op) : res TcpConnection :=
  match op with
  | OpEstablished => connectionEstablished true c
  | OpSend message w => send_string true c message w
  | OpSendFromThread message => send_string false c message (WriteErr EWOULDBLOCK)
  | OpRunFunctor w => run_next c w
  | OpReadable rv => handleRead true c rv
  | OpWritable w => handleWrite true c w
  | OpHangup => handleClose true c
  | OpError => Ok (handleError c)
  | OpShutdown in_loop => shutdown in_loop c
  | OpForceClose => Ok (forceClose c)
  | OpForceCloseWithDelay => Ok (forceCloseWithDelay c)
  | OpDestroyed => connectionDestroyed true c
  end.

Fixpoint conn_run (c : TcpConnection) (ops : list conn_op) : res TcpConnection :=
  match ops with
  | [] => Ok c
  | op :: ops => c ← conn_step c op; conn_run c ops
  end.

(** ** The stream

    The bytes of [message] that [sendInLoop] takes charge of: all, unless the
    connection is closed or the direct write finds it broken. *)
Definition taken (c : TcpConnection) (message : bytes) (w : write_ret) : bytes :=
  if bool_decide (state_ c = kDisconnected) then []
  else if negb (isWriting (channel_ c)) && (readableBytes (outputBuffer_ c) =? 0) &&
          match w with WriteErr e => e =? EPIPE | WriteOk _ => false end
       then [] else message.

Definition accepted_by (c : TcpConnection) (op : conn_op) : bytes :=
  match op with
  | OpSend message w => if connected c then taken c message w else []
  | OpRunFunctor w =>
      match queued c with FSend message :: _ => taken c message w | _ => [] end
  | _ => []
  end.

(** The bytes accepted in a run. *)
Fixpoint accepted (c : TcpConnection) (ops : list conn_op) : bytes :=
  match ops with
  | [] => []
  | op :: ops =>
      accepted_by c op ++
      match conn_step c op with Ok c => accepted c ops | Err _ => [] end
  end.

(** The functors a connection in a state may have queued. *)
Definition queue_ok (s : StateE) (q : list conn_functor) : Prop :=
  (FSendRef ∉ q) /\ (s = kConnected -> (FShutdownInLoop ∉ q)) /\ (s = kConnecting -> q = []).

Record conn_inv (acc : bytes) (c : TcpConnection) : Prop := {
  inv_input : buffer_ok (inputBuffer_ c);
  inv_output : buffer_ok (outputBuffer_ c);
  inv_interest : interest_ok (Channel.events_ (channel_ c));
  inv_stream : written c ++ toStringView (outputBuffer_ c) = acc;
  inv_writing : state_ c <> kDisconnected ->
    (isWriting (channel_ c) = true <-> toStringView (outputBuffer_ c) <> []);
  inv_reading : state_ c <> kConnecting -> state_ c <> kDisconnected ->
    isReading (channel_ c) = true;
  inv_disconnected : state_ c = kDisconnected -> Channel.events_ (channel_ c) = 0;
  inv_connecting : state_ c = kConnecting ->
    toStringView (outputBuffer_ c) = [] /\ Channel.events_ (channel_ c) = 0;
  inv_closed : write_closed c = true ->
    state_ c <> kConnected /\ state_ c <> kConnecting /\
    (state_ c <> kDisconnected -> toStringView (outputBuffer_ c) = []);
  inv_queued : queue_ok (state_ c) (queued c)
}.

(** Direct writes take the whole message or nothing of it. *)
Definition whole_write (c : TcpConnection) (message : bytes) (w : write_ret) : Prop :=
  match w with
  | WriteOk n => n = zlen message \/ n = 0 \/ isWriting (channel_ c) = true
  | WriteErr _ => True
  end.

(** The poller watches the channel: only then are its events dispatched. *)
Definition watched (c : TcpConnection) : Prop := Channel.events_ (channel_ c) <> kNoneEvent.

(** What the system calls document, and what the caller must observe: events
    come while the poller watches the channel, a connection is established
    before it is destroyed, it is destroyed once and not while it is
    disconnecting, and [shutdown] is called while it is up. *)
Definition send_ok (c : TcpConnection) (message : bytes) (w : write_ret) : Prop :=
  write_ok (zlen message) w /\ whole_write c message w /\
  zlen (buffer_ (outputBuffer_ c)) + zlen message <= max_size /\
  (write_closed c = true -> w = WriteErr EPIPE).

Definition op_ok (c : TcpConnection) (op : conn_op) : Prop :=
  match op with
  | OpEstablished => state_ c = kConnecting /\ removed c = false
  | OpSend message w => send_ok c message w
  | OpSendFromThread _ => True
  | OpRunFunctor w => match queued c with FSend message :: _ => send_ok c message w | _ => True end
  | OpReadable rv =>
      watched c /\ readv_ok (writableBytes (inputBuffer_ c)) extrabuf_size rv /\
      zlen (buffer_ (inputBuffer_ c)) + extrabuf_size <= max_size
  | OpWritable w => write_ok (zlen (toStringView (outputBuffer_ c))) w
  | OpShutdown _ => state_ c = kConnected \/ state_ c = kDisconnecting
  | OpHangup => watched c
  | OpError => True
  | OpForceClose => True
  | OpForceCloseWithDelay => True
  | OpDestroyed => (state_ c = kConnected \/ state_ c = kDisconnected) /\ removed c = false
  end.

Fixpoint run_ok (c : TcpConnection) (ops : list conn_op) : Prop :=
  match ops with
  | [] => True
  | op :: ops => op_ok c op /\ forall c', conn_step c op = Ok c' -> run_ok c' ops
  end.

(** ** Lemmas *)

Lemma readable_zero b : buffer_ok b -> (readableBytes b =? 0) = bool_decide (toStringView b = []).
Proof.
  intros Hb. rewrite <- zlen_toStringView by done. case_bool_decide as E.
  - by rewrite E.
  - apply Z.eqb_neq. destruct (toStringView b); [done|]. zlen_lia.
Qed.

Lemma isWriting_enable ch :
  interest_ok (Channel.events_ ch) ->
  isWriting (setEvents ch (enable kWriteEvent (Channel.events_ ch))) = true.
Proof. intros Hi. unfold isWriting. cbn. by apply interest_bits. Qed.

Lemma isWriting_disable ch :
  interest_ok (Channel.events_ ch) ->
  isWriting (setEvents ch (disable kWriteEvent (Channel.events_ ch))) = false.
Proof. intros Hi. unfold isWriting. cbn. by apply interest_bits. Qed.

Lemma isReading_write ch :
  interest_ok (Channel.events_ ch) ->
  isReading (setEvents ch (enable kWriteEvent (Channel.events_ ch))) = isReading ch /\
  isReading (setEvents ch (disable kWriteEvent (Channel.events_ ch))) = isReading ch.
Proof. intros Hi. unfold isReading. cbn. split; by apply interest_bits. Qed.

Lemma kWrite_ok : interest_ok kWriteEvent.
Proof. decide_now. Qed.
Lemma kRead_ok : interest_ok kReadEvent.
Proof. decide_now. Qed.

(** Changes of the other members keep the invariant. *)
Lemma conn_inv_frame acc c c' :
  conn_inv acc c -> state_ c' = state_ c -> channel_ c' = channel_ c ->
  inputBuffer_ c' = inputBuffer_ c -> outputBuffer_ c' = outputBuffer_ c ->
  written c' = written c -> write_closed c' = write_closed c ->
  queue_ok (state_ c) (queued c') -> conn_inv acc c'.
Proof.
  intros [] H1 H2 H3 H4 H5 H6 H7. split; rewrite ?H1, ?H2, ?H3, ?H4, ?H5, ?H6; assumption.
Qed.

Lemma not_in_snoc (f g : conn_functor) l : f ∉ l -> f <> g -> f ∉ l ++ [g].
Proof. rewrite elem_of_app, list_elem_of_singleton. tauto. Qed.

Lemma queue_ok_snoc s q f :
  queue_ok s q -> s <> kConnecting -> f <> FSendRef -> (f = FShutdownInLoop -> s <> kConnected) ->
  queue_ok s (q ++ [f]).
Proof.
  intros (H1 & H2 & H3) Hs Hf Hf'. split; [by apply not_in_snoc|]. split; [|done].
  intros Hc. apply not_in_snoc; [auto|]. intros <-. by apply Hf'.
Qed.

Lemma queue_ok_tail s q : queue_ok s q -> queue_ok s (tail q).
Proof.
  destruct q as [|f q]; [done|]. intros (H1 & H2 & H3). rewrite not_elem_of_cons in H1.
  split; [apply H1|]. split; [|by intros E; specialize (H3 E)].
  intros E. specialize (H2 E). rewrite not_elem_of_cons in H2. apply H2.
Qed.

Lemma mem_read_whole l n : 0 <= n <= zlen l -> mem_read l 0 n = Ok (take (Z.to_nat n) l).
Proof. intros. rewrite mem_read_ok by lia. done. Qed.

Lemma take_all (l : bytes) : take (Z.to_nat (zlen l)) l = l.
Proof. unfold zlen. rewrite Nat2Z.id. apply firstn_all. Qed.

(** What a handler keeps of the connection's life. *)
Definition same_life (c c' : TcpConnection) : Prop :=
  state_ c' = state_ c /\ write_closed c' = write_closed c /\ events_ c' = events_ c.

(** Queueing a prefix of a message, exactly. *)
Lemma queue_rest_exact c message n :
  buffer_ok (outputBuffer_ c) -> 0 < n <= zlen message ->
  zlen (buffer_ (outputBuffer_ c)) + zlen message <= max_size ->
  exists c', queue_rest c message n = Ok c' /\ buffer_ok (outputBuffer_ c') /\
    toStringView (outputBuffer_ c') = toStringView (outputBuffer_ c) ++ take (Z.to_nat n) message /\
    written c' = written c /\ same_life c c' /\ inputBuffer_ c' = inputBuffer_ c /\
    channel_ c' = (if isWriting (channel_ c) then channel_ c
                   else setEvents (channel_ c) (enable kWriteEvent (Channel.events_ (channel_ c)))) /\
    (state_ c <> kConnecting -> queue_ok (state_ c) (queued c) -> queue_ok (state_ c) (queued c')).
Proof.
  intros Hb Hn Hmax. unfold queue_rest. rewrite mem_read_whole by lia. cbn [mbind res_bind].
  set (c1 := if _ && _ && _ then _ else c).
  assert (outputBuffer_ c1 = outputBuffer_ c /\ written c1 = written c /\ same_life c c1 /\
          inputBuffer_ c1 = inputBuffer_ c /\ channel_ c1 = channel_ c /\
          (state_ c <> kConnecting -> queue_ok (state_ c) (queued c) -> queue_ok (state_ c) (queued c1))) as (H1 & H2 & (H3 & H3' & H3'') & H4 & H5 & H6).
  { unfold c1. destruct (_ && _); [|done]. do 5 (split; [done|]). intros Hs Hq. by apply queue_ok_snoc. }
  rewrite H1. destruct (append_grows (outputBuffer_ c) (take (Z.to_nat n) message))
    as (b & -> & Hb' & Hv & _); [done|rewrite zlen_take; lia|].
  cbn [mbind res_bind channel_ setOutput]. rewrite H5. eexists. split; [done|].
  destruct (isWriting (channel_ c)); cbn; rewrite ?H5; unfold same_life; cbn; rewrite ?H3, ?H3', ?H3'';
    repeat (split; [done|]); done.
Qed.

(** Queueing a whole message. *)
Lemma queue_rest_whole acc c message :
  conn_inv acc c -> state_ c = kConnected \/ state_ c = kDisconnecting -> write_closed c = false ->
  message <> [] -> zlen (buffer_ (outputBuffer_ c)) + zlen message <= max_size ->
  exists c', queue_rest c message (zlen message) = Ok c' /\ conn_inv (acc ++ message) c' /\ same_life c c'.
Proof.
  intros Hi Hs Hw Hne Hmax.
  assert (0 < zlen message) as Hlen by (destruct message; [done | zlen_lia]).
  destruct (queue_rest_exact c message (zlen message))
    as (c' & H1 & Hb & Hv & Hwr & (Hst & Hwc & Hev) & Hin & Hch & Hq); [apply Hi|lia|done|].
  exists c'. split; [done|]. split; [|done]. rewrite take_all in Hv.
  assert (toStringView (outputBuffer_ c') <> []) as Hne' 
    by (rewrite Hv; by intros [_ ?]%app_nil).
  pose proof (inv_interest _ _ Hi) as Hint.
  split; rewrite ?Hst, ?Hwc, ?Hin.
  - apply Hi.
  - done.
  - rewrite Hch. destruct (isWriting _); [done|]. cbn. by apply enable_ok; [apply kWrite_ok|].
  - rewrite Hwr, Hv, app_assoc. by rewrite (inv_stream _ _ Hi).
  - intros _. split; [done|]. intros _. rewrite Hch.
    destruct (isWriting (channel_ c)) eqn:E; [done | by apply isWriting_enable].
  - intros Hs1 Hs2. rewrite Hch. pose proof (inv_reading _ _ Hi Hs1 Hs2).
    destruct (isWriting _); [done|]. by rewrite (proj1 (isReading_write _ Hint)).
  - destruct Hs; congruence.
  - destruct Hs; congruence.
  - congruence.
  - apply Hq; [destruct Hs; congruence|apply Hi].
Qed.

Lemma zlen_zero (l : bytes) : zlen l = 0 -> l = [].
Proof. destruct l; [done|]. zlen_lia. Qed.

(** Queueing a message that may be empty. *)
Lemma queue_message acc c message :
  conn_inv acc c -> state_ c = kConnected \/ state_ c = kDisconnecting -> write_closed c = false ->
  zlen (buffer_ (outputBuffer_ c)) + zlen message <= max_size ->
  exists c', (if 0 <? zlen message then queue_rest c message (zlen message) else Ok c) = Ok c' /\
    conn_inv (acc ++ message) c' /\ same_life c c'.
Proof.
  intros Hi Hs Hw Hmax. pose proof (zlen_nonneg message). destruct (Z.ltb_spec 0 (zlen message)).
  - apply queue_rest_whole; try done. intros ->. by rewrite zlen_nil in *.
  - rewrite (zlen_zero message) by lia. rewrite app_nil_r. by exists c.
Qed.

(** A direct write that took everything. *)
Lemma written_all acc c message (q : bool) :
  conn_inv acc c -> state_ c <> kConnecting -> toStringView (outputBuffer_ c) = [] -> write_closed c = false ->
  let c1 := record_written c message in
  conn_inv (acc ++ message) (if q then queueInLoop c1 FWriteComplete else c1).
Proof.
  intros Hi Hs Hv Hw c1. assert (conn_inv (acc ++ message) c1) as Hi1.
  { split; cbn; try apply Hi; rewrite ?Hw; try done.
    rewrite Hv, app_nil_r. pose proof (inv_stream _ _ Hi) as Hst. rewrite Hv, app_nil_r in Hst. by rewrite Hst. }
  destruct q; [|done]. eapply conn_inv_frame; [exact Hi1|done..|]. cbn. apply queue_ok_snoc; [apply Hi | done..].
Qed.

Lemma sendInLoop_ok acc c message w :
  conn_inv acc c -> state_ c <> kConnecting -> send_ok c message w ->
  exists c', sendInLoop true c message w = Ok c' /\ conn_inv (acc ++ taken c message w) c' /\
    same_life c c'.
Proof.
  intros Hi Hnc (Hw & Hwhole & Hmax & Hclosed). unfold sendInLoop, taken.
  cbn [assertInLoopThread guard_ mbind res_bind]. case_bool_decide as Hd.
  { exists c. rewrite app_nil_r. done. }
  assert (state_ c = kConnected \/ state_ c = kDisconnecting) as Hs by (destruct (state_ c); auto; done).
  pose proof (zlen_nonneg message). rewrite readable_zero by apply Hi.
  pose proof (inv_writing _ _ Hi Hd) as Hwr. destruct (isWriting (channel_ c)) eqn:Ew; cbn [negb andb].
  - assert (write_closed c = false) as Hwc.
    { destruct (write_closed c) eqn:E; [|done]. destruct (inv_closed _ _ Hi E) as (_ & _ & Hv).
      destruct (proj1 Hwr eq_refl (Hv Hd)). }
    rewrite assert_true by lia. cbn [mbind res_bind]. by apply queue_message.
  - assert (toStringView (outputBuffer_ c) = []) as Hv.
    { destruct (toStringView (outputBuffer_ c)) eqn:E; [done|]. by destruct Hwr as [_ Hwr]; discriminate Hwr. }
    rewrite bool_decide_true by done. cbn [andb].
    destruct (write_closed c) eqn:Ewc.
    { rewrite Hclosed by done. rewrite assert_true by lia. cbn [Z.eqb EPIPE EWOULDBLOCK Pos.eqb negb andb mbind res_bind].
      exists c. rewrite app_nil_r. done. }
    destruct w as [e|n].
    + rewrite assert_true by lia. cbn [mbind res_bind]. destruct (Z.eqb_spec e EPIPE) as [->|He].
      * cbn [Z.eqb EPIPE EWOULDBLOCK Pos.eqb negb andb]. exists c. by rewrite app_nil_r.
      * rewrite andb_false_r. cbn [negb andb]. by apply queue_message.
    + cbn in Hw. rewrite assert_true by lia. cbn [mbind res_bind negb andb].
      destruct Hwhole as [->|[->|Habs]]; [| |congruence].
      * rewrite take_all, Z.sub_diag. cbn [Z.eqb Z.ltb Z.compare andb]. eexists. split; [done|].
        split; [by apply written_all|]. by destruct (writeCompleteCallback_ _).
      * change (take (Z.to_nat 0) message) with ([] : bytes). rewrite Z.sub_0_r.
        destruct (Z.eqb_spec (zlen message) 0) as [Hz|Hz]; cbn [andb].
        -- rewrite Hz. cbn [Z.ltb Z.compare]. rewrite (zlen_zero _ Hz). eexists. split; [done|].
           split; [by apply written_all|]. by destruct (writeCompleteCallback_ _).
        -- apply (queue_message acc (record_written c [])); cbn; try done.
           eapply conn_inv_frame; [exact Hi|try done..]; cbn; [by rewrite app_nil_r|apply Hi].
Qed.

(** [sendInLoop] leaves what the connection has queued first in the queue. *)
Lemma send_string_ok acc c message w in_loop :
  conn_inv acc c -> (in_loop = true -> send_ok c message w) ->
  exists c', send_string in_loop c message w = Ok c' /\
    conn_inv (acc ++ if in_loop && connected c then taken c message w else []) c'.
Proof.
  intros Hi Hok. unfold send_string, connected. case_bool_decide as Hc.
  - destruct in_loop; cbn [andb].
    + destruct (sendInLoop_ok acc c message w) as (c' & H1 & H2 & _); [done|congruence|auto|eauto].
    + eexists. split; [done|]. rewrite app_nil_r. eapply conn_inv_frame; [exact Hi|done..|].
      cbn. apply queue_ok_snoc; [apply Hi|congruence|done|done].
  - rewrite andb_false_r, app_nil_r. eauto.
Qed.

Lemma shutdownInLoop_ok acc c :
  conn_inv acc c -> state_ c = kDisconnecting \/ state_ c = kDisconnected ->
  exists c', shutdownInLoop true c = Ok c' /\ conn_inv acc c' /\ state_ c' = state_ c /\
    (write_closed c' = true <-> write_closed c = true \/ isWriting (channel_ c) = false).
Proof.
  intros Hi Hs. unfold shutdownInLoop. cbn [assertInLoopThread guard_ mbind res_bind].
  eexists. split; [done|]. destruct (isWriting (channel_ c)) eqn:Ew; cbn [negb].
  - split; [done|]. split; [done|]. intuition congruence.
  - split; [|split; [done|]; cbn; intuition].
    split; cbn; try apply Hi. intros _. split; [destruct Hs; congruence|]. split; [destruct Hs; congruence|].
    intros Hd. pose proof (inv_writing _ _ Hi Hd) as Hwr. rewrite Ew in Hwr.
    destruct (toStringView (outputBuffer_ c)); [done|]. discriminate (proj2 Hwr ltac:(done)).
Qed.

(** Leaving the connected state. *)
Lemma disconnecting_ok acc c :
  conn_inv acc c -> state_ c = kConnected \/ state_ c = kDisconnecting ->
  conn_inv acc (setState c kDisconnecting).
Proof.
  intros Hi Hs.
  assert (Hne : state_ c <> kDisconnected /\ state_ c <> kConnecting) by (destruct Hs; split; congruence).
  split; cbn; try apply Hi; try done.
  - intros _. apply (inv_writing _ _ Hi). apply Hne.
  - intros _ _. apply (inv_reading _ _ Hi); apply Hne.
  - intros Hw. split; [done|]. split; [done|]. intros _. apply (inv_closed _ _ Hi Hw). apply Hne.
  - pose proof (inv_queued _ _ Hi) as (H1 & _ & _). done.
Qed.

Lemma shutdown_ok acc c in_loop :
  conn_inv acc c -> state_ c = kConnected \/ state_ c = kDisconnecting ->
  exists c', shutdown in_loop c = Ok c' /\ conn_inv acc c'.
Proof.
  intros Hi Hs. unfold shutdown. pose proof (disconnecting_ok acc c Hi Hs) as Hi'.
  case_bool_decide; [|eauto]. destruct in_loop.
  - destruct (shutdownInLoop_ok acc (setState c kDisconnecting)) as (c' & ? & ? & _); [done|by left|eauto].
  - eexists. split; [done|]. eapply conn_inv_frame; [exact Hi'|done..|].
    cbn. apply queue_ok_snoc; [apply Hi'|done..].
Qed.

Lemma forceClose_ok acc c : conn_inv acc c -> conn_inv acc (forceClose c).
Proof.
  intros Hi. unfold forceClose. destruct (_ || _) eqn:E.
  - assert (state_ c = kConnected \/ state_ c = kDisconnecting) as Hs
      by (apply orb_true_iff in E; by rewrite !bool_decide_eq_true in E).
    pose proof (disconnecting_ok acc c Hi Hs) as Hi'. eapply conn_inv_frame; [exact Hi'|done..|].
    cbn. apply queue_ok_snoc; [apply Hi'|done..].
  - by destruct c.
Qed.

Lemma forceCloseWithDelay_ok acc c : conn_inv acc c -> conn_inv acc (forceCloseWithDelay c).
Proof.
  intros Hi. unfold forceCloseWithDelay. destruct (_ || _) eqn:E.
  - assert (state_ c = kConnected \/ state_ c = kDisconnecting) as Hs
      by (apply orb_true_iff in E; by rewrite !bool_decide_eq_true in E).
    pose proof (disconnecting_ok acc c Hi Hs) as Hi'. eapply conn_inv_frame; [exact Hi'|done..|].
    apply Hi'.
  - by destruct c.
Qed.

Lemma handleClose_ok acc c :
  conn_inv acc c -> state_ c = kConnected \/ state_ c = kDisconnecting ->
  exists c', handleClose true c = Ok c' /\ conn_inv acc c' /\ state_ c' = kDisconnected /\
    events_ c' = events_ c ++ [EvConnection false; EvClose].
Proof.
  intros Hi Hs. unfold handleClose. cbn [assertInLoopThread guard_ mbind res_bind].
  rewrite assert_true by (destruct Hs as [-> | ->]; done). cbn [mbind res_bind].
  eexists. split; [done|]. split; [|cbn; by rewrite <- app_assoc].
  split; cbn; try apply Hi; try done.
  split; [apply (inv_queued _ _ Hi)|done].
Qed.

Lemma watched_up acc c : watched c -> conn_inv acc c -> state_ c = kConnected \/ state_ c = kDisconnecting.
Proof.
  intros Hw Hi. destruct (state_ c) eqn:E; [|by destruct (inv_connecting _ _ Hi E)|by left|by right].
  by destruct Hw; apply (inv_disconnected _ _ Hi).
Qed.

Lemma up_watched acc c : conn_inv acc c -> state_ c = kConnected \/ state_ c = kDisconnecting -> watched c.
Proof.
  intros Hi Hs E. assert (isReading (channel_ c) = true) as Hr by (apply (inv_reading _ _ Hi); destruct Hs; congruence).
  unfold isReading in Hr. by rewrite E in Hr.
Qed.

Lemma connectionDestroyed_ok acc c :
  conn_inv acc c -> state_ c = kConnected \/ state_ c = kDisconnected ->
  exists c', connectionDestroyed true c = Ok c' /\ conn_inv acc c' /\ state_ c' = kDisconnected /\
    removed c' = true /\
    events_ c' = events_ c ++ (if bool_decide (state_ c = kConnected) then [EvConnection false] else []).
Proof.
  intros Hi Hs. unfold connectionDestroyed. cbn [assertInLoopThread guard_ mbind res_bind].
  case_bool_decide as E.
  - eexists. split; [done|]. split; [|done]. split; cbn; try apply Hi; try done.
    split; [apply (inv_queued _ _ Hi)|done].
  - destruct Hs as [|Hs]; [done|]. pose proof (inv_disconnected _ _ Hi Hs) as He.
    rewrite assert_true by (unfold isNoneEvent; by rewrite He). eexists. split; [done|].
    split; [eapply conn_inv_frame; [exact Hi|done..|apply Hi]|]. cbn. by rewrite app_nil_r.
Qed.

Lemma handleRead_ok acc c rv :
  conn_inv acc c -> op_ok c (OpReadable rv) ->
  exists c', handleRead true c rv = Ok c' /\ conn_inv acc c'.
Proof.
  intros Hi (Hs%(watched_up acc) & Hrv & Hmax); [|done]. unfold handleRead. cbn [assertInLoopThread guard_ mbind res_bind].
  assert (exists n e b, readFd (inputBuffer_ c) rv = Ok (n, e, b) /\ buffer_ok b) as (n & e & b & -> & Hb).
  { destruct rv as [err|d0 d1]; [unfold readFd; do 3 eexists; split; [done|apply Hi]|].
    destruct (readFd_ok (inputBuffer_ c) d0 d1) as (b & -> & Hb & _); [apply Hi|done..|eauto]. }
  cbn [mbind res_bind]. assert (conn_inv acc (setInput c b)) as Hi'.
  { split; cbn; try apply Hi. done. }
  destruct (0 <? n).
  { eexists. split; [done|]. eapply conn_inv_frame; [exact Hi'|done..|apply Hi']. }
  destruct (n =? 0).
  - destruct (handleClose_ok acc (setInput c b)) as (c' & ? & ? & _); eauto.
  - eexists. split; [done|]. eapply conn_inv_frame; [exact Hi'|done..|apply Hi'].
Qed.

(** The state of a connection whose output has drained. *)
Lemma drained_ok acc c :
  buffer_ok (inputBuffer_ c) -> buffer_ok (outputBuffer_ c) -> interest_ok (Channel.events_ (channel_ c)) ->
  written c = acc -> toStringView (outputBuffer_ c) = [] -> state_ c <> kConnecting ->
  state_ c <> kDisconnected -> isReading (channel_ c) = true -> write_closed c = false ->
  queue_ok (state_ c) (queued c) -> conn_inv acc (disableWriting c).
Proof.
  intros H1 H2 H3 H4 H5 H6 H7 Hr H8 H9. split; cbn; try done.
  - apply disable_ok; [apply kWrite_ok|done].
  - by rewrite H5, app_nil_r.
  - intros _. rewrite isWriting_disable, H5 by done. done.
  - intros _ _. by rewrite (proj2 (isReading_write _ H3)).
  - congruence.
Qed.

Lemma handleWrite_ok acc c w :
  conn_inv acc c -> write_ok (zlen (toStringView (outputBuffer_ c))) w ->
  exists c', handleWrite true c w = Ok c' /\ conn_inv acc c'.
Proof.
  intros Hi Hw. unfold handleWrite. cbn [assertInLoopThread guard_ mbind res_bind].
  destruct (isWriting (channel_ c)) eqn:Ew; [|eauto]. destruct w as [e|n]; [eauto|].
  destruct (Z.ltb_spec 0 n) as [Hn|Hn]; [|eauto]. cbn in Hw.
  pose proof (inv_output _ _ Hi) as Hb.
  assert (state_ c <> kDisconnected) as Hd.
  { intros E. pose proof (inv_disconnected _ _ Hi E) as E'. unfold isWriting in Ew. by rewrite E' in Ew. }
  assert (toStringView (outputBuffer_ c) <> []) as Hne by by apply (inv_writing _ _ Hi Hd).
  assert (state_ c <> kConnecting) as Hc by (intros E; by apply Hne, Hi).
  assert (write_closed c = false) as Hwc.
  { destruct (write_closed c) eqn:E; [|done]. destruct (inv_closed _ _ Hi E) as (_ & _ & Hv).
    destruct (Hne (Hv Hd)). }
  rewrite mem_read_view by (done || rewrite <- zlen_toStringView by done; lia). cbn [mbind res_bind].
  destruct (retrieve_ok (outputBuffer_ c) n) as (Hb' & Hv & _ & _); [done|lia|].
  set (c1 := setOutput _ _). assert (outputBuffer_ c1 = retrieve (outputBuffer_ c) n) as E1 by done.
  assert (written c1 ++ toStringView (outputBuffer_ c1) = acc) as Hst.
  { rewrite E1, Hv. cbn. rewrite <- app_assoc, take_drop. apply Hi. }
  rewrite readable_zero by (rewrite E1; done). case_bool_decide as E2.
  - rewrite E2, app_nil_r in Hst.
    pose proof (inv_reading _ _ Hi Hc Hd) as Hrd.
    assert (conn_inv acc (disableWriting c1)) as Hi1 by (apply drained_ok; cbn; first [done | apply Hi]).
    assert (forall q : bool, conn_inv acc (if q then queueInLoop (disableWriting c1) FWriteComplete
                                           else disableWriting c1)) as Hi2.
    { intros [|]; [|done]. eapply conn_inv_frame; [exact Hi1|done..|]. cbn.
      apply queue_ok_snoc; [apply Hi|done..]. }
    specialize (Hi2 (writeCompleteCallback_ (disableWriting c1))).
    case_bool_decide as E3; [|eauto].
    edestruct shutdownInLoop_ok as (c' & ? & ? & _); [exact Hi2|by left|eauto].
  - eexists. split; [done|]. split; cbn; try apply Hi; try done.
    congruence.
Qed.

Lemma connectionEstablished_ok acc c :
  conn_inv acc c -> state_ c = kConnecting ->
  exists c', connectionEstablished true c = Ok c' /\ conn_inv acc c' /\ state_ c' = kConnected.
Proof.
  intros Hi Hs. unfold connectionEstablished. cbn [assertInLoopThread guard_ mbind res_bind].
  rewrite assert_true by (by rewrite Hs). cbn [mbind res_bind]. eexists. split; [done|]. split; [|done].
  pose proof (inv_queued _ _ Hi) as (_ & _ & Hq). specialize (Hq Hs).
  split; cbn; try apply Hi; try done.
  - apply enable_ok; [apply kRead_ok|apply Hi].
  - intros _. rewrite <- (inv_writing _ _ Hi) by congruence. unfold isWriting. cbn.
    by rewrite (proj1 (proj2 (proj2 (proj2 (proj2 (interest_bits _ (inv_interest _ _ Hi))))))).
  - intros _ _. apply interest_bits, Hi.
  - intros E. destruct (inv_closed _ _ Hi E) as (_ & ? & _). done.
  - rewrite Hq. split; [apply not_elem_of_nil|]. split; [|done]. intros _. apply not_elem_of_nil.
Qed.

Lemma pop_functor_ok acc c : conn_inv acc c -> conn_inv acc (pop_functor c).
Proof.
  intros Hi. eapply conn_inv_frame; [exact Hi|done..|]. cbn. apply queue_ok_tail, Hi.
Qed.

Lemma run_next_ok acc c w :
  conn_inv acc c -> op_ok c (OpRunFunctor w) ->
  exists c', run_next c w = Ok c' /\ conn_inv (acc ++ accepted_by c (OpRunFunctor w)) c'.
Proof.
  intros Hi Hok. cbn in *. unfold run_next. pose proof (inv_queued _ _ Hi) as (H1 & H2 & H3).
  pose proof (pop_functor_ok _ _ Hi) as Hi'.
  destruct (queued c) as [|[message| | | |n] q]; try rewrite app_nil_r; [eauto| | | | |].
  - destruct (sendInLoop_ok acc (pop_functor c) message w) as (c' & ? & ? & _); [done| |done|eauto].
    intros E. by specialize (H3 E).
  - destruct H1. left.
  - destruct (shutdownInLoop_ok acc (pop_functor c)) as (c' & ? & ? & _); [done| |eauto]. cbn.
    destruct (state_ c); [by right| | |by left]; [by specialize (H3 eq_refl)|].
    destruct (H2 eq_refl). left.
  - eexists. split; [done|]. eapply conn_inv_frame; [exact Hi'|done..|apply Hi'].
  - eexists. split; [done|]. eapply conn_inv_frame; [exact Hi'|done..|apply Hi'].
Qed.

Lemma conn_step_ok acc c op :
  conn_inv acc c -> op_ok c op ->
  exists c', conn_step c op = Ok c' /\ conn_inv (acc ++ accepted_by c op) c'.
Proof.
  intros Hi Hok. destruct op as [|message w|message|w|rv|w| | |in_loop| | |]; cbn [conn_step accepted_by];
    try rewrite app_nil_r.
  - destruct Hok as [Hok _]. destruct (connectionEstablished_ok acc c) as (c' & ? & ? & _); eauto.
  - apply (send_string_ok acc c message w true); [done|]. by intros _.
  - destruct (send_string_ok acc c message (WriteErr EWOULDBLOCK) false) as (c' & ? & Hi'); [done..|].
    cbn [andb] in Hi'. rewrite app_nil_r in Hi'. eauto.
  - by apply run_next_ok.
  - by apply handleRead_ok.
  - by apply handleWrite_ok.
  - destruct (handleClose_ok acc c Hi (watched_up _ _ Hok Hi)) as (c' & ? & ? & _); eauto.
  - eexists. split; [done|]. eapply conn_inv_frame; [exact Hi|done..|apply Hi].
  - by apply shutdown_ok.
  - eexists. split; [done|]. by apply forceClose_ok.
  - eexists. split; [done|]. by apply forceCloseWithDelay_ok.
  - destruct Hok as [Hok _]. destruct (connectionDestroyed_ok acc c Hi Hok) as (c' & ? & ? & _); eauto.
Qed.

(** A new connection, with the callbacks its owner installs. *)
Definition new_connection (loop sockfd : Z) (wc hw : bool) (mark : Z) : res TcpConnection :=
  c ← TcpConnection_ctor loop sockfd;
  Ok (setHighWaterMarkCallback (setWriteCompleteCallback c wc) hw mark).

Lemma new_connection_inv loop sockfd wc hw mark c :
  new_connection loop sockfd wc hw mark = Ok c -> conn_inv [] c.
Proof.
  intros [= <-]. split; cbn; try done.
  split; [apply not_elem_of_nil|]. split; [|done]. intros _. apply not_elem_of_nil.
Qed.

Lemma conn_run_ok ops : forall acc c,
  conn_inv acc c -> run_ok c ops ->
  exists c', conn_run c ops = Ok c' /\ conn_inv (acc ++ accepted c ops) c'.
Proof.
  induction ops as [|op ops IH]; intros acc c Hi Hok; cbn [conn_run accepted].
  - exists c. rewrite app_nil_r. done.
  - destruct Hok as [Hop Hok]. destruct (conn_step_ok acc c op Hi Hop) as (c1 & E & Hi1).
    rewrite E. cbn [mbind res_bind]. rewrite app_assoc. apply IH; [done|by apply Hok].
Qed.

(** A write that takes [n] bytes, exactly. *)
Lemma handleWrite_exact c n :
  buffer_ok (outputBuffer_ c) -> interest_ok (Channel.events_ (channel_ c)) ->
  isWriting (channel_ c) = true -> 0 < n <= zlen (toStringView (outputBuffer_ c)) ->
  let rest := drop (Z.to_nat n) (toStringView (outputBuffer_ c)) in
  exists c', handleWrite true c (WriteOk n) = Ok c' /\
    written c' = written c ++ take (Z.to_nat n) (toStringView (outputBuffer_ c)) /\
    toStringView (outputBuffer_ c') = rest /\ state_ c' = state_ c /\
    write_closed c' = write_closed c || (bool_decide (rest = []) && bool_decide (state_ c = kDisconnecting)) /\
    isWriting (channel_ c') = negb (bool_decide (rest = [])).
Proof.
  intros Hb Hi Ew Hn rest. unfold handleWrite. cbn [assertInLoopThread guard_ mbind res_bind].
  rewrite Ew. replace (0 <? n) with true by lia.
  rewrite mem_read_view by (done || rewrite <- zlen_toStringView by done; lia). cbn [mbind res_bind].
  destruct (retrieve_ok (outputBuffer_ c) n) as (Hb' & Hv & _ & _); [done|lia|]. fold rest in Hv.
  set (c1 := setOutput _ _). rewrite readable_zero by done.
  change (outputBuffer_ c1) with (retrieve (outputBuffer_ c) n). rewrite Hv.
  case_bool_decide as E.
  - set (c2 := if writeCompleteCallback_ _ then _ else _).
    assert (state_ c2 = state_ c /\ write_closed c2 = write_closed c /\ written c2 = written c1 /\
            outputBuffer_ c2 = outputBuffer_ c1 /\ channel_ c2 = channel_ (disableWriting c1))
      as (E1 & E2 & E3 & E4 & E5) by (unfold c2; by destruct (writeCompleteCallback_ _)).
    assert (isWriting (channel_ c2) = false) as E6 by (rewrite E5; by apply isWriting_disable).
    rewrite E1. unfold shutdownInLoop. cbn [assertInLoopThread guard_ mbind res_bind]. rewrite E6.
    exists (if bool_decide (state_ c = kDisconnecting) then shutdownWrite c2 else c2).
    case_bool_decide; cbn [shutdownWrite written outputBuffer_ state_ write_closed channel_ negb andb];
      rewrite ?E1, ?E2, ?E3, ?E4, ?E6; do 3 (split; [done|]); (split; [done|]); by destruct (write_closed c).
  - exists c1. do 3 (split; [done|]). split; [done|]. split; [by rewrite orb_false_r|done].
Qed.

(** ** The output stream *)

(** C1: from its construction, under any sequence of sends, queued functors,
    readiness events, hang-ups, shutdowns, forced closes and its destruction, a
    connection aborts in none
    of them, and at the end the bytes written to the socket followed by those
    in the output buffer are exactly the bytes the connection accepted, in
    order; it waits for writability exactly while it has something to write,
    and has shut its write side only when nothing was left.  The direct write
    of a send must take all of the message or nothing. *)
Theorem stream_integrity loop sockfd wc hw mark c ops :
  new_connection loop sockfd wc hw mark = Ok c -> run_ok c ops ->
  exists c', conn_run c ops = Ok c' /\
    written c' ++ toStringView (outputBuffer_ c') = accepted c ops /\
    (state_ c' <> kDisconnected ->
     (isWriting (channel_ c') = true <-> toStringView (outputBuffer_ c') <> [])) /\
    (state_ c' <> kDisconnected -> write_closed c' = true -> written c' = accepted c ops).
Proof.
  intros Hc Hok. apply new_connection_inv in Hc.
  destruct (conn_run_ok ops [] c Hc Hok) as (c' & Hr & Hi). exists c'. split; [done|].
  split; [apply Hi|]. split; [apply Hi|]. intros Hd Hw.
  destruct (inv_closed _ _ Hi Hw) as (_ & _ & Hv). pose proof (inv_stream _ _ Hi) as Hs.
  by rewrite (Hv Hd), app_nil_r in Hs.
Qed.

(** A message whose first bytes went out directly: what is queued. *)
Lemma partial_send acc c message n :
  conn_inv acc c -> state_ c <> kDisconnected -> state_ c <> kConnecting -> toStringView (outputBuffer_ c) = [] ->
  0 < n < zlen message -> zlen (buffer_ (outputBuffer_ c)) + zlen message <= max_size ->
  exists c', sendInLoop true c message (WriteOk n) = Ok c' /\ buffer_ok (outputBuffer_ c') /\
    interest_ok (Channel.events_ (channel_ c')) /\
    toStringView (outputBuffer_ c') = take (Z.to_nat (zlen message - n)) message /\
    written c' = written c ++ take (Z.to_nat n) message /\ isWriting (channel_ c') = true /\
    same_life c c' /\ inputBuffer_ c' = inputBuffer_ c /\ isReading (channel_ c') = isReading (channel_ c) /\
    queue_ok (state_ c) (queued c').
Proof.
  intros Hi Hs Hc Hv Hn Hmax. unfold sendInLoop. cbn [assertInLoopThread guard_ mbind res_bind].
  rewrite bool_decide_false by done.
  assert (isWriting (channel_ c) = false) as Ew.
  { destruct (isWriting _) eqn:E; [|done]. exfalso. by apply (inv_writing _ _ Hi). }
  rewrite Ew, readable_zero by apply Hi. rewrite bool_decide_true by done. cbn [negb andb].
  replace (zlen message - n =? 0) with false by lia. cbn [andb].
  rewrite assert_true by lia. cbn [mbind res_bind]. replace (0 <? zlen message - n) with true by lia.
  destruct (queue_rest_exact (record_written c (take (Z.to_nat n) message)) message (zlen message - n))
    as (c' & -> & Hb & Hv' & Hwr & Hl & Hin & Hch & Hq); [apply Hi|lia|done|].
  cbn in Hch. rewrite Ew in Hch. exists c'. split; [done|]. split; [done|].
  split; [rewrite Hch; cbn; apply enable_ok; [apply kWrite_ok|apply Hi]|].
  split; [by rewrite Hv'; cbn; rewrite Hv|]. split; [done|].
  split; [rewrite Hch; apply isWriting_enable, Hi|]. split; [exact Hl|]. split; [done|].
  split; [rewrite Hch; apply isReading_write, Hi|]. apply Hq; [done|apply Hi].
Qed.

(** When the kernel takes only the first [n] bytes of a message, the bytes
    queued for later are the first [len - n] ones of the message again and not
    its rest: after the buffer has drained the peer has got
    [take n message ++ take (len - n) message]. *)
Theorem partial_write_corrupts acc c message n :
  conn_inv acc c -> state_ c = kConnected -> toStringView (outputBuffer_ c) = [] ->
  0 < n < zlen message -> zlen (buffer_ (outputBuffer_ c)) + zlen message <= max_size ->
  exists c1 c2, sendInLoop true c message (WriteOk n) = Ok c1 /\
    handleWrite true c1 (WriteOk (zlen message - n)) = Ok c2 /\
    toStringView (outputBuffer_ c2) = [] /\
    written c2 = written c ++ take (Z.to_nat n) message ++ take (Z.to_nat (zlen message - n)) message /\
    (written c2 = written c ++ message <->
     take (Z.to_nat (zlen message - n)) message = drop (Z.to_nat n) message).
Proof.
  intros Hi Hs Hv Hn Hmax.
  destruct (partial_send acc c message n) as (c1 & H1 & Hb & Hit & Hv1 & Hw1 & Ew & _);
    [done|congruence|congruence|done..|].
  assert (zlen (toStringView (outputBuffer_ c1)) = zlen message - n) as Hlen
    by (rewrite Hv1, zlen_take; lia).
  destruct (handleWrite_exact c1 (zlen message - n)) as (c2 & H2 & Hw2 & Hv2 & _); [done..|lia|].
  exists c1, c2. split; [done|]. split; [done|].
  assert (written c2 = written c ++ take (Z.to_nat n) message ++ take (Z.to_nat (zlen message - n)) message) as E.
  { rewrite Hw2. replace (take _ (toStringView (outputBuffer_ c1))) with (toStringView (outputBuffer_ c1))
      by (rewrite <- Hlen; symmetry; apply take_all). by rewrite Hw1, Hv1, <- app_assoc. }
  split; [rewrite Hv2; apply drop_ge; unfold zlen in *; lia|]. split; [done|]. rewrite E. split.
  - intros E'. apply app_inv_head in E'. apply (app_inv_head (take (Z.to_nat n) message)).
    by rewrite take_drop.
  - intros ->. by rewrite take_drop.
Qed.

(** ** Shutting down *)

(** The writability events of a run, each taking some bytes. *)
Definition writes (ns : list Z) : list conn_op := (fun n => OpWritable (WriteOk n)) <$> ns.

Lemma sum_nonneg ns : Forall (fun n => 0 < n) ns -> 0 <= foldr Z.add 0 ns.
Proof. induction 1; cbn; lia. Qed.

(** Draining a connection that is being shut down. *)
Lemma drain ns : forall acc c,
  conn_inv acc c -> state_ c = kDisconnecting ->
  (write_closed c = true <-> toStringView (outputBuffer_ c) = []) ->
  Forall (fun n => 0 < n) ns -> foldr Z.add 0 ns <= zlen (toStringView (outputBuffer_ c)) ->
  exists c', conn_run c (writes ns) = Ok c' /\ conn_inv acc c' /\ state_ c' = kDisconnecting /\
    written c' = written c ++ take (Z.to_nat (foldr Z.add 0 ns)) (toStringView (outputBuffer_ c)) /\
    (write_closed c' = true <-> foldr Z.add 0 ns = zlen (toStringView (outputBuffer_ c))).
Proof.
  induction ns as [|n ns IH]; intros acc c Hi Hs Hwc Hns Hsum; cbn [writes fmap list_fmap conn_run foldr] in *.
  - exists c. split; [done|]. split; [done|]. split; [done|]. split; [by rewrite app_nil_r|].
    rewrite Hwc. split; [intros ->; done|]. intros E. by apply zlen_zero.
  - apply Forall_cons in Hns as [Hn Hns]. pose proof (sum_nonneg ns Hns).
    assert (toStringView (outputBuffer_ c) <> []) as Hne by (intros E; rewrite E in Hsum; unfold zlen in Hsum; cbn in Hsum; lia).
    assert (state_ c <> kDisconnected) as Hd by congruence.
    assert (isWriting (channel_ c) = true) as Ew by by apply (inv_writing _ _ Hi Hd).
    destruct (handleWrite_exact c n) as (c1 & H1 & Hw1 & Hv1 & Hs1 & Hwc1 & _); [apply Hi|apply Hi|done|lia|].
    destruct (handleWrite_ok acc c (WriteOk n)) as (c1' & H1' & Hi1); [done|cbn; lia|].
    rewrite H1 in H1'. injection H1' as <-. cbn [conn_step]. rewrite H1. cbn [mbind res_bind].
    assert (write_closed c = false) as Hwcf by (destruct (write_closed c); [|done]; by destruct Hne; apply Hwc).
    destruct (IH acc c1) as (c' & H2 & Hi2 & Hs2 & Hw2 & Hwc2); [done|congruence| |done| |].
    { rewrite Hwc1, Hwcf, Hv1, (bool_decide_true (state_ c = _)), andb_true_r by done. cbn.
      apply bool_decide_eq_true. }
    { rewrite Hv1, zlen_drop; lia. }
    exists c'. split; [done|]. split; [done|]. split; [done|].
    rewrite Hw2, Hw1, Hwc2, Hv1, zlen_drop by lia. split; [|lia].
    rewrite Z2Nat.inj_add by lia. rewrite <- app_assoc. f_equal. by rewrite take_take_drop.
Qed.

(** C19: a graceful shutdown: [shutdown] in the loop's thread closes the write
    side at once exactly when nothing is buffered; otherwise, whatever amounts
    the following writability events write, it is closed exactly when the last
    buffered byte has been written, and nothing is lost or sent twice. *)
Theorem shutdown_after_drain acc c ns :
  conn_inv acc c -> state_ c = kConnected -> Forall (fun n => 0 < n) ns ->
  foldr Z.add 0 ns <= zlen (toStringView (outputBuffer_ c)) ->
  exists c', conn_run c (OpShutdown true :: writes ns) = Ok c' /\ state_ c' = kDisconnecting /\
    written c' = written c ++ take (Z.to_nat (foldr Z.add 0 ns)) (toStringView (outputBuffer_ c)) /\
    (write_closed c' = true <-> foldr Z.add 0 ns = zlen (toStringView (outputBuffer_ c))) /\
    (write_closed c' = true -> written c' = acc).
Proof.
  intros Hi Hs Hns Hsum. cbn [conn_run conn_step]. unfold shutdown. rewrite bool_decide_true by done.
  set (c1 := setState c kDisconnecting).
  assert (conn_inv acc c1) as Hi1 by (apply disconnecting_ok; [done|by left]).
  destruct (shutdownInLoop_ok acc c1) as (c2 & E & Hi2 & Hs2 & Hwc2); [done|by left|].
  assert (outputBuffer_ c2 = outputBuffer_ c /\ written c2 = written c) as [E1 E2].
  { revert E. unfold shutdownInLoop. cbn [assertInLoopThread guard_ mbind res_bind].
    intros [= <-]. by destruct (isWriting _). }
  rewrite E. cbn [mbind res_bind]. rewrite <- E1, <- E2.
  destruct (drain ns acc c2) as (c' & H1 & Hi' & Hs' & Hw' & Hwc'); [done|done| |done|by rewrite E1|].
  { rewrite Hwc2, E1. change (isWriting (channel_ c1)) with (isWriting (channel_ c)).
    assert (write_closed c1 <> true) as Hf.
    { intros Hf. destruct (inv_closed _ _ Hi Hf) as (Hf' & _). done. }
    pose proof (inv_writing _ _ Hi ltac:(congruence)) as Hwr.
    destruct (isWriting (channel_ c)), (toStringView (outputBuffer_ c)); intuition (try done; congruence). }
  exists c'. split; [done|]. split; [done|]. split; [done|]. split; [done|].
  intros E'. destruct (inv_closed _ _ Hi' E') as (_ & _ & Hv). pose proof (inv_stream _ _ Hi') as Hst.
  by rewrite Hv, app_nil_r in Hst by congruence.
Qed.

(** ** The life cycle *)

Definition is_life (e : conn_event) : bool :=
  match e with EvConnection _ | EvClose => true | _ => false end.

(** What the application sees of a connection's life: its state, and the calls
    of the connection and close callbacks. *)
Definition life (c : TcpConnection) : StateE * list conn_event :=
  (state_ c, List.filter is_life (events_ c)).

(** The life of a connection, as the API promises it: a connection that is
    destroyed while it is up makes no call of the close callback. *)
Inductive life_step : StateE * list conn_event -> StateE * list conn_event -> Prop :=
| life_up l : life_step (kConnecting, l) (kConnected, l ++ [EvConnection true])
| life_shut l : life_step (kConnected, l) (kDisconnecting, l)
| life_down s l : s = kConnected \/ s = kDisconnecting ->
    life_step (s, l) (kDisconnected, l ++ [EvConnection false; EvClose])
| life_destroyed l : life_step (kConnected, l) (kDisconnected, l ++ [EvConnection false]).

(** The conditions of a run without the one on direct writes: the kernel may
    take any part of a message. *)
Definition send_any (c : TcpConnection) (message : bytes) (w : write_ret) : Prop :=
  write_ok (zlen message) w /\
  zlen (buffer_ (outputBuffer_ c)) + zlen message <= max_size /\
  (write_closed c = true -> w = WriteErr EPIPE).

Definition op_any (c : TcpConnection) (op : conn_op) : Prop :=
  match op with
  | OpSend message w => send_any c message w
  | OpRunFunctor w => match queued c with FSend message :: _ => send_any c message w | _ => True end
  | _ => op_ok c op
  end.

Fixpoint run_any (c : TcpConnection) (ops : list conn_op) : Prop :=
  match ops with
  | [] => True
  | op :: ops => op_any c op /\ forall c', conn_step c op = Ok c' -> run_any c' ops
  end.

Lemma send_ok_any c message w : send_ok c message w -> send_any c message w.
Proof. by intros (? & _ & ? & ?). Qed.

Lemma op_ok_any c op : op_ok c op -> op_any c op.
Proof.
  destruct op; try done; [apply send_ok_any|]. cbn. destruct (queued c) as [|[] q]; try done. apply send_ok_any.
Qed.

Lemma run_ok_any ops : forall c, run_ok c ops -> run_any c ops.
Proof. induction ops as [|op ops IH]; intros c; [done|]. intros [H1 H2]. split; [by apply op_ok_any|eauto]. Qed.

(** Whatever part of the message a direct write takes, the bytes written and
    buffered form some stream and the connection stays well formed. *)
Lemma sendInLoop_any acc c message w :
  conn_inv acc c -> state_ c <> kConnecting -> send_any c message w ->
  exists c' acc', sendInLoop true c message w = Ok c' /\ conn_inv acc' c' /\ same_life c c'.
Proof.
  intros Hi Hc (Hw & Hmax & Hcl). destruct (decide (state_ c = kDisconnected)) as [Hd|Hd].
  { exists c, acc. unfold sendInLoop. by rewrite bool_decide_true. }
  assert (whole_write c message w \/ exists n, w = WriteOk n /\ 0 < n < zlen message /\ isWriting (channel_ c) = false)
    as [Hwh|(n & -> & Hn & Ew)].
  { destruct w as [e|n]; [by left|]. cbn in Hw |- *. destruct (isWriting (channel_ c)); [left; tauto|].
    destruct (decide (n = zlen message)); [tauto|]. destruct (decide (n = 0)); [tauto|].
    right. exists n. split; [done|]. split; [lia|done]. }
  { destruct (sendInLoop_ok acc c message w) as (c' & ? & ? & ?); [done..|]. by exists c', (acc ++ taken c message w). }
  pose proof (inv_writing _ _ Hi Hd) as Hwr. rewrite Ew in Hwr.
  assert (toStringView (outputBuffer_ c) = []) as Hv.
  { destruct (toStringView (outputBuffer_ c)); [done|]. discriminate (proj2 Hwr ltac:(done)). }
  destruct (partial_send acc c message n) as (c' & E & Hb & Hit & Hv' & _ & Ew' & Hl & Hin & Hrd & Hq); [done..|].
  exists c', (written c' ++ toStringView (outputBuffer_ c')). split; [done|]. split; [|done].
  assert (toStringView (outputBuffer_ c') <> []) as Hne.
  { rewrite Hv'. intros E0. apply (f_equal zlen) in E0. rewrite zlen_take in E0 by lia.
    change (zlen (@nil byte)) with 0 in E0. lia. }
  destruct Hl as (Hs & Hwc & _). split; rewrite ?Hs, ?Hin; try done; try apply Hi.
  - intros _ _. rewrite Hrd. by apply (inv_reading _ _ Hi).
  - rewrite Hwc. intros Hf. by specialize (Hcl Hf).
Qed.
Lemma life_call c e : is_life e = false -> life (call c e) = life c.
Proof. intros He. unfold life. cbn. rewrite List.filter_app. cbn. by rewrite He, app_nil_r. Qed.

Lemma same_life_life c c' : same_life c c' -> life c' = life c.
Proof. intros (H1 & _ & H2). unfold life. by rewrite H1, H2. Qed.

Lemma send_life acc c message w :
  conn_inv acc c -> state_ c <> kConnecting -> send_any c message w ->
  forall c', sendInLoop true c message w = Ok c' -> life c' = life c.
Proof.
  intros Hi Hc Hok c' E. destruct (sendInLoop_any acc c message w) as (c1 & ? & E1 & _ & Hl); [done..|].
  rewrite E1 in E. injection E as <-. by apply same_life_life.
Qed.

Lemma shutdownInLoop_life c c' : shutdownInLoop true c = Ok c' -> life c' = life c.
Proof. intros [= <-]. by destruct (isWriting _). Qed.

Lemma handleWrite_life acc c w :
  conn_inv acc c -> write_ok (zlen (toStringView (outputBuffer_ c))) w ->
  forall c', handleWrite true c w = Ok c' -> life c' = life c.
Proof.
  intros Hi Hw c'. unfold handleWrite. cbn [assertInLoopThread guard_ mbind res_bind].
  destruct (isWriting _); [|by intros [= <-]]. destruct w as [e|n]; [by intros [= <-]|].
  destruct (Z.ltb_spec 0 n); [|by intros [= <-]]. cbn in Hw. pose proof (inv_output _ _ Hi) as Hb.
  rewrite mem_read_view by (done || rewrite <- zlen_toStringView by done; lia). cbn [mbind res_bind].
  destruct (_ =? 0); [|by intros [= <-]].
  destruct (bool_decide _).
  - intros E. apply shutdownInLoop_life in E. rewrite E. by destruct (writeCompleteCallback_ _).
  - intros [= <-]. by destruct (writeCompleteCallback_ _).
Qed.

Lemma destroyed_life acc c c' :
  conn_inv acc c -> state_ c = kConnected \/ state_ c = kDisconnected -> connectionDestroyed true c = Ok c' ->
  life c' = life c \/ life_step (life c) (life c').
Proof.
  intros Hi Hs E. destruct (connectionDestroyed_ok acc c Hi Hs) as (c1 & E1 & _ & H1 & _ & H2).
  rewrite E1 in E. injection E as <-. unfold life. rewrite H1, H2, List.filter_app. destruct Hs as [Hs|Hs]; rewrite Hs.
  - right. rewrite bool_decide_true by done. apply life_destroyed.
  - left. rewrite bool_decide_false by done. cbn. by rewrite app_nil_r.
Qed.

Lemma handleClose_life acc c :
  conn_inv acc c -> state_ c = kConnected \/ state_ c = kDisconnecting ->
  forall c', handleClose true c = Ok c' ->
  life c' = (kDisconnected, (life c).2 ++ [EvConnection false; EvClose]).
Proof.
  intros Hi Hs c' E. destruct (handleClose_ok acc c) as (c1 & E1 & _ & H1 & H2); [done..|].
  rewrite E1 in E. injection E as <-. unfold life. by rewrite H1, H2, List.filter_app.
Qed.

Lemma handleRead_life acc c rv :
  conn_inv acc c -> op_ok c (OpReadable rv) ->
  forall c', handleRead true c rv = Ok c' ->
  life c' = life c \/ life c' = (kDisconnected, (life c).2 ++ [EvConnection false; EvClose]).
Proof.
  intros Hi (Hs & Hrv & Hmax) c'. apply (watched_up acc) in Hs; [|done]. unfold handleRead. cbn [assertInLoopThread guard_ mbind res_bind].
  destruct (readFd (inputBuffer_ c) rv) as [[[n e] b]|] eqn:E; [|done]. cbn [mbind res_bind].
  destruct (0 <? n).
  { intros [= <-]. left. by rewrite life_call. }
  destruct (n =? 0).
  - unfold handleClose. cbn [assertInLoopThread guard_ mbind res_bind].
    rewrite assert_true by (cbn; destruct Hs as [-> | ->]; done). cbn [mbind res_bind]. intros [= <-].
    right. unfold life. cbn. by rewrite <- app_assoc, List.filter_app.
  - intros [= <-]. left. unfold handleError. by rewrite life_call.
Qed.

Lemma forceClose_life c : life (forceClose c) = life c \/ life_step (life c) (life (forceClose c)).
Proof.
  unfold forceClose, life. destruct (state_ c) eqn:E; cbn; rewrite ?E; try by left.
  right. apply life_shut.
Qed.

Lemma forceCloseWithDelay_life c :
  life (forceCloseWithDelay c) = life c \/ life_step (life c) (life (forceCloseWithDelay c)).
Proof.
  unfold forceCloseWithDelay. destruct (_ || _) eqn:E; [|left; by destruct c].
  rewrite life_call by done. unfold life. cbn. destruct (state_ c); [done|done| |by left].
  right. apply life_shut.
Qed.

Lemma shutdown_life c in_loop c' :
  state_ c = kConnected \/ state_ c = kDisconnecting -> shutdown in_loop c = Ok c' ->
  life c' = life c \/ life_step (life c) (life c').
Proof.
  intros Hs. unfold shutdown. case_bool_decide as E.
  - intros E'. right. assert (life c' = life (setState c kDisconnecting)) as ->.
    { destruct in_loop; [by apply shutdownInLoop_life|by injection E' as <-]. }
    unfold life. cbn. rewrite E. apply life_shut.
  - intros [= <-]. left. destruct Hs as [|Hs]; [done|]. unfold life. cbn. by rewrite Hs.
Qed.

Lemma run_next_life acc c w :
  conn_inv acc c -> op_any c (OpRunFunctor w) ->
  forall c', run_next c w = Ok c' -> life c' = life c.
Proof.
  intros Hi Hok c'. cbn in Hok. unfold run_next. pose proof (inv_queued _ _ Hi) as (_ & _ & Hq).
  pose proof (pop_functor_ok _ _ Hi) as Hi'. change (life c) with (life (pop_functor c)).
  destruct (queued c) as [|[message| | | |n] q]; cbn [run_functor]; try (by intros [= <-]).
  - intros E. eapply send_life; [exact Hi'|by intros E'; specialize (Hq E')|exact Hok|done].
  - apply shutdownInLoop_life.
  - intros [= <-]. by rewrite life_call.
  - intros [= <-]. by rewrite life_call.
Qed.

Lemma established_life c c' :
  connectionEstablished true c = Ok c' -> state_ c = kConnecting -> life_step (life c) (life c').
Proof.
  intros E Hs. revert E. unfold connectionEstablished. cbn [assertInLoopThread guard_ mbind res_bind].
  rewrite assert_true by (by rewrite Hs). cbn [mbind res_bind]. intros [= <-].
  unfold life. cbn. rewrite Hs, List.filter_app. apply life_up.
Qed.

(** The operations that can take a connection down. *)
Definition takes_down (op : conn_op) : bool :=
  match op with OpReadable _ | OpHangup | OpDestroyed => true | _ => false end.

Lemma shutdown_state c in_loop c' : shutdown in_loop c = Ok c' -> state_ c' = kDisconnecting.
Proof.
  unfold shutdown. case_bool_decide; [|by intros [= <-]].
  destruct in_loop; [|by intros [= <-]]. intros E. apply shutdownInLoop_life in E. by injection E.
Qed.

Lemma forceClose_state c : state_ (forceClose c) = kDisconnecting \/ forceClose c = c.
Proof. unfold forceClose. destruct (_ || _); [by left|right; by destruct c]. Qed.

Lemma forceCloseWithDelay_state c :
  state_ (forceCloseWithDelay c) = kDisconnecting \/ forceCloseWithDelay c = c.
Proof. unfold forceCloseWithDelay. destruct (_ || _); [by left|right; by destruct c]. Qed.

Lemma life_step_irrefl x : ~ life_step x x.
Proof. inversion 1; subst; [done..|]. by intuition. Qed.

(** The steps an operation may take; only some take the connection down. *)
Lemma step_life acc c op c' :
  conn_inv acc c -> op_any c op -> conn_step c op = Ok c' ->
  life c' = life c \/ (life_step (life c) (life c') /\ (takes_down op = false -> state_ c' <> kDisconnected)).
Proof.
  intros Hi Hok E. destruct op as [|message w|message|w|rv|w| | |in_loop| | |]; cbn [conn_step] in E.
  - right. destruct Hok as [Hok _]. split; [by apply established_life|].
    destruct (connectionEstablished_ok acc c) as (c1 & E1 & _ & Hs); [done..|]. congruence.
  - left. revert E. unfold send_string, connected. case_bool_decide; [|by intros [= <-]].
    intros E. eapply send_life; [exact Hi|congruence|exact Hok|done].
  - left. revert E. unfold send_string. destruct (connected c); by intros [= <-].
  - left. eapply run_next_life; [exact Hi|exact Hok|done].
  - destruct (handleRead_life acc c rv Hi Hok _ E) as [H|H]; [by left|rewrite H; right]. split; [|done].
    apply life_down. apply (watched_up acc); [apply Hok|done].
  - left. eapply handleWrite_life; [exact Hi|exact Hok|done].
  - right. split; [|done]. pose proof (watched_up _ _ Hok Hi) as Hs.
    rewrite (handleClose_life acc c Hi Hs c' E). by apply life_down.
  - injection E as <-. left. unfold handleError. by rewrite life_call.
  - pose proof (shutdown_state _ _ _ E) as Hs. destruct (shutdown_life c in_loop c' Hok E); [by left|].
    right. split; [done|congruence].
  - injection E as <-. destruct (forceClose_life c) as [|Hl]; [by left|right; split; [done|]].
    intros _. destruct (forceClose_state c) as [-> | E]; [done|]. rewrite E in Hl. by apply life_step_irrefl in Hl.
  - injection E as <-. destruct (forceCloseWithDelay_life c) as [|Hl]; [by left|right; split; [done|]].
    intros _. destruct (forceCloseWithDelay_state c) as [-> | E]; [done|]. rewrite E in Hl.
    by apply life_step_irrefl in Hl.
  - destruct Hok as [Hok _]. destruct (destroyed_life acc c c' Hi Hok E); [by left|by right].
Qed.

(** Only [connectionDestroyed] takes a connection down without the close callback. *)
Lemma step_closes acc c op c' :
  conn_inv acc c -> op_any c op -> conn_step c op = Ok c' -> op <> OpDestroyed ->
  state_ c <> kDisconnected -> state_ c' = kDisconnected ->
  life c' = (kDisconnected, (life c).2 ++ [EvConnection false; EvClose]).
Proof.
  intros Hi Hok E Hop Hc Hc'.
  destruct (step_life acc c op c' Hi Hok E) as [Hl|[_ Hd]]; [injection Hl; congruence|].
  destruct op; try (by destruct (Hd eq_refl)); [| |done].
  - destruct (handleRead_life acc c _ Hi Hok _ E) as [Hl|Hl]; [injection Hl; congruence|done].
  - apply (handleClose_life acc c Hi (watched_up _ _ Hok Hi) c' E).
Qed.

(** No operation aborts, with direct writes of any part of a message. *)
Lemma any_step_ok acc c op :
  conn_inv acc c -> op_any c op -> exists c' acc', conn_step c op = Ok c' /\ conn_inv acc' c'.
Proof.
  intros Hi Hok. assert (op_ok c op \/ (exists message w, op = OpSend message w /\ send_any c message w) \/
    exists message q w, op = OpRunFunctor w /\ queued c = FSend message :: q /\ send_any c message w)
    as [Hop|[(message & w & -> & Hs)|(message & q & w & -> & Hq & Hs)]].
  { destruct op; try (by left); cbn in Hok.
    - right. left. eauto.
    - destruct (queued c) as [|[message| | | |n] q] eqn:E; try (left; cbn; by rewrite E). right. right. eauto 10. }
  - destruct (conn_step_ok acc c op Hi Hop) as (c' & ? & ?). eauto.
  - cbn [conn_step]. unfold send_string, connected. case_bool_decide as Hc; [|eauto].
    destruct (sendInLoop_any acc c message w) as (c' & acc' & ? & ? & _); [done|congruence|done|eauto].
  - cbn [conn_step]. unfold run_next. rewrite Hq. cbn [run_functor]. pose proof (inv_queued _ _ Hi) as (_ & _ & H3).
    destruct (sendInLoop_any acc (pop_functor c) message w) as (c' & acc' & ? & ? & _); [by apply pop_functor_ok| |done|eauto].
    intros E. specialize (H3 E). congruence.
Qed.

Lemma any_run_ok ops : forall acc c,
  conn_inv acc c -> run_any c ops -> exists c' acc', conn_run c ops = Ok c' /\ conn_inv acc' c'.
Proof.
  induction ops as [|op ops IH]; intros acc c Hi Hok; cbn [conn_run]; [eauto|].
  destruct Hok as [Hop Hok]. destruct (any_step_ok acc c op Hi Hop) as (c1 & acc1 & E & Hi1).
  rewrite E. cbn [mbind res_bind]. eapply IH; [exact Hi1|by apply Hok].
Qed.

Lemma run_life ops : forall acc c c',
  conn_inv acc c -> run_any c ops -> conn_run c ops = Ok c' -> rtc life_step (life c) (life c').
Proof.
  induction ops as [|op ops IH]; intros acc c c' Hi Hok E; cbn [conn_run] in E.
  { by injection E as <-. }
  destruct Hok as [Hop Hok]. destruct (any_step_ok acc c op Hi Hop) as (c1 & acc1 & E1 & Hi1).
  rewrite E1 in E. cbn [mbind res_bind] in E. specialize (IH _ c1 c' Hi1 (Hok c1 E1) E).
  destruct (step_life acc c op c1 Hi Hop E1) as [<-|[Hl _]]; [done|]. by eapply rtc_l.
Qed.

(** The callbacks a connection in a state has made. *)
Definition life_calls (s : StateE) : list conn_event :=
  match s with
  | kConnecting => []
  | kConnected | kDisconnecting => [EvConnection true]
  | kDisconnected => [EvConnection true; EvConnection false; EvClose]
  end.

(** The other life, of a connection destroyed while it was up. *)
Definition destroyed_up : StateE * list conn_event := (kDisconnected, [EvConnection true; EvConnection false]).

Lemma life_reachable x : rtc life_step (kConnecting, []) x -> x.2 = life_calls x.1 \/ x = destroyed_up.
Proof.
  intros H. assert (forall x y, rtc life_step x y -> x.2 = life_calls x.1 \/ x = destroyed_up ->
    y.2 = life_calls y.1 \/ y = destroyed_up) as Hg.
  { clear. induction 1 as [|x y z Hxy _ IH]; [done|]. intros Hx. apply IH.
    destruct Hxy as [l|l|s l Hs|l]; cbn in *.
    - destruct Hx as [->|[=]]. by left.
    - destruct Hx as [->|[=]]. by left.
    - destruct Hx as [Hx|Hx]; [|injection Hx as -> ->; by destruct Hs]. left. destruct Hs as [-> | ->]; by rewrite Hx.
    - destruct Hx as [->|[=]]. by right. }
  apply (Hg (kConnecting, [])); [done|by left].
Qed.

Lemma destroyed_disconnecting acc c :
  conn_inv acc c -> state_ c = kDisconnecting -> connectionDestroyed true c = Err AssertFail.
Proof.
  intros Hi Hs. pose proof (inv_reading _ _ Hi ltac:(congruence) ltac:(congruence)) as Hrd.
  unfold connectionDestroyed. cbn [assertInLoopThread guard_ mbind res_bind]. rewrite bool_decide_false by congruence.
  unfold isNoneEvent. destruct (Z.eqb_spec (Channel.events_ (channel_ c)) kNoneEvent) as [E|]; [|done].
  unfold isReading in Hrd. by rewrite E in Hrd.
Qed.

(** C18: a connection's life refines the automaton connecting, connected,
    disconnecting, disconnected, in every run of the operations of [conn_op]
    within their conditions ([run_any]: events come while the poller watches
    the channel, direct writes take any part of the message, the connection is
    established once, destroyed at most once, and shut down while it is up):
    nothing aborts; the connection callback is made once when the connection
    comes up and once when it goes down, then followed by the one call of the
    close callback, unless it went down by being destroyed.  The two conditions
    that the code does not see to are needed: destroying a connection that is
    disconnecting fails an assertion, and [shutdown] brings one that is down
    back to disconnecting. *)
Theorem life_cycle loop sockfd wc hw mark c ops :
  new_connection loop sockfd wc hw mark = Ok c -> run_any c ops ->
  exists c', conn_run c ops = Ok c' /\ rtc life_step (kConnecting, []) (life c') /\
    (List.filter is_life (events_ c') = life_calls (state_ c') \/ life c' = destroyed_up) /\
    (state_ c' = kDisconnecting -> conn_step c' OpDestroyed = Err AssertFail) /\
    (state_ c' = kDisconnected ->
     exists c2, conn_step c' (OpShutdown true) = Ok c2 /\ state_ c2 = kDisconnecting).
Proof.
  intros Hc Hok. pose proof (new_connection_inv _ _ _ _ _ _ Hc) as Hi.
  destruct (any_run_ok ops [] c Hi Hok) as (c' & acc' & Hr & Hi'). exists c'. split; [done|].
  assert (rtc life_step (kConnecting, []) (life c')) as Hl.
  { replace (kConnecting, []) with (life c) by (by injection Hc as <-). by eapply run_life. }
  split; [done|]. split; [apply (life_reachable _ Hl)|]. split; [by apply (destroyed_disconnecting acc')|].
  intros Hs. exists (setState c' kDisconnecting). split; [|done]. cbn [conn_step]. unfold shutdown. by rewrite Hs.
Qed.

Lemma no_read_run ops : forall acc c,
  conn_inv acc c -> state_ c = kDisconnecting -> Forall (fun op => takes_down op = false) ops -> run_ok c ops ->
  exists c', conn_run c ops = Ok c' /\ conn_inv (acc ++ accepted c ops) c' /\ life c' = life c.
Proof.
  induction ops as [|op ops IH]; intros acc c Hi Hs Hr Hok; cbn [conn_run accepted].
  { exists c. by rewrite app_nil_r. }
  apply Forall_cons in Hr as [Hr1 Hr]. destruct Hok as [Hop Hok].
  destruct (conn_step_ok acc c op Hi Hop) as (c1 & E1 & Hi1).
  assert (life c1 = life c) as Hl.
  { destruct (step_life acc c op c1 Hi (op_ok_any _ _ Hop) E1) as [|[Hl Hd]]; [done|]. exfalso. apply (Hd Hr1).
    unfold life in Hl. rewrite Hs in Hl. by inversion Hl. }
  assert (state_ c1 = kDisconnecting) as Hs1 by (pose proof (f_equal fst Hl) as E; cbn in E; congruence).
  rewrite E1. cbn [mbind res_bind]. rewrite app_assoc, <- Hl. apply IH; [done..|by apply Hok].
Qed.

(** ** Forced close and destruction *)

(** [forceClose] only shuts the write side down: until the socket is read
    again the connection stays open, in state disconnecting and reading, and
    the application gets no callback, whatever else happens.
    [forceCloseInLoop], which nothing calls, would have taken it down. *)
Theorem force_close_waits_for_peer acc c ops :
  conn_inv acc c -> state_ c = kConnected \/ state_ c = kDisconnecting ->
  Forall (fun op => takes_down op = false) ops -> run_ok (forceClose c) ops ->
  (exists c', conn_run c (OpForceClose :: ops) = Ok c' /\ state_ c' = kDisconnecting /\
     isReading (channel_ c') = true /\
     List.filter is_life (events_ c') = List.filter is_life (events_ c)) /\
  (exists c', forceCloseInLoop true c = Ok c' /\ state_ c' = kDisconnected /\
     Channel.events_ (channel_ c') = 0 /\ events_ c' = events_ c ++ [EvConnection false; EvClose]).
Proof.
  intros Hi Hs Hr Hok. split.
  - assert (state_ (forceClose c) = kDisconnecting /\ events_ (forceClose c) = events_ c) as [Hs' He].
    { unfold forceClose. by destruct Hs as [-> | ->]. }
    destruct (no_read_run ops acc (forceClose c)) as (c' & H1 & Hi' & Hl); [by apply forceClose_ok|done..|].
    pose proof (f_equal fst Hl) as Hl1. pose proof (f_equal snd Hl) as Hl2. cbn in Hl1, Hl2.
    exists c'. split; [done|]. split; [congruence|]. split; [apply (inv_reading _ _ Hi'); congruence|].
    by rewrite Hl2, He.
  - unfold forceCloseInLoop. cbn [assertInLoopThread guard_ mbind res_bind].
    replace (bool_decide (state_ c = kConnected) || bool_decide (state_ c = kDisconnecting)) with true
      by (by destruct Hs as [-> | ->]).
    destruct (handleClose_ok acc c Hi Hs) as (c' & H1 & Hi' & Hs' & He). exists c'.
    split; [done|]. split; [done|]. split; [by apply (inv_disconnected _ _ Hi')|done].
Qed.

Definition is_connection (e : conn_event) : bool := match e with EvConnection _ => true | _ => false end.

Lemma filter_connection l :
  List.filter is_connection l = List.filter is_connection (List.filter is_life l).
Proof.
  induction l as [|e l IH]; [done|]. cbn. destruct e; cbn; by rewrite IH.
Qed.

(** Destroying a connection after any run: one that is up goes down with
    its callback, one that is down or was never established is taken out of
    the loop (whose own check that the channel was added is in EPollPoller.v), so that the connection callbacks are paired; one whose shutdown
    has not finished (state disconnecting) fails the assertion of
    [Channel::remove], since its channel still has events. *)
Theorem connectionDestroyed_outcome loop sockfd wc hw mark c ops c' :
  new_connection loop sockfd wc hw mark = Ok c -> run_ok c ops -> conn_run c ops = Ok c' ->
  if bool_decide (state_ c' = kDisconnecting) then connectionDestroyed true c' = Err AssertFail
  else exists c'', connectionDestroyed true c' = Ok c'' /\ removed c'' = true /\
         Channel.events_ (channel_ c'') = 0 /\
         List.filter is_connection (events_ c'') =
         (if bool_decide (state_ c' = kConnecting) then [] else [EvConnection true; EvConnection false]).
Proof.
  intros Hc Hok Hr. pose proof (new_connection_inv _ _ _ _ _ _ Hc) as Hi.
  destruct (conn_run_ok ops [] c Hi Hok) as (c1 & Hr1 & Hi'). rewrite Hr in Hr1. injection Hr1 as <-.
  assert (rtc life_step (kConnecting, []) (life c')) as Hl.
  { replace (kConnecting, []) with (life c) by (by injection Hc as <-). eapply run_life; [exact Hi|by apply run_ok_any|done]. }
  assert (List.filter is_connection (events_ c') =
    match state_ c' with
    | kConnecting => []
    | kConnected | kDisconnecting => [EvConnection true]
    | kDisconnected => [EvConnection true; EvConnection false]
    end) as Hev.
  { rewrite filter_connection. apply life_reachable in Hl as [Hl|Hl].
    - cbn in Hl. rewrite Hl. by destruct (state_ c').
    - injection Hl as Hs ->. by rewrite Hs. }
  unfold connectionDestroyed. cbn [assertInLoopThread guard_ mbind res_bind].
  pose proof (inv_reading _ _ Hi') as Hrd. pose proof (inv_disconnected _ _ Hi') as Hd.
  pose proof (inv_connecting _ _ Hi') as Hcn.
  destruct (state_ c') eqn:Hs.
  - rewrite !bool_decide_false by done. rewrite assert_true by (unfold isNoneEvent; by rewrite Hd).
    eexists. split; [done|]. split; [done|]. split; [by apply Hd|]. cbn. by rewrite Hev.
  - destruct (Hcn eq_refl) as [_ He]. change (bool_decide (kConnecting = kDisconnecting)) with false.
    change (bool_decide (kConnecting = kConnected)) with false.
    rewrite assert_true by (unfold isNoneEvent; by rewrite He).
    eexists. split; [done|]. split; [done|]. split; [done|]. cbn. by rewrite Hev.
  - change (bool_decide (kConnected = kConnected)) with true.
    rewrite !bool_decide_false by done. eexists. split; [done|]. split; [done|]. split; [done|].
    cbn. by rewrite List.filter_app, Hev.
  - rewrite bool_decide_true by done. specialize (Hrd ltac:(done) ltac:(done)).
    rewrite bool_decide_false by done. unfold isNoneEvent.
    destruct (Z.eqb_spec (Channel.events_ (channel_ c')) kNoneEvent) as [E|]; [|done].
    unfold isReading in Hrd. by rewrite E in Hrd.
Qed.

(** ** Handlers and sends, one at a time *)

(** The results of the system calls.  A direct write takes the whole message or
    nothing, on a connection that the peer still reads. *)
Definition send_accepted (c : TcpConnection) (m : bytes) (w : write_ret) : Prop :=
  write_ok (zlen m) w /\ whole_write c m w /\
  zlen (buffer_ (outputBuffer_ c)) + zlen m <= max_size /\ w <> WriteErr EPIPE.

Lemma sendInLoop_input c m w c' : sendInLoop true c m w = Ok c' -> inputBuffer_ c' = inputBuffer_ c.
Proof.
  unfold sendInLoop, queue_rest. cbn [assertInLoopThread guard_ mbind res_bind]. intros Hsend.
  repeat (case_match; simplify_eq); inv_res; repeat case_match; simplify_eq; done.
Qed.

Lemma handleWrite_frame c w c' : handleWrite true c w = Ok c' ->
  state_ c' = state_ c /\ inputBuffer_ c' = inputBuffer_ c.
Proof.
  unfold handleWrite, shutdownInLoop. cbn [assertInLoopThread guard_ mbind res_bind]. intros Hwrite.
  repeat (case_match; simplify_eq; inv_res); done.
Qed.
(** The read handler on data. *)
Lemma handleRead_data acc c d0 d1 :
  conn_inv acc c -> readv_ok (writableBytes (inputBuffer_ c)) extrabuf_size (ReadvOk d0 d1) ->
  zlen (buffer_ (inputBuffer_ c)) + extrabuf_size <= max_size -> d0 ++ d1 <> [] ->
  exists b, handleRead true c (ReadvOk d0 d1) = Ok (call (setInput c b) EvMessage) /\
    buffer_ok b /\ toStringView b = toStringView (inputBuffer_ c) ++ d0 ++ d1 /\ 0 < zlen d0 + zlen d1.
Proof.
  intros Hi Hrv Hmax Hne. assert (0 < zlen d0 + zlen d1) as Hpos.
  { rewrite <- zlen_app. destruct (d0 ++ d1); [done|zlen_lia]. }
  destruct (readFd_ok (inputBuffer_ c) d0 d1) as (b & E & Hb & Hv & _); [apply Hi|done..|].
  exists b. split; [|done]. unfold handleRead. cbn [assertInLoopThread guard_ mbind res_bind].
  rewrite E. cbn [mbind res_bind]. by rewrite (proj2 (Z.ltb_lt _ _)) by done.
Qed.

Lemma setInput_inv acc c b : conn_inv acc c -> buffer_ok b -> conn_inv acc (setInput c b).
Proof. intros Hi Hb. split; cbn; try apply Hi; done. Qed.

Lemma call_inv acc c e : conn_inv acc c -> conn_inv acc (call c e).
Proof. intros Hi. eapply conn_inv_frame; [exact Hi|done..|apply Hi]. Qed.

(** An accepted send on an open connection. *)
Lemma send_accepted_ok acc c m w :
  conn_inv acc c -> state_ c = kConnected -> send_accepted c m w ->
  exists c', send_string true c m w = Ok c' /\ conn_inv (acc ++ m) c' /\
    state_ c' = kConnected /\ inputBuffer_ c' = inputBuffer_ c.
Proof.
  intros Hi Hs (H1 & H2 & H3 & H4). assert (send_ok c m w) as Hok.
  { split; [done|]. split; [done|]. split; [done|]. intros Hw.
    by destruct (inv_closed _ _ Hi Hw) as [[] _]. }
  destruct (sendInLoop_ok acc c m w Hi ltac:(congruence) Hok) as (c' & E & Hi' & Hl & _).
  exists c'. unfold send_string, connected. rewrite Hs. split; [done|].
  pose proof (sendInLoop_input _ _ _ _ E). split; [|by rewrite Hl].
  unfold taken in Hi'. rewrite Hs in Hi'. cbn [bool_decide] in Hi'.
  destruct w as [e|n]; [|by rewrite andb_false_r in Hi'].
  destruct (Z.eqb_spec e EPIPE) as [->|]; [done|]. by rewrite andb_false_r in Hi'.
Qed.

(** Shutting down an open connection closes its write side at once or when the
    output has drained. *)
Lemma shutdown_open acc c :
  conn_inv acc c -> state_ c = kConnected ->
  exists c', shutdown true c = Ok c' /\ conn_inv acc c' /\ state_ c' = kDisconnecting /\
    inputBuffer_ c' = inputBuffer_ c /\
    (toStringView (outputBuffer_ c') = [] -> write_closed c' = true).
Proof.
  intros Hi Hs. pose proof (disconnecting_ok acc c Hi ltac:(by left)) as Hi1.
  destruct (shutdownInLoop_ok acc (setState c kDisconnecting) Hi1) as (c' & E & Hi' & Hs' & Hw); [by left|].
  exists c'. unfold shutdown. rewrite Hs. split; [exact E|]. split; [done|]. split; [done|].
  assert (inputBuffer_ c' = inputBuffer_ c /\ outputBuffer_ c' = outputBuffer_ c) as [H1 H2].
  { unfold shutdownInLoop in E. cbn [assertInLoopThread guard_ mbind res_bind] in E.
    injection E as <-. by destruct (isWriting _). }
  split; [done|]. rewrite H2. intros Hv. apply Hw. right. cbn.
  destruct (isWriting (channel_ c)) eqn:Ew; [|done].
  by destruct (proj1 (inv_writing _ _ Hi ltac:(congruence)) Ew).
Qed.

Lemma setState_same c : setState c (state_ c) = c.
Proof. by destruct c. Qed.

(** In the loop's thread a buffer is sent like a string of its bytes. *)
Lemma send_buffer_string c b w : buffer_ok b ->
  send_buffer true c b w =
    c' ← send_string true c (toStringView b) w; Ok (c', if connected c then retrieveAll b else b).
Proof.
  intros Hb. unfold send_buffer, send_string. destruct (connected c); [|done].
  pose proof (zlen_toStringView b Hb) as Hz. pose proof (zlen_nonneg (toStringView b)).
  rewrite mem_read_view by (done || lia).
  cbn [mbind res_bind]. rewrite <- zlen_toStringView by done. by rewrite take_all.
Qed.

(** ** Sends from other threads *)

(** The functor of [send(const void*, size_t)] outlives the string it refers
    to: it is not safe to run it once [send] has returned, while
    [send(std::string&&)] keeps its own copy. *)
Lemma pointer_send_dangles c message w w' :
  state_ c = kConnected -> queued c = [] ->
  (exists c1, send_pointer false c message w = Ok c1 /\ run_next c1 w' = Err UseAfterFree) /\
  (exists c1, send_string false c message w = Ok c1 /\
     run_next c1 w' = sendInLoop true c message w').
Proof.
  intros Hs Hq. unfold send_pointer, send_string, connected. rewrite bool_decide_true by done.
  split; eexists; (split; [done|]); unfold run_next; cbn; rewrite Hq; cbn; [done|].
  unfold pop_functor. cbn. rewrite Hq. cbn. by destruct c; cbn in *; subst.
Qed.

(** [shutdown] exchanges the state before it looks at the old one: a
    connection that is down is disconnecting afterwards. *)
Lemma shutdown_revives c in_loop :
  state_ c = kDisconnected -> shutdown in_loop c = Ok (setState c kDisconnecting).
Proof. intros Hs. unfold shutdown. by rewrite Hs. Qed.

(** ** Deciding the conditions of a run *)

#[global] Instance write_ret_eq_dec : EqDecision write_ret.
Proof. solve_decision. Defined.

#[global] Instance write_ok_dec len w : Decision (write_ok len w).
Proof. destruct w; unfold write_ok; apply _. Defined.
#[global] Instance whole_write_dec c message w : Decision (whole_write c message w).
Proof. destruct w; unfold whole_write; apply _. Defined.
#[global] Instance readv_ok_dec a b rv : Decision (readv_ok a b rv).
Proof. destruct rv; unfold readv_ok; apply _. Defined.
#[global] Instance send_ok_dec c message w : Decision (send_ok c message w).
Proof. unfold send_ok. apply _. Defined.
#[global] Instance op_ok_dec c op : Decision (op_ok c op).
Proof.
  destruct op; unfold op_ok, watched; try apply _. destruct (queued c) as [|[] ?]; apply _.
Defined.

Fixpoint run_okb (c : TcpConnection) (ops : list conn_op) : bool :=
  match ops with
  | [] => true
  | op :: ops =>
      bool_decide (op_ok c op) &&
      match conn_step c op with Ok c => run_okb c ops | Err _ => true end
  end.

#[global] Instance send_any_dec c message w : Decision (send_any c message w).
Proof. unfold send_any. apply _. Defined.
#[global] Instance op_any_dec c op : Decision (op_any c op).
Proof.
  destruct op; unfold op_any; try apply _. destruct (queued c) as [|[] ?]; apply _.
Defined.

Fixpoint run_anyb (c : TcpConnection) (ops : list conn_op) : bool :=
  match ops with
  | [] => true
  | op :: ops =>
      bool_decide (op_any c op) &&
      match conn_step c op with Ok c => run_anyb c ops | Err _ => true end
  end.

Lemma run_anyb_ok ops : forall c, run_anyb c ops = true -> run_any c ops.
Proof.
  induction ops as [|op ops IH]; intros c; cbn; [done|]. rewrite andb_true_iff, bool_decide_eq_true.
  intros [H1 H2]. split; [done|]. intros c' E. rewrite E in H2. by apply IH.
Qed.

Lemma run_okb_ok ops : forall c, run_okb c ops = true -> run_ok c ops.
Proof.
  induction ops as [|op ops IH]; intros c; cbn; [done|]. rewrite andb_true_iff, bool_decide_eq_true.
  intros [H1 H2]. split; [done|]. intros c' E. rewrite E in H2. by apply IH.
Qed.

(** ** Witnesses *)

Definition demo_start : TcpConnection :=
  match new_connection 1 5 true true 4 with
  | Ok c => c
  | Err _ => mkConn kConnecting (Channel_ctor 1 5) false false 0 (mkBuffer [] 0 0) (mkBuffer [] 0 0)
               [] [] [] false false
  end.

Definition demo_abc : bytes := lit "abc".
Definition demo_def : bytes := lit "def".

(** The connection comes up, buffers "abc" and "def" and writes two bytes. *)
Definition demo_ops : list conn_op :=
  [OpEstablished; OpSend demo_abc (WriteErr EWOULDBLOCK); OpSendFromThread demo_def;
   OpRunFunctor (WriteErr EWOULDBLOCK); OpRunFunctor (WriteErr EWOULDBLOCK); OpWritable (WriteOk 2)].

Definition demo_run (ops : list conn_op) : TcpConnection :=
  match conn_run demo_start ops with Ok c => c | Err _ => demo_start end.

Lemma demo_start_inv : conn_inv [] demo_start.
Proof. by eapply (new_connection_inv 1 5 true true 4). Qed.

Lemma demo_run_inv ops :
  run_okb demo_start ops = true -> conn_inv (accepted demo_start ops) (demo_run ops).
Proof.
  intros Hok. destruct (conn_run_ok ops [] demo_start demo_start_inv) as (c & H1 & H2);
    [by apply run_okb_ok|]. unfold demo_run. by rewrite H1.
Qed.

Lemma stream_integrity_witness :
  let ops := demo_ops ++ [OpShutdown true; OpWritable (WriteOk 4)] in
  exists c', conn_run demo_start ops = Ok c' /\
    written c' ++ toStringView (outputBuffer_ c') = accepted demo_start ops /\
    (state_ c' <> kDisconnected ->
     (isWriting (channel_ c') = true <-> toStringView (outputBuffer_ c') <> [])) /\
    (state_ c' <> kDisconnected -> write_closed c' = true -> written c' = accepted demo_start ops).
Proof.
  apply (stream_integrity 1 5 true true 4); [reflexivity | apply run_okb_ok; vm_compute; reflexivity].
Defined.

Example stream_example :
  accepted demo_start demo_ops = demo_abc ++ demo_def /\
  written (demo_run (demo_ops ++ [OpShutdown true; OpWritable (WriteOk 4)])) = demo_abc ++ demo_def.
Proof. split; vm_compute; reflexivity. Qed.

Lemma partial_write_corrupts_witness :
  let c := demo_run [OpEstablished] in
  exists c1 c2, sendInLoop true c demo_abc (WriteOk 2) = Ok c1 /\
    handleWrite true c1 (WriteOk 1) = Ok c2 /\
    toStringView (outputBuffer_ c2) = [] /\
    written c2 = [] ++ lit "ab" ++ lit "a" /\
    (written c2 = [] ++ demo_abc <-> lit "a" = lit "c").
Proof.
  apply (partial_write_corrupts [] (demo_run [OpEstablished]) demo_abc 2);
    [by apply (demo_run_inv [OpEstablished]); vm_compute | by vm_compute ..].
Defined.

Lemma shutdown_after_drain_witness :
  let c := demo_run demo_ops in
  exists c', conn_run c (OpShutdown true :: writes [3; 1]) = Ok c' /\ state_ c' = kDisconnecting /\
    written c' = written c ++ take (Z.to_nat 4) (toStringView (outputBuffer_ c)) /\
    (write_closed c' = true <-> 4 = zlen (toStringView (outputBuffer_ c))) /\
    (write_closed c' = true -> written c' = accepted demo_start demo_ops).
Proof.
  apply (shutdown_after_drain (accepted demo_start demo_ops) (demo_run demo_ops) [3; 1]);
    [by apply demo_run_inv; vm_compute | by vm_compute | by repeat constructor | by vm_compute].
Defined.

(** A direct write that takes two of three bytes, then the peer hangs up. *)
Definition demo_partial : list conn_op :=
  [OpEstablished; OpSend demo_abc (WriteOk 2); OpWritable (WriteOk 1); OpHangup].

Lemma life_cycle_witness :
  exists c', conn_run demo_start demo_partial = Ok c' /\
    rtc life_step (kConnecting, []) (life c') /\
    (List.filter is_life (events_ c') = life_calls (state_ c') \/ life c' = destroyed_up) /\
    (state_ c' = kDisconnecting -> conn_step c' OpDestroyed = Err AssertFail) /\
    (state_ c' = kDisconnected ->
     exists c2, conn_step c' (OpShutdown true) = Ok c2 /\ state_ c2 = kDisconnecting).
Proof.
  apply (life_cycle 1 5 true true 4); [reflexivity | apply run_anyb_ok; vm_compute; reflexivity].
Defined.

Lemma force_close_waits_for_peer_witness :
  let c := demo_run demo_ops in
  (exists c', conn_run c (OpForceClose :: [OpRunFunctor (WriteErr EPIPE); OpWritable (WriteOk 4)]) = Ok c' /\
     state_ c' = kDisconnecting /\ isReading (channel_ c') = true /\
     List.filter is_life (events_ c') = List.filter is_life (events_ c)) /\
  (exists c', forceCloseInLoop true c = Ok c' /\ state_ c' = kDisconnected /\
     Channel.events_ (channel_ c') = 0 /\ events_ c' = events_ c ++ [EvConnection false; EvClose]).
Proof.
  apply (force_close_waits_for_peer (accepted demo_start demo_ops) (demo_run demo_ops)).
  - by apply demo_run_inv; vm_compute.
  - left. by vm_compute.
  - by repeat constructor.
  - apply run_okb_ok. by vm_compute.
Defined.

Lemma connectionDestroyed_outcome_witness :
  let c := demo_run (demo_ops ++ [OpShutdown true]) in
  if bool_decide (state_ c = kDisconnecting) then connectionDestroyed true c = Err AssertFail
  else exists c'', connectionDestroyed true c = Ok c'' /\ removed c'' = true /\
         Channel.events_ (channel_ c'') = 0 /\
         List.filter is_connection (events_ c'') =
         (if bool_decide (state_ c = kConnecting) then [] else [EvConnection true; EvConnection false]).
Proof.
  apply (connectionDestroyed_outcome 1 5 true true 4 demo_start (demo_ops ++ [OpShutdown true]));
    [reflexivity | apply run_okb_ok; vm_compute; reflexivity | vm_compute; reflexivity].
Defined.
