(* ===== verification/HttpSession.v ===== *)
(** * HTTP sessions: HttpServer.cc over TcpConnection.cc

    A connection of the HTTP server with its context: what the loop's events
    make of it when the message callback is [HttpServer::onMessage] and the
    calls that makes reach the connection. *)

From S2P Require Import Prelude StdContainers Buffer BufferSpec Channel Poller HttpRequest HttpContext TcpConnection.
From S2P Require HttpResponse HttpServer.
Import HttpServer(conn_call, CallSend, CallShutdown, onMessage, answer, close_of, responses_fit,
  onRequest_answer, defaultHttpCallback, default_fits).
Import HttpResponse(HttpResponse, HttpResponse_ctor, render_response, isCloseConnection).

(** ** The connection *)

Record http_conn := mkHttp { conn_ : TcpConnection; context_ : option HttpContext }.

(** A call of the server on the connection, in the loop's thread, where all
    overloads of [send] write the bytes they are given; [w] is the result of
    its [write]. *)
Definition do_call (c : TcpConnection) (call : conn_call) (w : write_ret) : res TcpConnection :=
  match call with
  | CallSend m => send_string true c m w
  | CallShutdown => shutdown true c
  end.

Fixpoint do_calls (c : TcpConnection) (calls : list conn_call) (ws : nat -> write_ret) : res TcpConnection :=
  match calls with
  | [] => Ok c
  | call :: calls => c ← do_call c call (ws 0%nat); do_calls c calls (fun k => ws (S k))
  end.

(** A new connection of the server, up to its connection callback. *)
Definition http_new (loop sockfd : Z) : res http_conn :=
  c ← TcpConnection_ctor loop sockfd;
  c ← connectionEstablished true c;
  Ok (mkHttp c (HttpServer.onConnection (connected c) None)).

Section Session.
Context (httpCallback : HttpRequest -> HttpResponse -> HttpResponse).

(** The message callback; [None] if the parser does not return. *)
Definition http_message (h : http_conn) (t : Z) (ws : nat -> write_ret) : option (res http_conn) :=
  match onMessage httpCallback (context_ h) (inputBuffer_ (conn_ h)) t with
  | None => None
  | Some (Err e) => Some (Err e)
  | Some (Ok (c, buf, calls)) =>
      Some (conn ← do_calls (setInput (conn_ h) buf) calls ws; Ok (mkHttp conn (Some c)))
  end.

(** The descriptor is readable, at a time and with the results of the writes
    the server does then; or it is writable; or it has an error. *)
Inductive http_event :=
| EvRead (rv : readv_ret) (t : Z) (ws : nat -> write_ret)
| EvWritable (w : write_ret)
| EvFailed.

Definition http_step (h : http_conn) (ev : http_event) : option (res http_conn) :=
  match ev with
  | EvRead rv t ws =>
      match handleRead true (conn_ h) rv with
      | Err e => Some (Err e)
      | Ok c =>
          let h := mkHttp c (context_ h) in
          match rv with
          | ReadvOk d0 d1 => if 0 <? zlen d0 + zlen d1 then http_message h t ws else Some (Ok h)
          | ReadvErr _ => Some (Ok h)
          end
      end
  | EvWritable w => Some (c ← handleWrite true (conn_ h) w; Ok (mkHttp c (context_ h)))
  | EvFailed => Some (Ok (mkHttp (handleError (conn_ h)) (context_ h)))
  end.

Fixpoint http_run (h : http_conn) (evs : list http_event) : option (res http_conn) :=
  match evs with
  | [] => Some (Ok h)
  | ev :: evs =>
      match http_step h ev with
      | Some (Ok h) => http_run h evs
      | x => x
      end
  end.

(** ** Specification *)

(** The events bring the rest of a request of which [p] has arrived, in reads
    of any size; the read that brings the end of the headers brings the body. *)
Fixpoint delivers (w : wire_request) (p : bytes) (evs : list http_event) : Prop :=
  match evs with
  | [] => p = render_request w
  | EvRead (ReadvOk d0 d1) _ _ :: evs =>
      d0 ++ d1 <> [] /\ (length p < length (render_head w))%nat /\ delivers w (p ++ d0 ++ d1) evs
  | _ :: evs => delivers w p evs
  end.

Definition times (evs : list http_event) : list Z :=
  omap (fun ev => match ev with EvRead _ t _ => Some t | _ => None end) evs.

Definition reply (r : HttpRequest) : HttpResponse := httpCallback r (HttpResponse_ctor (close_of r)).

(** What goes out for a sequence of requests: nothing after a response that
    closes the connection. *)
Fixpoint replies (rs : list HttpRequest) : bytes :=
  match rs with
  | [] => []
  | r :: rs => render_response (reply r) ++ if isCloseConnection (reply r) then [] else replies rs
  end.

Definition closes (rs : list HttpRequest) : bool := existsb (fun r => isCloseConnection (reply r)) rs.

Definition http_event_ok (h : http_conn) (ev : http_event) : Prop :=
  match ev with
  | EvRead rv t ws =>
      readv_ok (writableBytes (inputBuffer_ (conn_ h))) extrabuf_size rv /\
      zlen (buffer_ (inputBuffer_ (conn_ h))) + extrabuf_size <= max_size /\
      forall c ctx buf calls k m,
        handleRead true (conn_ h) rv = Ok c ->
        onMessage httpCallback (context_ h) (inputBuffer_ c) t = Some (Ok (ctx, buf, calls)) ->
        calls !! k = Some (CallSend m) -> connected c = true -> send_accepted c m (ws k)
  | EvWritable w => write_ok (zlen (toStringView (outputBuffer_ (conn_ h)))) w
  | EvFailed => True
  end.

Fixpoint http_run_ok (h : http_conn) (evs : list http_event) : Prop :=
  match evs with
  | [] => True
  | ev :: evs => http_event_ok h ev /\ forall h', http_step h ev = Some (Ok h') -> http_run_ok h' evs
  end.

(** ** Invariant: [acc] has been accepted for sending, and [p] of the next
    request has arrived at the times [ts]. *)
Record session_inv (acc : bytes) (open : bool) (ts : list Z) (p : bytes) (h : http_conn) : Prop := {
  inv_conn : conn_inv acc (conn_ h);
  inv_open : state_ (conn_ h) = if open then kConnected else kDisconnecting;
  inv_half : open = false -> toStringView (outputBuffer_ (conn_ h)) = [] -> write_closed (conn_ h) = true;
  inv_context : exists c, context_ h = Some c /\ arrived ts p c (toStringView (inputBuffer_ (conn_ h)))
}.

(** ** Lemmas *)

(** Shutting down again, and sending then, does nothing. *)
Lemma shutdown_half c : state_ c = kDisconnecting -> exists c', shutdown true c = Ok c' /\
  c' = setState c kDisconnecting.
Proof. intros Hs. unfold shutdown. rewrite Hs. by eexists. Qed.

Lemma send_half c m w : state_ c = kDisconnecting -> send_string true c m w = Ok c.
Proof. intros Hs. unfold send_string, connected. by rewrite Hs. Qed.

(** The calls for one request. *)
Lemma answer_ok acc c r ws (open : bool) :
  responses_fit httpCallback -> conn_inv acc c ->
  state_ c = (if open then kConnected else kDisconnecting) ->
  (open = false -> toStringView (outputBuffer_ c) = [] -> write_closed c = true) ->
  (connected c = true -> send_accepted c (render_response (reply r)) (ws 0%nat)) ->
  exists c', do_calls c (answer httpCallback r) ws = Ok c' /\
    conn_inv (acc ++ if open then render_response (reply r) else []) c' /\
    inputBuffer_ c' = inputBuffer_ c /\
    let open' := open && negb (isCloseConnection (reply r)) in
    state_ c' = (if open' then kConnected else kDisconnecting) /\
    (open' = false -> toStringView (outputBuffer_ c') = [] -> write_closed c' = true).
Proof.
  intros Hfit Hi Hs Hhalf Hok. unfold answer. fold (reply r). cbn [do_calls do_call].
  destruct open; cbn [andb].
  - destruct (send_accepted_ok acc c _ _ Hi Hs (Hok ltac:(unfold connected; by rewrite Hs)))
      as (c1 & -> & Hi1 & Hs1 & Hin1).
    cbn [mbind res_bind]. destruct (isCloseConnection (reply r)); cbn [do_calls do_call negb].
    + destruct (shutdown_open _ c1 Hi1 Hs1) as (c2 & -> & Hi2 & Hs2 & Hin2 & Hw2).
      cbn [mbind res_bind]. exists c2. rewrite Hin2. done.
    + by exists c1.
  - rewrite send_half, app_nil_r by done. cbn [mbind res_bind].
    destruct (isCloseConnection (reply r)); cbn [do_calls do_call]; [|by exists c].
    destruct (shutdown_half c Hs) as (c' & -> & ->). cbn [mbind res_bind].
    rewrite <- Hs, setState_same. by exists c.
Qed.
(** Draining the output of a half-closed connection closes it. *)
Lemma handleWrite_half acc c w c' :
  conn_inv acc c' -> state_ c = kDisconnecting ->
  (toStringView (outputBuffer_ c) = [] -> write_closed c = true) ->
  handleWrite true c w = Ok c' -> toStringView (outputBuffer_ c') = [] -> write_closed c' = true.
Proof.
  intros Hi Hs Hw E Hv. pose proof (handleWrite_frame _ _ _ E) as [Hs' _].
  assert (isWriting (channel_ c') = false) as Hf.
  { destruct (isWriting (channel_ c')) eqn:Ew; [|done].
    by destruct (proj1 (inv_writing _ _ Hi ltac:(congruence)) Ew). }
  revert E Hf Hv. unfold handleWrite, shutdownInLoop. cbn [assertInLoopThread guard_ mbind res_bind].
  destruct (isWriting (channel_ c)) eqn:Ew; [|intros [= <-]; auto].
  destruct w as [e|n]; [intros [= <-]; auto|]. destruct (0 <? n); [|intros [= <-]; auto].
  intros E. inv_res. destruct (_ =? 0); [|by injection E as <-; cbn; rewrite Ew].
  rewrite bool_decide_true in E by (by destruct (writeCompleteCallback_ _)).
  injection E as <-. by destruct (isWriting _) eqn:Ew'; cbn; rewrite ?Ew'.
Qed.

Lemma step_writable acc open ts p h w :
  session_inv acc open ts p h -> http_event_ok h (EvWritable w) ->
  exists h', http_step h (EvWritable w) = Some (Ok h') /\ session_inv acc open ts p h'.
Proof.
  intros [Hi Ho Hh (c & Hc & Ha)] Hw. cbn [http_step].
  destruct (handleWrite_ok acc _ w Hi Hw) as (c' & E & Hi'). rewrite E. cbn [mbind res_bind].
  destruct (handleWrite_frame _ _ _ E) as [Hs Hin]. eexists. split; [done|].
  split; cbn; [done|by rewrite Hs| |by exists c; rewrite Hin].
  intros ->. eapply handleWrite_half; [done|done|auto|done].
Qed.

Lemma step_read_error acc open ts p h e t ws :
  session_inv acc open ts p h ->
  exists h', http_step h (EvRead (ReadvErr e) t ws) = Some (Ok h') /\ session_inv acc open ts p h'.
Proof.
  intros [Hi Ho Hh Hc]. eexists. split; [done|].
  split; cbn; [|done..]. by apply call_inv, setInput_inv; [|apply Hi].
Qed.

Lemma step_failed acc open ts p h :
  session_inv acc open ts p h ->
  exists h', http_step h EvFailed = Some (Ok h') /\ session_inv acc open ts p h'.
Proof.
  intros [Hi Ho Hh Hc]. eexists. split; [done|]. split; cbn; [|done..]. by apply call_inv.
Qed.

(** What the message callback is given on a read. *)
Lemma step_read acc open ts p h d0 d1 t ws :
  session_inv acc open ts p h -> http_event_ok h (EvRead (ReadvOk d0 d1) t ws) -> d0 ++ d1 <> [] ->
  exists c v conn ok c' buf',
    arrived ts p c v /\
    handleRead true (conn_ h) (ReadvOk d0 d1) = Ok conn /\ conn_inv acc conn /\
    state_ conn = state_ (conn_ h) /\ outputBuffer_ conn = outputBuffer_ (conn_ h) /\
    write_closed conn = write_closed (conn_ h) /\
    parseRequest t c (inputBuffer_ conn) = Some (Ok (ok, c', buf')) /\ buffer_ok buf' /\
    vparseRequest t c (v ++ d0 ++ d1) = Some (Ok (ok, c', toStringView buf')) /\
    context_ h = Some c /\
    http_step h (EvRead (ReadvOk d0 d1) t ws) = http_message (mkHttp conn (context_ h)) t ws.
Proof.
  intros [Hi Ho Hh (c & Hc & Ha)] (Hrv & Hmax & _) Hne.
  destruct (handleRead_data acc (conn_ h) d0 d1 Hi Hrv Hmax Hne) as (b & E & Hb & Hv & Hpos).
  destruct (vparseRequest_post t c b Hb (arrived_ok _ _ _ _ Ha)) as (ok & c' & buf' & Hp & Hb' & _ & Hvp & _).
  exists c, (toStringView (inputBuffer_ (conn_ h))), (call (setInput (conn_ h) b) EvMessage), ok, c', buf'.
  rewrite Hv in Hvp. split; [done|]. split; [done|].
  split; [by apply call_inv, setInput_inv|]. do 7 (split; [done|]).
  cbn [http_step]. rewrite E. by rewrite (proj2 (Z.ltb_lt _ _)).
Qed.

Lemma step_read_more w acc open ts p h d0 d1 t ws rest :
  wire_ok w -> session_inv acc open ts p h -> http_event_ok h (EvRead (ReadvOk d0 d1) t ws) ->
  d0 ++ d1 <> [] -> (p ++ d0 ++ d1) ++ rest = render_head w -> rest <> [] ->
  exists h', http_step h (EvRead (ReadvOk d0 d1) t ws) = Some (Ok h') /\
    session_inv acc open (t :: ts) (p ++ d0 ++ d1) h'.
Proof.
  intros Hw Hs Hev Hne Hp Hrest. pose proof Hs as [Hi Ho Hh _].
  destruct (step_read acc open ts p h d0 d1 t ws Hs Hev Hne)
    as (c & v & conn & ok & c' & buf' & Ha & _ & Hic & Hst & Hout & Hwc & Hparse & Hb' & Hvp & Hctx & ->).
  destruct (arrived_more w ts p c v t _ rest Hw Ha Hp Hrest) as (c1 & v1 & E1 & Ha1).
  rewrite E1 in Hvp. injection Hvp as <- <- ->.
  unfold http_message, onMessage. cbn [conn_ context_]. rewrite Hctx, Hparse. cbn [context_ conn_].
  unfold gotAll. rewrite bool_decide_false by apply Ha1. cbn [do_calls mbind res_bind].
  eexists. split; [done|]. split; cbn; [by apply setInput_inv|by rewrite Hst|by rewrite Hout, Hwc|eauto].
Qed.

Lemma step_read_all w acc (open : bool) ts p h d0 d1 t ws :
  responses_fit httpCallback -> wire_ok w -> session_inv acc open ts p h ->
  http_event_ok h (EvRead (ReadvOk d0 d1) t ws) -> d0 ++ d1 <> [] -> p ++ d0 ++ d1 = render_request w ->
  exists h' t', http_step h (EvRead (ReadvOk d0 d1) t ws) = Some (Ok h') /\ (t' ∈ t :: ts) /\
    let r := parsed_request t' w in
    session_inv (acc ++ if open then render_response (reply r) else [])
      (open && negb (isCloseConnection (reply r))) [] [] h'.
Proof.
  intros Hfit Hw Hs Hev Hne Hp. pose proof Hs as [Hi Ho Hh _].
  destruct (step_read acc open ts p h d0 d1 t ws Hs Hev Hne)
    as (c & v & conn & ok & c' & buf' & Ha & Hread & Hic & Hst & Hout & Hwc & Hparse & Hb' & Hvp & Hctx & ->).
  destruct (arrived_all w ts p c v t _ Hw Ha Hp) as (t' & Ht' & E1).
  rewrite E1 in Hvp. injection Hvp as <- <- Hv'.
  set (r := parsed_request t' w).
  assert (onMessage httpCallback (context_ h) (inputBuffer_ conn) t =
          Some (Ok (HttpContext_ctor, buf', answer httpCallback r))) as Hm.
  { unfold onMessage. rewrite Hctx, Hparse. change (gotAll _) with true. cbn [request_].
    by rewrite onRequest_answer. }
  unfold http_message. cbn [conn_ context_]. rewrite Hm.
  destruct (answer_ok acc (setInput conn buf') r ws open Hfit) as (c2 & -> & Hi2 & Hin2 & Hs2 & Hw2).
  - by apply setInput_inv.
  - cbn. by rewrite Hst.
  - cbn. by rewrite Hout, Hwc.
  - intros Hconn. destruct Hev as (_ & _ & Hsend).
    exact (Hsend conn _ _ _ 0%nat _ Hread Hm eq_refl Hconn).
  - cbn [mbind res_bind]. eexists _, t'. split; [done|]. split; [done|].
    split; cbn; [done..|]. exists HttpContext_ctor. rewrite Hin2. cbn. rewrite <- Hv'.
    split; [done|apply arrived_start].
Qed.
(** ** Exchanges *)

Lemma head_nonempty w : (0 < length (render_head w))%nat.
Proof.
  unfold render_head, render_request. rewrite !length_app. change (length kCRLF) with 2%nat. lia.
Qed.

Lemma delivers_prefix w evs : forall p, delivers w p evs -> p `prefix_of` render_request w.
Proof.
  induction evs as [|[[e|d0 d1] t ws|wr|] evs IH]; intros p; cbn [delivers]; [by intros ->|apply IH| |apply IH..].
  intros (_ & _ & H%IH). etransitivity; [|exact H]. by apply prefix_app_r.
Qed.

Lemma delivers_done w evs : forall p,
  (length (render_head w) <= length p)%nat -> delivers w p evs -> p = render_request w.
Proof.
  induction evs as [|[[e|d0 d1] t ws|wr|] evs IH]; intros p Hp; cbn [delivers]; [done|by apply IH|lia|by apply IH..].
Qed.

(** Without data, between two requests or behind the last. *)
Lemma idle_run w evs : forall acc open h p,
  (length (render_head w) <= length p)%nat -> delivers w p evs ->
  session_inv acc open [] [] h -> http_run_ok h evs ->
  exists h', http_run h evs = Some (Ok h') /\ session_inv acc open [] [] h'.
Proof.
  induction evs as [|[[e|d0 d1] t ws|wr|] evs IH]; intros acc open h p Hp Hd Hs Hok;
    cbn [delivers http_run] in *; [eauto| |lia| |]; destruct Hok as [Hev Hok].
  - destruct (step_read_error acc open [] [] h e t ws Hs) as (h1 & E & Hs1).
    rewrite E in Hok |- *. by eapply IH; [| | |apply Hok].
  - destruct (step_writable acc open [] [] h wr Hs Hev) as (h1 & E & Hs1).
    rewrite E in Hok |- *. by eapply IH; [| | |apply Hok].
  - destruct (step_failed acc open [] [] h Hs) as (h1 & E & Hs1).
    rewrite E in Hok |- *. by eapply IH; [| | |apply Hok].
Qed.

(** One request with its reads. *)
Lemma exchange_run w evs : responses_fit httpCallback -> wire_ok w -> forall acc (open : bool) ts h p,
  (length p < length (render_head w))%nat -> delivers w p evs ->
  session_inv acc open ts p h -> http_run_ok h evs ->
  exists h' t', http_run h evs = Some (Ok h') /\ (t' ∈ times evs ++ ts) /\
    let r := parsed_request t' w in
    session_inv (acc ++ if open then render_response (reply r) else [])
      (open && negb (isCloseConnection (reply r))) [] [] h'.
Proof.
  intros Hfit Hw. induction evs as [|[[e|d0 d1] t ws|wr|] evs IH]; intros acc open ts h p Hp Hd Hs Hok;
    cbn [delivers http_run] in *; [|destruct Hok as [Hev Hok]..].
  - subst p. rewrite render_body, length_app in Hp. lia.
  - destruct (step_read_error acc open ts p h e t ws Hs) as (h1 & E & Hs1). rewrite E in Hok |- *.
    destruct (IH acc open ts h1 p Hp Hd Hs1 (Hok _ eq_refl)) as (h' & t' & ? & ? & ?).
    exists h', t'. split; [done|]. split; [by right|done].
  - destruct Hd as (Hne & _ & Hd).
    destruct (decide (length (p ++ d0 ++ d1) < length (render_head w))%nat) as [Hlt|Hge].
    + destruct (delivers_prefix _ _ _ Hd) as [q Hq]. rewrite render_body in Hq.
      assert (exists rest, (p ++ d0 ++ d1) ++ rest = render_head w /\ rest <> []) as (rest & Hr & Hrest).
      { exists (drop (length (p ++ d0 ++ d1)) (render_head w)). split.
        - rewrite <- (take_drop (length (p ++ d0 ++ d1)) (render_head w)) at 2. f_equal.
          apply (f_equal (take (length (p ++ d0 ++ d1)))) in Hq.
          rewrite take_app_length in Hq. by rewrite take_app_le in Hq by lia.
        - intros E%(f_equal length). rewrite length_drop in E. cbn in E. lia. }
      destruct (step_read_more w acc open ts p h d0 d1 t ws rest Hw Hs Hev Hne Hr Hrest) as (h1 & E & Hs1).
      rewrite E in Hok |- *.
      destruct (IH acc open (t :: ts) h1 _ Hlt Hd Hs1 (Hok _ eq_refl)) as (h' & t' & ? & Ht' & ?).
      exists h', t'. split; [done|]. split; [|done]. cbn [times omap list_omap].
      fold (times evs). rewrite elem_of_app, elem_of_cons. rewrite elem_of_app, elem_of_cons in Ht'. tauto.
    + apply Nat.nlt_ge in Hge. pose proof (delivers_done w evs _ Hge Hd) as Hall.
      destruct (step_read_all w acc open ts p h d0 d1 t ws Hfit Hw Hs Hev Hne Hall) as (h1 & t' & E & Ht' & Hs1).
      rewrite E in Hok |- *.
      destruct (idle_run w evs _ _ h1 (p ++ d0 ++ d1) Hge Hd Hs1 (Hok _ eq_refl)) as (h' & ? & ?).
      exists h', t'. split; [done|]. split; [|done]. cbn [times omap list_omap]. fold (times evs).
      rewrite elem_of_app, elem_of_cons. rewrite elem_of_cons in Ht'. tauto.
  - destruct (step_writable acc open ts p h wr Hs Hev) as (h1 & E & Hs1). rewrite E in Hok |- *.
    destruct (IH acc open ts h1 p Hp Hd Hs1 (Hok _ eq_refl)) as (h' & t' & ? & ? & ?).
    exists h', t'. done.
  - destruct (step_failed acc open ts p h Hs) as (h1 & E & Hs1). rewrite E in Hok |- *.
    destruct (IH acc open ts h1 p Hp Hd Hs1 (Hok _ eq_refl)) as (h' & t' & ? & ? & ?).
    exists h', t'. done.
Qed.

Lemma http_run_app evs1 evs2 h h' : http_run h evs1 = Some (Ok h') -> http_run h (evs1 ++ evs2) = http_run h' evs2.
Proof.
  revert h. induction evs1 as [|ev evs IH]; intros h; cbn [http_run app]; [by intros [= ->]|].
  destruct (http_step h ev) as [[h1|]|]; [apply IH|done..].
Qed.

Lemma run_ok_app evs1 evs2 : forall h, http_run_ok h (evs1 ++ evs2) ->
  http_run_ok h evs1 /\ forall h', http_run h evs1 = Some (Ok h') -> http_run_ok h' evs2.
Proof.
  induction evs1 as [|ev evs IH]; intros h; cbn [http_run_ok http_run app].
  - intros H. split; [done|]. by intros h' [= <-].
  - intros [H1 H2]. split.
    + split; [done|]. intros h1 E1. by apply IH, H2.
    + intros h' E. destruct (http_step h ev) as [[h1|]|] eqn:E1; [|done..].
      by eapply (proj2 (IH h1 (H2 _ eq_refl))).
Qed.

Lemma session_run xs : responses_fit httpCallback ->
  Forall (fun x => wire_ok x.1 /\ delivers x.1 [] x.2) xs -> forall acc (open : bool) h,
  session_inv acc open [] [] h -> http_run_ok h (concat (map snd xs)) ->
  exists h' rs, http_run h (concat (map snd xs)) = Some (Ok h') /\
    Forall2 (fun x r => exists t, (t ∈ times x.2) /\ r = parsed_request t x.1) xs rs /\
    session_inv (acc ++ if open then replies rs else []) (open && negb (closes rs)) [] [] h'.
Proof.
  intros Hfit Hxs. induction Hxs as [|[w evs] xs [Hw Hd] _ IH]; intros acc open h Hs Hok; cbn [concat map snd fst] in *.
  - exists h, []. split; [done|]. split; [done|]. destruct open; by rewrite app_nil_r.
  - apply run_ok_app in Hok as [Hok1 Hok2].
    destruct (exchange_run w evs Hfit Hw acc open [] h [] (head_nonempty w) Hd Hs Hok1)
      as (h1 & t & E1 & Ht & Hs1).
    destruct (IH _ _ h1 Hs1 (Hok2 _ E1)) as (h' & rs & E' & Hrs & Hs').
    exists h', (parsed_request t w :: rs). rewrite (http_run_app _ _ _ _ E1). split; [done|].
    split; [constructor; [|done]; exists t; by rewrite app_nil_r in Ht|].
    cbn [replies closes existsb]. fold (closes rs).
    destruct open, (isCloseConnection (reply (parsed_request t w))); cbn [andb negb orb] in *;
      by rewrite <- ?app_assoc, ?app_nil_r in *.
Qed.
End Session.

Lemma arrived_nil ts c v : arrived ts [] c v -> c = HttpContext_ctor /\ v = [].
Proof. intros (_ & t & _ & [= <- <-]). done. Qed.

Lemma http_new_ok loop sockfd :
  exists h, http_new loop sockfd = Ok h /\ session_inv [] true [] [] h.
Proof.
  unfold http_new. destruct (TcpConnection_ctor loop sockfd) as [c|e] eqn:Ec; [|done].
  pose proof (new_connection_inv loop sockfd false false (64 * 1024 * 1024) c) as Hi.
  unfold new_connection in Hi. rewrite Ec in Hi. specialize (Hi ltac:(by injection Ec as <-)).
  assert (state_ c = kConnecting /\ toStringView (inputBuffer_ c) = []) as [Hs Hv] by (by injection Ec as <-).
  destruct (connectionEstablished_ok [] c Hi Hs) as (c' & E & Hi' & Hs').
  cbn [mbind res_bind]. rewrite E. cbn [mbind res_bind]. eexists. split; [done|].
  assert (inputBuffer_ c' = inputBuffer_ c) as Hin.
  { unfold connectionEstablished in E. cbn [assertInLoopThread guard_ mbind res_bind] in E.
    inv_res. done. }
  split; cbn; [done|done|done|]. unfold connected. rewrite Hs'. cbn. exists HttpContext_ctor.
  rewrite Hin, Hv. split; [done|apply arrived_start].
Qed.

(** ** Properties *)

(** C7: a session of the HTTP server, in which well-formed requests ([wire_ok])
    come one after the other on a connection.  Conditions: the start line and
    the headers of a request may come in any pieces, but the read that brings
    the end of the headers brings the whole body with it, and no read spans two
    requests ([delivers]; the server does not wait for a body that comes later,
    [late_body], and requests are not pipelined); failing reads, socket errors
    and write events may come anywhere between; a direct write takes a response
    whole or not at all and finds no broken pipe ([send_accepted]; see
    TcpConnection.partial_write_corrupts), and responses fit into a buffer.

    Then the server neither fails nor hangs and accepts for sending exactly the
    responses of the application to the requests as sent, in order, up to the
    first response that closes the connection; written and buffered bytes are
    those.  The context is then fresh and the input empty, and after a closing
    response the write side is shut down once everything is written. *)
Theorem http_session cb loop sockfd xs :
  responses_fit cb -> Forall (fun x => wire_ok x.1 /\ delivers x.1 [] x.2) xs ->
  exists h0, http_new loop sockfd = Ok h0 /\
    (http_run_ok cb h0 (concat (map snd xs)) ->
     exists h rs, http_run cb h0 (concat (map snd xs)) = Some (Ok h) /\
       Forall2 (fun x r => exists t, (t ∈ times x.2) /\ r = parsed_request t x.1) xs rs /\
       written (conn_ h) ++ toStringView (outputBuffer_ (conn_ h)) = replies cb rs /\
       context_ h = Some HttpContext_ctor /\ toStringView (inputBuffer_ (conn_ h)) = [] /\
       state_ (conn_ h) = (if closes cb rs then kDisconnecting else kConnected) /\
       (closes cb rs = true -> toStringView (outputBuffer_ (conn_ h)) = [] ->
        write_closed (conn_ h) = true)).
Proof.
  intros Hfit Hxs. destruct (http_new_ok loop sockfd) as (h0 & E0 & Hs0). exists h0. split; [done|].
  intros Hok. destruct (session_run cb xs Hfit Hxs [] true h0 Hs0 Hok) as (h & rs & E & Hrs & [Hi Ho Hh Hc]).
  exists h, rs. split; [done|]. split; [done|]. destruct Hc as (c & Hc & [-> Hv]%arrived_nil).
  cbn [andb app] in *. split; [apply Hi|]. split; [done|]. split; [done|].
  destruct (closes cb rs); cbn [negb] in *; split; auto.
Qed.

(** ** Concrete inputs: two requests, the first in three reads and its response
    written by a write event, the second of version 1.0 *)

Definition demo_callback (_ : HttpRequest) (r : HttpResponse) : HttpResponse :=
  HttpResponse.setBody (HttpResponse.setStatusMessage
    (HttpResponse.setStatusCode r HttpResponse.k200Ok) (lit "OK")) (lit "hello").

Lemma demo_callback_fits : responses_fit demo_callback.
Proof. intros req []; split; decide_now. Qed.

Definition demo_request (v : Version) : wire_request :=
  mkWire (mkStartLine kGet (lit "/1") [] v) [(lit "Host", lit " a.b")] [].

Definition demo_exchanges : list (wire_request * list http_event) :=
  [(demo_request kHttp1_1,
    [EvRead (ReadvOk (lit "GET /1 HT") []) 5 (fun _ => WriteErr 0);
     EvRead (ReadvErr 11) 6 (fun _ => WriteErr 0);
     EvRead (ReadvOk (lit "TP/1.1" ++ kCRLF ++ lit "Ho") []) 7 (fun _ => WriteErr 0);
     EvRead (ReadvOk (lit "st: a.b" ++ kCRLF ++ kCRLF) []) 8 (fun _ => WriteErr EWOULDBLOCK);
     EvWritable (WriteOk 10)]);
   (demo_request kHttp1_0,
    [EvRead (ReadvOk (render_request (demo_request kHttp1_0)) []) 9 (fun _ => WriteErr EWOULDBLOCK);
     EvWritable (WriteOk 20)])].

(** The hypotheses of a run as a test. *)
#[global] Instance send_accepted_dec c m w : Decision (send_accepted c m w).
Proof. unfold send_accepted. apply _. Defined.

Fixpoint calls_okb (c : TcpConnection) (calls : list conn_call) (ws : nat -> write_ret) : bool :=
  match calls with
  | [] => true
  | CallSend m :: calls => bool_decide (send_accepted c m (ws 0%nat)) && calls_okb c calls (fun k => ws (S k))
  | CallShutdown :: calls => calls_okb c calls (fun k => ws (S k))
  end.

Lemma calls_okb_ok c calls : forall ws k m,
  calls_okb c calls ws = true -> calls !! k = Some (CallSend m) -> send_accepted c m (ws k).
Proof.
  induction calls as [|[m0|] calls IH]; intros ws k m H Hk; [done| |]; cbn [calls_okb] in H.
  - apply andb_true_iff in H as [H%bool_decide_eq_true H']. destruct k as [|k]; [by injection Hk as <-|].
    exact (IH (fun k => ws (S k)) k m H' Hk).
  - destruct k as [|k]; [done|]. exact (IH (fun k => ws (S k)) k m H Hk).
Qed.

Definition http_event_okb cb (h : http_conn) (ev : http_event) : bool :=
  match ev with
  | EvRead rv t ws =>
      bool_decide (readv_ok (writableBytes (inputBuffer_ (conn_ h))) extrabuf_size rv) &&
      (zlen (buffer_ (inputBuffer_ (conn_ h))) + extrabuf_size <=? max_size) &&
      match handleRead true (conn_ h) rv with
      | Ok c =>
          match onMessage cb (context_ h) (inputBuffer_ c) t with
          | Some (Ok (_, _, calls)) => calls_okb c calls ws
          | _ => true
          end
      | Err _ => true
      end
  | EvWritable w => bool_decide (write_ok (zlen (toStringView (outputBuffer_ (conn_ h)))) w)
  | EvFailed => true
  end.

Lemma http_event_okb_ok cb h ev : http_event_okb cb h ev = true -> http_event_ok cb h ev.
Proof.
  destruct ev as [rv t ws|w|]; cbn [http_event_okb http_event_ok]; [|apply bool_decide_eq_true|done].
  rewrite !andb_true_iff, bool_decide_eq_true, Z.leb_le. intros [[H1 H2] H3].
  split; [done|]. split; [done|]. intros c ctx buf calls k m E1 E2 Hk _. rewrite E1, E2 in H3.
  by eapply calls_okb_ok.
Qed.

Fixpoint http_run_okb cb (h : http_conn) (evs : list http_event) : bool :=
  match evs with
  | [] => true
  | ev :: evs =>
      http_event_okb cb h ev &&
      match http_step cb h ev with Some (Ok h) => http_run_okb cb h evs | _ => true end
  end.

Lemma http_run_okb_ok cb evs : forall h, http_run_okb cb h evs = true -> http_run_ok cb h evs.
Proof.
  induction evs as [|ev evs IH]; intros h; cbn; [done|]. rewrite andb_true_iff.
  intros [H1 H2]. split; [by apply http_event_okb_ok|]. intros h' E. rewrite E in H2. by apply IH.
Qed.

Lemma demo_exchanges_ok : Forall (fun x => wire_ok x.1 /\ delivers x.1 [] x.2) demo_exchanges.
Proof.
  repeat (constructor; [split; [|vm_compute; repeat split; try done; lia]|]); [..|constructor];
    (split; [repeat split; [done|done|decide_now..]|]); (split; [decide_now|]);
    (constructor; [repeat split; decide_now|constructor]).
Qed.

Definition demo_conn : http_conn :=
  match http_new 0 7 with
  | Ok h => h
  | Err _ => mkHttp (setInput demo_start buffer_init) None
  end.

Lemma http_session_witness :
  exists h rs, http_run demo_callback demo_conn (concat (map snd demo_exchanges)) = Some (Ok h) /\
    length rs = 2%nat /\
    written (conn_ h) ++ toStringView (outputBuffer_ (conn_ h)) = replies demo_callback rs /\
    zlen (written (conn_ h)) = 30 /\ context_ h = Some HttpContext_ctor.
Proof.
  destruct (http_session demo_callback 0 7 demo_exchanges) as (h0 & E0 & H);
    [apply demo_callback_fits|apply demo_exchanges_ok|].
  assert (h0 = demo_conn) as -> by (unfold demo_conn; by rewrite E0).
  destruct H as (h & rs & E & Hrs & Hw & Hc & _); [apply http_run_okb_ok; by vm_compute|].
  exists h, rs. split; [exact E|]. split; [by apply Forall2_length in Hrs|].
  split; [exact Hw|]. split; [|exact Hc].
  assert (match http_run demo_callback demo_conn (concat (map snd demo_exchanges)) with
          | Some (Ok h) => zlen (written (conn_ h)) | _ => 0 end = 30) as Hz by (by vm_compute).
  by rewrite E in Hz.
Defined.

(** A body that comes in a read after the headers, whatever the length they
    announce: the request is answered without it, and its bytes begin the next
    request, which is refused. *)
Example late_body :
  let post := mkWire (mkStartLine kPost (lit "/2") [] kHttp1_1) [(lit "Content-Length", lit " 2")] (lit "ab") in
  match http_run demo_callback demo_conn
    [EvRead (ReadvOk (render_head post) []) 5 (fun _ => WriteErr EWOULDBLOCK);
     EvRead (ReadvOk (lit "ab") []) 6 (fun _ => WriteErr EWOULDBLOCK);
     EvRead (ReadvOk (render_request (demo_request kHttp1_1)) []) 7 (fun _ => WriteErr EWOULDBLOCK)] with
  | Some (Ok h) => toStringView (outputBuffer_ (conn_ h)) =
      render_response (reply demo_callback (parsed_request 5 (without_body post))) ++ HttpServer.bad_request
  | _ => False
  end.
Proof. vm_compute. reflexivity. Qed.
