(* ===== verification/Monitor.v ===== *)
(** * Monitors: critical sections, condition variables and their waiters

    What the standard library gives the classes that guard their state by one
    [std::mutex] and wait on [std::condition_variable]s in a loop.  Threads
    enter the monitor one at a time; a critical section either waits (the
    mutex is released and the thread sleeps on the condition variable) or
    returns, with at most one notification.  A woken thread takes the mutex
    again and re-evaluates its [while] test, so it runs the section anew;
    sleeping threads may also wake for no reason. *)

From S2P Require Import Prelude.

Inductive notification (Cond : Type) := NotifyNone | NotifyOne (c : Cond) | NotifyAll (c : Cond).
Arguments NotifyNone {Cond}.
Arguments NotifyOne {Cond} c.
Arguments NotifyAll {Cond} c.

Inductive outcome (Cond St Res : Type) :=
| Waits (c : Cond)
| Returns (s : St) (r : Res) (n : notification Cond).
Arguments Waits {Cond St Res} c.
Arguments Returns {Cond St Res} s r n.

Inductive thread (Op Cond : Type) :=
| Idle
| Enter (o : Op)
| Asleep (c : Cond) (o : Op).
Arguments Idle {Op Cond}.
Arguments Enter {Op Cond} o.
Arguments Asleep {Op Cond} c o.

(** ** Counting the threads in a given situation *)

Section Count.

Context {A : Type} (P : A -> bool).

Definition count (l : list A) : nat := length (List.filter P l).

Lemma count_insert l i x y :
  l !! i = Some x -> (count (<[i := y]> l) + Nat.b2n (P x) = count l + Nat.b2n (P y))%nat.
Proof.
  unfold count. revert i. induction l as [|a l IH]; intros [|i]; simpl; try done.
  - intros [= ->]. destruct (P x), (P y); simpl; lia.
  - intros H%IH. destruct (P a); simpl; lia.
Qed.

Lemma count_pos l i x : l !! i = Some x -> P x = true -> (0 < count l)%nat.
Proof.
  unfold count. revert i. induction l as [|a l IH]; intros [|i]; simpl; try done.
  - intros [= ->] ->. simpl. lia.
  - intros H Hp. specialize (IH _ H Hp). destruct (P a); simpl; lia.
Qed.

Lemma count_zero l : count l = 0%nat <-> forall i x, l !! i = Some x -> P x = false.
Proof.
  split.
  - intros H i x Hi. destruct (P x) eqn:E; [|done].
    pose proof (count_pos _ _ _ Hi E). lia.
  - unfold count. induction l as [|a l IH]; intros H; simpl; [done|].
    rewrite (H 0%nat a eq_refl). apply IH. intros i x. exact (H (S i) x).
Qed.

End Count.

Lemma count_map_eq {A} (P : A -> bool) (f : A -> A) l :
  (forall x, P (f x) = P x) -> count P (map f l) = count P l.
Proof.
  intros Hf. unfold count. induction l as [|a l IH]; simpl; [done|].
  rewrite Hf. destruct (P a); simpl; lia.
Qed.

Lemma count_replicate_false {A} (P : A -> bool) n (x : A) :
  P x = false -> count P (replicate n x) = 0%nat.
Proof. intros Hx. apply count_zero. by intros i y [-> _]%lookup_replicate. Qed.

Lemma count_pick {A} (P : A -> bool) l :
  (0 < count P l)%nat -> exists i x, l !! i = Some x /\ P x = true.
Proof.
  unfold count. induction l as [|a l IH]; simpl; [lia|].
  destruct (P a) eqn:E; [by exists 0%nat, a|].
  intros (i & x & Hi & Hx)%IH. by exists (S i), x.
Qed.

Lemma count_map_le {A} (P Q : A -> bool) (f : A -> A) l :
  (forall x, P (f x) = P x || Q x) -> (forall x, P x = true -> Q x = false) ->
  count P (map f l) = (count P l + count Q l)%nat.
Proof.
  intros Hf Hd. unfold count. induction l as [|a l IH]; simpl; [done|].
  rewrite Hf. destruct (P a) eqn:Ep, (Q a) eqn:Eq; simpl; rewrite ?IH; try lia.
  by rewrite (Hd _ Ep) in Eq.
Qed.

(** ** The machine *)

Section Machine.

Context {St Op Cond Res : Type} `{EqDecision Cond}.

(** The critical section of an operation, from the test of its loop on. *)
Context (body : Op -> St -> res (outcome Cond St Res)).

(** [done_ops] records the operations that returned, latest last. *)
Record monitor := mkMonitor {
  state_of : St;
  threads : list (thread Op Cond);
  done_ops : list (nat * Op * Res)
}.

(** [n] threads outside the monitor. *)
Definition monitor_start (s : St) (n : nat) : monitor := mkMonitor s (replicate n Idle) [].

Definition asleep_on (c : Cond) (t : thread Op Cond) : bool :=
  match t with Asleep c' _ => bool_decide (c' = c) | _ => false end.

Definition entering (p : Op -> bool) (t : thread Op Cond) : bool :=
  match t with Enter o => p o | _ => false end.

Definition inside (t : thread Op Cond) : bool :=
  match t with Idle => false | _ => true end.

Definition wake_all (c : Cond) (t : thread Op Cond) : thread Op Cond :=
  match t with
  | Asleep c' o => if decide (c' = c) then Enter o else t
  | _ => t
  end.

(** A sleeping thread goes back to acquiring the mutex. *)
Definition wake (i : nat) (ts : list (thread Op Cond)) : list (thread Op Cond) :=
  match ts !! i with
  | Some (Asleep _ o) => <[i := Enter o]> ts
  | _ => ts
  end.

(** [notify_one] wakes one of the threads asleep on the condition variable,
    whichever the implementation picks, and none when there is none. *)
Inductive notified : notification Cond -> list (thread Op Cond) -> list (thread Op Cond) -> Prop :=
| notified_none ts : notified NotifyNone ts ts
| notified_nobody c ts : count (asleep_on c) ts = 0%nat -> notified (NotifyOne c) ts ts
| notified_one c ts i o : ts !! i = Some (Asleep c o) -> notified (NotifyOne c) ts (wake i ts)
| notified_all c ts : notified (NotifyAll c) ts (map (wake_all c) ts).

(** [run i] is one critical section of thread [i]. *)
Inductive run (i : nat) : monitor -> monitor -> Prop :=
| run_waits m o c :
    threads m !! i = Some (Enter o) -> body o (state_of m) = Ok (Waits c) ->
    run i m (mkMonitor (state_of m) (<[i := Asleep c o]> (threads m)) (done_ops m))
| run_returns m o s r n ts :
    threads m !! i = Some (Enter o) -> body o (state_of m) = Ok (Returns s r n) ->
    notified n (<[i := Idle]> (threads m)) ts ->
    run i m (mkMonitor s ts (done_ops m ++ [(i, o, r)])).

Inductive step : monitor -> monitor -> Prop :=
| step_call i o m :
    threads m !! i = Some Idle ->
    step m (mkMonitor (state_of m) (<[i := Enter o]> (threads m)) (done_ops m))
| step_spurious i m : step m (mkMonitor (state_of m) (wake i (threads m)) (done_ops m))
| step_run i m m' : run i m m' -> step m m'.

(** No thread about to enter: whoever is inside is asleep. *)
Definition quiet (m : monitor) : Prop := count (entering (fun _ => true)) (threads m) = 0%nat.

(** An invariant that critical sections, calls and wake-ups keep. *)
Definition reachable (m0 : monitor) : monitor -> Prop := rtc step m0.

Lemma reachable_ind_inv (I : monitor -> Prop) m0 :
  I m0 -> (forall m m', I m -> step m m' -> I m') -> forall m, reachable m0 m -> I m.
Proof.
  intros H0 Hs m Hr. revert m Hr. apply (rtc_ind_r (fun m => I m)); [done|].
  intros m m' _ Hst Hi. by apply (Hs m).
Qed.

(** ** Counts under the steps *)

Lemma wake_spec i ts :
  (exists c o, ts !! i = Some (Asleep c o) /\ wake i ts = <[i := Enter o]> ts) \/
  (wake i ts = ts /\ forall c o, ts !! i <> Some (Asleep c o)).
Proof.
  unfold wake. destruct (ts !! i) as [[|o|c o]|] eqn:E; [right|right|left|right].
  1,2,4: split; [done|]; intros; congruence.
  by exists c, o.
Qed.

Lemma wake_asleep i c o ts : ts !! i = Some (Asleep c o) -> wake i ts = <[i := Enter o]> ts.
Proof. unfold wake. by intros ->. Qed.

Lemma wake_entering p i ts :
  (count (entering p) ts <= count (entering p) (wake i ts))%nat.
Proof.
  destruct (wake_spec i ts) as [(c & o & Hi & ->)|[-> _]]; [|done].
  pose proof (count_insert (entering p) _ _ _ (Enter o) Hi) as H. simpl in H.
  destruct (p o); simpl in H; lia.
Qed.

Lemma wake_asleep_on c i ts :
  (count (asleep_on c) (wake i ts) <= count (asleep_on c) ts)%nat.
Proof.
  destruct (wake_spec i ts) as [(c' & o & Hi & ->)|[-> _]]; [|done].
  pose proof (count_insert (asleep_on c) _ _ _ (Enter o) Hi) as H. simpl in H.
  destruct (bool_decide _); simpl in H; lia.
Qed.

Lemma wake_length i ts : length (wake i ts) = length ts.
Proof.
  destruct (wake_spec i ts) as [(c & o & Hi & ->)|[-> _]]; [|done]. apply length_insert.
Qed.

Lemma wake_inside i ts : count inside (wake i ts) = count inside ts.
Proof.
  destruct (wake_spec i ts) as [(c & o & Hi & ->)|[-> _]]; [|done].
  pose proof (count_insert inside _ _ _ (Enter o) Hi) as H. simpl in H. lia.
Qed.

Lemma asleep_wake_all c c' ts :
  count (asleep_on c') (map (wake_all c) ts) =
  if decide (c' = c) then 0%nat else count (asleep_on c') ts.
Proof.
  case_decide as E.
  - subst. apply count_zero. intros i x (y & -> & _)%list_lookup_fmap_Some.
    destruct y as [| |c' o]; simpl; try done. case_decide; simpl; [done|].
    by rewrite bool_decide_eq_false_2.
  - apply count_map_eq. intros [|o|c1 o]; simpl; try done. case_decide; simpl; [|done].
    subst. by rewrite bool_decide_eq_false_2.
Qed.

Lemma wake_all_inside c ts : count inside (map (wake_all c) ts) = count inside ts.
Proof. apply count_map_eq. intros [|o|c1 o]; simpl; try done. by case_decide. Qed.

(** ** Running the threads that are awake ends *)

(** Every critical section lowers it: a waiting thread is no longer entering,
    and a returning one, which may wake the others, leaves. *)
Definition measure (m : monitor) : nat :=
  (S (length (threads m)) * count inside (threads m)
   + count (entering (fun _ => true)) (threads m))%nat.

Lemma count_le_length {A} (P : A -> bool) l : (count P l <= length l)%nat.
Proof. unfold count. induction l as [|a l IH]; simpl; [done|]. destruct (P a); simpl; lia. Qed.

Lemma notified_counts n ts ts' :
  notified n ts ts' -> length ts' = length ts /\ count inside ts' = count inside ts.
Proof.
  destruct 1; rewrite ?wake_length, ?wake_inside, ?length_map, ?wake_all_inside; done.
Qed.

Lemma run_length i m m' : run i m m' -> length (threads m') = length (threads m).
Proof.
  destruct 1 as [m o c Hi Hb|m o s r n ts Hi Hb Hn]; simpl; [apply length_insert|].
  apply notified_counts in Hn as [-> _]. apply length_insert.
Qed.

Lemma run_decreases i m m' : run i m m' -> (measure m' < measure m)%nat.
Proof.
  destruct 1 as [m o c Hi Hb|m o s r n ts Hi Hb Hn]; unfold measure; simpl.
  - pose proof (count_insert inside _ _ _ (Asleep c o) Hi) as H1.
    pose proof (count_insert (entering (fun _ => true)) _ _ _ (Asleep c o) Hi) as H2.
    rewrite length_insert. simpl in *. nia.
  - pose proof (count_insert inside _ _ _ Idle Hi) as H1.
    apply notified_counts in Hn as [Hl Hc]. rewrite length_insert in Hl.
    pose proof (count_le_length (entering (fun _ => true)) ts) as H3.
    rewrite Hl, Hc in *. simpl in *. nia.
Qed.

(** When critical sections do not fault, a schedule that only runs threads
    that are awake reaches a state where every thread inside sleeps. *)
Lemma settles (I : monitor -> Prop) m :
  (forall m m', I m -> step m m' -> I m') ->
  (forall m i o, I m -> threads m !! i = Some (Enter o) -> is_ok (body o (state_of m)) = true) ->
  I m -> exists m', rtc (fun a b => exists i, run i a b) m m' /\ quiet m' /\ I m'.
Proof.
  intros Hstep Hok. remember (measure m) as k eqn:Ek.
  revert m Ek. induction k as [k IH] using (well_founded_induction lt_wf). intros m -> Hi.
  destruct (decide (quiet m)) as [Hq|Hq]; [exists m; by repeat split; [apply rtc_refl|..]|].
  destruct (count_pick (entering (fun _ => true)) (threads m)) as (i & [|o|] & Ho & Hp);
    [unfold quiet in Hq; lia|done| |done].
  assert (exists m', run i m m') as [m' Hr].
  { specialize (Hok _ _ _ Hi Ho). destruct (body o (state_of m)) as [[c|s r n]|] eqn:E; [| |done].
    - eexists. by eapply run_waits.
    - assert (exists ts, notified n (<[i := Idle]> (threads m)) ts) as [ts Hn].
      { destruct n as [|c|c]; [by eexists; constructor| |by eexists; constructor].
        destruct (count (asleep_on c) (<[i := Idle]> (threads m))) as [|k] eqn:Ec;
          [by eexists; constructor|].
        destruct (count_pick (asleep_on c) (<[i := Idle]> (threads m)))
          as (j & [| |c' o'] & Hj & Hc); [lia|done|done|].
        simpl in Hc. case_bool_decide as Ec'; [subst|done]. by eexists; eapply notified_one. }
      eexists. by eapply run_returns. }
  destruct (IH (measure m') (run_decreases _ _ _ Hr) m' eq_refl) as (m2 & Hs & Hq2 & Hi2).
  { eapply Hstep; [done|]. by eapply step_run. }
  exists m2. split; [|done]. eapply rtc_l; [|done]. by exists i.
Qed.

Lemma runs_bounded k m m' :
  nsteps (fun a b => exists i, run i a b) k m m' -> (k + measure m' <= measure m)%nat.
Proof.
  induction 1 as [m|k m m1 m2 [i Hr] _ IH]; [lia|].
  apply run_decreases in Hr. lia.
Qed.

End Machine.

(** ** Wake-ups that are not lost

    An operation waits on at most one condition variable, and [slots c s] is
    how many of its waiters the state could serve.  A section that waits finds
    no slot; one that returns adds at most one slot, and then notifies, and
    takes one away if it is itself of the kind that waits there. *)

Class Disciplined {St Op Cond Res : Type} `{EqDecision Cond}
    (body : Op -> St -> res (outcome Cond St Res))
    (waits_on : Op -> option Cond) (slots : Cond -> St -> Z) := {
  waits_no_slot o s c : body o s = Ok (Waits c) -> waits_on o = Some c /\ slots c s <= 0;
  returns_slots o s s' r n c :
    body o s = Ok (Returns s' r n) ->
    slots c s' <= slots c s + Z.b2z (match n with NotifyOne c' => bool_decide (c' = c) | _ => false end)
                  - Z.b2z (bool_decide (waits_on o = Some c))
    \/ n = NotifyAll c
}.

Section NoLostWakeup.

Context {St Op Cond Res : Type} `{EqDecision Cond}.
Context (body : Op -> St -> res (outcome Cond St Res)).
Context (waits_on : Op -> option Cond) (slots : Cond -> St -> Z).
Context `{!Disciplined body waits_on slots}.

Implicit Types (m : monitor (St := St) (Op := Op) (Cond := Cond) (Res := Res)).

Definition kind (c : Cond) (o : Op) : bool := bool_decide (waits_on o = Some c).

(** As long as somebody sleeps on [c], every slot has an awake thread of the
    kind that would take it. *)
Record served m : Prop := {
  served_kind i c o : threads m !! i = Some (Asleep c o) -> waits_on o = Some c;
  served_slots c : (0 < count (asleep_on c) (threads m))%nat ->
    slots c (state_of m) <= Z.of_nat (count (entering (kind c)) (threads m))
}.

Lemma served_start s n : served (monitor_start s n).
Proof.
  split; simpl.
  - by intros i c o [? _]%lookup_replicate.
  - intros c. rewrite count_replicate_false by done. lia.
Qed.

Lemma served_wake i s ts d :
  served (mkMonitor s ts d) -> forall d', served (mkMonitor s (wake i ts) d').
Proof.
  intros [Hk Hs] d'. split; simpl in *.
  - intros j c o Hj. destruct (wake_spec i ts) as [(c' & o' & Hi & E)|[E _]]; rewrite E in Hj.
    + apply list_lookup_insert_Some in Hj as [(_ & [=] & _)|[_ Hj]]. by eapply Hk.
    + by eapply Hk.
  - intros c Hc. pose proof (wake_asleep_on c i ts). pose proof (wake_entering (kind c) i ts).
    specialize (Hs c ltac:(lia)). lia.
Qed.

Lemma served_call i o m :
  threads m !! i = Some Idle -> served m ->
  served (mkMonitor (state_of m) (<[i := Enter o]> (threads m)) (done_ops m)).
Proof.
  intros Hi [Hk Hs]. split; simpl.
  - intros j c o' [(_ & [=] & _)|[_ Hj]]%list_lookup_insert_Some. by eapply Hk.
  - intros c. pose proof (count_insert (asleep_on c) _ _ _ (Enter o) Hi) as H1.
    pose proof (count_insert (entering (kind c)) _ _ _ (Enter o) Hi) as H2.
    specialize (Hs c). simpl in *. lia.
Qed.

Lemma served_waits i o c m :
  threads m !! i = Some (Enter o) -> body o (state_of m) = Ok (Waits c) -> served m ->
  served (mkMonitor (state_of m) (<[i := Asleep c o]> (threads m)) (done_ops m)).
Proof.
  intros Hi Hb [Hk Hs]. apply waits_no_slot in Hb as [Hw Hz]. split; simpl.
  - intros j c' o' [(_ & [=<- <-] & _)|[_ Hj]]%list_lookup_insert_Some; [done|]. by eapply Hk.
  - intros c'. destruct (decide (c' = c)) as [->|Hne]; [lia|].
    pose proof (count_insert (asleep_on c') _ _ _ (Asleep c o) Hi) as H1.
    pose proof (count_insert (entering (kind c')) _ _ _ (Asleep c o) Hi) as H2.
    specialize (Hs c'). unfold kind in H2 at 2. simpl in *.
    rewrite bool_decide_eq_false_2 in H1 by congruence.
    rewrite bool_decide_eq_false_2 in H2 by congruence. simpl in *. lia.
Qed.

Lemma served_returns i o s r n ts m :
  threads m !! i = Some (Enter o) -> body o (state_of m) = Ok (Returns s r n) ->
  notified n (<[i := Idle]> (threads m)) ts -> served m ->
  forall d, served (mkMonitor s ts d).
Proof.
  intros Hi Hb Hn [Hk Hs] d.
  assert (forall c, count (asleep_on c) (<[i := Idle]> (threads m)) = count (asleep_on c) (threads m))
    as Ha by (intros c; pose proof (count_insert (asleep_on c) _ _ _ Idle Hi) as H1; simpl in H1; lia).
  assert (forall c, (count (entering (kind c)) (<[i := Idle]> (threads m)) + Nat.b2n (kind c o)
                     = count (entering (kind c)) (threads m))%nat) as He
    by (intros c; pose proof (count_insert (entering (kind c)) _ _ _ Idle Hi) as H1; simpl in H1; lia).
  assert (forall j c o', <[i := Idle]> (threads m) !! j = Some (Asleep c o') -> waits_on o' = Some c)
    as Hk' by (intros j c o' [(_ & [=] & _)|[_ Hj]]%list_lookup_insert_Some; by eapply Hk).
  set (ts0 := <[i := Idle]> (threads m)) in *. clearbody ts0.
  split; simpl.
  - destruct Hn as [|c0|c0 ts0 j0 o0 Hj0|c0 ts0]; intros j c o' Hj; try by eapply Hk'.
    + rewrite (wake_asleep _ _ _ _ Hj0) in Hj.
      apply list_lookup_insert_Some in Hj as [(_ & [=] & _)|[_ Hj]]. by eapply Hk'.
    + apply list_lookup_fmap_Some in Hj as ([|o2|c2 o2] & E & Hj); simpl in E; try done.
      case_decide; [done|]. injection E as -> ->. by eapply Hk'.
  - intros c. specialize (Ha c). specialize (He c). specialize (Hs c).
    destruct (returns_slots _ _ _ _ _ c Hb) as [Hsl| ->].
    + fold (kind c o) in Hsl.
      destruct Hn as [|c0 ts0 H0|c0 ts0 j0 o0 Hj0|c0 ts0]; simpl in *.
      * destruct (kind c o); simpl in *; lia.
      * case_bool_decide; [subst; lia|]. destruct (kind c o); simpl in *; lia.
      * pose proof (wake_asleep_on c j0 ts0). rewrite (wake_asleep _ _ _ _ Hj0) in *.
        pose proof (count_insert (entering (kind c)) _ _ _ (Enter o0) Hj0) as H1. simpl in H1.
        pose proof (Hk' _ _ _ Hj0) as Hw. unfold kind in H1 at 3. rewrite Hw in H1.
        destruct (decide (c0 = c)) as [->|Hne].
        -- rewrite bool_decide_eq_true_2 in H1, Hsl by done. destruct (kind c o); simpl in *; lia.
        -- rewrite !bool_decide_eq_false_2 in H1, Hsl by congruence.
           destruct (kind c o); simpl in *; lia.
      * assert (count (entering (kind c)) ts0 <= count (entering (kind c)) (map (wake_all c0) ts0))%nat.
        { rewrite (count_map_le _ (fun t => match t with Asleep c1 o1 => bool_decide (c1 = c0) && kind c o1
            | _ => false end)); [lia| |by intros [| |]].
          intros [|o1|c1 o1]; simpl; try done; [by rewrite orb_false_r|].
          case_decide; simpl; [by rewrite bool_decide_eq_true_2|by rewrite bool_decide_eq_false_2]. }
        rewrite asleep_wake_all. case_decide; [lia|]. destruct (kind c o); simpl in *; lia.
    + inversion Hn; subst. rewrite asleep_wake_all, decide_True by done. lia.
Qed.

Lemma served_step m m' : served m -> step body m m' -> served m'.
Proof.
  intros Hs Hst. destruct Hst as [i o m Hi|i m|i m m' Hr].
  - by apply served_call.
  - destruct m. by eapply served_wake.
  - destruct Hr; [by apply served_waits|by eapply served_returns].
Qed.

Lemma served_quiet m c : served m -> quiet m -> (0 < count (asleep_on c) (threads m))%nat ->
  slots c (state_of m) <= 0.
Proof.
  intros [_ Hs] Hq Hc. specialize (Hs c Hc).
  assert (count (entering (kind c)) (threads m) = 0%nat) as Hz; [|lia].
  unfold quiet in Hq. rewrite count_zero in Hq |- *. intros i x Hi. specialize (Hq i x Hi).
  by destruct x.
Qed.

End NoLostWakeup.
