(* ===== verification/Blocking.v ===== *)
(** * Blocking queues and the latch: tmuduo/base/BlockingQueue.h,
    BoundedBlockingQueue.h and CountDownLatch.h/.cc

    The three classes as monitors: each method is the critical section that
    runs between taking the mutex and leaving it or sleeping on a condition
    variable. *)

From S2P Require Import Prelude Monitor.

(** ** BoundedBlockingQueue *)

Module BoundedBlockingQueue.

Inductive cond := notEmpty_ | notFull_.

#[global] Instance cond_eq_dec : EqDecision cond.
Proof. solve_decision. Defined.

Section Bounded.

Context {T : Type}.

(** [maxSize_] is an [unsigned], fixed by the constructor. *)
Context (maxSize_ : Z).

Inductive result := RUnit | RVal (x : T) | RBool (b : bool) | RSize (n : Z).

(** Both overloads of [put] copy their argument: [x] is [const] in the one
    that takes an rvalue. *)
Definition put (x : T) (queue_ : list T) : res (outcome cond (list T) result) :=
  if zlen queue_ =? maxSize_ then Ok (Waits notFull_)
  else
    _ ← assert_ (zlen queue_ <? maxSize_);
    Ok (Returns (queue_ ++ [x]) RUnit (NotifyOne notEmpty_)).

Definition take (queue_ : list T) : res (outcome cond (list T) result) :=
  match queue_ with
  | [] => Ok (Waits notEmpty_)
  | front :: queue_ => Ok (Returns queue_ (RVal front) (NotifyOne notFull_))
  end.

Definition empty (queue_ : list T) : bool := bool_decide (queue_ = []).
Definition full (queue_ : list T) : bool := zlen queue_ =? maxSize_.
Definition size (queue_ : list T) : Z := zlen queue_.

Inductive op := Put (x : T) | Take | Empty | Full | Size.

Definition section (o : op) (q : list T) : res (outcome cond (list T) result) :=
  match o with
  | Put x => put x q
  | Take => take q
  | Empty => Ok (Returns q (RBool (empty q)) NotifyNone)
  | Full => Ok (Returns q (RBool (full q)) NotifyNone)
  | Size => Ok (Returns q (RSize (size q)) NotifyNone)
  end.

(** ** Specification *)

(** The values put and taken by the calls that returned, in order. *)
Definition puts (l : list (nat * op * result)) : list T :=
  omap (fun d => match d with (_, Put x, _) => Some x | _ => None end) l.

Definition takes (l : list (nat * op * result)) : list T :=
  omap (fun d => match d with (_, Take, RVal x) => Some x | _ => None end) l.

Definition waits_on (o : op) : option cond :=
  match o with Put _ => Some notFull_ | Take => Some notEmpty_ | _ => None end.

Definition slots (c : cond) (q : list T) : Z :=
  match c with notEmpty_ => zlen q | notFull_ => maxSize_ - zlen q end.

#[export] Instance bounded_disciplined : Disciplined section waits_on slots.
Proof.
  split.
  - intros [x| | | |] q c; simpl; unfold put, take, assert_; intros H;
      repeat case_match; simplify_eq/=; split; try done; lia.
  - intros [x| | | |] q q' r n c; simpl; unfold put, take, assert_; intros H;
      repeat case_match; simplify_eq/=; left; destruct c; simpl;
      autorewrite with zlen; change (zlen (@nil T)) with 0; lia.
Qed.

Abbreviation queue_monitor := (monitor (St := list T) (Op := op) (Cond := cond) (Res := result)).

(** In every reachable state: the bound, the order, and served waiters. *)
Record bounded_inv (m : queue_monitor) : Prop := {
  inv_size : zlen (state_of m) <= maxSize_;
  inv_fifo : puts (done_ops m) = takes (done_ops m) ++ state_of m;
  inv_served : served waits_on slots m
}.

Lemma bounded_section_no_fault o q : zlen q <= maxSize_ -> is_ok (section o q) = true.
Proof.
  intros Hq. destruct o as [x| | | |]; simpl; unfold put, take; [|by destruct q|done..].
  destruct (Z.eqb_spec (zlen q) maxSize_) as [|Hne]; [done|].
  by rewrite assert_true by lia.
Qed.

Lemma bounded_section_fifo o q q' r n l i :
  zlen q <= maxSize_ -> section o q = Ok (Returns q' r n) -> puts l = takes l ++ q ->
  zlen q' <= maxSize_ /\ puts (l ++ [(i, o, r)]) = takes (l ++ [(i, o, r)]) ++ q'.
Proof.
  intros Hq Hs Hf. unfold puts, takes in *. rewrite !omap_snoc, Hf.
  destruct o as [x| | | |]; simpl in Hs; unfold put, take, assert_ in Hs;
    repeat case_match; simplify_eq/=; rewrite ?app_nil_r; autorewrite with zlen in *;
    change (zlen (@nil T)) with 0 in *; split; try lia; try done.
  all: by rewrite <- app_assoc.
Qed.

Lemma bounded_step m m' : bounded_inv m -> step section m m' -> bounded_inv m'.
Proof.
  intros [Hq Hf Hs] Hst. pose proof (served_step _ _ _ _ _ Hs Hst) as Hs'.
  destruct Hst as [i o m Hi|i m|i m m' Hr]; [by split|by split|].
  destruct Hr as [m o c Hi Hb|m o s r n ts Hi Hb Hn]; [by split|].
  destruct (bounded_section_fifo _ _ _ _ _ _ i Hq Hb Hf) as [Hq' Hf']. by split.
Qed.

Definition fresh (n : nat) : queue_monitor := monitor_start [] n.

Lemma fresh_inv n : 0 <= maxSize_ -> bounded_inv (fresh n).
Proof. split; [done|done|apply served_start]. Qed.

Lemma bounded_reachable n m :
  0 <= maxSize_ -> reachable section (fresh n) m -> bounded_inv m.
Proof.
  intros Hm. apply reachable_ind_inv; [by apply fresh_inv|]. intros. by eapply bounded_step.
Qed.

End Bounded.

Arguments op T : clear implicits.
Arguments result T : clear implicits.
Arguments bounded_inv {T} maxSize_ m.
Arguments section {T} maxSize_ o q.
Arguments fresh {T} n.

(** C15: however [n] threads call a bounded queue, and whichever sleepers the
    notifications and spurious wake-ups pick, the assertion of [put] holds, the
    queue never exceeds [maxSize_], and the values taken so far followed by the
    queue are the values put so far, in order. *)
Theorem bounded_queue_correct {T} (maxSize_ : Z) (n : nat) m :
  0 <= maxSize_ -> reachable (section maxSize_) (fresh n) m ->
  zlen (state_of m) <= maxSize_ /\
  puts (done_ops m) = takes (done_ops m) ++ state_of m /\
  (forall i (o : op T), threads m !! i = Some (Enter o) ->
     is_ok (section maxSize_ o (state_of m)) = true).
Proof.
  intros Hm Hr. destruct (bounded_reachable _ _ _ Hm Hr) as [Hq Hf _].
  split; [done|]. split; [done|]. intros i o _. by apply bounded_section_no_fault.
Qed.

(** C24: no wake-up is lost.  From any reachable state the threads that are
    awake run out of work after at most [measure m] critical sections, and
    when none is left awake a consumer sleeps only if the queue is empty and a
    producer only if it is full. *)
Theorem bounded_queue_wakes {T} (maxSize_ : Z) (n : nat) m :
  0 <= maxSize_ -> reachable (section (T := T) maxSize_) (fresh n) m ->
  (forall k m', nsteps (fun a b => exists i, run (section maxSize_) i a b) k m m' ->
     (k <= measure m)%nat) /\
  exists m', rtc (fun a b => exists i, run (section maxSize_) i a b) m m' /\ quiet m' /\
    (forall i o, threads m' !! i = Some (Asleep notEmpty_ o) -> o = Take /\ state_of m' = []) /\
    (forall i o, threads m' !! i = Some (Asleep notFull_ o) ->
       (exists x, o = Put x) /\ zlen (state_of m') = maxSize_).
Proof.
  intros Hm Hr. pose proof (bounded_reachable _ _ _ Hm Hr) as Hi. split.
  - intros k m' H%runs_bounded. lia.
  - destruct (settles (section maxSize_) (bounded_inv maxSize_) m) as (m' & Hs & Hq & [Hq' _ Hsv]);
      [intros; by eapply bounded_step|intros ? i o [] _; by apply bounded_section_no_fault|done|].
    exists m'. split; [done|]. split; [done|].
    assert (forall i c o, threads m' !! i = Some (Asleep c o) ->
      waits_on o = Some c /\ slots maxSize_ c (state_of m') <= 0) as Hz.
    { intros i c o Hi'. split; [by eapply (served_kind _ _ _ Hsv)|].
      eapply served_quiet; [exact Hsv|exact Hq|]. apply (count_pos _ _ _ _ Hi'). simpl.
      by rewrite bool_decide_eq_true_2. }
    split; intros i o [Hw Hl]%Hz; destruct o; simplify_eq/=.
    + split; [done|]. destruct (state_of m') as [|x q]; [done|].
      autorewrite with zlen in Hl. pose proof (zlen_nonneg q). lia.
    + split; [by eexists|lia].
Qed.

(** A queue of one slot: thread 1 sleeps in [take], thread 0 puts twice and
    sleeps in the second call, the notification has made thread 1 runnable. *)
Definition demo : monitor (St := list Z) (Op := op Z) (Cond := cond) (Res := result Z) :=
  mkMonitor [5] [Asleep notFull_ (Put 6); Enter Take; Idle] [(0%nat, Put 5, RUnit)].

Lemma bounded_demo_reachable : reachable (section 1) (fresh 3) demo.
Proof.
  eapply rtc_l; [by apply (step_call _ 1 Take)|].
  eapply rtc_l; [by eapply step_run, (run_waits _ 1)|].
  eapply rtc_l; [by apply (step_call _ 0 (Put 5))|].
  eapply rtc_l; [eapply step_run, (run_returns _ 0); [done|done|]; by eapply (notified_one _ _ 1)|].
  eapply rtc_l; [by apply (step_call _ 0 (Put 6))|].
  eapply rtc_l; [by eapply step_run, (run_waits _ 0)|]. apply rtc_refl.
Defined.

Lemma bounded_queue_correct_witness :
  zlen (state_of demo) <= 1 /\ puts (done_ops demo) = takes (done_ops demo) ++ state_of demo /\
  (forall i (o : op Z), threads demo !! i = Some (Enter o) -> is_ok (section 1 o (state_of demo)) = true).
Proof. apply (bounded_queue_correct 1 3); [lia|apply bounded_demo_reachable]. Defined.

Lemma bounded_queue_wakes_witness :
  exists m', rtc (fun a b => exists i, run (section 1) i a b) demo m' /\ quiet m'.
Proof.
  destruct (bounded_queue_wakes 1 3 demo) as (_ & m' & Hs & Hq & _); [lia|apply bounded_demo_reachable|].
  by exists m'.
Defined.

End BoundedBlockingQueue.

(** ** BlockingQueue *)

Module BlockingQueue.

Inductive cond := notEmpty_.

#[global] Instance cond_eq_dec : EqDecision cond.
Proof. solve_decision. Defined.

Section Unbounded.

Context {T : Type}.

Inductive result := RUnit | RVal (x : T) | RSize (n : Z).

Definition put (x : T) (queue_ : list T) : res (outcome cond (list T) result) :=
  Ok (Returns (queue_ ++ [x]) RUnit (NotifyOne notEmpty_)).

Definition take (queue_ : list T) : res (outcome cond (list T) result) :=
  if bool_decide (queue_ = []) then Ok (Waits notEmpty_)
  else
    _ ← assert_ (negb (bool_decide (queue_ = [])));
    match queue_ with
    | [] => Err OutOfBounds
    | front :: queue_ => Ok (Returns queue_ (RVal front) NotifyNone)
    end.

Definition size (queue_ : list T) : Z := zlen queue_.

Inductive op := Put (x : T) | Take | Size.

Definition section (o : op) (q : list T) : res (outcome cond (list T) result) :=
  match o with
  | Put x => put x q
  | Take => take q
  | Size => Ok (Returns q (RSize (size q)) NotifyNone)
  end.

Definition puts (l : list (nat * op * result)) : list T :=
  omap (fun d => match d with (_, Put x, _) => Some x | _ => None end) l.

Definition takes (l : list (nat * op * result)) : list T :=
  omap (fun d => match d with (_, Take, RVal x) => Some x | _ => None end) l.

Definition waits_on (o : op) : option cond :=
  match o with Take => Some notEmpty_ | _ => None end.

Definition slots (c : cond) (q : list T) : Z := zlen q.

#[export] Instance queue_disciplined : Disciplined section waits_on slots.
Proof.
  split; unfold slots.
  - intros [x| |] [|y q] c; simpl; unfold put, take; intros H; simplify_eq/=.
    destruct c. by split.
  - intros [x| |] [|y q] q' r n c; destruct c; simpl; unfold put, take; intros H; simplify_eq/=;
      left; autorewrite with zlen; change (zlen (@nil T)) with 0; lia.
Qed.

Lemma unbounded_section_no_fault o q : is_ok (section o q) = true.
Proof. by destruct o, q. Qed.

Lemma unbounded_section_fifo o q q' r n l i :
  section o q = Ok (Returns q' r n) -> puts l = takes l ++ q ->
  puts (l ++ [(i, o, r)]) = takes (l ++ [(i, o, r)]) ++ q'.
Proof.
  intros Hs Hf. unfold puts, takes in *. rewrite !omap_snoc, Hf.
  destruct o as [x| |], q; simpl in Hs; unfold put, take in Hs; simplify_eq/=;
    rewrite ?app_nil_r, <- ?app_assoc; try done.
Qed.

Definition fresh (n : nat) : monitor (St := list T) (Op := op) (Cond := cond) (Res := result) :=
  monitor_start [] n.

Definition queue_inv (m : monitor (St := list T) (Op := op) (Cond := cond) (Res := result)) : Prop :=
  served waits_on slots m /\ puts (done_ops m) = takes (done_ops m) ++ state_of m.

Lemma queue_reachable n m : reachable section (fresh n) m -> queue_inv m.
Proof.
  apply reachable_ind_inv; [split; [apply served_start|done]|].
  clear m. intros m m' [Hs Hf] Hst. split; [exact (served_step _ _ _ _ _ Hs Hst)|].
  destruct Hst as [i o m Hi|i m|i m m' Hr]; [done|done|].
  destruct Hr; [done|]. by eapply unbounded_section_fifo.
Qed.

End Unbounded.

Arguments op T : clear implicits.
Arguments result T : clear implicits.

End BlockingQueue.

(** ** CountDownLatch *)

Module CountDownLatch.

Inductive cond := condition_.

#[global] Instance cond_eq_dec : EqDecision cond.
Proof. solve_decision. Defined.

Inductive result := RUnit | RInt (n : Z).

Definition wait (count_ : Z) : res (outcome cond Z result) :=
  if 0 <? count_ then Ok (Waits condition_) else Ok (Returns count_ RUnit NotifyNone).

(** [--count_] is undefined at the smallest [int]. *)
Definition countDown (count_ : Z) : res (outcome cond Z result) :=
  _ ← guard_ IntOverflow (- 2 ^ 31 <? count_);
  let count_ := count_ - 1 in
  Ok (Returns count_ RUnit (if count_ =? 0 then NotifyAll condition_ else NotifyNone)).

Definition getCount (count_ : Z) : Z := count_.

Inductive op := Wait | CountDown | GetCount.

Definition section (o : op) (count_ : Z) : res (outcome cond Z result) :=
  match o with
  | Wait => wait count_
  | CountDown => countDown count_
  | GetCount => Ok (Returns count_ (RInt (getCount count_)) NotifyNone)
  end.

(** ** Specification *)

Definition is_down (d : nat * op * result) : bool :=
  match d with (_, CountDown, _) => true | _ => false end.

Abbreviation latch := (monitor (St := Z) (Op := op) (Cond := cond) (Res := result)).

Definition fresh (count n : nat) : latch := monitor_start (Z.of_nat count) n.

(** Until enough calls of [countDown] have returned nobody gets past [wait],
    and once they have nobody sleeps. *)
Record latch_inv (count : nat) (m : latch) : Prop := {
  latch_count : state_of m = Z.of_nat count - Z.of_nat (Monitor.count is_down (done_ops m));
  latch_closed : forall l1 i r l2, done_ops m = l1 ++ (i, Wait, r) :: l2 ->
    (count <= Monitor.count is_down l1)%nat;
  latch_open : state_of m <= 0 -> forall i o, threads m !! i <> Some (Asleep condition_ o)
}.

Lemma count_snoc {A} (P : A -> bool) l a :
  Monitor.count P (l ++ [a]) = (Monitor.count P l + Nat.b2n (P a))%nat.
Proof. unfold Monitor.count. rewrite List.filter_app, length_app. simpl. by destruct (P a). Qed.

Lemma snoc_split {A} (l l1 l2 : list A) a b :
  l ++ [a] = l1 ++ b :: l2 -> (l = l1 /\ a = b /\ l2 = []) \/ exists l2', l = l1 ++ b :: l2'.
Proof.
  destruct l2 as [|c l2 _] using rev_ind; intros H.
  - left. by apply app_inj_tail in H as [-> ->].
  - right. rewrite app_comm_cons, app_assoc in H. apply app_inj_tail in H as [-> _]. by eexists.
Qed.

Lemma no_sleeper_wake (ts : list (thread op cond)) j :
  (forall i o, ts !! i <> Some (Asleep condition_ o)) -> wake j ts = ts.
Proof. intros H. unfold wake. destruct (ts !! j) as [[| |[] o]|] eqn:E; try done. by destruct (H j o). Qed.

Lemma latch_step count m m' : latch_inv count m -> step section m m' -> latch_inv count m'.
Proof.
  intros [Hc Hw Ho] Hst. destruct Hst as [i o m Hi|i m|i m m' Hr].
  - split; simpl; [done|done|]. intros Hz j o' [(_ & [=] & _)|[_ Hj]]%list_lookup_insert_Some.
    by eapply (Ho Hz).
  - split; simpl; [done|done|]. intros Hz. rewrite no_sleeper_wake by by apply Ho. by apply Ho.
  - destruct Hr as [m o c Hi Hb|m o s r n ts Hi Hb Hn].
    + split; simpl; [done|done|]. intros Hz. exfalso.
      destruct o; simpl in Hb; unfold wait, countDown, guard_ in Hb; repeat case_match; simplify_eq/=.
      lia.
    + assert (s = state_of m - Z.of_nat (Nat.b2n (is_down (i, o, r)))) as ->.
      { destruct o; simpl in Hb; unfold wait, countDown, guard_ in Hb; repeat case_match;
          simplify_eq/=; lia. }
      split; simpl.
      * rewrite count_snoc, Hc. cbn [is_down]. lia.
      * intros l1 j r' l2 [(<- & [= -> -> ->] & ->)|[l2' E]]%snoc_split; [|by eapply Hw].
        simpl in Hb. unfold wait in Hb. case_match; [done|]. lia.
      * intros Hz j o' Hj. assert (forall j o', <[i := Idle]> (threads m) !! j = Some (Asleep condition_ o')
          -> state_of m <= 0 -> False) as Hno.
        { intros ? ? [(_ & [=] & _)|[_ Hk]]%list_lookup_insert_Some Hz'. by eapply (Ho Hz'). }
        destruct o; simpl in Hb; unfold wait, countDown, guard_ in Hb; repeat case_match;
          simplify_eq/=; inversion Hn; subst; try (by eapply Hno; [done|lia]).
        apply list_lookup_fmap_Some in Hj as ([|o2|[] o2] & E & _); simpl in E; try done.
        destruct c. by rewrite decide_True in E.
Qed.

(** C38: a latch of [count] lets nobody past [wait] before [count] calls of
    [countDown] have returned; after them nobody sleeps in it any more, and
    the counter is what the constructor was given less those calls. *)
Theorem latch_correct (count n : nat) m :
  reachable section (fresh count n) m ->
  (forall l1 i r l2, done_ops m = l1 ++ (i, Wait, r) :: l2 ->
     (count <= Monitor.count is_down l1)%nat) /\
  ((count <= Monitor.count is_down (done_ops m))%nat ->
     forall i o, threads m !! i <> Some (Asleep condition_ o)) /\
  getCount (state_of m) = Z.of_nat count - Z.of_nat (Monitor.count is_down (done_ops m)).
Proof.
  intros Hr. assert (latch_inv count m) as [Hc Hw Ho].
  { revert m Hr. apply reachable_ind_inv; [|intros; by eapply latch_step].
    split; simpl; [unfold Monitor.count; simpl; lia|by intros []|]. intros _ i o [? _]%lookup_replicate. done. }
  split; [done|]. split; [|done]. intros Hle. apply Ho. lia.
Qed.

(** A latch of one: thread 0 waits, thread 1 counts down and wakes it. *)
Definition demo : latch := mkMonitor 0 [Enter Wait; Idle] [(1%nat, CountDown, RUnit)].

Lemma latch_demo_reachable : reachable section (fresh 1 2) demo.
Proof.
  eapply rtc_l; [by apply (step_call _ 0 Wait)|].
  eapply rtc_l; [by eapply step_run, (run_waits _ 0)|].
  eapply rtc_l; [by apply (step_call _ 1 CountDown)|].
  eapply rtc_l; [eapply step_run, (run_returns _ 1); [done|done|]; apply notified_all|].
  apply rtc_refl.
Defined.

Lemma latch_correct_witness :
  (forall l1 i r l2, done_ops demo = l1 ++ (i, Wait, r) :: l2 ->
     (1 <= Monitor.count is_down l1)%nat) /\
  (forall i o, threads demo !! i <> Some (Asleep condition_ o)).
Proof.
  destruct (latch_correct 1 2 demo latch_demo_reachable) as (H1 & H2 & _).
  split; [exact H1|]. apply H2. vm_compute. lia.
Defined.

End CountDownLatch.
