(* ===== verification/InetAddress.v ===== *)
(** * Addresses: tmuduo/net/InetAddress.h/.cc and the address part of
    SockOps.cc

    The union of [sockaddr_in] and [sockaddr_in6] as the 28 bytes it occupies,
    read and written at the offsets of the two structures on a host of either
    byte order.  [inet_ntop] and [inet_pton] are parameters. *)

From S2P Require Import Prelude Endian Format.

Definition AF_INET : Z := 2.
Definition AF_INET6 : Z := 10.
Definition INET_ADDRSTRLEN : Z := 16.
Definition INET6_ADDRSTRLEN : Z := 46.

Definition kInaddrAny : Z := 0.
Definition kInaddrLoopback : Z := 0x7f000001.
Definition in6addr_any : bytes := replicate 16 x00.
Definition in6addr_loopback : bytes := replicate 15 x00 ++ [x01].

(** Family (2 bytes), port (2), then the IPv4 address (4) and 8 bytes of
    padding, or the flow label (4), the IPv6 address (16) and the scope (4). *)
Abbreviation sockaddr := bytes.
Definition sizeof_sockaddr_in : nat := 16.
Definition sizeof_sockaddr_in6 : nat := 28.

Definition memZero (n : nat) (a : sockaddr) : sockaddr := splice 0 (replicate n x00) a.

(** The C string at [data()] of a [string_view]: up to the null byte that
    follows it in memory, wherever the view ends. *)
Definition c_str (memory : bytes) : bytes := take (Z.to_nat (find_byte x00 memory)) memory.

Section Address.

Context (host : endianness).
Context (inet_ntop : bool -> bytes -> bytes) (inet_pton : bool -> bytes -> option bytes).

Definition sa_family (a : sockaddr) : Z := obj_value host (slice 0 2 a).
Definition sin_port (a : sockaddr) : Z := obj_value host (slice 2 2 a).
Definition sin_addr (a : sockaddr) : bytes := slice 4 4 a.
Definition sin6_addr (a : sockaddr) : bytes := slice 8 16 a.
Definition sin6_scope_id (a : sockaddr) : bytes := slice 24 4 a.

Definition set_family (f : Z) (a : sockaddr) : sockaddr := splice 0 (obj_bytes host 2 f) a.
Definition set_port (p : Z) (a : sockaddr) : sockaddr := splice 2 (obj_bytes host 2 p) a.

(** ** SockOps.cc *)

(** [inet_ntop] leaves the buffer alone when the text does not fit. *)
Definition ntop_into (ipv6 : bool) (src : bytes) (buf : bytes) (size : Z) : bytes :=
  let s := inet_ntop ipv6 src in if zlen s <? size then s else buf.

Definition toIp (buf : bytes) (size : Z) (addr : sockaddr) : res bytes :=
  if sa_family addr =? AF_INET then
    _ ← assert_ (INET_ADDRSTRLEN <=? size);
    Ok (ntop_into false (sin_addr addr) buf size)
  else if sa_family addr =? AF_INET6 then
    _ ← assert_ (INET6_ADDRSTRLEN <=? size);
    Ok (ntop_into true (sin6_addr addr) buf size)
  else Ok buf.

Definition toIpPort (buf : bytes) (size : Z) (addr : sockaddr) : res bytes :=
  buf ← toIp buf size addr;
  let end_ := zlen buf in
  let port := networkToHost16 host (sin_port addr) in
  _ ← assert_ (end_ <? size);
  Ok (buf ++ snprintf (Z.to_nat (size - end_)) (lit ":" ++ print_u port)).

(** The flag is whether an error was logged; [inet_pton] stores nothing when
    the text is no address. *)
Definition fromIpPort (ipv6 : bool) (ip : bytes) (port : Z) (addr : sockaddr) : sockaddr * bool :=
  let addr := set_family (if ipv6 then AF_INET6 else AF_INET) addr in
  let addr := set_port (hostToNetwork16 host port) addr in
  match inet_pton ipv6 ip with
  | Some a => (splice (if ipv6 then 8 else 4) a addr, false)
  | None => (addr, true)
  end.

(** [getsockname] and [getpeername] store the address into the zeroed
    structure, or fail. *)
Definition getLocalAddr (r : option sockaddr) : sockaddr * bool :=
  let localaddr := replicate sizeof_sockaddr_in6 x00 in
  match r with Some a => (splice 0 a localaddr, false) | None => (localaddr, true) end.

Definition getPeerAddr (r : option sockaddr) : sockaddr * bool :=
  let peeraddr := replicate sizeof_sockaddr_in6 x00 in
  match r with Some a => (splice 0 a peeraddr, false) | None => (peeraddr, true) end.

Definition isSelfConnect (local peer : option sockaddr) : bool :=
  let localaddr := (getLocalAddr local).1 in
  let peeraddr := (getPeerAddr peer).1 in
  if sa_family localaddr =? AF_INET then
    (sin_port localaddr =? sin_port peeraddr) &&
    (obj_value host (sin_addr localaddr) =? obj_value host (sin_addr peeraddr))
  else if sa_family localaddr =? AF_INET6 then
    (sin_port localaddr =? sin_port peeraddr) &&
    bool_decide (sin6_addr localaddr = sin6_addr peeraddr)
  else false.

(** [getsockopt] returns [ret], with the pending error in [optval]. *)
Definition getSocketError (ret optval errno : Z) : Z := if ret <? 0 then errno else optval.

Definition orDie (ret : Z) : res Z := if ret <? 0 then Err FatalLog else Ok ret.
Definition createNonblockingOrDie (sockfd : Z) : res Z := orDie sockfd.
Definition bindOrDie (ret : Z) : res Z := orDie ret.
Definition listenOrDie (ret : Z) : res Z := orDie ret.

(** ** InetAddress.cc *)

(** The constructors run on an object whose memory holds [this]. *)
Definition InetAddress_port (this : sockaddr) (port : Z) (loopbackonly ipv6 : bool) : sockaddr :=
  if ipv6 then
    let a := memZero sizeof_sockaddr_in this in
    let a := set_family AF_INET6 a in
    let a := splice 8 (if loopbackonly then in6addr_loopback else in6addr_any) a in
    set_port (hostToNetwork16 host port) a
  else
    let a := memZero sizeof_sockaddr_in this in
    let a := set_family AF_INET a in
    let ip := if loopbackonly then kInaddrLoopback else kInaddrAny in
    let a := splice 4 (obj_bytes host 4 (hostToNetwork32 host ip)) a in
    set_port (hostToNetwork16 host port) a.

Definition InetAddress_text (this : sockaddr) (ip : bytes) (port : Z) (ipv6 : bool) : sockaddr * bool :=
  fromIpPort ipv6 (c_str ip) port
    (memZero (if ipv6 then sizeof_sockaddr_in6 else sizeof_sockaddr_in) this).

(** The two constructors from the structures of the system: the IPv4 one
    stores the 16 bytes of its structure. *)
Definition InetAddress_in (this : sockaddr) (addr : bytes) : sockaddr := splice 0 addr this.
Definition InetAddress_in6 (this : sockaddr) (addr : bytes) : sockaddr := splice 0 addr this.

(** The constructors; a text is the memory at [data()]. *)
Inductive constructor :=
| FromPort (port : Z) (loopbackonly ipv6 : bool)
| FromText (ip : bytes) (port : Z) (ipv6 : bool)
| FromIn (addr : bytes)
| FromIn6 (addr : bytes).

Definition construct (this : sockaddr) (c : constructor) : sockaddr :=
  match c with
  | FromPort port loopbackonly ipv6 => InetAddress_port this port loopbackonly ipv6
  | FromText ip port ipv6 => (InetAddress_text this ip port ipv6).1
  | FromIn addr => InetAddress_in this addr
  | FromIn6 addr => InetAddress_in6 this addr
  end.

Definition InetAddress_toIp (a : sockaddr) : res bytes := toIp [] 64 a.
Definition InetAddress_toIpPort (a : sockaddr) : res bytes := toIpPort [] 64 a.
Definition getPort (a : sockaddr) : Z := networkToHost16 host (sin_port a).
Definition family (a : sockaddr) : Z := sa_family a.
Definition setSockAddrInet6 (a : sockaddr) : sockaddr := a.

(** [gethostbyname_r] returns [ret] and maybe a host entry: its address type,
    its length and its first address.  Resolving stores the address and
    returns [true], and whether an error was logged. *)
Definition resolve (ret : Z) (hent : option (Z * Z * bytes)) (out : sockaddr)
    : res (bool * sockaddr * bool) :=
  match hent with
  | Some (h_addrtype, h_length, h_addr) =>
      if ret =? 0 then
        _ ← assert_ ((h_addrtype =? AF_INET) && (h_length =? 4));
        Ok (true, splice 4 h_addr out, false)
      else Ok (true, out, true)
  | None => Ok (true, out, negb (ret =? 0))
  end.

(** ** Fields *)

Definition wf (a : sockaddr) : Prop := zlen a = 28.

Lemma obj_roundtrip n x : obj_value host (obj_bytes host n x) = x mod 256 ^ Z.of_nat n.
Proof.
  unfold obj_value, obj_bytes. destruct host; [apply le_value_le_bytes|apply be_value_be_bytes].
Qed.

Lemma port_roundtrip p : 0 <= p < 65536 ->
  networkToHost16 host (obj_value host (obj_bytes host 2 (hostToNetwork16 host p))) = p.
Proof.
  intros Hp. unfold hostToNetwork16, networkToHost16.
  rewrite obj_bytes_htobe, (wrapu_small 16 p) by (change (2 ^ 16) with 65536; lia).
  rewrite (wrapu_small 16 (obj_value _ _)).
  - rewrite <- (length_be_bytes 2 p) at 1. rewrite betoh_obj_value, be_value_be_bytes.
    apply Z.mod_small. done.
  - pose proof (be_value_range (be_bytes 2 p)) as H1. pose proof (le_value_range (be_bytes 2 p)) as H2.
    rewrite zlen_be_bytes in *. unfold obj_value. destruct host; [apply H2|apply H1].
Qed.

Lemma wf_splice i d a : 0 <= i -> i + zlen d <= 28 -> wf a -> wf (splice i d a).
Proof. unfold wf. intros Hi Hd Ha. rewrite zlen_splice; lia. Qed.

Lemma wf_memZero n a : (n <= 28)%nat -> wf a -> wf (memZero n a).
Proof. intros Hn. apply wf_splice; [done|]. unfold zlen. rewrite length_replicate. lia. Qed.

(** Offsets and lengths of the fields against what is written. *)
Lemma family_same f a : wf a -> sa_family (set_family f a) = f mod 65536.
Proof.
  intros Ha. unfold sa_family, set_family.
  rewrite slice_splice_same; [apply obj_roundtrip|done|by rewrite zlen_obj_bytes|rewrite Ha; lia].
Qed.

Lemma family_other i d a : 2 <= i -> i <= 28 -> wf a -> sa_family (splice i d a) = sa_family a.
Proof. intros Hi Hl Ha. unfold sa_family. rewrite slice_splice_left; [done|lia..|]. rewrite Ha. lia. Qed.

Lemma port_same p a : wf a -> 0 <= p < 65536 ->
  networkToHost16 host (sin_port (set_port (hostToNetwork16 host p) a)) = p.
Proof.
  intros Ha Hp. unfold sin_port, set_port.
  rewrite slice_splice_same; [by apply port_roundtrip|done|by rewrite zlen_obj_bytes|rewrite Ha; lia].
Qed.

Lemma port_other i d a : 4 <= i -> i <= 28 -> wf a -> sin_port (splice i d a) = sin_port a.
Proof. intros Hi Hl Ha. unfold sin_port. rewrite slice_splice_left; [done|lia..|]. rewrite Ha. lia. Qed.

Lemma set_port_slice p a j n : 4 <= j -> wf a -> slice j n (set_port p a) = slice j n a.
Proof. intros Hj Ha. apply slice_splice_right; rewrite ?zlen_obj_bytes, ?Ha; lia. Qed.

Lemma set_family_slice f a j n : 2 <= j -> wf a -> slice j n (set_family f a) = slice j n a.
Proof. intros Hj Ha. apply slice_splice_right; rewrite ?zlen_obj_bytes, ?Ha; lia. Qed.

Lemma wf_set_family f a : wf a -> wf (set_family f a).
Proof. apply wf_splice; rewrite ?zlen_obj_bytes; lia. Qed.

Lemma wf_set_port p a : wf a -> wf (set_port p a).
Proof. apply wf_splice; rewrite ?zlen_obj_bytes; lia. Qed.

(** ** Rendering *)

Definition addr_off (ipv6 : bool) : Z := if ipv6 then 8 else 4.
Definition addr_len (ipv6 : bool) : Z := if ipv6 then 16 else 4.
Definition addr_str (ipv6 : bool) : Z := if ipv6 then INET6_ADDRSTRLEN else INET_ADDRSTRLEN.
Definition addr_family (ipv6 : bool) : Z := if ipv6 then AF_INET6 else AF_INET.

Lemma print_port p : 0 <= p < 65536 -> (length (lit ":" ++ print_u p) <= 6)%nat.
Proof.
  intros Hp. rewrite length_app. pose proof (print_u_length 5 p). change (length (lit ":")) with 1%nat.
  lia.
Qed.

Lemma sin_port_range a : wf a -> 0 <= networkToHost16 host (sin_port a) < 65536.
Proof.
  intros Ha. assert (zlen (slice 2 2 a) = 2) as Hl by (apply zlen_slice; rewrite ?Ha; lia).
  unfold networkToHost16, sin_port. rewrite (wrapu_small 16 (obj_value _ _)).
  - replace 2%nat with (length (slice 2 2 a)) by (unfold zlen in Hl; lia).
    rewrite betoh_obj_value. pose proof (be_value_range (slice 2 2 a)) as H. by rewrite Hl in H.
  - pose proof (be_value_range (slice 2 2 a)) as H1. pose proof (le_value_range (slice 2 2 a)) as H2.
    rewrite Hl in *. unfold obj_value. destruct host; [apply H2|apply H1].
Qed.

(** An address of a known family is rendered as its text, its port after it,
    without truncation and without a failing assertion. *)
Lemma toIp_ok ipv6 a :
  wf a -> sa_family a = addr_family ipv6 ->
  zlen (inet_ntop ipv6 (slice (addr_off ipv6) (addr_len ipv6) a)) < addr_str ipv6 ->
  InetAddress_toIp a = Ok (inet_ntop ipv6 (slice (addr_off ipv6) (addr_len ipv6) a)) /\
  InetAddress_toIpPort a =
    Ok (inet_ntop ipv6 (slice (addr_off ipv6) (addr_len ipv6) a) ++ lit ":" ++ print_u (getPort a)).
Proof.
  intros Ha Hf Hl. set (s := inet_ntop _ _) in *.
  assert (toIp [] 64 a = Ok s) as E.
  { unfold toIp. rewrite Hf.
    destruct ipv6; cbn -[zlen]; unfold ntop_into, sin_addr, sin6_addr;
      change (inet_ntop _ (slice _ _ a)) with s; cbn -[zlen] in Hl;
      unfold INET6_ADDRSTRLEN, INET_ADDRSTRLEN in Hl; rewrite (proj2 (Z.ltb_lt _ _)) by lia; done. }
  split; [done|]. unfold InetAddress_toIpPort, toIpPort. rewrite E, bind_ok. fold (getPort a).
  assert (zlen s < 46) as Hs
    by (destruct ipv6; cbn -[zlen] in Hl; unfold INET6_ADDRSTRLEN, INET_ADDRSTRLEN in Hl; lia).
  cbv zeta. rewrite assert_true by lia. rewrite bind_ok. do 2 f_equal. apply snprintf_fits.
  pose proof (print_port (getPort a) (sin_port_range a Ha)) as Hp.
  pose proof (zlen_nonneg s). unfold zlen in *. lia.
Qed.

End Address.

(** What the code relies on for one address: [inet_pton] reads the text that
    [inet_ntop] renders, which has no null byte and the documented length. *)
Record renders (inet_ntop : bool -> bytes -> bytes) (inet_pton : bool -> bytes -> option bytes)
    (ipv6 : bool) (a s : bytes) : Prop := {
  renders_ntop : inet_ntop ipv6 a = s;
  renders_pton : inet_pton ipv6 s = Some a;
  renders_size : zlen a = addr_len ipv6;
  renders_short : zlen s < addr_str ipv6;
  renders_text : x00 ∉ s
}.

Lemma c_str_stop s memory : x00 ∉ s -> c_str (s ++ x00 :: memory) = s.
Proof. intros H. unfold c_str. rewrite find_byte_hit by done. apply take_zlen. Qed.

Lemma wf_zeroed ipv6 this : wf this ->
  wf (memZero (if ipv6 : bool then sizeof_sockaddr_in6 else sizeof_sockaddr_in) this).
Proof. intros H. apply wf_memZero; [|done]. destruct ipv6; unfold sizeof_sockaddr_in6, sizeof_sockaddr_in; lia. Qed.

Lemma addr_span ipv6 : 4 <= addr_off ipv6 <= 8 /\ addr_off ipv6 + addr_len ipv6 <= 28.
Proof. destruct ipv6; cbn; lia. Qed.

(** C30: an address made from the text of an IPv4 or IPv6 address and a port is
    printed as that text, with the port after a colon, and gives the port
    back, on a host of either byte order and whatever the memory held. *)
Theorem address_text_roundtrip host inet_ntop inet_pton ipv6 this a s rest port :
  wf this -> renders inet_ntop inet_pton ipv6 a s -> 0 <= port < 65536 ->
  let '(addr, logged) := InetAddress_text host inet_pton this (s ++ x00 :: rest) port ipv6 in
  logged = false /\ wf addr /\
  family host addr = addr_family ipv6 /\
  InetAddress_toIp host inet_ntop addr = Ok s /\
  InetAddress_toIpPort host inet_ntop addr = Ok (s ++ lit ":" ++ print_u port) /\
  getPort host addr = port.
Proof.
  intros Hw [Hn Hp Hs Hl Ht] Hport. unfold InetAddress_text, fromIpPort.
  rewrite c_str_stop, Hp by done. pose proof (addr_span ipv6) as [H4 H28].
  apply (wf_zeroed ipv6) in Hw. set (z := memZero _ this) in *. clearbody z.
  change (if ipv6 then 8 else 4) with (addr_off ipv6).
  change (if ipv6 then AF_INET6 else AF_INET) with (addr_family ipv6).
  set (b := set_port host (hostToNetwork16 host port) (set_family host (addr_family ipv6) z)).
  assert (wf b) as Hb by by apply wf_set_port, wf_set_family.
  assert (wf (splice (addr_off ipv6) a b)) as Hc by (apply wf_splice; [lia|lia|done]).
  assert (family host (splice (addr_off ipv6) a b) = addr_family ipv6) as Hf.
  { unfold family. rewrite family_other by (done || lia). unfold b, set_port.
    rewrite family_other by (by apply wf_set_family || lia). rewrite family_same by done.
    by destruct ipv6. }
  assert (getPort host (splice (addr_off ipv6) a b) = port) as Hg.
  { unfold getPort. rewrite port_other by (done || lia). apply port_same; [by apply wf_set_family|done]. }
  assert (slice (addr_off ipv6) (addr_len ipv6) (splice (addr_off ipv6) a b) = a) as Ha
    by (apply slice_splice_same; [lia|done|rewrite Hb; lia]).
  destruct (toIp_ok host inet_ntop ipv6 _ Hc Hf) as [E1 E2]; rewrite Ha, Hn in *; [done|].
  rewrite Hg in E2. done.
Qed.

(** A text that [inet_pton] refuses is logged and nothing else: the
    address is the any address of the family, with the port asked for. *)
Theorem bad_text_is_any host inet_ntop inet_pton ipv6 this s rest port :
  wf this -> x00 ∉ s -> inet_pton ipv6 s = None -> 0 <= port < 65536 ->
  zlen (inet_ntop ipv6 (replicate (Z.to_nat (addr_len ipv6)) x00)) < addr_str ipv6 ->
  let '(addr, logged) := InetAddress_text host inet_pton this (s ++ x00 :: rest) port ipv6 in
  logged = true /\
  slice (addr_off ipv6) (addr_len ipv6) addr = replicate (Z.to_nat (addr_len ipv6)) x00 /\
  InetAddress_toIp host inet_ntop addr =
    Ok (inet_ntop ipv6 (replicate (Z.to_nat (addr_len ipv6)) x00)) /\
  getPort host addr = port.
Proof.
  intros Hw Ht Hp Hport Hl. unfold InetAddress_text, fromIpPort. rewrite c_str_stop, Hp by done.
  assert (wf (memZero (if ipv6 : bool then sizeof_sockaddr_in6 else sizeof_sockaddr_in) this)) as Hz
    by by apply wf_zeroed.
  set (z := memZero _ this) in *.
  change (if ipv6 then AF_INET6 else AF_INET) with (addr_family ipv6).
  assert (wf (set_family host (addr_family ipv6) z)) as Hf by by apply wf_set_family.
  set (b := set_port _ _ _). assert (wf b) as Hb by by apply wf_set_port.
  assert (sa_family host b = addr_family ipv6) as Hfam.
  { unfold b, set_port. rewrite family_other, family_same by (done || lia). by destruct ipv6. }
  assert (slice (addr_off ipv6) (addr_len ipv6) b = replicate (Z.to_nat (addr_len ipv6)) x00) as Ha.
  { unfold b. pose proof (addr_span ipv6). rewrite set_port_slice, set_family_slice by (done || lia).
    unfold z, memZero, splice. rewrite take_0. cbn [app].
    unfold slice. destruct ipv6; by rewrite drop_app_le, take_app_le by (vm_compute; lia). }
  split; [done|]. split; [done|]. destruct (toIp_ok host inet_ntop ipv6 b Hb Hfam) as [E _];
    rewrite Ha in *; [done|]. split; [done|]. unfold getPort, b. by apply port_same.
Qed.

Lemma port_constructor host this port loopbackonly ipv6 :
  wf this -> 0 <= port < 65536 ->
  let addr := InetAddress_port host this port loopbackonly ipv6 in
  wf addr /\ family host addr = addr_family ipv6 /\ getPort host addr = port /\
  slice (addr_off ipv6) (addr_len ipv6) addr =
    (if ipv6 then if loopbackonly then in6addr_loopback else in6addr_any
     else be_bytes 4 (if loopbackonly then kInaddrLoopback else kInaddrAny)) /\
  (ipv6 = true -> sin6_scope_id addr = sin6_scope_id this).
Proof.
  intros Hw Hport.
  assert (wf (memZero sizeof_sockaddr_in this)) as Hz by (apply wf_memZero; [unfold sizeof_sockaddr_in; lia|done]).
  assert (sin6_scope_id (memZero sizeof_sockaddr_in this) = sin6_scope_id this) as Hsc
    by (apply slice_splice_right; rewrite ?Hw; vm_compute; done).
  unfold InetAddress_port. set (z := memZero _ this) in *. clearbody z.
  assert (exists d, (if ipv6 then
      set_port host (hostToNetwork16 host port)
        (splice 8 (if loopbackonly then in6addr_loopback else in6addr_any) (set_family host AF_INET6 z))
    else set_port host (hostToNetwork16 host port)
        (splice 4 (obj_bytes host 4 (hostToNetwork32 host (if loopbackonly then kInaddrLoopback else kInaddrAny)))
           (set_family host AF_INET z)))
    = set_port host (hostToNetwork16 host port)
        (splice (addr_off ipv6) d (set_family host (addr_family ipv6) z)) /\
    zlen d = addr_len ipv6 /\
    d = (if ipv6 then if loopbackonly then in6addr_loopback else in6addr_any
         else be_bytes 4 (if loopbackonly then kInaddrLoopback else kInaddrAny))) as (d & E & Hd & Ed).
  { destruct ipv6; eexists; (split; [done|]); split; try done; try by destruct loopbackonly.
    - by rewrite zlen_obj_bytes.
    - unfold hostToNetwork32. rewrite obj_bytes_htobe, wrapu_small; [done|].
      destruct loopbackonly; vm_compute; split; congruence. }
  cbv zeta. rewrite E, <- Ed. clear E Ed. pose proof (addr_span ipv6) as [H4 H28].
  set (f := set_family host (addr_family ipv6) z). assert (wf f) as Hf by by apply wf_set_family.
  assert (wf (splice (addr_off ipv6) d f)) as Hs by (apply wf_splice; [lia|lia|done]).
  split; [by apply wf_set_port|]. split.
  { unfold family, set_port. rewrite !family_other by (done || lia). unfold f.
    rewrite family_same by done. by destruct ipv6. }
  split; [by apply port_same|]. split.
  { rewrite set_port_slice by (done || lia). apply slice_splice_same; [lia|done|rewrite Hf; lia]. }
  intros ->. rewrite <- Hsc. unfold sin6_scope_id. rewrite set_port_slice by (done || lia).
  rewrite slice_splice_right; [by apply set_family_slice|cbn in *; try rewrite Hf; lia..].
Qed.

(** The constructor from a text, whether [inet_pton] takes the text or not. *)
Lemma text_constructor host inet_pton this ip port ipv6 :
  wf this -> 0 <= port < 65536 ->
  (forall a, inet_pton ipv6 (c_str ip) = Some a -> zlen a = addr_len ipv6) ->
  let addr := (InetAddress_text host inet_pton this ip port ipv6).1 in
  wf addr /\ family host addr = addr_family ipv6 /\ getPort host addr = port /\
  slice (addr_off ipv6) (addr_len ipv6) addr =
    match inet_pton ipv6 (c_str ip) with Some a => a | None => replicate (Z.to_nat (addr_len ipv6)) x00 end /\
  (ipv6 = true -> sin6_scope_id addr = replicate 4 x00).
Proof.
  intros Hw Hport Hlen. unfold InetAddress_text, fromIpPort. pose proof (addr_span ipv6) as [H4 H28].
  assert (slice (addr_off ipv6) (addr_len ipv6)
            (memZero (if ipv6 : bool then sizeof_sockaddr_in6 else sizeof_sockaddr_in) this)
          = replicate (Z.to_nat (addr_len ipv6)) x00) as Hz0.
  { unfold memZero, splice. rewrite take_0. cbn [app].
    unfold slice. destruct ipv6; by rewrite drop_app_le, take_app_le by (vm_compute; lia). }
  assert (ipv6 = true -> sin6_scope_id (memZero (if ipv6 : bool then sizeof_sockaddr_in6 else sizeof_sockaddr_in) this)
            = replicate 4 x00) as Hz1.
  { intros ->. unfold sin6_scope_id, memZero, splice. rewrite take_0. cbn [app].
    unfold slice. by rewrite drop_app_le, take_app_le by (vm_compute; lia). }
  apply (wf_zeroed ipv6) in Hw. set (z := memZero _ this) in *. clearbody z.
  change (if ipv6 then 8 else 4) with (addr_off ipv6).
  change (if ipv6 then AF_INET6 else AF_INET) with (addr_family ipv6).
  set (f := set_family host (addr_family ipv6) z). assert (wf f) as Hf by by apply wf_set_family.
  set (b := set_port host (hostToNetwork16 host port) f). assert (wf b) as Hb by by apply wf_set_port.
  assert (family host b = addr_family ipv6) as Hfam.
  { unfold family, b, set_port. rewrite family_other by (done || lia). unfold f. rewrite family_same by done.
    by destruct ipv6. }
  assert (getPort host b = port) as Hg by by apply port_same.
  assert (forall j n, 4 <= j -> slice j n b = slice j n z) as Hbz.
  { intros j n Hj. unfold b, f. by rewrite set_port_slice, set_family_slice by (done || lia). }
  destruct (inet_pton ipv6 (c_str ip)) as [a|] eqn:E; cbn [fst].
  - specialize (Hlen a eq_refl). split; [apply wf_splice; [lia|lia|done]|]. split.
    { unfold family. rewrite family_other by (done || lia). exact Hfam. }
    split; [unfold getPort; rewrite port_other by (done || lia); exact Hg|].
    split; [apply slice_splice_same; [lia|done|rewrite Hb; lia]|].
    intros ->. rewrite <- Hz1 by done. unfold sin6_scope_id. cbn in Hlen.
    rewrite slice_splice_right by (cbn; rewrite ?Hb, ?Hlen; lia). by apply Hbz.
  - split; [done|]. split; [done|]. split; [done|]. split; [by rewrite Hbz by lia|].
    intros ->. rewrite <- Hz1 by done. by apply Hbz.
Qed.

Lemma slice_splice_0 (d this : bytes) j n :
  0 <= j -> 0 <= n -> j + n <= zlen d -> slice j n (splice 0 d this) = slice j n d.
Proof.
  intros Hj Hn Hl. unfold slice, splice. rewrite take_0. cbn [app]. unfold zlen in Hl.
  rewrite drop_app_le by lia. apply take_app_le. rewrite length_drop. lia.
Qed.

(** What each constructor is asked for. *)
Definition is_ipv6 (c : constructor) : bool :=
  match c with FromPort _ _ ipv6 | FromText _ _ ipv6 => ipv6 | FromIn _ => false | FromIn6 _ => true end.

Definition asked_port host (c : constructor) : Z :=
  match c with
  | FromPort port _ _ | FromText _ port _ => port
  | FromIn a | FromIn6 a => networkToHost16 host (sin_port host a)
  end.

Definition asked_addr (inet_pton : bool -> bytes -> option bytes) (c : constructor) : bytes :=
  match c with
  | FromPort _ loopbackonly true => if loopbackonly then in6addr_loopback else in6addr_any
  | FromPort _ loopbackonly false => be_bytes 4 (if loopbackonly then kInaddrLoopback else kInaddrAny)
  | FromText ip _ ipv6 =>
      match inet_pton ipv6 (c_str ip) with Some a => a | None => replicate (Z.to_nat (addr_len ipv6)) x00 end
  | FromIn a => sin_addr a
  | FromIn6 a => sin6_addr a
  end.

Definition constructor_ok host (c : constructor) : Prop :=
  match c with
  | FromPort port _ _ | FromText _ port _ => 0 <= port < 65536
  | FromIn a => zlen a = 16 /\ sa_family host a = AF_INET
  | FromIn6 a => zlen a = 28 /\ sa_family host a = AF_INET6
  end.

(** C31: every constructor makes a well-formed address object, of the family
    asked for, with the port and the address asked for (the any address, when
    [inet_pton] refuses the text).  The scope of an IPv6 address made from a
    port alone is whatever the memory held before; that of one made from a text
    is zero, and that of one made from a [sockaddr_in6] is its own. *)
Theorem constructors_wf host inet_pton this c :
  wf this -> constructor_ok host c ->
  (forall ipv6 s a, inet_pton ipv6 s = Some a -> zlen a = addr_len ipv6) ->
  let addr := construct host inet_pton this c in
  wf addr /\ family host addr = addr_family (is_ipv6 c) /\ getPort host addr = asked_port host c /\
  slice (addr_off (is_ipv6 c)) (addr_len (is_ipv6 c)) addr = asked_addr inet_pton c /\
  match c with
  | FromPort _ _ true => sin6_scope_id addr = sin6_scope_id this
  | FromText _ _ true => sin6_scope_id addr = replicate 4 x00
  | FromIn6 a => sin6_scope_id addr = sin6_scope_id a
  | _ => True
  end.
Proof.
  intros Hw Hc Hlen. destruct c as [port lo ipv6|ip port ipv6|a|a]; cbn [construct is_ipv6 asked_port constructor_ok] in *.
  - destruct (port_constructor host this port lo ipv6 Hw Hc) as (H1 & H2 & H3 & H4 & H5).
    split; [done|]. split; [done|]. split; [done|]. split; [rewrite H4; by destruct ipv6|].
    destruct ipv6; [by apply H5|done].
  - destruct (text_constructor host inet_pton this ip port ipv6 Hw Hc (Hlen _ _)) as (H1 & H2 & H3 & H4 & H5).
    split; [done|]. split; [done|]. split; [done|]. split; [done|]. destruct ipv6; [by apply H5|done].
  - destruct Hc as [Hl Hf]. unfold InetAddress_in. split; [apply wf_splice; [done|lia|done]|].
    split; [|split; [|split; [|done]]].
    + unfold family, sa_family. by rewrite slice_splice_0 by lia.
    + unfold getPort, sin_port. by rewrite slice_splice_0 by lia.
    + cbn [addr_off addr_len]. by rewrite slice_splice_0 by lia.
  - destruct Hc as [Hl Hf]. unfold InetAddress_in6. split; [apply wf_splice; [done|lia|done]|].
    split; [|split; [|split]].
    + unfold family, sa_family. by rewrite slice_splice_0 by lia.
    + unfold getPort, sin_port. by rewrite slice_splice_0 by lia.
    + cbn [addr_off addr_len]. by rewrite slice_splice_0 by lia.
    + unfold sin6_scope_id. by rewrite slice_splice_0 by lia.
Qed.

(** The check for a self connection compares port and address, in whatever
    byte order they are stored. *)
Lemma obj_value_inj host l1 l2 : zlen l1 = zlen l2 -> obj_value host l1 = obj_value host l2 -> l1 = l2.
Proof.
  unfold zlen. intros Hl%Nat2Z.inj E. destruct host; cbn in E.
  - rewrite <- (le_bytes_le_value l1), <- (le_bytes_le_value l2), E, Hl. done.
  - rewrite <- (be_bytes_be_value l1), <- (be_bytes_be_value l2), E, Hl. done.
Qed.

Lemma getLocalAddr_some a : wf a -> getLocalAddr (Some a) = (a, false).
Proof.
  intros Ha. unfold getLocalAddr, splice. f_equal. rewrite take_0. cbn [app].
  rewrite drop_ge; [apply app_nil_r|]. unfold wf, zlen in Ha. rewrite length_replicate.
  unfold sizeof_sockaddr_in6. lia.
Qed.

Theorem self_connect_iff host ipv6 l p :
  wf l -> wf p -> sa_family host l = addr_family ipv6 ->
  isSelfConnect host (Some l) (Some p) = true <->
  slice 2 2 l = slice 2 2 p /\
  slice (addr_off ipv6) (addr_len ipv6) l = slice (addr_off ipv6) (addr_len ipv6) p.
Proof.
  intros Hl Hp Hf. unfold isSelfConnect. change getPeerAddr with getLocalAddr.
  rewrite !getLocalAddr_some by done. cbn [fst]. rewrite Hf. unfold sin_port, sin_addr, sin6_addr.
  assert (forall i n, 0 <= i -> 0 <= n -> i + n <= 28 ->
    obj_value host (slice i n l) = obj_value host (slice i n p) <-> slice i n l = slice i n p) as He.
  { intros i n Hi Hn Hin. split; [|by intros ->]. apply obj_value_inj.
    rewrite !zlen_slice; rewrite ?Hl, ?Hp; lia. }
  destruct ipv6; cbn -[slice]; rewrite andb_true_iff, ?bool_decide_eq_true, ?Z.eqb_eq, ?He by lia; done.
Qed.

(** ** Concrete inputs *)

Definition demo_ntop (ipv6 : bool) (a : bytes) : bytes :=
  if ipv6 then lit "::1"
  else match a with
       | [a; b; c; d] => print_u (b2z a) ++ lit "." ++ print_u (b2z b) ++ lit "." ++ print_u (b2z c)
                           ++ lit "." ++ print_u (b2z d)
       | _ => []
       end.

Definition demo_pton (ipv6 : bool) (s : bytes) : option bytes :=
  if ipv6 then if bool_decide (s = lit "::1") then Some in6addr_loopback else None
  else if bool_decide (s = lit "10.0.0.7") then Some [x0a; x00; x00; x07] else None.

Definition demo_memory : bytes := replicate 28 xff.

Lemma address_text_roundtrip_witness :
  let '(addr, logged) :=
    InetAddress_text LittleEndian demo_pton demo_memory (lit "10.0.0.7" ++ [x00]) 8080 false in
  logged = false /\ wf addr /\
  family LittleEndian addr = addr_family false /\
  InetAddress_toIp LittleEndian demo_ntop addr = Ok (lit "10.0.0.7") /\
  InetAddress_toIpPort LittleEndian demo_ntop addr = Ok (lit "10.0.0.7" ++ lit ":" ++ print_u 8080) /\
  getPort LittleEndian addr = 8080.
Proof.
  apply (address_text_roundtrip LittleEndian demo_ntop demo_pton false demo_memory [x0a; x00; x00; x07]
           (lit "10.0.0.7") [] 8080); [done| |lia].
  split; [by vm_compute|by vm_compute|done|by vm_compute|decide_now].
Defined.

Lemma bad_text_is_any_witness :
  let '(addr, logged) :=
    InetAddress_text BigEndian demo_pton demo_memory (lit "localhost" ++ [x00]) 80 false in
  logged = true /\
  slice (addr_off false) (addr_len false) addr = replicate (Z.to_nat (addr_len false)) x00 /\
  InetAddress_toIp BigEndian demo_ntop addr = Ok (demo_ntop false (replicate (Z.to_nat (addr_len false)) x00)) /\
  getPort BigEndian addr = 80.
Proof.
  apply (bad_text_is_any BigEndian demo_ntop demo_pton false demo_memory (lit "localhost") [] 80);
    [done|decide_now|by vm_compute|lia|by vm_compute].
Defined.

Lemma demo_pton_length ipv6 s a : demo_pton ipv6 s = Some a -> zlen a = addr_len ipv6.
Proof. unfold demo_pton. destruct ipv6; case_bool_decide; intros [= <-]; done. Qed.

(** An address of each constructor: the first keeps the scope of the memory. *)
Lemma constructors_wf_witness :
  (let addr := construct LittleEndian demo_pton demo_memory (FromPort 9981 true true) in
   wf addr /\ family LittleEndian addr = AF_INET6 /\ getPort LittleEndian addr = 9981 /\
   slice 8 16 addr = in6addr_loopback /\ sin6_scope_id addr = replicate 4 xff) /\
  (let addr := construct BigEndian demo_pton demo_memory (FromText (lit "::1" ++ [x00]) 80 true) in
   wf addr /\ family BigEndian addr = AF_INET6 /\ getPort BigEndian addr = 80 /\
   slice 8 16 addr = in6addr_loopback /\ sin6_scope_id addr = replicate 4 x00).
Proof.
  split.
  - apply (constructors_wf LittleEndian demo_pton demo_memory (FromPort 9981 true true));
      [done|cbn; lia|apply demo_pton_length].
  - apply (constructors_wf BigEndian demo_pton demo_memory (FromText (lit "::1" ++ [x00]) 80 true));
      [done|cbn; lia|apply demo_pton_length].
Defined.
