(* ===== verification/Socket.v ===== *)
(** * Sockets: tmuduo/net/Socket.h and Socket.cc, the calls of SockOps.cc
      under them

    A [Socket] owns its descriptor; what the kernel has of it (options, the
    address it is bound to, whether it listens) is kept beside it.  Results of
    system calls are arguments. *)

From S2P Require Import Prelude InetAddress.

Definition EPERM : Z := 1.
Definition EINTR : Z := 4.
Definition EAGAIN : Z := 11.
Definition EMFILE : Z := 24.
Definition EPROTO : Z := 71.
Definition ECONNABORTED : Z := 103.

Definition SOL_SOCKET : Z := 1.
Definition IPPROTO_TCP : Z := 6.
Definition TCP_NODELAY : Z := 1.
Definition SO_REUSEADDR : Z := 2.
Definition SO_KEEPALIVE : Z := 9.
Definition SO_REUSEPORT : Z := 15.

(** [sockopts] by level and name: the options that were set. *)
Record Socket := mkSocket {
  sockfd_ : Z;
  sockopts : gmap (Z * Z) Z;
  bound : option sockaddr;
  listening : bool;
  write_shut : bool
}.

Definition Socket_ctor (sockfd : Z) : Socket := mkSocket sockfd ∅ None false false.

(** [setsockopt]: its result, and the error it leads to in the log. *)
Definition setsockopt (s : Socket) (level name optval ret : Z) : Socket :=
  if ret <? 0 then s
  else mkSocket (sockfd_ s) (<[(level, name) := optval]> (sockopts s)) (bound s) (listening s) (write_shut s).

Definition set_option (s : Socket) (level name : Z) (on : bool) (ret : Z) : Socket * bool :=
  let optval := if on then 1 else 0 in
  (setsockopt s level name optval ret, (ret <? 0) && on).

Definition setTcpNoDelay (s : Socket) (on : bool) (ret : Z) := set_option s IPPROTO_TCP TCP_NODELAY on ret.
Definition setReuseAddr (s : Socket) (on : bool) (ret : Z) := set_option s SOL_SOCKET SO_REUSEPORT on ret.
Definition setReusePort (s : Socket) (on : bool) (ret : Z) := set_option s SOL_SOCKET SO_REUSEPORT on ret.
Definition setKeepAlive (s : Socket) (on : bool) (ret : Z) := set_option s SOL_SOCKET SO_KEEPALIVE on ret.

Definition bindAddress (s : Socket) (localAddr : sockaddr) (ret : Z) : res Socket :=
  bindOrDie ret;;
  Ok (mkSocket (sockfd_ s) (sockopts s) (Some localAddr) (listening s) (write_shut s)).

Definition listen (s : Socket) (ret : Z) : res Socket :=
  listenOrDie ret;;
  Ok (mkSocket (sockfd_ s) (sockopts s) (bound s) true (write_shut s)).

(** [sockets::shutdownWrite] only logs a failure. *)
Definition shutdownWrite (s : Socket) (ret : Z) : Socket :=
  if ret <? 0 then s else mkSocket (sockfd_ s) (sockopts s) (bound s) (listening s) true.

(** [accept4]: a descriptor and its peer, or an error number. *)
Inductive accept_ret := AcceptOk (connfd : Z) | AcceptErr (err : Z).

(** [sockets::accept]: an unexpected error is fatal. *)
Definition sockets_accept (r : accept_ret) : res accept_ret :=
  match r with
  | AcceptOk _ => Ok r
  | AcceptErr e =>
      if bool_decide (e ∈ [EAGAIN; ECONNABORTED; EINTR; EPROTO; EPERM; EMFILE]) then Ok r
      else Err FatalLog
  end.

(** [Socket::accept]: the peer's address is stored for a descriptor. *)
Definition accept (r : accept_ret) (addr peerAddr : sockaddr) : res (accept_ret * sockaddr) :=
  r ← sockets_accept r;
  Ok (r, match r with AcceptOk _ => setSockAddrInet6 addr | AcceptErr _ => peerAddr end).

(** The destructor closes the descriptor. *)
Definition Socket_dtor (s : Socket) : Z := sockfd_ s.

(** ** Lemmas *)

(** An option that was set successfully is the last one given. *)
Lemma set_option_last s level name on ret :
  0 <= ret -> sockopts (set_option s level name on ret).1 !! (level, name) = Some (Z.b2z on) /\
    (set_option s level name on ret).2 = false.
Proof.
  intros Hr. unfold set_option, setsockopt. replace (ret <? 0) with false by lia. cbn.
  rewrite lookup_insert_eq. by destruct on.
Qed.

(** No call of the class sets SO_REUSEADDR. *)
Lemma reuseaddr_unset s level name on ret :
  (level, name) <> (SOL_SOCKET, SO_REUSEADDR) ->
  sockopts (set_option s level name on ret).1 !! (SOL_SOCKET, SO_REUSEADDR)
  = sockopts s !! (SOL_SOCKET, SO_REUSEADDR).
Proof.
  intros Hn. unfold set_option, setsockopt. cbn. destruct (ret <? 0); [done|]. cbn.
  by rewrite lookup_insert_ne.
Qed.
