(* ===== verification/LogStream.v ===== *)
(** * Log streams: tmuduo/base/LogStream.h and LogStream.cc

    The fixed buffer a log line is formatted into, the integer conversions and
    the stream's operators.  The conversion of a floating-point number by the C
    library ([%.12g]) is a parameter. *)

From S2P Require Import Prelude Format.

(** ** FixedBuffer *)

Definition kSmallBuffer : Z := 4000.
Definition kLargeBuffer : Z := 4000 * 1000.
Definition kMaxNumericSize : Z := 32.

(** [data_] holds [SIZE] bytes; [cur_] is an offset in it. *)
Record FixedBuffer := mkFixed { data_ : bytes; cur_ : Z }.

(** [data_] is not initialised: the constructor takes what is in it. *)
Definition FixedBuffer_ctor (memory : bytes) : FixedBuffer := mkFixed memory 0.

Definition avail (b : FixedBuffer) : Z := zlen (data_ b) - cur_ b.
Definition length_ (b : FixedBuffer) : Z := cur_ b.

Definition append (b : FixedBuffer) (buf : bytes) : res FixedBuffer :=
  if zlen buf <? u64 (avail b) then
    d ← mem_write (data_ b) (cur_ b) buf;
    Ok (mkFixed d (cur_ b + zlen buf))
  else Ok b.

Definition add (b : FixedBuffer) (len : Z) : FixedBuffer := mkFixed (data_ b) (cur_ b + len).
Definition reset (b : FixedBuffer) : FixedBuffer := mkFixed (data_ b) 0.
Definition bzero (b : FixedBuffer) : FixedBuffer := mkFixed (replicate (length (data_ b)) x00) (cur_ b).
Definition toStringView (b : FixedBuffer) : bytes := slice 0 (length_ b) (data_ b).

(** [debugString] writes a null byte behind the text. *)
Definition debugString (b : FixedBuffer) : res (bytes * FixedBuffer) :=
  d ← mem_write (data_ b) (cur_ b) [x00];
  Ok (d, mkFixed d (cur_ b)).

(** ** Conversions *)

Definition digits : bytes := lit "9876543210123456789".
Definition digitsHex : bytes := lit "0123456789ABCDEF".

(** [zero[lsd]], where [zero] points at the middle of [digits]. *)
Definition zero_at (lsd : Z) : res bytes := mem_read digits (9 + lsd) 1.
Definition hex_at (lsd : Z) : res bytes := mem_read digitsHex lsd 1.

(** The digit loops, least significant first; division truncates towards zero. *)
Fixpoint convert_loop (fuel : nat) (i : Z) : res bytes :=
  match fuel with
  | O => Ok []
  | S fuel =>
      c ← zero_at (Z.rem i 10);
      let i := Z.quot i 10 in
      rest ← (if i =? 0 then Ok [] else convert_loop fuel i);
      Ok (c ++ rest)
  end.

Fixpoint convertHex_loop (fuel : nat) (i : Z) : res bytes :=
  match fuel with
  | O => Ok []
  | S fuel =>
      c ← hex_at (i mod 16);
      let i := i / 16 in
      rest ← (if i =? 0 then Ok [] else convertHex_loop fuel i);
      Ok (c ++ rest)
  end.

(** [convert(buf, value)], with [buf] an offset of [d]: writes the number and a
    null byte, and returns the length of the number. *)
Definition convert (d : bytes) (buf : Z) (value : Z) : res (bytes * Z) :=
  cs ← convert_loop (digits_fuel (Z.abs value)) value;
  let cs := if value <? 0 then cs ++ lit "-" else cs in
  d ← mem_write d buf (reverse cs ++ [x00]);
  Ok (d, zlen cs).

Definition convertHex (d : bytes) (buf : Z) (value : Z) : res (bytes * Z) :=
  cs ← convertHex_loop (digits_fuel value) value;
  d ← mem_write d buf (reverse cs ++ [x00]);
  Ok (d, zlen cs).

(** ** LogStream *)

Definition formatInteger (b : FixedBuffer) (v : Z) : res FixedBuffer :=
  if kMaxNumericSize <=? avail b then
    '(d, len) ← convert (data_ b) (cur_ b) v;
    Ok (add (mkFixed d (cur_ b)) len)
  else Ok b.

Definition put_pointer (b : FixedBuffer) (v : Z) : res FixedBuffer :=
  if kMaxNumericSize <=? avail b then
    d ← mem_write (data_ b) (cur_ b) (lit "0x");
    '(d, len) ← convertHex d (cur_ b + 2) v;
    Ok (add (mkFixed d (cur_ b)) (len + 2))
  else Ok b.

Definition put_bool (b : FixedBuffer) (v : bool) : res FixedBuffer :=
  append b (if v then lit "1" else lit "0").
Definition put_char (b : FixedBuffer) (c : byte) : res FixedBuffer := append b [c].

(** A [const char*]: null, or a string up to its null byte. *)
Definition put_cstr (b : FixedBuffer) (str : option bytes) : res FixedBuffer :=
  match str with
  | Some s => append b (take (Z.to_nat (find_byte x00 s)) s)
  | None => append b (lit "(null)")
  end.
Definition put_string (b : FixedBuffer) (s : bytes) : res FixedBuffer := append b s.

(** [Fmt]: the text of a conversion, which must fit 32 bytes. *)
Definition Fmt_ctor (text : bytes) : res bytes :=
  assert_ (zlen text <? 32);;
  Ok (snprintf 32 text).
Definition put_fmt (b : FixedBuffer) (text : bytes) : res FixedBuffer :=
  buf ← Fmt_ctor text;
  append b buf.

Section Floating.
Context {double : Type} (format_g12 : double -> bytes).

Definition put_double (b : FixedBuffer) (v : double) : res FixedBuffer :=
  if kMaxNumericSize <=? avail b then
    let s := format_g12 v in
    d ← mem_write (data_ b) (cur_ b) (snprintf 32 s ++ [x00]);
    Ok (add (mkFixed d (cur_ b)) (zlen s))
  else Ok b.

(** The operators; [LInt] is any of the integer types, which all go through
    [formatInteger] after a widening conversion. *)
Inductive log_op :=
| LBool (v : bool)
| LInt (v : Z)
| LPointer (v : Z)
| LDouble (v : double)
| LChar (c : byte)
| LCStr (s : option bytes)
| LString (s : bytes)
| LFmt (text : bytes).

Definition put (b : FixedBuffer) (op : log_op) : res FixedBuffer :=
  match op with
  | LBool v => put_bool b v
  | LInt v => formatInteger b v
  | LPointer v => put_pointer b v
  | LDouble v => put_double b v
  | LChar c => put_char b c
  | LCStr s => put_cstr b s
  | LString s => put_string b s
  | LFmt text => put_fmt b text
  end.

Fixpoint put_all (b : FixedBuffer) (ops : list log_op) : res FixedBuffer :=
  match ops with
  | [] => Ok b
  | op :: ops => b ← put b op; put_all b ops
  end.

(** ** Specification

    The text an operator stands for, and whether it needs the room of a number
    or only its own. *)
Definition hex_digit (d : Z) : byte := z2b (if d <? 10 then 48 + d else 55 + d).
Definition print_X (n : Z) : bytes := reverse (map hex_digit (digits_rev 16 (digits_fuel n) n)).

Definition text_of (op : log_op) : bytes :=
  match op with
  | LBool v => if v then lit "1" else lit "0"
  | LInt v => print_d v
  | LPointer v => lit "0x" ++ print_X v
  | LDouble v => format_g12 v
  | LChar c => [c]
  | LCStr (Some s) => take (Z.to_nat (find_byte x00 s)) s
  | LCStr None => lit "(null)"
  | LString s => s
  | LFmt text => text
  end.

Definition needs (op : log_op) : Z :=
  match op with
  | LInt _ | LPointer _ | LDouble _ => kMaxNumericSize
  | _ => zlen (text_of op) + 1
  end.

(** A line of at most [size] bytes: an operator whose text does not fit is dropped. *)
Definition line_step (size : Z) (line : bytes) (op : log_op) : bytes :=
  if zlen line + needs op <=? size then line ++ text_of op else line.
Definition line (size : Z) (ops : list log_op) : bytes := fold_left (line_step size) ops [].

(** Values of the C++ types, and what the code relies on of the C library. *)
Definition put_op_ok (op : log_op) : Prop :=
  match op with
  | LInt v => - 2 ^ 63 <= v < 2 ^ 64
  | LPointer v => 0 <= v < 2 ^ 64
  | LDouble v => zlen (format_g12 v) < kMaxNumericSize
  | LFmt text => zlen text < 32
  | LString s => zlen s < 2 ^ 63
  | LCStr (Some s) => zlen s < 2 ^ 63
  | _ => True
  end.
End Floating.
Arguments LDouble {double} v.
Arguments LBool {double} v.
Arguments LInt {double} v.
Arguments LPointer {double} v.
Arguments LChar {double} c.
Arguments LCStr {double} s.
Arguments LString {double} s.
Arguments LFmt {double} text.

(** The invariant: one byte is always left. *)
Record fixed_ok (size : Z) (b : FixedBuffer) : Prop := {
  fixed_size : zlen (data_ b) = size;
  fixed_cur : 0 <= cur_ b < size;
  fixed_small : size < 2 ^ 31
}.

(** ** Lemmas on the buffer *)

Lemma zlen_fixed_view size b : fixed_ok size b -> zlen (toStringView b) = cur_ b.
Proof. intros []. unfold toStringView, length_. apply zlen_slice; lia. Qed.

Lemma avail_eq size b : fixed_ok size b -> avail b = size - cur_ b.
Proof. intros []. unfold avail. lia. Qed.

(** Writing at the cursor, with bytes behind the text that are not counted. *)
Lemma write_at_cur size b text extra d :
  fixed_ok size b -> cur_ b + zlen text + zlen extra <= size -> 0 < size - cur_ b - zlen text ->
  mem_write (data_ b) (cur_ b) (text ++ extra) = Ok d ->
  fixed_ok size (mkFixed d (cur_ b + zlen text)) /\
  toStringView (mkFixed d (cur_ b + zlen text)) = toStringView b ++ text.
Proof.
  intros [Hs Hc Hm] Hfit Hlt. pose proof (zlen_nonneg text). pose proof (zlen_nonneg extra).
  rewrite mem_write_ok by (rewrite ?zlen_app; lia). intros [= <-]. split.
  - split; cbn; [|lia|done]. by rewrite zlen_splice by (rewrite ?zlen_app; lia).
  - unfold toStringView, length_. cbn [cur_ data_].
    destruct (slice_split 0 (cur_ b) (data_ b)) as (p & s & E & Hp & Hz); [lia..|].
    destruct p as [|? p]; [|rewrite zlen_cons in Hp; pose proof (zlen_nonneg p); lia].
    cbn [app] in E. set (t := slice 0 (cur_ b) (data_ b)) in *.
    assert (zlen t = cur_ b) as Ht by (apply zlen_slice; lia).
    rewrite E. unfold splice.
    replace (Z.to_nat (cur_ b)) with (length t) by (rewrite <- Ht; unfold zlen; lia).
    rewrite take_app_length, <- (app_assoc text), app_assoc.
    apply slice_prefix. rewrite zlen_app. lia.
Qed.

Lemma fixed_append_ok size b text :
  fixed_ok size b -> zlen text < 2 ^ 63 ->
  exists b', append b text = Ok b' /\ fixed_ok size b' /\
    toStringView b' = (if zlen (toStringView b) + (zlen text + 1) <=? size
                       then toStringView b ++ text else toStringView b).
Proof.
  intros Hb Ht. pose proof (zlen_nonneg text). pose proof Hb as [Hs Hc Hm].
  unfold append. rewrite (avail_eq size) by done. rewrite u64_small by lia.
  rewrite (zlen_fixed_view size) by done.
  destruct (Z.ltb_spec (zlen text) (size - cur_ b)) as [Hlt|Hge].
  - rewrite mem_write_ok by lia. cbn [mbind res_bind]. eexists. split; [done|].
    destruct (write_at_cur size b text [] (splice (cur_ b) text (data_ b))) as [H1 H2];
      [done|rewrite zlen_nil; lia|lia|rewrite app_nil_r; apply mem_write_ok; lia|].
    split; [done|]. rewrite H2. by replace (cur_ b + (zlen text + 1) <=? size) with true by lia.
  - exists b. split; [done|]. split; [done|].
    by replace (cur_ b + (zlen text + 1) <=? size) with false by lia.
Qed.

(** ** Lemmas on the conversions *)

Lemma zero_at_eq d : 0 <= d < 10 -> zero_at d = Ok [dec_digit d] /\ zero_at (- d) = Ok [dec_digit d].
Proof.
  intros Hd.
  assert (d = 0 \/ d = 1 \/ d = 2 \/ d = 3 \/ d = 4 \/ d = 5 \/ d = 6 \/ d = 7 \/ d = 8 \/ d = 9)
    as H by lia.
  repeat (destruct H as [-> | H]; [by vm_compute|]). subst. by vm_compute.
Qed.

Lemma hex_at_eq d : 0 <= d < 16 -> hex_at d = Ok [hex_digit d].
Proof.
  intros Hd.
  assert (d = 0 \/ d = 1 \/ d = 2 \/ d = 3 \/ d = 4 \/ d = 5 \/ d = 6 \/ d = 7 \/ d = 8 \/ d = 9 \/
          d = 10 \/ d = 11 \/ d = 12 \/ d = 13 \/ d = 14 \/ d = 15) as H by lia.
  repeat (destruct H as [-> | H]; [by vm_compute|]). subst. by vm_compute.
Qed.

Lemma convert_loop_eq fuel : forall n, 0 <= n ->
  convert_loop fuel n = Ok (map dec_digit (digits_rev 10 fuel n)) /\
  convert_loop fuel (- n) = Ok (map dec_digit (digits_rev 10 fuel n)).
Proof.
  induction fuel as [|fuel IH]; intros n Hn; [done|]. cbn [convert_loop digits_rev map].
  pose proof (Z.mod_pos_bound n 10 ltac:(lia)) as Hr. destruct (zero_at_eq (n mod 10) Hr) as [H1 H2].
  pose proof (Z.div_pos n 10 Hn ltac:(lia)) as Hq. destruct (IH (n / 10) Hq) as [IH1 IH2].
  rewrite Z.rem_opp_l, Z.quot_opp_l, Z.rem_mod_nonneg, Z.quot_div_nonneg, H1, H2 by lia.
  cbn [mbind res_bind].
  replace (- (n / 10) =? 0) with (n / 10 =? 0) by lia.
  replace (n / 10 =? 0) with (n <? 10)
    by (pose proof (Z.div_mod n 10 ltac:(lia)); destruct (Z.ltb_spec n 10), (Z.eqb_spec (n / 10) 0); lia).
  destruct (n <? 10); cbn [mbind res_bind map app]; [done|]. by rewrite IH1, IH2.
Qed.

Lemma convertHex_loop_eq fuel : forall n, 0 <= n ->
  convertHex_loop fuel n = Ok (map hex_digit (digits_rev 16 fuel n)).
Proof.
  induction fuel as [|fuel IH]; intros n Hn; [done|]. cbn [convertHex_loop digits_rev map].
  rewrite hex_at_eq by (apply Z.mod_pos_bound; lia). cbn [mbind res_bind].
  replace (n / 16 =? 0) with (n <? 16)
    by (pose proof (Z.div_mod n 16 ltac:(lia)); pose proof (Z.mod_pos_bound n 16 ltac:(lia));
        destruct (Z.ltb_spec n 16), (Z.eqb_spec (n / 16) 0); lia).
  destruct (n <? 16); cbn [mbind res_bind app]; [done|].
  by rewrite IH by (apply Z.div_pos; lia).
Qed.

(** The conversion writes what [%d] and [%lu] print. *)
Lemma convert_eq d buf v :
  0 <= buf -> buf + zlen (print_d v) + 1 <= zlen d ->
  convert d buf v = Ok (splice buf (print_d v ++ [x00]) d, zlen (print_d v)).
Proof.
  intros Hb Hfit. unfold convert.
  assert (convert_loop (digits_fuel (Z.abs v)) v =
          Ok (map dec_digit (digits_rev 10 (digits_fuel (Z.abs v)) (Z.abs v)))) as ->.
  { destruct (convert_loop_eq (digits_fuel (Z.abs v)) (Z.abs v)) as [H1 H2]; [lia|].
    destruct (Z.abs_spec v) as [[_ E]|[_ E]]; rewrite E in *; [done|]. by rewrite Z.opp_involutive in H2. }
  cbn [mbind res_bind]. set (ds := map _ _).
  assert (reverse (if v <? 0 then ds ++ lit "-" else ds) = print_d v) as E.
  { unfold print_d, print_u. destruct (Z.ltb_spec v 0).
    - rewrite reverse_app. unfold ds. by rewrite Z.abs_neq by lia.
    - unfold ds. by rewrite Z.abs_eq. }
  replace (zlen (if v <? 0 then ds ++ lit "-" else ds)) with (zlen (print_d v))
    by (rewrite <- E; unfold zlen; by rewrite length_reverse).
  rewrite E, mem_write_ok; [done|lia|]. rewrite zlen_app. change (zlen [x00]) with 1. lia.
Qed.

Lemma convertHex_eq d buf v :
  0 <= v -> 0 <= buf -> buf + zlen (print_X v) + 1 <= zlen d ->
  convertHex d buf v = Ok (splice buf (print_X v ++ [x00]) d, zlen (print_X v)).
Proof.
  intros Hv Hb Hfit. unfold convertHex. rewrite convertHex_loop_eq by done. cbn [mbind res_bind].
  change (reverse (map hex_digit _)) with (print_X v).
  replace (zlen (map _ _)) with (zlen (print_X v)) by (unfold print_X, zlen; by rewrite length_reverse).
  rewrite mem_write_ok; [done|lia|]. rewrite zlen_app. change (zlen [x00]) with 1. lia.
Qed.

(** A 64-bit number has at most 20 characters, a pointer 16 digits. *)
Lemma print_d_short v : - 2 ^ 63 <= v < 2 ^ 64 -> 0 < zlen (print_d v) <= 20.
Proof.
  intros Hv. unfold print_d, zlen.
  assert (forall n, 0 < length (print_u n))%nat as Hpos.
  { intros n. unfold print_u, digits_fuel. rewrite length_reverse, length_map. cbn. lia. }
  destruct (Z.ltb_spec v 0).
  - rewrite length_app. pose proof (print_u_length 19 (- v) ltac:(change (Z.of_nat 19) with 19; lia) ltac:(lia)). change (length (lit "-")) with 1%nat. lia.
  - pose proof (print_u_length 20 v ltac:(change (Z.of_nat 20) with 20; lia) ltac:(lia)). specialize (Hpos v). lia.
Qed.

Lemma print_X_short v : 0 <= v < 2 ^ 64 -> 0 < zlen (print_X v) <= 16.
Proof.
  intros Hv. unfold print_X, zlen. rewrite length_reverse, length_map.
  pose proof (digits_rev_length 16 16 (digits_fuel v) v ltac:(lia) ltac:(change (16 ^ Z.of_nat 16) with (2 ^ 64); lia) ltac:(lia)).
  unfold digits_fuel in *. cbn [digits_rev length] in *. lia.
Qed.

(** ** The stream *)

(** A number written in place, with its null byte. *)
Lemma number_step size b text d :
  fixed_ok size b -> zlen text < kMaxNumericSize -> (kMaxNumericSize <=? avail b) = true ->
  d = splice (cur_ b) (text ++ [x00]) (data_ b) ->
  fixed_ok size (add (mkFixed d (cur_ b)) (zlen text)) /\
  toStringView (add (mkFixed d (cur_ b)) (zlen text)) = toStringView b ++ text.
Proof.
  intros Hb Ht Ha ->. rewrite (avail_eq size) in Ha by done. unfold kMaxNumericSize in *.
  pose proof Hb as [Hs Hc Hm]. pose proof (zlen_nonneg text).
  apply (write_at_cur size b text [x00]); [done|change (zlen [x00]) with 1; lia|lia|].
  apply mem_write_ok; [lia|]. rewrite zlen_app. change (zlen [x00]) with 1. lia.
Qed.

Lemma line_step_full {double} (format_g12 : double -> bytes) size s op :
  (zlen s + needs format_g12 op <=? size) = false -> line_step format_g12 size s op = s.
Proof. unfold line_step. by intros ->. Qed.

Lemma line_step_fits {double} (format_g12 : double -> bytes) size s op :
  (zlen s + needs format_g12 op <=? size) = true ->
  line_step format_g12 size s op = s ++ text_of format_g12 op.
Proof. unfold line_step. by intros ->. Qed.

Lemma room size b : fixed_ok size b ->
  (kMaxNumericSize <=? avail b) = (zlen (toStringView b) + kMaxNumericSize <=? size).
Proof. intros Hb. rewrite (zlen_fixed_view size), (avail_eq size) by done. lia. Qed.

Lemma splice_splice (i : Z) (p t d : bytes) :
  0 <= i -> i + zlen p + zlen t <= zlen d ->
  splice (i + zlen p) t (splice i p d) = splice i (p ++ t) d.
Proof.
  intros Hi Hfit. pose proof (zlen_nonneg p). pose proof (zlen_nonneg t).
  destruct (slice_split i (zlen p + zlen t) d) as (a & s & E & Ha & Hs); [lia..|].
  set (m := slice i (zlen p + zlen t) d) in *.
  assert (zlen m = zlen p + zlen t) as Hm by (apply zlen_slice; lia).
  destruct (slice_split 0 (zlen p) m) as (a' & m2 & Em & Ha' & Hm2); [lia..|].
  destruct a' as [|? a']; [|rewrite zlen_cons in Ha'; pose proof (zlen_nonneg a'); lia].
  cbn [app] in Em. set (m1 := slice 0 (zlen p) m) in *.
  assert (zlen m1 = zlen p) as Hm1 by (apply zlen_slice; lia).
  rewrite E, Em. rewrite (splice_app_mid a (m1 ++ m2) (p ++ t) s) by (rewrite ?zlen_app; lia).
  rewrite <- (app_assoc m1), (splice_app_mid a m1 p (m2 ++ s)) by lia.
  rewrite app_assoc, (splice_app_mid (a ++ p) m2 t s) by (rewrite ?zlen_app; lia).
  by rewrite <- !app_assoc.
Qed.

Section Stream.
Context {double : Type} (format_g12 : double -> bytes).

Lemma put_text_ok size b (op : log_op) :
  fixed_ok size b -> zlen (text_of format_g12 op) < 2 ^ 63 ->
  needs format_g12 op = zlen (text_of format_g12 op) + 1 ->
  exists b', append b (text_of format_g12 op) = Ok b' /\ fixed_ok size b' /\
    toStringView b' = line_step format_g12 size (toStringView b) op.
Proof.
  intros Hb Ht Hn. destruct (fixed_append_ok size b (text_of format_g12 op)) as (b' & H1 & H2 & H3); [done..|].
  exists b'. split; [done|]. split; [done|]. rewrite H3. unfold line_step. by rewrite Hn.
Qed.

Lemma put_ok size b (op : log_op) :
  fixed_ok size b -> put_op_ok format_g12 op ->
  exists b', put format_g12 b op = Ok b' /\ fixed_ok size b' /\
    toStringView b' = line_step format_g12 size (toStringView b) op.
Proof.
  intros Hb Hop. pose proof Hb as [Hs Hc Hm]. pose proof (room size b Hb) as Hroom.
  destruct op as [v|v|v|v|c|[s|]|s|text]; cbn [put].
  - destruct v; by apply (put_text_ok size b (LBool _)).
  - unfold formatInteger. destruct (_ <=? avail b) eqn:E; symmetry in Hroom.
    2:{ exists b. split; [done|]. split; [done|]. by rewrite line_step_full. }
    pose proof (print_d_short v Hop). rewrite (avail_eq size) in E by done. unfold kMaxNumericSize in E.
    rewrite convert_eq by lia. cbn [mbind res_bind]. eexists. split; [done|].
    rewrite line_step_fits by done. apply (number_step size b (print_d v)); [done|unfold kMaxNumericSize; lia| |done].
    rewrite (avail_eq size) by done. unfold kMaxNumericSize. lia.
  - unfold put_pointer. destruct (_ <=? avail b) eqn:E; symmetry in Hroom.
    2:{ exists b. split; [done|]. split; [done|]. by rewrite line_step_full. }
    cbn in Hop. pose proof (print_X_short v Hop). pose proof E as E'.
    rewrite (avail_eq size) in E by done. unfold kMaxNumericSize in E.
    assert (zlen (lit "0x") = 2) as H2 by done.
    rewrite mem_write_ok by lia. cbn [mbind res_bind].
    rewrite convertHex_eq by (rewrite ?zlen_splice; lia). cbn [mbind res_bind]. eexists. split; [done|].
    rewrite line_step_fits by done. cbn [text_of].
    replace (zlen (print_X v) + 2) with (zlen (lit "0x" ++ print_X v)) by (rewrite zlen_app; lia).
    apply number_step; [done|rewrite zlen_app; unfold kMaxNumericSize; lia|done|].
    rewrite <- H2, splice_splice; [by rewrite app_assoc|lia|]. rewrite zlen_app.
    change (zlen [x00]) with 1. lia.
  - unfold put_double. destruct (_ <=? avail b) eqn:E; symmetry in Hroom.
    2:{ exists b. split; [done|]. split; [done|]. by rewrite line_step_full. }
    cbn in Hop. pose proof E as E'. rewrite (avail_eq size) in E by done. unfold kMaxNumericSize in *.
    rewrite snprintf_fits by (unfold zlen in Hop; lia). pose proof (zlen_nonneg (format_g12 v)).
    rewrite mem_write_ok by (rewrite ?zlen_app; change (zlen [x00]) with 1; lia).
    cbn [mbind res_bind]. eexists. split; [done|].
    rewrite line_step_fits by done. by apply number_step.
  - by apply (put_text_ok size b (LChar c)).
  - cbn in Hop. apply (put_text_ok size b (LCStr (Some s))); [done| |done].
    cbn [text_of]. pose proof (find_byte_range x00 s). rewrite zlen_take; lia.
  - by apply (put_text_ok size b (LCStr None)).
  - by apply (put_text_ok size b (LString s)).
  - cbn in Hop. unfold put_fmt, Fmt_ctor. rewrite assert_true by lia. cbn [mbind res_bind].
    rewrite snprintf_fits by (unfold zlen in Hop; lia). by apply (put_text_ok size b (LFmt text)); [|cbn; lia|].
Qed.
End Stream.

Lemma put_all_ok {double} (format_g12 : double -> bytes) size ops : forall b,
  fixed_ok size b -> Forall (put_op_ok format_g12) ops ->
  exists b', put_all format_g12 b ops = Ok b' /\ fixed_ok size b' /\
    toStringView b' = fold_left (line_step format_g12 size) ops (toStringView b).
Proof.
  induction ops as [|op ops IH]; intros b Hb Hops; cbn [put_all fold_left]; [eauto|].
  apply Forall_cons in Hops as [Hop Hops].
  destruct (put_ok format_g12 size b op Hb Hop) as (b1 & E & Hb1 & Hv). rewrite E. cbn [mbind res_bind].
  rewrite <- Hv. by apply IH.
Qed.

(** Any sequence of output operators on a new stream runs without a write
    outside the buffer, and the line is the concatenation of the operators'
    texts, those dropped that do not fit, a number when fewer than 32 bytes
    are left, a string when it would not leave a byte; there is always room
    for the null byte of [debugString]. *)
Theorem put_all_correct {double} (format_g12 : double -> bytes) memory ops :
  0 < zlen memory < 2 ^ 31 -> Forall (put_op_ok format_g12) ops ->
  exists b, put_all format_g12 (FixedBuffer_ctor memory) ops = Ok b /\
    toStringView b = line format_g12 (zlen memory) ops /\
    zlen (toStringView b) < zlen memory /\
    exists d b', debugString b = Ok (d, b') /\ toStringView b' = toStringView b.
Proof.
  intros Hm Hops.
  assert (fixed_ok (zlen memory) (FixedBuffer_ctor memory)) as Hb by (split; cbn; lia).
  destruct (put_all_ok format_g12 (zlen memory) ops _ Hb Hops) as (b & H1 & H2 & H3).
  pose proof H2 as [Hs Hc _]. exists b. split; [done|]. split; [done|].
  rewrite (zlen_fixed_view (zlen memory)) by done. split; [lia|].
  unfold debugString.
  assert (mem_write (data_ b) (cur_ b) [x00] = Ok (splice (cur_ b) [x00] (data_ b))) as E
    by (apply mem_write_ok; [lia|change (zlen [x00]) with 1; lia]).
  rewrite E. cbn [mbind res_bind]. do 2 eexists. split; [done|].
  destruct (write_at_cur (zlen memory) b [] [x00] (splice (cur_ b) [x00] (data_ b))) as [_ Hv];
    [done|change (zlen [x00]) with 1; change (zlen (@nil byte)) with 0; lia|change (zlen (@nil byte)) with 0; lia|done|].
  change (zlen (@nil byte)) with 0 in Hv. rewrite Z.add_0_r, app_nil_r in Hv. done.
Qed.

Lemma put_all_correct_witness :
  let memory := replicate 40 x20 in
  let ops := [LString (lit "n="); LInt (-42); LPointer 255; LDouble true; LBool true; LCStr None] in
  let fmt := fun d : bool => lit "1.5" in
  0 < zlen memory < 2 ^ 31 /\
  exists b, put_all fmt (FixedBuffer_ctor memory) ops = Ok b /\
    toStringView b = line fmt (zlen memory) ops /\
    zlen (toStringView b) < zlen memory /\
    exists d b', debugString b = Ok (d, b') /\ toStringView b' = toStringView b.
Proof.
  split; [by vm_compute|].
  apply (put_all_correct (fun d : bool => lit "1.5") (replicate 40 x20)); [by vm_compute|].
  repeat constructor; by vm_compute.
Defined.

(** The second number still fits, the pointer and the double find fewer than
    32 bytes left. *)
Example line_example :
  line (fun d : bool => lit "1.5") 40
    [LString (lit "n="); LInt (-42); LPointer 255; LDouble true; LBool true; LCStr None] =
  lit "n=-420xFF1(null)".
Proof. vm_compute. reflexivity. Qed.

(** The number a decimal text with an optional sign denotes. *)
Definition parse_d (s : bytes) : Z :=
  match s with
  | c :: t => if bool_decide (c = x2d) then - dec_value t else dec_value s
  | [] => 0
  end.

Lemma print_u_head n : exists c t, print_u n = c :: t /\ c <> x2d.
Proof.
  assert (Forall (fun c => c <> x2d) (print_u n)) as H.
  { unfold print_u. apply Forall_reverse, List.Forall_map.
    eapply Forall_impl; [by apply (digits_rev_range 10)|]. cbn. intros d Hd E.
    apply (f_equal b2z) in E. rewrite b2z_dec_digit in E by done. change (b2z x2d) with 45 in E. lia. }
  destruct (print_u n) as [|c t] eqn:E.
  - exfalso. apply (f_equal length) in E. unfold print_u, digits_fuel in E.
    rewrite length_reverse, length_map in E. discriminate E.
  - apply Forall_cons in H as [H _]. eauto.
Qed.

Lemma parse_print v : parse_d (print_d v) = v.
Proof.
  unfold print_d. destruct (Z.ltb_spec v 0).
  - change (parse_d (lit "-" ++ print_u (- v))) with (- dec_value (print_u (- v))).
    rewrite dec_value_print; lia.
  - destruct (print_u_head v) as (c & t & E & Hc). pose proof (dec_value_print v ltac:(lia)) as Hv.
    rewrite E in *. unfold parse_d. by rewrite bool_decide_false.
Qed.

(** A signed or unsigned number of up to 64 bits, the most negative one
    included, is appended to a stream with 32 free bytes as decimal text of at
    most 20 characters that denotes the number; with less room the stream is
    unchanged. *)
Theorem formatInteger_correct size b v :
  fixed_ok size b -> - 2 ^ 63 <= v < 2 ^ 64 ->
  exists b', formatInteger b v = Ok b' /\ fixed_ok size b' /\
    (kMaxNumericSize <= avail b ->
     exists t, toStringView b' = toStringView b ++ t /\ parse_d t = v /\ zlen t <= 20) /\
    (avail b < kMaxNumericSize -> b' = b).
Proof.
  intros Hb Hv. destruct (put_ok (fun _ : unit => []) size b (LInt v) Hb Hv) as (b' & H1 & H2 & H3).
  cbn [put] in H1. exists b'. split; [done|]. split; [done|]. split.
  - intros Ha. exists (print_d v). split; [|split; [apply parse_print|apply print_d_short, Hv]].
    rewrite H3. apply line_step_fits. rewrite <- room by done. lia.
  - intros Ha. unfold formatInteger in H1.
    replace (kMaxNumericSize <=? avail b) with false in H1 by lia. by injection H1.
Qed.

Lemma formatInteger_correct_witness :
  let b := FixedBuffer_ctor (replicate 64 x20) in
  exists b', formatInteger b (- 2 ^ 63) = Ok b' /\ fixed_ok 64 b' /\
    (kMaxNumericSize <= avail b ->
     exists t, toStringView b' = toStringView b ++ t /\ parse_d t = - 2 ^ 63 /\ zlen t <= 20) /\
    (avail b < kMaxNumericSize -> b' = b).
Proof.
  apply (formatInteger_correct 64 (FixedBuffer_ctor (replicate 64 x20)) (- 2 ^ 63));
    [split; by vm_compute | by vm_compute].
Defined.
