(* ===== verification/Codec.v ===== *)
(** * The chat codec: examples/chat/codec.h

    Messages framed with a 32-bit length in network byte order.  [onMessage]
    takes the complete frames out of a connection's input buffer, [send] makes
    a frame of a message and sends it. *)

From S2P Require Import Prelude Endian Buffer BufferSpec TcpConnection.

Definition kHeaderLen : Z := 4.

Section Codec.
Context (host : endianness).

(** What [onMessage] has done: the buffer, the messages given to the callback,
    and whether it called [conn->shutdown()]. *)
Record codec_state := mkCodec {
  buf : Buffer;
  delivered : list bytes;
  shut : bool
}.

(** [*static_cast<const int32_t*>(data)] and [networkToHost32]. *)
Definition read_len (b : Buffer) : res Z :=
  data ← mem_read (buffer_ b) (peek b) 4;
  let be32 := wraps 32 (obj_value host data) in
  Ok (wraps 32 (networkToHost32 host be32)).

Fixpoint onMessage_loop (fuel : nat) (s : codec_state) : res codec_state :=
  match fuel with
  | O => Ok s
  | S fuel =>
      if kHeaderLen <=? readableBytes (buf s) then
        len ← read_len (buf s);
        if (65536 <? len) || (len <? 0) then
          Ok (mkCodec (buf s) (delivered s) true)
        else if len + kHeaderLen <=? readableBytes (buf s) then
          let b := retrieve (buf s) kHeaderLen in
          message ← mem_read (buffer_ b) (peek b) len;
          let b := retrieve b len in
          onMessage_loop fuel (mkCodec b (delivered s ++ [message]) (shut s))
        else Ok s
      else Ok s
  end.

(** Every turn of the loop takes at least a header out of the buffer. *)
Definition onMessage (s : codec_state) : res codec_state :=
  onMessage_loop (S (Z.to_nat (readableBytes (buf s)))) s.

(** [send]: the frame, then [conn->send(std::move(buf))]. *)
Definition encode (message : bytes) : res Buffer :=
  b ← Buffer_ctor;
  b ← append b message;
  let len := wraps 32 (zlen message) in
  let be32 := wraps 32 (hostToNetwork32 host len) in
  prepend b (obj_bytes host 4 be32).

Definition send (in_loop : bool) (c : TcpConnection) (message : bytes) (w : write_ret) :
    res (TcpConnection * Buffer) :=
  b ← encode message;
  send_buffer in_loop c b w.

(** ** Specification *)

Definition frame (message : bytes) : bytes := be_bytes 4 (zlen message) ++ message.

Definition msg_ok (m : bytes) : Prop := zlen m <= 65536.

(** What is left when no complete frame is: less than a header, or a header
    with a good length and less than its message. *)
Definition incomplete (t : bytes) : Prop :=
  zlen t < kHeaderLen \/
  (0 <= wraps 32 (be_value (take 4 t)) <= 65536 /\ zlen t < wraps 32 (be_value (take 4 t)) + kHeaderLen).

(** A reader fed a stream in chunks, with a callback of the codec after each. *)
Fixpoint feed (s : codec_state) (chunks : list bytes) : res codec_state :=
  match chunks with
  | [] => Ok s
  | d :: chunks =>
      b ← append (buf s) d;
      s ← onMessage (mkCodec b (delivered s) (shut s));
      feed s chunks
  end.

(** ** Lemmas *)

Lemma read_len_eq b :
  buffer_ok b -> kHeaderLen <= readableBytes b ->
  read_len b = Ok (wraps 32 (be_value (take 4 (toStringView b)))).
Proof.
  intros Hb Hn. pose proof (peekInt_eq host W32 b Hb Hn) as E. cbn [peekInt width_bytes] in E.
  unfold peekInt32 in E. rewrite assert_true in E by (unfold kHeaderLen in Hn; lia). exact E.
Qed.

Lemma frame_len m : msg_ok m -> wraps 32 (be_value (be_bytes 4 (zlen m))) = zlen m.
Proof.
  intros Hm. unfold msg_ok in Hm. pose proof (zlen_nonneg m). rewrite be_value_be_bytes.
  rewrite Z.mod_small by (change (256 ^ Z.of_nat 4) with (2 ^ 32); lia). apply wraps_small; lia.
Qed.

Lemma zlen_frame m : zlen (frame m) = kHeaderLen + zlen m.
Proof. unfold frame. by rewrite zlen_app, zlen_be_bytes. Qed.

Lemma take_frame m s : take 4 (frame m ++ s) = be_bytes 4 (zlen m).
Proof.
  unfold frame. rewrite <- app_assoc, take_app_le by (by rewrite length_be_bytes).
  apply take_ge. by rewrite length_be_bytes.
Qed.

(** One turn of the loop takes one frame. *)
Lemma loop_frame fuel s m rest :
  buffer_ok (buf s) -> toStringView (buf s) = frame m ++ rest -> msg_ok m ->
  exists b, buffer_ok b /\ toStringView b = rest /\ buffer_ b = buffer_ (buf s) /\
    onMessage_loop (S fuel) s = onMessage_loop fuel (mkCodec b (delivered s ++ [m]) (shut s)).
Proof.
  intros Hb Hv Hm. pose proof (zlen_toStringView _ Hb) as Hz. rewrite Hv, zlen_app, zlen_frame in Hz.
  pose proof (zlen_nonneg m). pose proof (zlen_nonneg rest). unfold msg_ok in Hm.
  cbn [onMessage_loop]. replace (kHeaderLen <=? readableBytes (buf s)) with true by lia.
  rewrite read_len_eq, Hv, take_frame, frame_len by (done || lia). cbn [mbind res_bind].
  replace ((65536 <? zlen m) || (zlen m <? 0)) with false by lia.
  replace (zlen m + kHeaderLen <=? readableBytes (buf s)) with true by lia.
  destruct (retrieve_ok (buf s) kHeaderLen Hb ltac:(done)) as (Hb1 & Hv1 & He1 & _).
  assert (toStringView (retrieve (buf s) kHeaderLen) = m ++ rest) as Hv1'.
  { rewrite Hv1, Hv. unfold frame. rewrite <- app_assoc. apply drop_zlen. by rewrite zlen_be_bytes. }
  destruct (retrieve_ok (retrieve (buf s) kHeaderLen) (zlen m) Hb1) as (Hb2 & Hv2 & He2 & _); [done|].
  rewrite mem_read_view, Hv1', take_zlen
    by (done || rewrite <- zlen_toStringView, Hv1', zlen_app by done; lia).
  cbn [mbind res_bind]. eexists. split; [exact Hb2|]. split; [|split; [by rewrite He2, He1|done]].
  rewrite Hv2, Hv1'. by apply drop_zlen.
Qed.

(** The loop stops at an incomplete frame. *)
Lemma loop_incomplete fuel s :
  buffer_ok (buf s) -> incomplete (toStringView (buf s)) -> onMessage_loop fuel s = Ok s.
Proof.
  intros Hb Hi. destruct fuel as [|fuel]; [done|]. cbn [onMessage_loop].
  pose proof (zlen_toStringView _ Hb) as Hz. unfold incomplete in Hi. rewrite Hz in Hi.
  destruct (Z.leb_spec kHeaderLen (readableBytes (buf s))) as [Hle|]; [|done].
  destruct Hi as [Hi|[Hr Hi]]; [lia|].
  rewrite read_len_eq by done. cbn [mbind res_bind].
  replace ((65536 <? _) || (_ <? 0)) with false by lia.
  by replace (_ <=? readableBytes (buf s)) with false by lia.
Qed.

Lemma loop_frames ms : forall fuel s tail,
  buffer_ok (buf s) -> toStringView (buf s) = concat (map frame ms) ++ tail ->
  Forall msg_ok ms -> incomplete tail -> (length ms < fuel)%nat ->
  exists b, onMessage_loop fuel s = Ok (mkCodec b (delivered s ++ ms) (shut s)) /\
    buffer_ok b /\ toStringView b = tail /\ buffer_ b = buffer_ (buf s).
Proof.
  induction ms as [|m ms IH]; intros fuel s tail Hb Hv Hms Ht Hf.
  - exists (buf s). cbn in Hv. rewrite loop_incomplete by (done || by rewrite Hv).
    rewrite app_nil_r. by destruct s.
  - apply Forall_cons in Hms as [Hm Hms]. destruct fuel as [|fuel]; [cbn in Hf; lia|].
    cbn [map concat] in Hv. rewrite <- app_assoc in Hv.
    destruct (loop_frame fuel s m _ Hb Hv Hm) as (b & Hb1 & Hv1 & He1 & ->).
    destruct (IH fuel (mkCodec b (delivered s ++ [m]) (shut s)) tail) as (b' & E & Hb' & Hv' & He');
      [done..|cbn in Hf; lia|].
    exists b'. cbn [delivered shut buf] in *. rewrite E, <- app_assoc. split; [done|]. split; [done|].
    split; [done|]. by rewrite He'.
Qed.

Lemma frames_length ms : (4 * length ms <= length (concat (map frame ms)))%nat.
Proof.
  induction ms as [|m ms IH]; cbn [map concat length]; [lia|]. rewrite length_app.
  unfold frame at 1. rewrite length_app, length_be_bytes. lia.
Qed.

(** [onMessage] on whole frames and an incomplete one. *)
Lemma onMessage_frames s ms tail :
  buffer_ok (buf s) -> toStringView (buf s) = concat (map frame ms) ++ tail ->
  Forall msg_ok ms -> incomplete tail ->
  exists b, onMessage s = Ok (mkCodec b (delivered s ++ ms) (shut s)) /\
    buffer_ok b /\ toStringView b = tail /\ buffer_ b = buffer_ (buf s).
Proof.
  intros Hb Hv Hms Ht. apply loop_frames; [done..|].
  rewrite <- zlen_toStringView, Hv, zlen_app by done. pose proof (frames_length ms).
  unfold zlen. lia.
Qed.

(** ** Chunks *)

Lemma incomplete_prefix p rest : incomplete (p ++ rest) -> incomplete p.
Proof.
  unfold incomplete. rewrite zlen_app. pose proof (zlen_nonneg rest). intros [H1|[H1 H2]]; [left; lia|].
  destruct (Z.ltb_spec (zlen p) kHeaderLen); [by left|right].
  rewrite take_app_le in H1, H2 by (unfold zlen, kHeaderLen in *; lia). lia.
Qed.

Lemma incomplete_frame m p rest :
  msg_ok m -> p ++ rest = frame m -> zlen p < zlen (frame m) -> incomplete p.
Proof.
  intros Hm E Hlt. unfold incomplete. destruct (Z.ltb_spec (zlen p) kHeaderLen); [by left|right].
  assert (take 4 p = be_bytes 4 (zlen m)) as ->.
  { rewrite <- (take_app_le p rest) by (unfold zlen, kHeaderLen in *; lia). rewrite E.
    rewrite <- (app_nil_r (frame m)). apply take_frame. }
  rewrite frame_len by done. rewrite zlen_frame in Hlt. unfold msg_ok in Hm.
  pose proof (zlen_nonneg m). lia.
Qed.

(** A prefix of a stream of frames is a stream of frames and an incomplete one. *)
Lemma split_prefix ms tail : forall p rest,
  p ++ rest = concat (map frame ms) ++ tail -> Forall msg_ok ms -> incomplete tail ->
  exists ms1 ms2 t, ms = ms1 ++ ms2 /\ p = concat (map frame ms1) ++ t /\ incomplete t /\
    t ++ rest = concat (map frame ms2) ++ tail.
Proof.
  induction ms as [|m ms IH]; intros p rest E Hms Ht.
  - exists [], [], p. cbn in *. split; [done|]. split; [done|]. split; [|done].
    apply (incomplete_prefix p rest). by rewrite E.
  - apply Forall_cons in Hms as [Hm Hms]. cbn [map concat] in E. rewrite <- app_assoc in E.
    destruct (Z.ltb_spec (zlen p) (zlen (frame m))) as [Hlt|Hge].
    + exists [], (m :: ms), p. cbn [map concat app]. split; [done|]. split; [done|].
      split; [|by rewrite <- app_assoc].
      apply (incomplete_frame m p (drop (length p) (frame m))); [done| |done].
      pose proof (f_equal (take (length p)) E) as E'. rewrite take_app_length in E'.
      rewrite take_app_le in E' by (unfold zlen in Hlt; lia).
      rewrite E' at 1. apply take_drop.
    + assert (p = frame m ++ drop (length (frame m)) p) as Ep.
      { pose proof (f_equal (take (length (frame m))) E) as E'. rewrite take_app_length in E'.
        rewrite take_app_le in E' by (unfold zlen in Hge; lia).
        rewrite <- E' at 1. by rewrite take_drop. }
      rewrite Ep, <- app_assoc in E. apply app_inv_head in E.
      destruct (IH _ _ E Hms Ht) as (ms1 & ms2 & t & E1 & E2 & E3 & E4).
      exists (m :: ms1), ms2, t. split; [by rewrite E1|]. split; [|done].
      rewrite Ep, E2 at 1. cbn [map concat]. by rewrite <- app_assoc.
Qed.

Lemma feed_frames chunks : forall s ms tail,
  buffer_ok (buf s) -> incomplete (toStringView (buf s)) ->
  toStringView (buf s) ++ concat chunks = concat (map frame ms) ++ tail ->
  Forall msg_ok ms -> incomplete tail -> zlen (buffer_ (buf s)) + zlen (concat chunks) <= max_size ->
  exists b, feed s chunks = Ok (mkCodec b (delivered s ++ ms) (shut s)) /\
    buffer_ok b /\ toStringView b = tail.
Proof.
  induction chunks as [|d chunks IH]; intros s ms tail Hb Hi E Hms Ht Hmax; cbn [feed concat] in *.
  - rewrite app_nil_r in E. destruct (onMessage_frames s ms tail Hb E Hms Ht) as (b & E1 & Hb1 & Hv1 & _).
    unfold onMessage in E1. rewrite loop_incomplete in E1 by done. injection E1 as E1.
    exists b. split; [by rewrite E1 at 1|]. done.
  - rewrite zlen_app in Hmax. pose proof (zlen_nonneg (concat chunks)).
    destruct (append_grows (buf s) d) as (b1 & -> & Hb1 & Hv1 & Hg); [done|lia|].
    cbn [mbind res_bind]. rewrite app_assoc, <- Hv1 in E.
    destruct (split_prefix ms tail _ _ E Hms Ht) as (ms1 & ms2 & t & -> & E2 & E3 & E4).
    apply Forall_app in Hms as [Hms1 Hms2].
    destruct (onMessage_frames (mkCodec b1 (delivered s) (shut s)) ms1 t) as (b2 & -> & Hb2 & Hv2 & He2);
      [done..|]. cbn [mbind res_bind delivered shut buf] in *.
    destruct (IH (mkCodec b2 (delivered s ++ ms1) (shut s)) ms2 tail) as (b & -> & Hb' & Hv');
      cbn [buf]; [done|by rewrite Hv2|by rewrite Hv2|done|done|rewrite He2; lia|].
    exists b. cbn [delivered shut]. by rewrite <- app_assoc.
Qed.

(** [encode] makes a frame. *)
Lemma encode_ok m :
  zlen m + 1032 <= max_size -> exists b, encode m = Ok b /\ buffer_ok b /\ toStringView b = frame m.
Proof.
  intros Hm. unfold encode. rewrite Buffer_ctor_init. cbn [mbind res_bind].
  destruct (append_ok buffer_init m) as (b1 & -> & Hb1 & Hv1 & _ & Hr);
    [apply buffer_init_ok|change (writerIndex_ buffer_init) with 8; lia|]. cbn [mbind res_bind].
  set (h := obj_bytes host 4 _).
  assert (h = be_bytes 4 (zlen m)) as Hh.
  { unfold h, hostToNetwork32. rewrite network_bytes by done. rewrite <- be_bytes_mod.
    change (256 ^ Z.of_nat 4) with (2 ^ 32). change (wraps 32 (zlen m) mod 2 ^ 32) with (wrapu 32 (wraps 32 (zlen m))).
    rewrite wrapu_wraps by done. apply (be_bytes_mod 4). }
  destruct (prepend_ok b1 h) as (b2 & E & Hb2 & Hv2 & _); [done| |].
  { rewrite Hh, zlen_be_bytes. destruct Hr as [-> | [-> _]]; by vm_compute. }
  exists b2. split; [done|]. split; [done|]. rewrite Hv2, Hv1, Hh. unfold frame.
  by rewrite view_buffer_init.
Qed.
End Codec.

Definition codec_start : codec_state := mkCodec buffer_init [] false.

(** ** Properties *)

(** C20: what one peer's codec sends, the other's receives: for messages of at
    most 65536 bytes, hosts of any byte order, and the stream of their frames
    cut into chunks anywhere, also behind the first bytes of a next frame, the
    callbacks get exactly the messages, in order, what is incomplete stays in
    the buffer, and the connection is not shut down. *)
Theorem codec_roundtrip sender receiver ms :
  Forall msg_ok ms ->
  exists frames, Forall2 (fun m f => exists b, encode sender m = Ok b /\ toStringView b = f) ms frames /\
    forall chunks tail,
      concat chunks = concat frames ++ tail -> incomplete tail ->
      zlen (concat chunks) + 1032 <= max_size ->
      exists b, feed receiver codec_start chunks = Ok (mkCodec b ms false) /\ toStringView b = tail.
Proof.
  intros Hms. exists (map frame ms). split.
  - induction Hms as [|m ms Hm Hms IH]; cbn [map]; constructor; [|done].
    destruct (encode_ok sender m) as (b & ? & _ & ?); [|eauto].
    unfold msg_ok, max_size in *. lia.
  - intros chunks tail E Ht Hmax.
    destruct (feed_frames receiver chunks codec_start ms tail) as (b & E1 & _ & Hv);
      cbn [codec_start buf]; rewrite ?view_buffer_init, ?zlen_buffer_init;
      [apply buffer_init_ok|by left|done|done|done|lia|]. eauto.
Qed.

Lemma codec_roundtrip_witness :
  exists frames, Forall2 (fun m f => exists b, encode BigEndian m = Ok b /\ toStringView b = f)
      [lit "hi"; []; lit "bye"] frames /\
    forall chunks tail,
      concat chunks = concat frames ++ tail -> incomplete tail ->
      zlen (concat chunks) + 1032 <= max_size ->
      exists b, feed LittleEndian codec_start chunks = Ok (mkCodec b [lit "hi"; []; lit "bye"] false) /\
        toStringView b = tail.
Proof. apply codec_roundtrip. repeat constructor; by vm_compute. Defined.

(** [send] has no limit on a message, and the receiver has one: a message
    of more than 65536 bytes (and less than 2 GiB) is framed as any other, and
    its frame makes the receiver shut the connection down, deliver nothing and
    keep the frame, so that every later message on the connection does the
    same. *)
Theorem codec_oversized_rejected sender receiver m b d :
  65536 < zlen m < 2 ^ 31 -> buffer_ok b -> toStringView b = frame m ++ d ->
  (exists e, encode sender m = Ok e /\ toStringView e = frame m) /\
  forall n s, onMessage receiver (mkCodec b n s) = Ok (mkCodec b n true).
Proof.
  intros Hm Hb Hv. split.
  - destruct (encode_ok sender m) as (e & ? & _ & ?); [unfold max_size; lia|eauto].
  - intros n s. unfold onMessage. cbn [onMessage_loop buf].
    pose proof (zlen_toStringView b Hb) as Hz. rewrite Hv, zlen_app, zlen_frame in Hz.
    pose proof (zlen_nonneg d). unfold kHeaderLen in *.
    replace (4 <=? readableBytes b) with true by lia.
    rewrite read_len_eq, Hv, take_frame, be_value_be_bytes by (done || unfold kHeaderLen; lia).
    cbn [mbind res_bind]. rewrite Z.mod_small by (change (256 ^ Z.of_nat 4) with (2 ^ 32); lia).
    rewrite wraps_small by lia. by replace ((65536 <? zlen m) || (zlen m <? 0)) with true by lia.
Qed.

Lemma whole_buffer l : kCheapPrepend <= zlen l <= max_size ->
  buffer_ok (mkBuffer l 0 (zlen l)) /\ toStringView (mkBuffer l 0 (zlen l)) = l.
Proof.
  intros Hl. unfold max_size in *. split; [split; cbn; unfold max_size, kCheapPrepend in *; lia|].
  unfold toStringView, readableBytes, peek. cbn [readerIndex_ writerIndex_ buffer_].
  rewrite Z.sub_0_r, u64_small by (unfold kCheapPrepend in *; lia). apply slice_all.
Qed.

Lemma codec_oversized_rejected_witness :
  let m := replicate (Z.to_nat 65537) x61 in
  let b := mkBuffer (frame m) 0 (zlen (frame m)) in
  (exists e, encode LittleEndian m = Ok e /\ toStringView e = frame m) /\
  forall n s, onMessage LittleEndian (mkCodec b n s) = Ok (mkCodec b n true).
Proof.
  intros m. assert (zlen m = 65537) as Hm by (apply zlen_replicate; lia). intros b.
  assert (kCheapPrepend <= zlen (frame m) <= max_size) as Hl
    by (rewrite zlen_frame; unfold kCheapPrepend, kHeaderLen, max_size; lia).
  destruct (whole_buffer (frame m) Hl) as [Hb Hv].
  apply (codec_oversized_rejected LittleEndian LittleEndian m b []); [lia|exact Hb|].
  rewrite app_nil_r. exact Hv.
Defined.
