(* ===== verification/Connector.v ===== *)
(** * Connecting: tmuduo/net/Connector.h and Connector.cc

    The connector of a client with its functors in the loop's queue, its retry
    timers, and what has become of the sockets it opened.  Results of system
    calls (the descriptor of a new socket, the error of [connect], the pending
    error of a socket, whether it is connected to itself) are arguments. *)

From S2P Require Import Prelude Channel.

(** ** Errors of connect(2), Linux values *)

Definition EPERM : Z := 1.
Definition EINTR : Z := 4.
Definition EBADF : Z := 9.
Definition EAGAIN : Z := 11.
Definition EACCES : Z := 13.
Definition EFAULT : Z := 14.
Definition ENOTSOCK : Z := 88.
Definition EAFNOSUPPORT : Z := 97.
Definition EADDRINUSE : Z := 98.
Definition EADDRNOTAVAIL : Z := 99.
Definition ENETUNREACH : Z := 101.
Definition EISCONN : Z := 106.
Definition ECONNREFUSED : Z := 111.
Definition EALREADY : Z := 114.
Definition EINPROGRESS : Z := 115.

(** ** State *)

Inductive States := kDisconnected | kConnecting | kConnected.

#[global] Instance States_eq_dec : EqDecision States.
Proof. solve_decision. Defined.

Definition kMaxRetryDelayMs : Z := 30 * 1000.
Definition kInitRetryDelayMs : Z := 500.

Inductive functor := FStartInLoop | FStopInLoop | FResetChannel.

#[global] Instance functor_eq_dec : EqDecision functor.
Proof. solve_decision. Defined.

(** [timers] counts the pending retry timers; [delays] are those scheduled
    since the construction or the last [restart].  [opened], [closed] and
    [handed] are the sockets made, closed, and given to the callback. *)
Record Connector := mkConnector {
  connect_ : bool;
  state_ : States;
  channel_ : option Channel;
  retryDelayMs_ : Z;
  queued : list functor;
  timers : nat;
  delays : list Z;
  opened : list Z;
  closed : list Z;
  handed : list Z
}.

Definition Connector_ctor : Connector :=
  mkConnector false kDisconnected None kInitRetryDelayMs [] 0 [] [] [] [].

(** Field updates. *)
Definition setConnect (c : Connector) (b : bool) : Connector :=
  mkConnector b (state_ c) (channel_ c) (retryDelayMs_ c) (queued c) (timers c) (delays c)
    (opened c) (closed c) (handed c).
Definition setState (c : Connector) (s : States) : Connector :=
  mkConnector (connect_ c) s (channel_ c) (retryDelayMs_ c) (queued c) (timers c) (delays c)
    (opened c) (closed c) (handed c).
Definition setChannel (c : Connector) (ch : option Channel) : Connector :=
  mkConnector (connect_ c) (state_ c) ch (retryDelayMs_ c) (queued c) (timers c) (delays c)
    (opened c) (closed c) (handed c).
Definition resetDelay (c : Connector) : Connector :=
  mkConnector (connect_ c) (state_ c) (channel_ c) kInitRetryDelayMs (queued c) (timers c) []
    (opened c) (closed c) (handed c).
Definition queueInLoop (c : Connector) (f : functor) : Connector :=
  mkConnector (connect_ c) (state_ c) (channel_ c) (retryDelayMs_ c) (queued c ++ [f]) (timers c)
    (delays c) (opened c) (closed c) (handed c).
Definition pop_functor (c : Connector) : Connector :=
  mkConnector (connect_ c) (state_ c) (channel_ c) (retryDelayMs_ c) (tail (queued c)) (timers c)
    (delays c) (opened c) (closed c) (handed c).
Definition open_socket (c : Connector) (fd : Z) : Connector :=
  mkConnector (connect_ c) (state_ c) (channel_ c) (retryDelayMs_ c) (queued c) (timers c) (delays c)
    (opened c ++ [fd]) (closed c) (handed c).
Definition close_socket (c : Connector) (fd : Z) : Connector :=
  mkConnector (connect_ c) (state_ c) (channel_ c) (retryDelayMs_ c) (queued c) (timers c) (delays c)
    (opened c) (closed c ++ [fd]) (handed c).
Definition newConnectionCallback (c : Connector) (fd : Z) : Connector :=
  mkConnector (connect_ c) (state_ c) (channel_ c) (retryDelayMs_ c) (queued c) (timers c) (delays c)
    (opened c) (closed c) (handed c ++ [fd]).
(** [loop_->runAfter(retryDelayMs_ / 1000.0, startInLoop)] and the next delay. *)
Definition schedule_retry (c : Connector) : Connector :=
  mkConnector (connect_ c) (state_ c) (channel_ c) (Z.min (retryDelayMs_ c * 2) kMaxRetryDelayMs)
    (queued c) (S (timers c)) (delays c ++ [retryDelayMs_ c]) (opened c) (closed c) (handed c).
Definition pop_timer (c : Connector) : Connector :=
  mkConnector (connect_ c) (state_ c) (channel_ c) (retryDelayMs_ c) (queued c) (pred (timers c))
    (delays c) (opened c) (closed c) (handed c).

(** ** Operations *)

Definition retry (c : Connector) (sockfd : Z) : Connector :=
  let c := close_socket c sockfd in
  let c := setState c kDisconnected in
  if connect_ c then schedule_retry c else c.

Definition connecting (c : Connector) (sockfd : Z) : res Connector :=
  let c := setState c kConnecting in
  assert_ (bool_decide (channel_ c = None));;
  let ch := setCallbacks (Channel_ctor 0 sockfd) false true false true in
  Ok (setChannel c (Some (setEvents ch (enable kWriteEvent (events_ ch))))).

(** [connect]: the new socket and the error of connect(2), 0 when there is none. *)
Definition connect (c : Connector) (sockfd savedErrno : Z) : res Connector :=
  let c := open_socket c sockfd in
  if bool_decide (savedErrno ∈ [0; EINPROGRESS; EINTR; EISCONN]) then connecting c sockfd
  else if bool_decide (savedErrno ∈ [EAGAIN; EADDRINUSE; EADDRNOTAVAIL; ECONNREFUSED; ENETUNREACH])
  then Ok (retry c sockfd)
  else Ok (close_socket c sockfd).

Definition startInLoop (c : Connector) (sockfd savedErrno : Z) : res Connector :=
  assert_ (bool_decide (state_ c = kDisconnected));;
  if connect_ c then connect c sockfd savedErrno else Ok c.

Definition start (in_loop : bool) (c : Connector) (sockfd savedErrno : Z) : res Connector :=
  let c := setConnect c true in
  if in_loop then startInLoop c sockfd savedErrno else Ok (queueInLoop c FStartInLoop).

Definition removeAndResetChannel (c : Connector) : res (Connector * Z) :=
  match channel_ c with
  | None => Err NullDereference
  | Some ch =>
      let ch := setEvents ch kNoneEvent in
      assert_ (isNoneEvent ch);;
      Ok (queueInLoop (setChannel c (Some ch)) FResetChannel, fd_ ch)
  end.

Definition resetChannel (c : Connector) : Connector := setChannel c None.

Definition stopInLoop (c : Connector) : res Connector :=
  if bool_decide (state_ c = kConnecting) then
    let c := setState c kDisconnected in
    '(c, sockfd) ← removeAndResetChannel c;
    Ok (retry c sockfd)
  else Ok c.

Definition stop (in_loop : bool) (c : Connector) : res Connector :=
  let c := setConnect c false in
  if in_loop then stopInLoop c else Ok (queueInLoop c FStopInLoop).

Definition restart (c : Connector) (sockfd savedErrno : Z) : res Connector :=
  let c := setState c kDisconnected in
  let c := resetDelay c in
  let c := setConnect c true in
  startInLoop c sockfd savedErrno.

Definition handleWrite (c : Connector) (err : Z) (self_connect : bool) : res Connector :=
  if bool_decide (state_ c = kConnecting) then
    '(c, sockfd) ← removeAndResetChannel c;
    if negb (err =? 0) then Ok (retry c sockfd)
    else if self_connect then Ok (retry c sockfd)
    else
      let c := setState c kConnected in
      Ok (if connect_ c then newConnectionCallback c sockfd else close_socket c sockfd)
  else
    assert_ (bool_decide (state_ c = kDisconnected));;
    Ok c.

Definition handleError (c : Connector) : res Connector :=
  assert_ (bool_decide (state_ c = kConnecting));;
  '(c, sockfd) ← removeAndResetChannel c;
  Ok (retry c sockfd).

(** The destructor's assertion. *)
Definition Connector_dtor (c : Connector) : res unit := assert_ (bool_decide (channel_ c = None)).

Definition stateToString (s : States) : bytes :=
  match s with
  | kDisconnected => lit "DisConnected"
  | kConnecting => lit "DisConnected"
  | kConnected => lit "DisConnected"
  end.

(** ** Runs

    Besides the calls of its owner, a connector gets three kinds of events: an
    event of its channel, with the [revents] of the poller, which the poller
    reports only while the channel watches something; the next functor of the
    queue; and a retry timer that is pending. *)

Definition run_callback (c : Connector) (cb : channel_callback) (err : Z) (self_connect : bool)
    : res Connector :=
  match cb with
  | CbWrite => handleWrite c err self_connect
  | CbError => handleError c
  | CbClose | CbRead _ => Ok c
  end.

Fixpoint run_callbacks (c : Connector) (cbs : list channel_callback) (err : Z) (self_connect : bool)
    : res Connector :=
  match cbs with
  | [] => Ok c
  | cb :: cbs => c ← run_callback c cb err self_connect; run_callbacks c cbs err self_connect
  end.

Definition channel_event (c : Connector) (revents err : Z) (self_connect : bool) : res Connector :=
  match channel_ c with
  | Some ch =>
      if isNoneEvent ch then Ok c
      else run_callbacks c (handleEvent (setRevents ch revents) 0) err self_connect
  | None => Ok c
  end.

Inductive connector_op :=
| OpStart (in_loop : bool) (sockfd savedErrno : Z)
| OpStop (in_loop : bool)
| OpRestart (sockfd savedErrno : Z)
| OpEvent (revents err : Z) (self_connect : bool)
| OpRunFunctor (sockfd savedErrno : Z)
| OpTimer (sockfd savedErrno : Z).

Definition run_functor (c : Connector) (f : functor) (sockfd savedErrno : Z) : res Connector :=
  match f with
  | FStartInLoop => startInLoop c sockfd savedErrno
  | FStopInLoop => stopInLoop c
  | FResetChannel => Ok (resetChannel c)
  end.

Definition step (c : Connector) (op : connector_op) : res Connector :=
  match op with
  | OpStart in_loop sockfd e => start in_loop c sockfd e
  | OpStop in_loop => stop in_loop c
  | OpRestart sockfd e => restart c sockfd e
  | OpEvent revents err self => channel_event c revents err self
  | OpRunFunctor sockfd e =>
      match queued c with [] => Ok c | f :: _ => run_functor (pop_functor c) f sockfd e end
  | OpTimer sockfd e =>
      match timers c with O => Ok c | S _ => startInLoop (pop_timer c) sockfd e end
  end.

Fixpoint run (c : Connector) (ops : list connector_op) : res Connector :=
  match ops with
  | [] => Ok c
  | op :: ops => c ← step c op; run c ops
  end.

(** [P] holds of every operation of a run and the state it meets. *)
Fixpoint along (P : Connector -> connector_op -> Prop) (c : Connector) (ops : list connector_op) : Prop :=
  match ops with
  | [] => True
  | op :: ops => P c op /\ forall c', step c op = Ok c' -> along P c' ops
  end.

(** [restart] is for a connector that has no attempt in progress: the client
    calls it when the connection that it was handed has gone down. *)
Definition restart_ok (c : Connector) (op : connector_op) : Prop :=
  match op with OpRestart _ _ => state_ c <> kConnecting | _ => True end.

(** *** The call of [startInLoop] in an operation: its state, and the error of
    connect(2) if it gets there. *)

Definition starts (c : Connector) (op : connector_op) : option (Connector * Z) :=
  match op with
  | OpStart true _ e => Some (setConnect c true, e)
  | OpRestart _ e => Some (setConnect (resetDelay (setState c kDisconnected)) true, e)
  | OpRunFunctor _ e =>
      match queued c with FStartInLoop :: _ => Some (pop_functor c, e) | _ => None end
  | OpTimer _ e => match timers c with O => None | S _ => Some (pop_timer c, e) end
  | _ => None
  end.

Definition in_progress (e : Z) : Prop := e ∈ [0; EINPROGRESS; EINTR; EISCONN].
Definition retryable (e : Z) : Prop :=
  e ∈ [EAGAIN; EADDRINUSE; EADDRNOTAVAIL; ECONNREFUSED; ENETUNREACH].

(** When that call comes too early: the connector is connecting or connected,
    or the channel of the last attempt still waits for its reset. *)
Definition start_aborts (c : Connector) (e : Z) : Prop :=
  state_ c <> kDisconnected \/ connect_ c = true /\ in_progress e /\ channel_ c <> None.

#[global] Instance start_aborts_dec c e : Decision (start_aborts c e).
Proof. unfold start_aborts, in_progress. apply _. Defined.

(** A run in which no start is too early. *)
Definition op_ok (c : Connector) (op : connector_op) : Prop :=
  restart_ok c op /\
  match starts c op with Some (cs, e) => ~ start_aborts cs e | None => True end.

Definition run_ok : Connector -> list connector_op -> Prop := along op_ok.

(** *** Orderly use: the connector is started once, the client restarts it only
    when a connection was made, and the loop's order of things: the functors
    queued in one turn of the loop, among them the reset of the channel, have
    run before the timers of a later turn and before a connection goes down. *)

Definition is_start (op : connector_op) : bool := match op with OpStart _ _ _ => true | _ => false end.
Definition started_once (ops : list connector_op) : Prop := (length (filter is_start ops) <= 1)%nat.

Definition in_order (c : Connector) (op : connector_op) : Prop :=
  match op with
  | OpTimer _ _ => FResetChannel ∉ queued c
  | OpRestart _ _ => state_ c = kConnected /\ FResetChannel ∉ queued c
  | _ => True
  end.

(** ** Invariant *)

(** The socket of an attempt in progress. *)
Definition held (c : Connector) : list Z :=
  match state_ c, channel_ c with kConnecting, Some ch => [fd_ ch] | _, _ => [] end.

(** The delay of the [k]-th retry. *)
Definition backoff (k : nat) : Z := Z.min (kInitRetryDelayMs * 2 ^ Z.of_nat k) kMaxRetryDelayMs.

Definition resets (c : Connector) : nat := count_occ functor_eq_dec (queued c) FResetChannel.

Record connector_inv (c : Connector) : Prop := {
  inv_connecting : state_ c = kConnecting -> is_Some (channel_ c);
  inv_watched : forall ch, channel_ c = Some ch -> isNoneEvent ch = false -> state_ c = kConnecting;
  inv_resets : resets c =
    (if bool_decide (state_ c = kConnecting) || bool_decide (channel_ c = None) then 0 else 1)%nat;
  inv_sockets : opened c ≡ₚ closed c ++ handed c ++ held c;
  inv_delays : delays c = map backoff (seq 0 (length (delays c)));
  inv_delay : retryDelayMs_ c = backoff (length (delays c))
}.

(** ** Preservation *)

Lemma backoff_next k : Z.min (backoff k * 2) kMaxRetryDelayMs = backoff (S k).
Proof.
  unfold backoff, kMaxRetryDelayMs, kInitRetryDelayMs. rewrite Nat2Z.inj_succ, Z.pow_succ_r by lia.
  pose proof (Z.pow_nonneg 2 (Z.of_nat k) ltac:(lia)). lia.
Qed.

(** [retry] of the socket of an attempt that is over. *)
Lemma retry_ok c fd :
  (forall ch, channel_ c = Some ch -> isNoneEvent ch = true) ->
  resets c = (if bool_decide (channel_ c = None) then 0 else 1)%nat ->
  opened c ≡ₚ closed c ++ handed c ++ [fd] ->
  delays c = map backoff (seq 0 (length (delays c))) -> retryDelayMs_ c = backoff (length (delays c)) ->
  connector_inv (retry c fd).
Proof.
  intros Hw Hr Hs Hd Hdl.
  assert (opened c ≡ₚ (closed c ++ [fd]) ++ handed c ++ []) as Hs'.
  { rewrite Hs, app_nil_r, <- app_assoc. apply Permutation_app_head, Permutation_app_comm. }
  assert (forall (s : States) ch, channel_ c = Some ch -> isNoneEvent ch = false -> s = kConnecting) as Hw'
    by (intros s ch Hch E; rewrite (Hw ch Hch) in E; done).
  unfold retry. cbn [connect_ setState close_socket]. destruct (connect_ c).
  - split; cbn; try done; [by apply Hw'| |]; rewrite length_app, Nat.add_comm; cbn [length Nat.add].
    + rewrite seq_S, map_app, <- Hd. cbn. by rewrite Hdl.
    + by rewrite Hdl, backoff_next.
  - split; try done. by apply Hw'.
Qed.

Lemma connecting_ok c fd :
  connector_inv (setState c kDisconnected) -> channel_ c = None ->
  exists c', connecting (open_socket c fd) fd = Ok c' /\ connector_inv c'.
Proof.
  intros [Hc Hw Hr Hs Hd Hdl] Hch. unfold connecting. cbn [channel_ setState open_socket]. rewrite Hch.
  rewrite assert_true by done. cbn [mbind res_bind]. eexists. split; [done|].
  unfold resets, held in *. cbn in *. rewrite Hch in *.
  split; cbn; try done. rewrite Hs, app_nil_r, <- app_assoc. done.
Qed.

Lemma connect_ok c fd e :
  connector_inv c -> state_ c = kDisconnected -> (in_progress e -> channel_ c = None) ->
  exists c', connect c fd e = Ok c' /\ connector_inv c'.
Proof.
  intros Hi Hst Hch. unfold connect. pose proof Hi as [_ Hw Hr Hs Hd Hdl].
  assert (held c = []) as Hh by (unfold held; by rewrite Hst). rewrite Hh, app_nil_r in Hs.
  destruct (bool_decide_reflect (e ∈ [0; EINPROGRESS; EINTR; EISCONN])) as [He|He].
  { apply connecting_ok; [|by apply Hch]. destruct c; cbn in *. by subst. }
  rewrite Hst in Hr. destruct (bool_decide (e ∈ _)).
  - eexists. split; [done|]. apply retry_ok; cbn; try done; [|by rewrite Hs, app_assoc].
    intros ch E. destruct (isNoneEvent ch) eqn:En; [done|]. specialize (Hw ch E En). congruence.
  - eexists. split; [done|]. split; cbn; try done; [by rewrite Hst|by rewrite Hst|].
    unfold held. cbn. rewrite Hst, app_nil_r, Hs, <- !app_assoc.
    apply Permutation_app_head, Permutation_app_comm.
Qed.

Lemma startInLoop_ok c fd e :
  connector_inv c -> ~ start_aborts c e -> exists c', startInLoop c fd e = Ok c' /\ connector_inv c'.
Proof.
  intros Hi Ha. unfold start_aborts in Ha. unfold startInLoop.
  assert (state_ c = kDisconnected) as Hst by (destruct (decide (state_ c = kDisconnected)); [done|tauto]).
  rewrite assert_true by (by rewrite Hst). cbn [mbind res_bind].
  destruct (connect_ c); [|eauto]. apply connect_ok; [done|done|]. intros He.
  destruct (channel_ c) eqn:Hch; [|done]. destruct Ha. by right.
Qed.

Lemma startInLoop_aborts c fd e : start_aborts c e -> startInLoop c fd e = Err AssertFail.
Proof.
  intros Ha. unfold startInLoop. destruct (decide (state_ c = kDisconnected)) as [Hst|Hst].
  2: by rewrite bool_decide_false.
  rewrite assert_true by (by rewrite Hst). cbn [mbind res_bind].
  destruct Ha as [|(-> & He & Hch)]; [done|].
  unfold connect. rewrite bool_decide_true by done. unfold connecting. cbn. by rewrite bool_decide_false.
Qed.

(** Ending an attempt: its channel is removed and reset later. *)
Lemma connector_remove_ok c :
  connector_inv c -> state_ c = kConnecting ->
  exists c' fd, (forall s, removeAndResetChannel (setState c s) = Ok (setState c' s, fd)) /\
    removeAndResetChannel c = Ok (c', fd) /\ state_ c' = kConnecting /\
    (exists ch, channel_ c' = Some ch /\ isNoneEvent ch = true) /\
    resets c' = 1%nat /\ opened c' ≡ₚ closed c' ++ handed c' ++ [fd] /\
    delays c' = delays c /\ retryDelayMs_ c' = retryDelayMs_ c /\ connect_ c' = connect_ c.
Proof.
  intros [Hc _ Hr Hs Hd Hdl] Hst. destruct (Hc Hst) as [ch Hch].
  unfold held in Hs. rewrite Hst, Hch in Hs. rewrite Hst in Hr. cbn in Hr.
  unfold removeAndResetChannel. cbn [channel_ setState]. rewrite Hch.
  exists (queueInLoop (setChannel c (Some (setEvents ch kNoneEvent))) FResetChannel), (fd_ ch).
  split; [done|]. split; [done|]. split; [done|]. split; [by eexists|].
  split; [|done]. unfold resets. cbn. rewrite count_occ_app. unfold resets in Hr. by rewrite Hr.
Qed.

(** After it, [retry] of the socket. *)
Lemma remove_retry_ok c c' fd :
  connector_inv c -> (exists ch, channel_ c' = Some ch /\ isNoneEvent ch = true) -> resets c' = 1%nat ->
  opened c' ≡ₚ closed c' ++ handed c' ++ [fd] -> delays c' = delays c -> retryDelayMs_ c' = retryDelayMs_ c ->
  connector_inv (retry c' fd).
Proof.
  intros Hi (ch & Hch & Hn) Hr Hs Hd Hdl. pose proof Hi as [_ _ _ _ Hd0 Hdl0].
  apply retry_ok; rewrite ?Hd, ?Hdl, ?Hch; try done. by intros ch' [= <-].
Qed.

Lemma stopInLoop_ok c :
  connector_inv c -> exists c', stopInLoop c = Ok c' /\ connector_inv c'.
Proof.
  intros Hi. unfold stopInLoop. case_bool_decide as Hst; [|eauto].
  destruct (connector_remove_ok c Hi Hst) as (c' & fd & E & _ & _ & Hch & Hr & Hs & Hd & Hdl & _).
  rewrite E. cbn [mbind res_bind]. eexists. split; [done|]. by apply (remove_retry_ok c).
Qed.

Lemma handleError_ok c :
  connector_inv c -> state_ c = kConnecting ->
  exists c', handleError c = Ok c' /\ connector_inv c' /\ state_ c' = kDisconnected.
Proof.
  intros Hi Hst. unfold handleError. rewrite assert_true by (by rewrite Hst). cbn [mbind res_bind].
  destruct (connector_remove_ok c Hi Hst) as (c' & fd & _ & -> & _ & Hch & Hr & Hs & Hd & Hdl & _).
  cbn [mbind res_bind]. eexists. split; [done|]. split; [by apply (remove_retry_ok c)|].
  unfold retry. by destruct (connect_ _).
Qed.

Lemma connector_handleWrite_ok c err self :
  connector_inv c -> state_ c <> kConnected -> exists c', handleWrite c err self = Ok c' /\ connector_inv c'.
Proof.
  intros Hi Hne. unfold handleWrite. case_bool_decide as Hst.
  2:{ rewrite assert_true by (by destruct (state_ c)). by exists c. }
  destruct (connector_remove_ok c Hi Hst) as (c' & fd & _ & -> & _ & Hch & Hr & Hs & Hd & Hdl & _).
  cbn [mbind res_bind]. assert (connector_inv (retry c' fd)) as Hretry by by apply (remove_retry_ok c).
  destruct (negb (err =? 0)); [eauto|]. destruct self; [eauto|].
  pose proof Hi as [_ _ _ _ Hd0 Hdl0]. destruct Hch as (ch & Hch & Hn).
  eexists. split; [done|]. cbn [connect_ setState]. destruct (connect_ c').
  all: split; cbn; rewrite ?Hd, ?Hdl; try done; [intros ch'; rewrite Hch; intros [= <-]; congruence|by rewrite Hch|].
  - by rewrite Hs, app_nil_r.
  - rewrite Hs, app_nil_r, <- app_assoc. apply Permutation_app_head, Permutation_app_comm.
Qed.

(** What the event of a channel comes to: the error callback, if any, then the
    write callback, if any. *)
Lemma run_callbacks_app err self cbs1 cbs2 : forall c,
  run_callbacks c (cbs1 ++ cbs2) err self = (c ← run_callbacks c cbs1 err self; run_callbacks c cbs2 err self).
Proof.
  induction cbs1 as [|cb cbs1 IH]; intros c; cbn; [done|].
  destruct (run_callback c cb err self); cbn; [by rewrite IH|done].
Qed.

Lemma channel_event_cases c revents err self :
  channel_event c revents err self = Ok c \/
  (exists ch, channel_ c = Some ch /\ isNoneEvent ch = false) /\
  exists error write : bool, channel_event c revents err self =
    (c ← if error then handleError c else Ok c; if write then handleWrite c err self else Ok c).
Proof.
  unfold channel_event. destruct (channel_ c) as [ch|] eqn:Hch; [|by left].
  destruct (isNoneEvent ch) eqn:Hn; [by left|]. set (d := setRevents ch revents).
  assert (handleEvent d 0 = [] \/ handleEvent d 0 = handleEventWithguard d 0) as [-> | ->]
    by (unfold handleEvent; destruct (tied_ d), (tie_alive d); tauto); [by left|].
  right. split; [by exists ch|]. unfold handleEventWithguard, call_if.
  exists (has_event (revents_ d) (Z.lor POLLERR POLLNVAL) && errorCallback_ d),
    (has_event (revents_ d) POLLOUT && writeCallback_ d). rewrite !run_callbacks_app.
  destruct (has_event _ POLLHUP && _), (closeCallback_ d), (has_event _ (Z.lor POLLERR _)), (errorCallback_ d),
    (has_event _ (Z.lor (Z.lor _ _) _)), (readCallback_ d), (has_event _ POLLOUT), (writeCallback_ d); cbn;
    try destruct (handleError c); cbn; try destruct (handleWrite _ _ _); done.
Qed.

Lemma channel_event_ok c revents err self :
  connector_inv c -> exists c', channel_event c revents err self = Ok c' /\ connector_inv c'.
Proof.
  intros Hi. destruct (channel_event_cases c revents err self)
    as [->|((ch & Hch & Hn) & error & write & ->)]; [by exists c|].
  pose proof (inv_watched _ Hi ch Hch Hn) as Hst. destruct error; cbn [mbind res_bind].
  - destruct (handleError_ok c Hi Hst) as (c1 & -> & Hi1 & Hs1). cbn [mbind res_bind].
    destruct write; [|by exists c1]. apply connector_handleWrite_ok; [done|by rewrite Hs1].
  - destruct write; [|by exists c]. apply connector_handleWrite_ok; [done|by rewrite Hst].
Qed.

Lemma pop_inv c f q : connector_inv c -> queued c = f :: q -> f <> FResetChannel -> connector_inv (pop_functor c).
Proof.
  intros [Hc Hw Hr Hs Hd Hdl] Hq Hf. split; cbn; try done. unfold resets in *. cbn.
  rewrite Hq in Hr |- *. cbn in *. by destruct (functor_eq_dec f FResetChannel).
Qed.

Lemma reset_inv c q : connector_inv c -> queued c = FResetChannel :: q ->
  connector_inv (resetChannel (pop_functor c)).
Proof.
  intros [Hc Hw Hr Hs Hd Hdl] Hq. unfold resets in *. rewrite Hq in Hr. cbn in Hr.
  destruct (bool_decide_reflect (state_ c = kConnecting)) as [|Hst]; [done|].
  destruct (bool_decide _) in Hr; [done|]. cbn in Hr. injection Hr as Hr.
  split; cbn; try done.
  - unfold resets. cbn. rewrite Hq. cbn. rewrite Hr. by rewrite orb_true_r.
  - revert Hs. unfold held. cbn. by destruct (state_ c).
Qed.

(** Queueing a start or a stop. *)
Lemma queue_inv c f : connector_inv c -> f <> FResetChannel -> connector_inv (queueInLoop c f).
Proof.
  intros [Hc Hw Hr Hs Hd Hdl] Hf. split; cbn; try done. unfold resets in *. cbn. rewrite count_occ_app.
  cbn. destruct (functor_eq_dec f FResetChannel); [done|]. by rewrite Nat.add_0_r.
Qed.

(** A new round of attempts. *)
Lemma restart_inv c : connector_inv c -> state_ c <> kConnecting ->
  connector_inv (setConnect (resetDelay (setState c kDisconnected)) true).
Proof.
  intros [Hc Hw Hr Hs Hd Hdl] Hst. split; cbn; try done.
  - intros ch Hch Hn. by destruct Hst, (Hw ch Hch Hn).
  - rewrite bool_decide_false in Hr by done. exact Hr.
  - revert Hs. unfold held. cbn. by destruct (state_ c).
Qed.

(** An operation calls [startInLoop] or does not start anything. *)
Lemma starts_step c op cs e :
  starts c op = Some (cs, e) -> exists fd, step c op = startInLoop cs fd e.
Proof.
  destruct op as [[] fd e'|in_loop|fd e'|r err self|fd e'|fd e']; cbn; try done.
  - intros [= <- <-]. by exists fd.
  - intros [= <- <-]. by exists fd.
  - destruct (queued c) as [|[] q]; try done. intros [= <- <-]. by exists fd.
  - destruct (timers c); [done|]. intros [= <- <-]. by exists fd.
Qed.

Lemma starts_inv c op cs e :
  connector_inv c -> restart_ok c op -> starts c op = Some (cs, e) -> connector_inv cs.
Proof.
  intros Hi Hr. assert (forall b, connector_inv (setConnect c b)) as Hic by (intros b; by destruct Hi).
  destruct op as [[] fd e'|in_loop|fd e'|r err self|fd e'|fd e']; cbn in *; try done.
  - intros [= <- _]. done.
  - intros [= <- _]. by apply restart_inv.
  - destruct (queued c) as [|[] q] eqn:Hq; try done. intros [= <- _]. by eapply pop_inv.
  - destruct (timers c); [done|]. intros [= <- _]. by destruct Hi.
Qed.

Lemma no_start_ok c op :
  connector_inv c -> starts c op = None -> exists c', step c op = Ok c' /\ connector_inv c'.
Proof.
  intros Hi Hn. assert (forall b, connector_inv (setConnect c b)) as Hic by (intros b; by destruct Hi).
  destruct op as [[] fd e|[]|fd e|r err self|fd e|fd e]; cbn in Hn; try done; cbn [step].
  - eexists. split; [done|]. by apply queue_inv.
  - by apply stopInLoop_ok.
  - eexists. split; [done|]. by apply queue_inv.
  - by apply channel_event_ok.
  - destruct (queued c) as [|[| |] q] eqn:Hq; [by exists c|done| |].
    + apply stopInLoop_ok. by eapply pop_inv.
    + eexists. split; [done|]. by eapply reset_inv.
  - destruct (timers c); [by exists c|done].
Qed.

(** An operation of a connector in order aborts only when it starts too early. *)
Lemma step_ok c op : connector_inv c -> op_ok c op -> exists c', step c op = Ok c' /\ connector_inv c'.
Proof.
  intros Hi [Hr Ha]. destruct (starts c op) as [[cs e]|] eqn:Es; [|by apply no_start_ok].
  destruct (starts_step c op cs e Es) as [fd ->]. apply startInLoop_ok; [|done].
  by eapply starts_inv.
Qed.

Lemma step_cases c op : connector_inv c -> restart_ok c op ->
  (exists c', step c op = Ok c' /\ connector_inv c') \/
  (step c op = Err AssertFail /\ exists cs e, starts c op = Some (cs, e) /\ start_aborts cs e).
Proof.
  intros Hi Hr. destruct (starts c op) as [[cs e]|] eqn:Es.
  2: { left. by apply no_start_ok. }
  destruct (starts_step c op cs e Es) as [fd ->]. destruct (decide (start_aborts cs e)) as [Ha|Ha].
  - right. split; [by apply startInLoop_aborts|]. eauto.
  - left. apply startInLoop_ok; [|done]. by eapply starts_inv.
Qed.

Lemma along_impl (P Q : Connector -> connector_op -> Prop) ops :
  (forall c op, P c op -> Q c op) -> forall c, along P c ops -> along Q c ops.
Proof. intros H. induction ops as [|op ops IH]; intros c; cbn; [done|]. intros [H1 H2]. eauto. Qed.

Lemma run_app ops1 ops2 : forall c, run c (ops1 ++ ops2) = (c ← run c ops1; run c ops2).
Proof. induction ops1 as [|op ops1 IH]; intros c; cbn; [done|]. destruct (step c op); cbn; [apply IH|done]. Qed.

Lemma run_inv ops : forall c,
  connector_inv c -> run_ok c ops -> exists c', run c ops = Ok c' /\ connector_inv c'.
Proof.
  induction ops as [|op ops IH]; intros c Hi Hok; cbn [run]; [eauto|].
  destruct Hok as [Hop Hok]. destruct (step_ok c op Hi Hop) as (c1 & E & Hi1). rewrite E.
  cbn [mbind res_bind]. by apply IH; [|apply Hok].
Qed.

(** The operation of a run that starts too early. *)
Definition early_start (c : Connector) (ops : list connector_op) : Prop :=
  exists before op after c1 cs e, ops = before ++ op :: after /\ run c before = Ok c1 /\
    starts c1 op = Some (cs, e) /\ start_aborts cs e.

Lemma run_cases ops : forall c, connector_inv c -> along restart_ok c ops ->
  (exists c', run c ops = Ok c' /\ connector_inv c') \/ (run c ops = Err AssertFail /\ early_start c ops).
Proof.
  induction ops as [|op ops IH]; intros c Hi Hr; cbn [run]; [eauto|]. destruct Hr as [Hop Hr].
  destruct (step_cases c op Hi Hop) as [(c1 & E & Hi1)|[E (cs & e & Es & Ha)]]; rewrite E; cbn [mbind res_bind].
  - destruct (IH c1 Hi1 (Hr c1 E)) as [?|[E' (before & op' & after & c2 & cs & e & -> & E1 & Hs)]]; [by left|].
    right. split; [done|]. exists (op :: before), op', after, c2, cs, e. split; [done|]. cbn. by rewrite E.
  - right. split; [done|]. by exists [], op, ops, c, cs, e.
Qed.

Lemma early_start_err ops c : early_start c ops -> run c ops = Err AssertFail.
Proof.
  intros (before & op & after & c1 & cs & e & -> & E & Es & Ha). rewrite run_app, E. cbn.
  destruct (starts_step c1 op cs e Es) as [fd ->]. by rewrite startInLoop_aborts.
Qed.

Lemma ctor_inv : connector_inv Connector_ctor.
Proof. split; cbn; done. Qed.

(** ** Orderly runs

    [s] is whether the connector has been started.  A start or a retry that
    has not run yet is the only one, and the connector is idle until then. *)

Definition starting (c : Connector) : nat := count_occ functor_eq_dec (queued c) FStartInLoop.

Definition settled (c : Connector) : Prop :=
  starting c = 0%nat /\ (timers c <= 1)%nat /\ (timers c = 1%nat -> state_ c = kDisconnected).

Definition fresh (s : bool) (c : Connector) : Prop :=
  state_ c = kDisconnected /\ channel_ c = None /\ timers c = 0%nat /\ starting c = (if s then 1 else 0)%nat.

Definition orderly (s : bool) (c : Connector) : Prop := fresh s c \/ s = true /\ settled c.

Lemma retry_settled c fd : starting c = 0%nat -> timers c = 0%nat -> settled (retry c fd).
Proof.
  intros H1 H2. unfold retry, settled, starting in *. cbn. destruct (connect_ c); cbn; rewrite ?H2; auto with lia.
Qed.

Lemma remove_frame c c' fd :
  removeAndResetChannel c = Ok (c', fd) -> starting c' = starting c /\ timers c' = timers c.
Proof.
  unfold removeAndResetChannel. destruct (channel_ c); [|done]. intros ([] & _ & [= <- _])%bind_ok_inv.
  unfold starting. cbn. rewrite count_occ_app. cbn. by rewrite Nat.add_0_r.
Qed.

Lemma remove_retry_settled c cs c' fd : settled c -> state_ c = kConnecting ->
  removeAndResetChannel cs = Ok (c', fd) -> starting cs = starting c -> timers cs = timers c ->
  starting c' = 0%nat /\ timers c' = 0%nat.
Proof.
  intros (H1 & H2 & H3) Hs [-> ->]%remove_frame E1 E2. rewrite E1, E2. split; [done|].
  destruct (timers c) as [|[]]; [done| |lia]. by rewrite H3 in Hs.
Qed.

Lemma startInLoop_settled c fd e c' :
  starting c = 0%nat -> timers c = 0%nat -> startInLoop c fd e = Ok c' -> settled c'.
Proof.
  intros H1 H2. unfold startInLoop. intros ([] & _ & E)%bind_ok_inv.
  destruct (connect_ c); [|injection E as <-; unfold settled; rewrite H2; auto with lia].
  unfold connect in E. destruct (bool_decide _).
  - unfold connecting in E. apply bind_ok_inv in E as ([] & _ & [= <-]). unfold settled. cbn.
    rewrite H2. auto with lia.
  - destruct (bool_decide _); injection E as <-; [by apply retry_settled|].
    unfold settled. cbn. rewrite H2. auto with lia.
Qed.

Lemma stopInLoop_settled c c' : settled c -> stopInLoop c = Ok c' -> settled c'.
Proof.
  intros Hs. unfold stopInLoop. case_bool_decide as Hst; [|by intros [= <-]].
  intros ((c1 & fd) & E & [= <-])%bind_ok_inv.
  destruct (remove_retry_settled c _ _ _ Hs Hst E eq_refl eq_refl). by apply retry_settled.
Qed.

Lemma handleError_settled c c' : settled c -> handleError c = Ok c' -> settled c'.
Proof.
  intros Hs. unfold handleError. intros ([] & Hst%assert_ok & ((c1 & fd) & E & [= <-])%bind_ok_inv)%bind_ok_inv.
  apply bool_decide_eq_true in Hst. destruct (remove_retry_settled c _ _ _ Hs Hst E eq_refl eq_refl). by apply retry_settled.
Qed.

Lemma handleWrite_settled c c' err self : settled c -> handleWrite c err self = Ok c' -> settled c'.
Proof.
  intros Hs. unfold handleWrite. case_bool_decide as Hst.
  - intros ((c1 & fd) & E & H)%bind_ok_inv. destruct (remove_retry_settled c _ _ _ Hs Hst E eq_refl eq_refl) as [H1 H2].
    destruct (negb _); [injection H as <-; by apply retry_settled|].
    destruct self; injection H as <-; [by apply retry_settled|].
    cbn. destruct (connect_ c1); unfold settled; cbn; rewrite H2; auto with lia.
  - intros ([] & _ & [= <-])%bind_ok_inv. done.
Qed.


Lemma channel_event_settled c c' revents err self :
  settled c -> channel_event c revents err self = Ok c' -> settled c'.
Proof.
  intros Hs. destruct (channel_event_cases c revents err self) as [->|(_ & error & write & ->)];
    [by intros [= <-]|]. intros (c1 & E1 & E2)%bind_ok_inv. assert (settled c1) as Hs1.
  { destruct error; [by eapply handleError_settled|by injection E1 as <-]. }
  destruct write; [by eapply handleWrite_settled|by injection E2 as <-].
Qed.

(** A settled connector that is told to start in the loop starts in time. *)
Lemma settled_in_time c cs op e :
  connector_inv c -> settled c -> in_order c op -> is_start op = false -> starts c op = Some (cs, e) ->
  ~ start_aborts cs e /\ starting cs = 0%nat /\ timers cs = 0%nat.
Proof.
  intros [_ _ Hr _ _ _] (H1 & H2 & H3) Ho Hns Es. unfold start_aborts.
  assert (FResetChannel ∉ queued c -> state_ c <> kConnecting -> channel_ c = None) as Hch.
  { intros Hq Hst. assert (resets c = 0%nat) as Hz by (apply count_occ_not_In; by rewrite <- list_elem_of_In).
    rewrite Hz, bool_decide_false in Hr by done. by destruct (bool_decide_reflect (channel_ c = None)). }
  destruct op as [[] fd e'|in_loop|fd e'|r err self|fd e'|fd e']; cbn in *; try done.
  - injection Es as <- <-. destruct Ho as [Ho Hq]. cbn. rewrite Hch by (done || by rewrite Ho).
    split; [intros [?|(_ & _ & ?)]; done|]. split; [done|]. destruct (timers c) as [|[]]; [done| |lia].
    by rewrite H3 in Ho.
  - destruct (queued c) as [|[] q] eqn:Hq; try done. unfold starting in H1. by rewrite Hq in H1.
  - destruct (timers c) as [|n] eqn:Ht; [done|]. injection Es as <- <-. assert (n = 0%nat) as -> by lia.
    cbn. rewrite Hch, H3, Ht by (done || by rewrite H3). split; [intros [?|(_ & _ & ?)]; done|done].
Qed.

(** The steps of a settled connector that start nothing. *)
Lemma settled_step c c' op :
  settled c -> is_start op = false -> starts c op = None -> step c op = Ok c' -> settled c'.
Proof.
  intros Hs Hns Es. pose proof Hs as (H1 & H2 & H3).
  destruct op as [[] fd e|[]|fd e|r err self|fd e|fd e]; cbn in Es |- *; try done.
  - intros E. by apply stopInLoop_settled in E.
  - intros [= <-]. unfold settled, starting in *. cbn. rewrite count_occ_app, H1. done.
  - by apply channel_event_settled.
  - destruct (queued c) as [|[| |] q] eqn:Hq; [by intros [= <-]|done| |];
      assert (settled (pop_functor c)) as Hp
        by (unfold settled, starting in *; cbn; rewrite Hq in H1 |- *; done).
    + intros E. by apply stopInLoop_settled in E.
    + by intros [= <-].
  - destruct (timers c); [by intros [= <-]|done].
Qed.

(** The steps of a connector that has not begun. *)
Lemma fresh_step s c op :
  connector_inv c -> fresh s c -> in_order c op -> (is_start op = true -> s = false) ->
  exists c', step c op = Ok c' /\ orderly (s || is_start op) c'.
Proof.
  intros Hi (H1 & H2 & H3 & H4) Ho Hs.
  assert (forall cs fd e, state_ cs = kDisconnected -> channel_ cs = None -> connector_inv cs ->
    starting cs = 0%nat -> timers cs = 0%nat -> exists c', startInLoop cs fd e = Ok c' /\ settled c') as Hst.
  { intros cs fd e Hc1 Hc2 Hci Hc3 Hc4. destruct (startInLoop_ok cs fd e Hci) as (c' & E & _).
    { intros [?|(_ & _ & ?)]; done. }
    exists c'. split; [done|]. by eapply startInLoop_settled. }
  assert (forall f, f <> FStartInLoop -> fresh s (queueInLoop (setConnect c false) f)) as Hqf.
  { intros f Hf. unfold fresh, starting in *. cbn. rewrite count_occ_app, H4. cbn.
    destruct (functor_eq_dec f FStartInLoop); [done|]. by rewrite Nat.add_0_r. }
  destruct op as [[] fd e|[]|fd e|r err self|fd e|fd e]; cbn [step is_start in_order] in *;
    rewrite ?orb_true_r, ?orb_false_r.
  - rewrite Hs in H4 by done. destruct (Hst (setConnect c true) fd e) as (c' & E & ?); try done;
      [by destruct Hi|]. exists c'. split; [done|]. by right.
  - rewrite Hs in H4 by done. eexists. split; [done|]. left. unfold fresh, starting in *. cbn.
    by rewrite count_occ_app, H4.
  - unfold stop, stopInLoop. cbn. rewrite H1. eexists. split; [done|]. by left.
  - eexists. split; [done|]. left. by apply Hqf.
  - destruct Ho as [Ho _]. congruence.
  - unfold channel_event. rewrite H2. exists c. split; [done|]. by left.
  - destruct (queued c) as [|f q] eqn:Hq; [exists c; split; [done|by left]|].
    assert (starting (pop_functor c) = if functor_eq_dec f FStartInLoop then 0%nat else starting c) as Hpop.
    { unfold starting in *. cbn. rewrite Hq in H4 |- *. cbn in *.
      destruct (functor_eq_dec f FStartInLoop); [destruct s; lia|done]. }
    destruct f; cbn [run_functor].
    + destruct (Hst (pop_functor c) fd e) as (c' & E & ?); try done; [by eapply pop_inv|].
      exists c'. split; [done|]. right. split; [|done]. destruct s; [done|].
      unfold starting in H4. by rewrite Hq in H4.
    + unfold stopInLoop. cbn. rewrite H1. eexists. split; [done|]. left. unfold fresh. by rewrite Hpop.
    + eexists. split; [done|]. left. unfold fresh. cbn. by rewrite <- H4.
  - rewrite H3. exists c. split; [done|]. by left.
Qed.

Lemma orderly_step s c op :
  connector_inv c -> orderly s c -> in_order c op -> (is_start op = true -> s = false) ->
  exists c', step c op = Ok c' /\ connector_inv c' /\ orderly (s || is_start op) c'.
Proof.
  intros Hi Hord Ho Hs. assert (restart_ok c op) as Hr by (destruct op; try done; destruct Ho as [Ho _]; cbn; by rewrite Ho).
  assert (exists c', step c op = Ok c' /\ orderly (s || is_start op) c') as (c' & E & Hc').
  { destruct Hord as [Hf|[-> Hse]]; [by apply fresh_step|].
    assert (is_start op = false) as Hns by (destruct (is_start op); [by discriminate Hs|done]).
    destruct (starts c op) as [[cs e]|] eqn:Es.
    - destruct (settled_in_time c cs op e Hi Hse Ho Hns Es) as (Ha & H1 & H2).
      destruct (starts_step c op cs e Es) as [fd ->].
      destruct (startInLoop_ok cs fd e) as (c' & E & _); [by eapply starts_inv|done|].
      exists c'. split; [done|]. right. split; [done|]. by eapply startInLoop_settled.
    - destruct (no_start_ok c op Hi Es) as (c' & E & _). exists c'. split; [done|].
      right. split; [done|]. by eapply settled_step. }
  exists c'. split; [done|]. split; [|done].
  destruct (step_cases c op Hi Hr) as [(c1 & E1 & Hi1)|[E1 _]]; congruence.
Qed.

Lemma orderly_run ops : forall s c,
  connector_inv c -> orderly s c -> along in_order c ops ->
  ((if s then 1 else 0) + length (filter is_start ops) <= 1)%nat -> exists c', run c ops = Ok c'.
Proof.
  induction ops as [|op ops IH]; intros s c Hi Ho Hin Hn; cbn [run]; [eauto|]. destruct Hin as [Hop Hin].
  assert ((if s then 1 else 0) + (if is_start op then 1 else 0) + length (filter is_start ops) <= 1)%nat as Hn'.
  { revert Hn. rewrite filter_cons. case_decide as Hst; destruct (is_start op); cbn in Hst |- *; done || lia. }
  destruct (orderly_step s c op Hi Ho Hop) as (c1 & E & Hi1 & Ho1).
  { intros Hst. rewrite Hst in Hn'. destruct s; [lia|done]. }
  rewrite E. cbn [mbind res_bind]. apply (IH _ c1 Hi1 Ho1 (Hin c1 E)).
  destruct (is_start op), s; cbn; lia.
Qed.

(** ** Properties *)

(** C21: in every run of starts, stops, restarts, channel events, queued
    functors and retry timers, in any order (except that [restart] is not
    called during an attempt), the connector leaks no socket: each one it
    opened has been closed once or given to the callback once, except the one
    of the attempt in progress; and once no attempt is and the queue has run,
    it can be destroyed.  The only assertions of Connector.cc that can fail
    are those of a start that comes too early, as [start] does after [stop]
    while the timer or the reset of the last attempt is pending, and they fail
    exactly then.  In orderly use no start does: a connector that is started
    once, restarted only when it had connected, and whose timers and restarts
    come after the reset of the last attempt has run, aborts nowhere. *)
Theorem sockets_accounted ops :
  along restart_ok Connector_ctor ops ->
  (forall c, run Connector_ctor ops = Ok c ->
     opened c ≡ₚ closed c ++ handed c ++ held c /\
     (state_ c <> kConnecting -> FResetChannel ∉ queued c -> Connector_dtor c = Ok tt)) /\
  (forall x, run Connector_ctor ops = Err x <-> x = AssertFail /\ early_start Connector_ctor ops) /\
  (started_once ops -> along in_order Connector_ctor ops -> exists c, run Connector_ctor ops = Ok c).
Proof.
  intros Hr. destruct (run_cases ops Connector_ctor ctor_inv Hr) as [(c & E & Hi)|[E Hearly]].
  - split; [|split; [|eauto]].
    + intros c'. rewrite E. intros [= <-]. destruct Hi as [_ _ Hrs Hs _ _]. split; [done|].
      intros Hst Hq. unfold Connector_dtor.
      assert (resets c = 0%nat) as Hz by (apply count_occ_not_In; by rewrite <- list_elem_of_In).
      rewrite Hz, bool_decide_false in Hrs by done. by destruct (bool_decide (channel_ c = None)).
    + intros x. rewrite E. split; [done|]. intros [_ H%early_start_err]. congruence.
  - split; [by rewrite E|]. split.
    + intros x. rewrite E. split; [by intros [= <-]|by intros [-> _]].
    + intros Ho Hin. apply (orderly_run ops false); [apply ctor_inv|by left|done|done].
Qed.

(** C32: in every run in which no start comes too early (one that does aborts,
    [sockets_accounted]) and no restart during an attempt, the retry delays since
    the last restart double from half a second up to 30 seconds. *)
Theorem retry_backoff ops :
  run_ok Connector_ctor ops ->
  exists c, run Connector_ctor ops = Ok c /\
    delays c = map (fun k => Z.min (500 * 2 ^ Z.of_nat k) 30000) (seq 0 (length (delays c))) /\
    Forall (fun d => 500 <= d <= 30000) (delays c).
Proof.
  intros Hok. destruct (run_inv ops Connector_ctor ctor_inv Hok) as (c & E & [_ _ _ _ Hd _]).
  exists c. split; [done|]. split; [done|]. rewrite Hd. apply List.Forall_map, List.Forall_forall.
  intros k _. unfold backoff, kInitRetryDelayMs, kMaxRetryDelayMs.
  pose proof (Z.pow_pos_nonneg 2 (Z.of_nat k) ltac:(lia) ltac:(lia)). lia.
Qed.

(** [stop] cancels neither the retry timer nor the reset of the channel it
    has queued: starting again before they have run aborts, at the timer
    (the connector is connecting again) or at once (the old channel is still
    there). *)
Theorem early_start_aborts fd1 fd2 fd3 e1 e2 e3 :
  in_progress e2 ->
  (retryable e1 ->
   run Connector_ctor [OpStart true fd1 e1; OpStop true; OpStart true fd2 e2; OpTimer fd3 e3] = Err AssertFail) /\
  (in_progress e1 ->
   run Connector_ctor [OpStart true fd1 e1; OpStop true; OpStart true fd2 e2] = Err AssertFail).
Proof.
  intros H2. assert (bool_decide (e2 ∈ [0; EINPROGRESS; EINTR; EISCONN]) = true) as E2 by by apply bool_decide_eq_true.
  split; intros H1; cbn [run step start startInLoop]; unfold startInLoop, connect; cbn.
  - assert (bool_decide (e1 ∈ [0; EINPROGRESS; EINTR; EISCONN]) = false) as E1.
    { apply bool_decide_eq_false. intros E. revert H1 E. unfold retryable. 
      rewrite !elem_of_cons. intros H1 E. unfold EAGAIN, EADDRINUSE, EADDRNOTAVAIL, ECONNREFUSED,
        ENETUNREACH, EINPROGRESS, EINTR, EISCONN in *. rewrite !elem_of_nil in *. lia. }
    assert (bool_decide (e1 ∈ [EAGAIN; EADDRINUSE; EADDRNOTAVAIL; ECONNREFUSED; ENETUNREACH]) = true)
      as E1' by by apply bool_decide_eq_true.
    rewrite E1, E1'. cbn. by rewrite E2.
  - assert (bool_decide (e1 ∈ [0; EINPROGRESS; EINTR; EISCONN]) = true) as E1 by by apply bool_decide_eq_true.
    rewrite E1. cbn. by rewrite E2.
Qed.

Fixpoint alongb (P : Connector -> connector_op -> Prop) (c : Connector) (ops : list connector_op) : Prop :=
  match ops with
  | [] => True
  | op :: ops => P c op /\ match step c op with Ok c => alongb P c ops | Err _ => True end
  end.

Lemma alongb_along P ops : forall c, alongb P c ops -> along P c ops.
Proof.
  induction ops as [|op ops IH]; intros c; cbn; [done|]. intros [H1 H2]. split; [done|].
  intros c' E. rewrite E in H2. by apply IH.
Qed.

#[global] Instance connector_restart_ok_dec c op : Decision (restart_ok c op).
Proof. destruct op; unfold restart_ok; apply _. Defined.
#[global] Instance connector_op_ok_dec c op : Decision (op_ok c op).
Proof. unfold op_ok. destruct (starts c op) as [[cs e]|]; apply _. Defined.
#[global] Instance in_order_dec c op : Decision (in_order c op).
Proof. destruct op; unfold in_order; apply _. Defined.
#[global] Instance alongb_dec P c ops `{!forall c op, Decision (P c op)} : Decision (alongb P c ops).
Proof.
  revert c. induction ops as [|op ops IH]; intros c; cbn; [apply _|].
  destruct (step c op); apply _.
Defined.

(** Refused twice, then connected, then restarted after the reset, then refused
    while connecting: the error callback and the write callback of one event. *)
Definition demo_ops : list connector_op :=
  [OpStart true 3 ECONNREFUSED; OpTimer 4 ECONNREFUSED; OpTimer 5 EINPROGRESS; OpEvent POLLOUT 0 false;
   OpRunFunctor 0 0; OpRestart 6 EINPROGRESS;
   OpEvent (Z.lor (Z.lor POLLERR POLLHUP) POLLOUT) ECONNREFUSED false].

Example connector_demo_end :
  match run Connector_ctor demo_ops with
  | Ok c => (opened c, closed c, handed c, state_ c, delays c, timers c)
            = ([3; 4; 5; 6], [3; 4; 6], [5], kDisconnected, [500], 1%nat)
  | Err _ => False
  end.
Proof. by vm_compute. Qed.

Lemma connector_demo_ok : run_ok Connector_ctor demo_ops.
Proof. apply alongb_along. by apply (bool_decide_unpack _); vm_compute. Qed.

Lemma sockets_accounted_witness :
  (forall c, run Connector_ctor demo_ops = Ok c ->
     opened c ≡ₚ closed c ++ handed c ++ held c /\
     (state_ c <> kConnecting -> FResetChannel ∉ queued c -> Connector_dtor c = Ok tt)) /\
  (forall x, run Connector_ctor demo_ops = Err x <-> x = AssertFail /\ early_start Connector_ctor demo_ops) /\
  (started_once demo_ops -> along in_order Connector_ctor demo_ops ->
   exists c, run Connector_ctor demo_ops = Ok c).
Proof.
  apply sockets_accounted, alongb_along. by apply (bool_decide_unpack _); vm_compute.
Defined.

Example demo_orderly : started_once demo_ops /\ along in_order Connector_ctor demo_ops.
Proof.
  split; [by vm_compute; lia|]. apply alongb_along. by apply (bool_decide_unpack _); vm_compute.
Qed.

Lemma retry_backoff_witness :
  exists c, run Connector_ctor demo_ops = Ok c /\
    delays c = map (fun k => Z.min (500 * 2 ^ Z.of_nat k) 30000) (seq 0 (length (delays c))) /\
    Forall (fun d => 500 <= d <= 30000) (delays c).
Proof. apply retry_backoff, connector_demo_ok. Defined.

Lemma early_start_aborts_witness :
  (retryable ECONNREFUSED ->
   run Connector_ctor [OpStart true 3 ECONNREFUSED; OpStop true; OpStart true 4 EINPROGRESS; OpTimer 5 0] = Err AssertFail) /\
  (in_progress ECONNREFUSED ->
   run Connector_ctor [OpStart true 3 ECONNREFUSED; OpStop true; OpStart true 4 EINPROGRESS] = Err AssertFail).
Proof. apply early_start_aborts. decide_now. Defined.

(** A [stop] of another thread that loses the race against the connection
    leaves the connector connected to a socket that it closes: no [start] is in
    time any more, whatever has run. *)
Example stop_loses_race :
  run Connector_ctor [OpStart true 3 EINPROGRESS; OpStop false; OpEvent POLLOUT 0 false;
                      OpRunFunctor 0 0; OpRunFunctor 0 0; OpStart true 4 EINPROGRESS] = Err AssertFail /\
  match run Connector_ctor [OpStart true 3 EINPROGRESS; OpStop false; OpEvent POLLOUT 0 false;
                            OpRunFunctor 0 0; OpRunFunctor 0 0] with
  | Ok c => (state_ c, channel_ c, closed c, handed c) = (kConnected, None, [3], [])
  | Err _ => False
  end.
Proof. split; by vm_compute. Qed.
