(* ===== verification/FileUtil.v ===== *)
(** * Files: tmuduo/base/FileUtil.h and FileUtil.cc

    [ReadSmallFile] over a file descriptor of the kernel, whose reads are an
    interface, and [AppendFile] over the results of [fwrite].  [formattedName]
    with its static buffer. *)

From S2P Require Import Prelude.

(** ** What the kernel gives a reader

    [read] returns at most the count asked for, and nothing only at the end of
    the file (or for a count of zero); or it fails, leaving the offset. *)

Inductive io_result := IoData (d : bytes) | IoError (errno : Z).

Class Descriptor (K : Type) := {
  fd_read : K -> Z -> io_result * K;
  fd_rest : K -> bytes
}.

Class DescriptorLaws (K : Type) `{!Descriptor K} := {
  fd_read_data k n d k' : fd_read k n = (IoData d, k') ->
    fd_rest k = d ++ fd_rest k' /\ zlen d <= Z.max 0 n /\ (d = [] -> 0 < n -> fd_rest k = []);
  fd_read_error k n e k' : fd_read k n = (IoError e, k') -> fd_rest k' = fd_rest k
}.

(** What [fstat] says of the file, or the error it fails with. *)
Record stat_result := mkStat {
  S_ISREG : bool; S_ISDIR : bool; st_size : Z; st_mtime : Z; st_ctime : Z
}.

(** ** ReadSmallFile *)

Definition kBufferSize : Z := 64 * 1024.
Definition EISDIR : Z := 21.

Record ReadSmallFile := mkReadSmallFile { fd_ : Z; err_ : Z; buf_ : bytes }.

(** [buf_] starts as whatever the memory held, with its first byte cleared. *)
Definition ReadSmallFile_ctor (open_result errno : Z) (memory : bytes) : ReadSmallFile :=
  mkReadSmallFile open_result (if open_result <? 0 then errno else 0) (splice 0 [x00] memory).

(** The destructor closes what was opened. *)
Definition ReadSmallFile_dtor (f : ReadSmallFile) : option Z :=
  if 0 <=? fd_ f then Some (fd_ f) else None.

Definition clear (f : ReadSmallFile) : ReadSmallFile :=
  mkReadSmallFile (fd_ f) (err_ f) (splice 0 [x00] (buf_ f)).

(** The pointers the caller may pass, and what is stored through them. *)
Record read_outputs := mkOutputs {
  fileSize : option Z; modifyTime : option Z; createTime : option Z
}.

(** [*p = v] if [p] is not null. *)
Definition store (p : option Z) (v : Z) : option Z :=
  match p with Some _ => Some v | None => None end.

Section Read.
Context {K : Type} `{!Descriptor K}.

(** The loop: the error, the content, the buffer and the descriptor it leaves.
    A round that goes on has appended something, so the bytes missing from
    [maxSize] bound the rounds. *)
Fixpoint read_loop (fuel : nat) (maxSize : Z) (err : Z) (content buf : bytes) (k : K)
    : option (Z * bytes * bytes * K) :=
  match fuel with
  | O => None
  | S fuel =>
      if zlen content <? maxSize then
        let toRead := Z.min (maxSize - zlen content) kBufferSize in
        match fd_read k toRead with
        | (IoData d, k) =>
            if 0 <? zlen d then read_loop fuel maxSize err (content ++ d) (splice 0 d buf) k
            else Some (err, content, buf, k)
        | (IoError e, k) => Some (e, content, buf, k)
        end
      else Some (err, content, buf, k)
  end.

(** The block behind [if (fileSize)].  Reserving a negative count is one
    beyond [max_size]. *)
Definition read_stat (maxSize : Z) (fstat : stat_result + Z) (err : Z) (o : read_outputs)
    : res (Z * read_outputs) :=
  match fileSize o with
  | None => Ok (err, o)
  | Some _ =>
      match fstat with
      | inr errno => Ok (errno, o)
      | inl st =>
          let o1 := mkOutputs (if S_ISREG st then store (fileSize o) (st_size st) else fileSize o)
                      (store (modifyTime o) (st_mtime st)) (store (createTime o) (st_ctime st)) in
          if S_ISREG st then
            guard_ LengthError (0 <=? Z.min maxSize (st_size st));;
            Ok (err, o1)
          else Ok (if S_ISDIR st then EISDIR else err, o1)
      end
  end.

(** [readToString]: the error returned, what is stored, the content, the
    object and the descriptor.  [maxSize] is compared as a [size_t]. *)
Definition readToString (f : ReadSmallFile) (maxSize : Z) (content : bytes) (fstat : stat_result + Z)
    (o : read_outputs) (k : K) : res (option (Z * read_outputs * bytes * ReadSmallFile * K)) :=
  let err := err_ f in
  if 0 <? fd_ f then
    '(err, o) ← read_stat maxSize fstat err o;
    let limit := u64 maxSize in
    Ok (match read_loop (S (Z.to_nat limit)) limit err [] (buf_ f) k with
        | None => None
        | Some (err, content, buf, k) =>
            Some (err, o, content, mkReadSmallFile (fd_ f) (err_ f) buf, k)
        end)
  else Ok (Some (err, o, content, f, k)).

(** [readFile]: a [ReadSmallFile] for one call of [readToString]. *)
Definition readFile (open_result errno : Z) (memory : bytes) (maxSize : Z) (content : bytes)
    (fstat : stat_result + Z) (o : read_outputs) (k : K) : res (option (Z * read_outputs * bytes)) :=
  r ← readToString (ReadSmallFile_ctor open_result errno memory) maxSize content fstat o k;
  Ok (match r with Some (err, o, content, _, _) => Some (err, o, content) | None => None end).

End Read.

(** [readToBuffer]: [pread] of one byte less than the buffer from offset 0;
    the error and what is stored in [*size]. *)
Definition readToBuffer (f : ReadSmallFile) (pread : io_result) (size : option Z)
    : res (Z * option Z * ReadSmallFile) :=
  let err := err_ f in
  if 0 <=? fd_ f then
    match pread with
    | IoData d =>
        guard_ OutOfBounds (zlen d <? kBufferSize);;
        Ok (err, store size (zlen d), mkReadSmallFile (fd_ f) (err_ f) (splice 0 (d ++ [x00]) (buf_ f)))
    | IoError e => Ok (e, size, f)
    end
  else Ok (err, size, f).

(** [std::string(buffer(), n)]: [n] bytes of the buffer. *)
Definition buffer_string (f : ReadSmallFile) (n : Z) : res bytes :=
  guard_ LengthError (0 <=? n);;
  guard_ OutOfBounds (n <=? zlen (buf_ f));;
  Ok (slice 0 n (buf_ f)).

(** ** formattedName

    The buffer is static, so it keeps what earlier calls left. *)

Definition SLASH : byte := x2f.

(** [p] stops at the last slash, or before the path, and moves on by one. *)
Definition last_component (path : bytes) : bytes :=
  reverse (take (Z.to_nat (find_byte SLASH (reverse path))) (reverse path)).

Definition formattedName (buf path : bytes) : res bytes :=
  let p := last_component path in
  guard_ OutOfBounds (zlen p <=? 32);;
  Ok (splice 0 p buf).

(** ** AppendFile *)

(** [content] is what [fwrite] took since the file was opened. *)
Record AppendFile := mkFile {
  filename : bytes;
  content : bytes;
  writtenBytes_ : Z;
  flushes : nat
}.

Definition AppendFile_ctor (name : bytes) : AppendFile := mkFile name [] 0 0.

Definition file_flush (f : AppendFile) : AppendFile :=
  mkFile (filename f) (content f) (writtenBytes_ f) (S (flushes f)).

(** The loop behind the first write: [writes k] is the result of the [k]-th
    call of [fwrite], which takes so many of the remaining bytes; a call that
    takes none ends the loop.  Every other call shortens the rest, so the
    length of the rest is fuel enough. *)
Fixpoint append_loop (fuel : nat) (writes : nat -> Z) (k : nat) (rest : bytes) : bytes :=
  match fuel with
  | O => []
  | S fuel =>
      if 0 <? zlen rest then
        let x := writes k in
        if x =? 0 then []
        else take (Z.to_nat x) rest ++ append_loop fuel writes (S k) (drop (Z.to_nat x) rest)
      else []
  end.

Definition file_append (f : AppendFile) (writes : nat -> Z) (line : bytes) : AppendFile :=
  let n := writes 0%nat in
  let taken := take (Z.to_nat n) line ++
    append_loop (S (length line)) writes 1 (drop (Z.to_nat n) line) in
  mkFile (filename f) (content f ++ taken) (writtenBytes_ f + zlen line) (flushes f).

(** Every call of [fwrite] takes something of what is left. *)
Definition writes_ok (writes : nat -> Z) : Prop := forall k, 0 < writes k.

Lemma append_loop_all writes : writes_ok writes -> forall fuel k rest,
  (length rest < fuel)%nat -> append_loop fuel writes k rest = rest.
Proof.
  intros Hw. induction fuel as [|fuel IH]; intros k rest Hf; [lia|]. cbn [append_loop].
  destruct rest as [|b rest]; [done|]. set (r := b :: rest) in *.
  assert (0 < zlen r) by (unfold r; zlen_lia). replace (0 <? zlen r) with true by lia.
  specialize (Hw k). replace (writes k =? 0) with false by lia.
  rewrite IH; [apply take_drop|]. rewrite length_drop. unfold zlen in *. lia.
Qed.

Lemma file_append_content f writes line :
  writes_ok writes -> content (file_append f writes line) = content f ++ line.
Proof.
  intros Hw. unfold file_append. cbn [content]. rewrite append_loop_all; [by rewrite take_drop|done|].
  rewrite length_drop. lia.
Qed.

(** ** A descriptor over a regular file

    Each read is cut short after some bytes, or interrupted, as scripted. *)

Record script := mkScript { rest_of : bytes; cuts : list Z }.

Definition EINTR : Z := 4.

#[export] Instance script_descriptor : Descriptor script := {
  fd_read k n :=
    match cuts k with
    | [] => (IoData (take (Z.to_nat n) (rest_of k)), mkScript (drop (Z.to_nat n) (rest_of k)) [])
    | c :: cs =>
        if c <=? 0 then (IoError EINTR, mkScript (rest_of k) cs)
        else (IoData (take (Z.to_nat (Z.min n c)) (rest_of k)),
              mkScript (drop (Z.to_nat (Z.min n c)) (rest_of k)) cs)
    end;
  fd_rest := rest_of
}.

Lemma take_nil_inv {A} n (l : list A) : take (Z.to_nat n) l = [] -> 0 < n -> l = [].
Proof. destruct l as [|x l]; [done|]. destruct (Z.to_nat n) eqn:E; [lia|done]. Qed.

Lemma take_bound {A} n (l : list A) : zlen (take (Z.to_nat n) l) <= Z.max 0 n.
Proof. unfold zlen. rewrite length_take. lia. Qed.

#[export] Instance script_laws : DescriptorLaws script.
Proof.
  split.
  - intros [l [|c cs]] n d k'; cbn; [|destruct (Z.leb_spec c 0); [done|]]; intros [= <- <-]; cbn;
      rewrite take_drop; (split; [done|]).
    + split; [apply take_bound|apply take_nil_inv].
    + split; [pose proof (take_bound (Z.min n c) l); lia|].
      intros Hd Hn. apply (take_nil_inv _ _ Hd). lia.
  - intros [l [|c cs]] n e k'; cbn; [done|]. by destruct (Z.leb_spec c 0) as [|]; [intros [= _ <-]|].
Qed.

(** ** Reading *)

Section ReadLemmas.
Context {K : Type} `{!Descriptor K, !DescriptorLaws K}.
Implicit Types (k : K).

(** A failed read ends the reading with this error. *)
Definition failed_read (err : Z) (k' : K) : Prop := exists k n, fd_read k n = (IoError err, k').

Lemma read_loop_reads fuel maxSize err : forall content buf k,
  zlen content <= maxSize -> (Z.to_nat (maxSize - zlen content) < fuel)%nat ->
  exists err' data buf' k', read_loop fuel maxSize err content buf k = Some (err', content ++ data, buf', k') /\
    fd_rest k = data ++ fd_rest k' /\ zlen content + zlen data <= maxSize /\
    (failed_read err' k' \/ err' = err /\ (zlen content + zlen data = maxSize \/ fd_rest k' = [])).
Proof.
  induction fuel as [|fuel IH]; intros content buf k Hc Hf; [lia|]. cbn [read_loop].
  destruct (Z.ltb_spec (zlen content) maxSize) as [Hlt|Hge].
  2: { exists err, [], buf, k. rewrite app_nil_r. repeat split; [zlen_lia|]. right. split; [done|]. left. zlen_lia. }
  destruct (fd_read k (Z.min (maxSize - zlen content) kBufferSize)) as [[d|e] k1] eqn:E.
  - destruct (fd_read_data _ _ _ _ E) as (Hr & Hd & Hz). unfold kBufferSize in *.
    destruct (Z.ltb_spec 0 (zlen d)) as [Hpos|Hnone].
    + destruct (IH (content ++ d) (splice 0 d buf) k1) as (err' & data & buf' & k' & Hl & Hr' & Hs & Hq);
        [zlen_lia|zlen_lia|].
      exists err', (d ++ data), buf', k'. rewrite Hl, <- !app_assoc, <- Hr'. autorewrite with zlen in *.
      split; [done|]. split; [done|]. split; [lia|]. destruct Hq as [Hq|[-> [Hq|Hq]]]; [by left| |];
        right; (split; [done|]); [left; lia|by right].
    + assert (d = []) as -> by (destruct d; [done|]; zlen_lia).
      exists err, [], buf, k1. rewrite app_nil_r. split; [done|]. split; [done|]. split; [zlen_lia|].
      right. split; [done|]. right. rewrite <- (Hz eq_refl ltac:(lia)), Hr. done.
  - exists e, [], buf, k1. rewrite app_nil_r. split; [done|]. rewrite (fd_read_error _ _ _ _ E).
    split; [done|]. split; [zlen_lia|]. left. by eexists _, _.
Qed.

Lemma take_whole {A} (n : Z) (d r : list A) :
  zlen d <= n -> zlen d = n \/ r = [] -> d = take (Z.to_nat n) (d ++ r).
Proof.
  unfold zlen. intros Hn [<-| ->].
  - by rewrite Nat2Z.id, take_app_length.
  - rewrite app_nil_r, take_ge; [done|lia].
Qed.

(** What [stat] is allowed to say of a regular file. *)
Definition stat_sane (fstat : stat_result + Z) : Prop :=
  match fstat with inl st => S_ISREG st = true -> 0 <= st_size st | inr _ => True end.

Lemma read_stat_ok maxSize fstat err o :
  0 <= maxSize -> stat_sane fstat -> exists err' o', read_stat maxSize fstat err o = Ok (err', o').
Proof.
  intros Hm Hs. unfold read_stat. destruct (fileSize o); [|by eexists _, _].
  destruct fstat as [st|e]; [|by eexists _, _]. destruct (S_ISREG st) eqn:E; [|by eexists _, _].
  specialize (Hs E). rewrite guard_true by lia. by eexists _, _.
Qed.

(** C34: with an open descriptor other than 0 and any way the kernel splits
    the reads, [readToString] returns: the content is the first [maxSize] bytes
    of what was left of the file, or less if a read fails, whose error is then
    the result; and no byte of the file is skipped or read twice. *)
Theorem readToString_reads_file f maxSize content fstat o k :
  0 < fd_ f -> 0 <= maxSize < 2 ^ 31 -> stat_sane fstat ->
  exists err err' o' data f' k',
    read_stat maxSize fstat (err_ f) o = Ok (err, o') /\
    readToString f maxSize content fstat o k = Ok (Some (err', o', data, f', k')) /\
    fd_rest k = data ++ fd_rest k' /\ fd_ f' = fd_ f /\
    (failed_read err' k' /\ zlen data <= maxSize \/
     err' = err /\ data = take (Z.to_nat maxSize) (fd_rest k)).
Proof.
  intros Hfd Hm Hs. destruct (read_stat_ok maxSize fstat (err_ f) o) as (err & o' & Hst); [lia|done|].
  unfold readToString. replace (0 <? fd_ f) with true by lia. rewrite Hst. cbn [mbind res_bind].
  rewrite u64_small by lia.
  destruct (read_loop_reads (S (Z.to_nat maxSize)) maxSize err [] (buf_ f) k)
    as (err' & data & buf' & k' & -> & Hr & Hz & Hq); [rewrite zlen_nil; lia..|].
  rewrite zlen_nil, Z.add_0_l in *. eexists err, err', o', data, _, k'.
  split; [done|]. split; [done|]. split; [done|]. split; [done|].
  destruct Hq as [Hq|[-> Hq]]; [by left|right]. split; [done|]. rewrite Hr. by apply take_whole.
Qed.

End ReadLemmas.

Definition demo_file : ReadSmallFile := ReadSmallFile_ctor 3 0 (replicate 8 xff).
Definition demo_script : script := mkScript (lit "status of the process") [3; 1].

Lemma readToString_reads_file_witness :
  exists err err' o' data f' k',
    read_stat 10 (inr 0) (err_ demo_file) (mkOutputs None None None) = Ok (err, o') /\
    readToString demo_file 10 [] (inr 0) (mkOutputs None None None) demo_script
      = Ok (Some (err', o', data, f', k')) /\
    fd_rest demo_script = data ++ fd_rest k' /\ fd_ f' = fd_ demo_file /\
    (failed_read err' k' /\ zlen data <= 10 \/
     err' = err /\ data = take (Z.to_nat 10) (fd_rest demo_script)).
Proof.
  apply (readToString_reads_file demo_file 10 [] (inr 0) (mkOutputs None None None) demo_script);
    [cbn; lia|lia|exact I].
Defined.

Example readToString_example :
  (r ← readToString demo_file 10 [] (inr 0) (mkOutputs None None None) demo_script;
   Ok (match r with Some (err, _, data, _, _) => Some (err, data) | None => None end))
  = Ok (Some (0, lit "status of ")).
Proof. vm_compute. reflexivity. Qed.

(** Descriptor 0 is a file like any other to [readToBuffer], but [readToString]
    returns without an error and without reading. *)
Lemma descriptor_zero_unread content fstat o (k : script) memory errno :
  readToString (ReadSmallFile_ctor 0 errno memory) 10 content fstat o k
  = Ok (Some (0, o, content, ReadSmallFile_ctor 0 errno memory, k)).
Proof. done. Qed.

(** ** The buffer *)

Lemma readToBuffer_string f d size :
  0 <= fd_ f -> zlen (buf_ f) = kBufferSize -> zlen d < kBufferSize ->
  exists f', readToBuffer f (IoData d) (Some size) = Ok (err_ f, Some (zlen d), f') /\
    zlen (buf_ f') = kBufferSize /\ buffer_string f' (zlen d) = Ok d /\
    slice (zlen d) 1 (buf_ f') = [x00].
Proof.
  intros Hfd Hb Hd. pose proof (zlen_nonneg d). unfold readToBuffer. replace (0 <=? fd_ f) with true by lia.
  rewrite guard_true by lia. cbn [mbind res_bind store]. eexists. split; [done|].
  unfold buffer_string. cbn [buf_].
  assert (zlen (splice 0 (d ++ [x00]) (buf_ f)) = kBufferSize) as Hl by (rewrite zlen_splice; zlen_lia).
  rewrite Hl, !guard_true by lia. cbn [mbind res_bind]. split; [done|].
  unfold splice. cbn [take app]. change (take (Z.to_nat 0) (buf_ f)) with (@nil byte).
  split; [rewrite <- !app_assoc; cbn [app]; by rewrite slice_prefix|].
  cbn [app]. rewrite <- app_assoc. apply (slice_app_mid d [x00]); done.
Qed.

(** A failed open or read stores no size. *)
Lemma readToBuffer_fails f pread size :
  fd_ f < 0 \/ (exists e, pread = IoError e) ->
  exists e, readToBuffer f pread size = Ok (e, size, f).
Proof.
  intros H. unfold readToBuffer. destruct (Z.leb_spec 0 (fd_ f)); [|by eexists].
  destruct H as [|[e ->]]; [lia|]. by eexists.
Qed.

(** ** formattedName *)

Lemma last_component_spec dir name :
  SLASH ∉ name -> last_component (dir ++ SLASH :: name) = name /\ last_component name = name.
Proof.
  intros Hn. unfold last_component. rewrite reverse_app, reverse_cons, <- app_assoc.
  rewrite <- elem_of_reverse in Hn. cbn [app]. rewrite find_byte_hit by done.
  rewrite take_zlen, reverse_involutive. split; [done|].
  rewrite find_byte_absent by done. unfold zlen. by rewrite Nat2Z.id, firstn_all, reverse_involutive.
Qed.

(** The name alone is copied: the byte behind it is not cleared, so a shorter
    name leaves the tail of a longer one. *)
Lemma formattedName_keeps_tail buf dir name :
  SLASH ∉ name -> zlen name <= 32 -> formattedName buf (dir ++ SLASH :: name) = Ok (splice 0 name buf).
Proof.
  intros Hn Hl. unfold formattedName. rewrite (proj1 (last_component_spec dir name Hn)).
  by rewrite guard_true by lia.
Qed.

Example formattedName_example :
  (buf ← formattedName (replicate 32 x00) (lit "src/EventLoop.cc");
   buf ← formattedName buf (lit "base/Buffer.h"); Ok (take 12 buf))
  = Ok (lit "Buffer.hp.cc").
Proof. vm_compute. reflexivity. Qed.
