(* ===== verification/ProcessInfo.v ===== *)
(** * The process: tmuduo/base/ProcessInfo.h and ProcessInfo.cc

    What the functions read off the texts of /proc and off directories; the
    results of the system calls are arguments. *)

From S2P Require Import Prelude StdContainers Format FileUtil.
From S2P Require Timestamp.
Import Timestamp(double_of, ddiv).

(** ** The C library's [isdigit] and [atoi] *)

Definition isdigit (b : byte) : bool := let c := b2z b in (48 <=? c) && (c <=? 57).

Fixpoint skip_spaces (s : bytes) : bytes :=
  match s with [] => [] | b :: s' => if isspace b then skip_spaces s' else s end.

Fixpoint leading_digits (s : bytes) : bytes :=
  match s with [] => [] | b :: s' => if isdigit b then b :: leading_digits s' else [] end.

(** Undefined when the value is not an [int]. *)
Definition atoi (s : bytes) : res Z :=
  let '(negative, s) :=
    match skip_spaces s with
    | b :: s' => if decide (b = x2d) then (true, s') else (false, if decide (b = x2b) then s' else b :: s')
    | [] => (false, [])
    end in
  let v := dec_value (leading_digits s) in
  let v := if negative then - v else v in
  guard_ IntOverflow ((- 2 ^ 31 <=? v) && (v <? 2 ^ 31));;
  Ok v.

(** ** Directories *)

(** [scandir] calls the filter on every name; [None] is a directory that
    cannot be opened.  The filters refuse every entry, so the list stays null. *)
Fixpoint scan {S : Type} (filter : S -> bytes -> res S) (entries : list bytes) (s : S) : res S :=
  match entries with
  | [] => Ok s
  | d_name :: entries => s ← filter s d_name; scan filter entries s
  end.

Definition scanDir {S : Type} (dir : option (list bytes)) (filter : S -> bytes -> res S) (s : S) : res S :=
  match dir with Some entries => scan filter entries s | None => Ok s end.

(** [d_name] ends in a null byte, which is not a digit. *)
Definition first_isdigit (d_name : bytes) : bool :=
  match d_name with b :: _ => isdigit b | [] => false end.

Definition fdDirFilter (t_numOpenedFiles : Z) (d_name : bytes) : res Z :=
  if first_isdigit d_name then
    guard_ IntOverflow (t_numOpenedFiles + 1 <? 2 ^ 31);;
    Ok (t_numOpenedFiles + 1)
  else Ok t_numOpenedFiles.

Definition taskDirFilter (t_pids : list Z) (d_name : bytes) : res (list Z) :=
  if first_isdigit d_name then pid ← atoi d_name; Ok (t_pids ++ [pid]) else Ok t_pids.

Definition openedFiles (dir : option (list bytes)) : res Z := scanDir dir fdDirFilter 0.

(** The limit is cut to an [int]. *)
Definition maxOpenFiles (getrlimit : option Z) (dir : option (list bytes)) : res Z :=
  match getrlimit with
  | None => openedFiles dir
  | Some rlim_cur => Ok (wraps 32 rlim_cur)
  end.

Definition threads (dir : option (list bytes)) : res (list Z) :=
  result ← scanDir dir taskDirFilter [];
  Ok (merge_sort Z.le result).

(** ** Numbers of the system

    [sysconf]'s results are [long]s; the code is built without [NDEBUG]. *)

Definition clockTicksPerSecond (sysconf : Z) : Z := wraps 32 sysconf.
Definition pageSize (sysconf : Z) : Z := wraps 32 sysconf.
Definition isDebugBuild : bool := true.

Record CpuTime := mkCpuTime { userSeconds : Timestamp.double; systemSeconds : Timestamp.double }.

(** What [times] returns and the ticks it stores. *)
Definition cpuTime (times tms_utime tms_stime sysconf : Z) : CpuTime :=
  if 0 <=? times then
    let hz := double_of (clockTicksPerSecond sysconf) in
    mkCpuTime (ddiv (double_of tms_utime) hz) (ddiv (double_of tms_stime) hz)
  else mkCpuTime (double_of 0) (double_of 0).

(** At a hundred ticks per second, and when [times] fails. *)
Example cpuTime_example :
  cpuTime 7 250 100 100 = mkCpuTime (ddiv (double_of 5) (double_of 2)) (double_of 1) /\
  cpuTime (-1) 250 100 100 = mkCpuTime (double_of 0) (double_of 0).
Proof. split; vm_compute; reflexivity. Qed.

(** ** Texts *)

Definition pidString (getpid : Z) : bytes := snprintf 32 (print_d getpid).

(** The name of the [passwd] entry, if there is one. *)
Definition username (pw_name : option bytes) : bytes :=
  match pw_name with Some name => name | None => lit "unknownuser" end.

(** [gethostname] leaves what fits the buffer of 256 bytes, whose last byte is
    then cleared. *)
Definition hostname (gethostname : option bytes) : bytes :=
  match gethostname with Some name => take 255 name | None => lit "unknownhost" end.

Definition procname (stat : bytes) : bytes :=
  match str_find x28 stat, str_rfind x29 stat with
  | Some lp, Some rp => if lp <? rp then slice (lp + 1) (rp - lp - 1) stat else []
  | _, _ => []
  end.

Section ProcFiles.
Context {K : Type} `{!Descriptor K}.

(** [readFile] of up to 65536 bytes into a new string, without the outputs. *)
Definition proc_file (open_result errno : Z) (memory : bytes) (k : K) : res (option bytes) :=
  r ← readFile open_result errno memory 65536 [] (inr 0) (mkOutputs None None None) k;
  Ok (match r with Some (_, _, content) => Some content | None => None end).

Definition procStatus (open_result errno : Z) (memory : bytes) (k : K) : res (option bytes) :=
  proc_file open_result errno memory k.
Definition procStat (open_result errno : Z) (memory : bytes) (k : K) : res (option bytes) :=
  proc_file open_result errno memory k.

(** [threadStat] reads the file of this name. *)
Definition threadStat_path (tid : Z) : bytes :=
  snprintf 64 (lit "/proc/self/task/" ++ print_d tid ++ lit "/stat").
Definition threadStat (open_result errno : Z) (memory : bytes) (k : K) : res (option bytes) :=
  proc_file open_result errno memory k.

End ProcFiles.

(** [readlink] returns the length and leaves the bytes. *)
Definition exePath (readlink : option bytes) : bytes :=
  match readlink with Some target => if 0 <? zlen target then target else [] | None => [] end.

(** The number behind the first "Threads:" of the status. *)
Definition numThreads (status : bytes) : res Z :=
  let pos := search (lit "Threads:") status in
  if negb (pos =? zlen status) then atoi (drop (Z.to_nat (pos + 8)) status) else Ok 0.

(** ** Lemmas *)

Lemma print_u_isdigit n : Forall (fun b => isdigit b = true) (print_u n).
Proof. eapply Forall_impl; [apply print_u_digits|]. intros b Hb. unfold isdigit. cbn in Hb. lia. Qed.

Lemma print_u_first n : exists b s, print_u n = b :: s /\ isdigit b = true.
Proof.
  pose proof (print_u_isdigit n) as H. destruct (print_u n) as [|b s] eqn:E.
  - apply (f_equal reverse) in E. unfold print_u in E. rewrite reverse_involutive in E. done.
  - apply Forall_cons in H as [Hb _]. by exists b, s.
Qed.

Lemma leading_digits_app p s :
  Forall (fun b => isdigit b = true) p -> first_isdigit s = false -> leading_digits (p ++ s) = p.
Proof.
  intros Hp Hs. induction Hp as [|b p Hb _ IH]; cbn [app leading_digits].
  - destruct s as [|b s]; [done|]. cbn in *. by rewrite Hs.
  - by rewrite Hb, IH.
Qed.

Lemma digit_not_special b : isdigit b = true -> isspace b = false /\ b <> x2d /\ b <> x2b.
Proof.
  unfold isdigit, isspace. intros H. split; [lia|]. by split; intros ->.
Qed.

(** Spaces in front and anything that is not a digit behind do not matter. *)
Lemma atoi_print ws n s :
  Forall (fun b => isspace b = true) ws -> 0 <= n < 2 ^ 31 -> first_isdigit s = false ->
  atoi (ws ++ print_u n ++ s) = Ok n.
Proof.
  intros Hws Hn Hs. unfold atoi.
  assert (skip_spaces (ws ++ print_u n ++ s) = print_u n ++ s) as ->.
  { destruct (print_u_first n) as (b & t & -> & Hb). cbn [app].
    induction Hws as [|w ws Hw _ IH]; cbn [app skip_spaces]; [|by rewrite Hw].
    by rewrite (proj1 (digit_not_special b Hb)). }
  pose proof (leading_digits_app _ _ (print_u_isdigit n) Hs) as Hl.
  pose proof (dec_value_print n ltac:(lia)) as Hv.
  destruct (print_u_first n) as (b & t & E & Hb). rewrite E in *. cbn [app] in *.
  destruct (digit_not_special b Hb) as (_ & Hm & Hp). rewrite !decide_False by done.
  rewrite Hl, Hv, guard_true by lia. done.
Qed.

(** ** Properties *)

(** The name is what stands between the first left and the last right
    parenthesis, whatever it holds itself. *)
Lemma procname_correct pid comm rest :
  x28 ∉ pid -> x29 ∉ rest -> procname (pid ++ x28 :: comm ++ x29 :: rest) = comm.
Proof.
  intros Hp Hr. unfold procname. rewrite str_find_hit by done.
  replace (pid ++ x28 :: comm ++ x29 :: rest) with ((pid ++ x28 :: comm) ++ x29 :: rest)
    by by rewrite <- app_assoc.
  rewrite str_rfind_hit by done. autorewrite with zlen. pose proof (zlen_nonneg comm).
  replace (zlen pid <? _) with true by lia. rewrite <- app_assoc. cbn [app].
  change (pid ++ x28 :: comm ++ x29 :: rest) with (pid ++ [x28] ++ comm ++ x29 :: rest).
  rewrite app_assoc. apply slice_app_mid; zlen_lia.
Qed.

(** The count is read off the line of that name, unless the text occurs before. *)
Lemma numThreads_correct before ws n after :
  (forall i, (i < length before)%nat -> ~ occurs_at (lit "Threads:")
     (before ++ lit "Threads:" ++ ws ++ print_u n ++ after) i) ->
  Forall (fun b => isspace b = true) ws -> 0 <= n < 2 ^ 31 -> first_isdigit after = false ->
  numThreads (before ++ lit "Threads:" ++ ws ++ print_u n ++ after) = Ok n.
Proof.
  intros Hb Hws Hn Ha. unfold numThreads.
  rewrite (search_unique _ _ (length before)); 
    [|by unfold occurs_at; rewrite drop_app_length, take_app_length|done|rewrite length_app; lia].
  fold (zlen before). pose proof (zlen_nonneg (ws ++ print_u n ++ after)).
  assert (zlen (lit "Threads:") = 8) as H8 by done.
  rewrite (zlen_app before), (zlen_app (lit "Threads:")), H8, (proj2 (Z.eqb_neq _ _)) by lia.
  cbn [negb]. rewrite (app_assoc before), drop_zlen by (rewrite zlen_app; lia). by apply atoi_print.
Qed.

(** A directory of numbered entries among others. *)
Definition entry_name (e : bytes + Z) : bytes := match e with inl name => name | inr pid => print_u pid end.
Definition entry_ok (e : bytes + Z) : Prop :=
  match e with inl name => first_isdigit name = false | inr pid => 0 <= pid < 2 ^ 31 end.
Definition entry_pid (e : bytes + Z) : option Z := match e with inl _ => None | inr pid => Some pid end.

Lemma print_u_is_entry n : first_isdigit (print_u n) = true.
Proof. by destruct (print_u_first n) as (b & s & -> & Hb). Qed.

Lemma scan_tasks es : forall acc, Forall entry_ok es ->
  scan taskDirFilter (map entry_name es) acc = Ok (acc ++ omap entry_pid es).
Proof.
  induction es as [|[name|pid] es IH]; intros acc Hes; cbn [map scan entry_name].
  - by rewrite app_nil_r.
  - apply Forall_cons in Hes as [He Hes]. replace (taskDirFilter acc name) with (Ok acc) by (unfold taskDirFilter; by rewrite He).
    by apply IH.
  - apply Forall_cons in Hes as [He Hes]. replace (taskDirFilter acc (print_u pid)) with (Ok (acc ++ [pid])).
    + cbn [mbind res_bind]. rewrite IH by done. by rewrite <- app_assoc.
    + unfold taskDirFilter. rewrite print_u_is_entry.
      pose proof (atoi_print [] pid []) as Ha. rewrite app_nil_r in Ha.
      change ([] ++ print_u pid) with (print_u pid) in Ha.
      by rewrite Ha; [|constructor|by destruct He|done].
Qed.

Lemma scan_fds es : forall n, 0 <= n -> n + zlen (omap entry_pid es) < 2 ^ 31 -> Forall entry_ok es ->
  scan fdDirFilter (map entry_name es) n = Ok (n + zlen (omap entry_pid es)).
Proof.
  induction es as [|[name|pid] es IH]; intros n Hn Hl Hes; cbn [map scan entry_name].
  - cbn. f_equal. zlen_lia.
  - apply Forall_cons in Hes as [He Hes]. replace (fdDirFilter n name) with (Ok n) by (unfold fdDirFilter; by rewrite He).
    by apply IH.
  - apply Forall_cons in Hes as [He Hes]. change (omap entry_pid (inr pid :: es)) with (pid :: omap entry_pid es) in *.
    autorewrite with zlen in *. pose proof (zlen_nonneg (omap entry_pid es)).
    replace (fdDirFilter n (print_u pid)) with (Ok (n + 1))
      by (unfold fdDirFilter; by rewrite print_u_is_entry, guard_true by lia).
    cbn [mbind res_bind]. rewrite IH by (done || lia). f_equal. lia.
Qed.

(** Over any directory whose numbered names are ids below 2^31, the
    threads are exactly those ids in ascending order, each as often as it is
    listed; and [openedFiles] of such a directory is the number of its
    numbered names. *)
Theorem directory_scans es :
  Forall entry_ok es -> zlen es < 2 ^ 31 ->
  exists l, threads (Some (map entry_name es)) = Ok l /\
    Sorted Z.le l /\ l ≡ₚ omap entry_pid es /\
    openedFiles (Some (map entry_name es)) = Ok (zlen (omap entry_pid es)).
Proof.
  intros Hes Hl. unfold threads, openedFiles, scanDir. rewrite scan_tasks by done. cbn [mbind res_bind app].
  eexists. split; [done|]. split; [apply Sorted_merge_sort; intros x y; lia|].
  split; [apply merge_sort_Permutation|]. rewrite scan_fds; [done|lia| |done].
  assert (zlen (omap entry_pid es) <= zlen es); [|lia]. clear.
  induction es as [|[n|p] es IH]; [done| |].
  - change (omap entry_pid (inl n :: es)) with (omap entry_pid es). zlen_lia.
  - change (omap entry_pid (inr p :: es)) with (p :: omap entry_pid es). zlen_lia.
Qed.

Lemma directory_scans_witness :
  exists l, threads (Some (map entry_name [inl (lit "."); inl (lit ".."); inr 1207; inr 31; inr 442])) = Ok l /\
    Sorted Z.le l /\ l ≡ₚ [1207; 31; 442] /\
    openedFiles (Some (map entry_name [inl (lit "."); inl (lit ".."); inr 1207; inr 31; inr 442])) = Ok 3.
Proof.
  apply (directory_scans [inl (lit "."); inl (lit ".."); inr 1207; inr 31; inr 442]); [|done].
  repeat constructor; cbn; lia.
Defined.

Example threads_example :
  threads (Some (map lit ["."; ".."; "1207"; "31"; "442"]%string)) = Ok [31; 442; 1207].
Proof. vm_compute. reflexivity. Qed.

Example procname_example :
  procname (lit "31 (tmuduo) (v2)) S 1 31") = lit "tmuduo) (v2)".
Proof. vm_compute. reflexivity. Qed.

(** A process may choose a name that its own status text misleads about. *)
Example numThreads_example :
  numThreads (lit "Name:	Threads: 9" ++ [LF] ++ lit "Threads:	2") = Ok 9 /\
  numThreads (lit "Name:	server" ++ [LF] ++ lit "Threads:	2") = Ok 2.
Proof. vm_compute. done. Qed.
