(* ===== verification/LogFile.v ===== *)
(** * Log files: tmuduo/base/LogFile.h and LogFile.cc

    A log file that starts a new file by size and by day.  The clock and the
    results of [fwrite] are arguments of the operations; the local time, the
    host and the process that a file name carries are read off an environment
    of the process. *)

From S2P Require Import Prelude Format Timestamp FileUtil ProcessInfo.

(** ** What a writer of log data needs of a sink

    Operations of a sink for log data with an environment for each append, and
    the laws: an append succeeds and puts the data behind what was written. *)
Class Sink (F E : Type) := {
  sink_append : F -> E -> bytes -> res F;
  sink_flush : F -> res F;
  sink_content : F -> bytes;
  sink_ok : F -> Prop;
  sink_env : E -> bytes -> Prop
}.

Class SinkLaws (F E : Type) `{!Sink F E} := {
  sink_append_ok f e d : sink_ok f -> sink_env e d ->
    exists f', sink_append f e d = Ok f' /\ sink_ok f' /\ sink_content f' = sink_content f ++ d;
  sink_flush_ok f : sink_ok f ->
    exists f', sink_flush f = Ok f' /\ sink_ok f' /\ sink_content f' = sink_content f
}.

(** ** LogFile *)

Definition kRollPerSeconds_ : Z := 60 * 60 * 24.

(** What the file name depends on: [localtime_r], [gethostname], [getpid]. *)
Record process_env := mkProcess {
  env_localtime : Z -> tm;
  env_gethostname : option bytes;
  env_getpid : Z
}.

(** [strftime] with ".%Y%m%d-%H%M%S.". *)
Definition timebuf (t : tm) : bytes :=
  lit "." ++ print_d (tm_year t + 1900) ++ print_0d 2 (tm_mon t + 1) ++ print_0d 2 (tm_mday t) ++
  lit "-" ++ print_0d 2 (tm_hour t) ++ print_0d 2 (tm_min t) ++ print_0d 2 (tm_sec t) ++ lit ".".

Section LogFile.
Context (env : process_env).

(** [closed_files] are those of earlier periods, in the order they were opened. *)
Record LogFile := mkLogFile {
  basename_ : bytes;
  rollSize_ : Z;
  flushInterval_ : Z;
  checkEveryN_ : Z;
  count_ : Z;
  startOfPeriod_ : Z;
  lastRoll_ : Z;
  lastFlush_ : Z;
  file_ : option AppendFile;
  closed_files : list AppendFile
}.

Definition set_file (l : LogFile) (f : AppendFile) : LogFile :=
  mkLogFile (basename_ l) (rollSize_ l) (flushInterval_ l) (checkEveryN_ l) (count_ l)
    (startOfPeriod_ l) (lastRoll_ l) (lastFlush_ l) (Some f) (closed_files l).
Definition set_count (l : LogFile) (n : Z) : LogFile :=
  mkLogFile (basename_ l) (rollSize_ l) (flushInterval_ l) (checkEveryN_ l) n
    (startOfPeriod_ l) (lastRoll_ l) (lastFlush_ l) (file_ l) (closed_files l).
Definition set_lastFlush (l : LogFile) (t : Z) : LogFile :=
  mkLogFile (basename_ l) (rollSize_ l) (flushInterval_ l) (checkEveryN_ l) (count_ l)
    (startOfPeriod_ l) (lastRoll_ l) t (file_ l) (closed_files l).

Definition getLogFileName (basename : bytes) (now : Z) : bytes :=
  basename ++ timebuf (env_localtime env now) ++ hostname (env_gethostname env) ++
  snprintf 32 (lit "." ++ print_d (env_getpid env)) ++ lit ".log".

Definition period (now : Z) : Z := Z.quot now kRollPerSeconds_ * kRollPerSeconds_.

(** [rollFile] at time [now]: one file a second at most. *)
Definition rollFile (l : LogFile) (now : Z) : LogFile * bool :=
  let name := getLogFileName (basename_ l) now in
  if lastRoll_ l <? now then
    (mkLogFile (basename_ l) (rollSize_ l) (flushInterval_ l) (checkEveryN_ l) (count_ l)
       (period now) now now (Some (AppendFile_ctor name))
       (closed_files l ++ match file_ l with Some f => [f] | None => [] end), true)
  else (l, false).

Definition LogFile_ctor (basename : bytes) (rollSize flushInterval checkEveryN now : Z) : res LogFile :=
  assert_ (find_byte x2f basename =? zlen basename);;
  Ok (rollFile (mkLogFile basename rollSize flushInterval checkEveryN 0 0 0 0 None []) now).1.

Definition flush (l : LogFile) : res LogFile :=
  match file_ l with
  | None => Err NullDereference
  | Some f => Ok (set_file l (file_flush f))
  end.

(** The environment of an append: the results of [fwrite], and the time of the
    check and of the roll. *)
Record append_env := mkEnv { env_writes : nat -> Z; env_now : Z; env_roll : Z }.

Definition append_unlocked (l : LogFile) (e : append_env) (logline : bytes) : res LogFile :=
  match file_ l with
  | None => Err NullDereference
  | Some f =>
      let f := file_append f (env_writes e) logline in
      let l := set_file l f in
      if rollSize_ l <? writtenBytes_ f then Ok (rollFile l (env_roll e)).1
      else
        let l := set_count l (count_ l + 1) in
        if checkEveryN_ l <=? count_ l then
          let l := set_count l 0 in
          let now := env_now e in
          let thisPeriod_ := period now in
          if negb (thisPeriod_ =? startOfPeriod_ l) then Ok (rollFile l (env_roll e)).1
          else if flushInterval_ l <? now - lastFlush_ l then flush (set_lastFlush l now)
          else Ok l
        else Ok l
  end.

(** [append]: with or without the mutex, the same under its lock. *)
Definition append (l : LogFile) (e : append_env) (logline : bytes) : res LogFile :=
  append_unlocked l e logline.

Fixpoint append_lines (l : LogFile) (lines : list (append_env * bytes)) : res LogFile :=
  match lines with
  | [] => Ok l
  | (e, line) :: lines => l ← append l e line; append_lines l lines
  end.

(** All files in order, the current one last. *)
Definition all_files (l : LogFile) : list AppendFile :=
  closed_files l ++ match file_ l with Some f => [f] | None => [] end.

(** ** Lemmas *)

(** The files hold whole lines: grouped by file, in order. *)
Definition holds (l : LogFile) (lines : list bytes) : Prop :=
  is_Some (file_ l) /\
  exists groups, map content (all_files l) = map (@concat byte) groups /\ concat groups = lines.

Lemma rollFile_holds l now lines : holds l lines -> holds (rollFile l now).1 lines.
Proof.
  intros [[f Hf] (groups & Hg & Hc)]. unfold rollFile. destruct (_ <? now); [|by split; eauto].
  split; [by eexists|]. exists (groups ++ [[]]). unfold all_files in *. cbn. rewrite Hf in *.
  split; [|by rewrite concat_app, app_nil_r]. rewrite !map_app in *. by rewrite Hg.
Qed.

Lemma set_count_holds l n lines : holds l lines -> holds (set_count l n) lines.
Proof. intros [H1 H2]. by split. Qed.

Lemma flush_holds l lines : holds l lines -> exists l', flush l = Ok l' /\ holds l' lines.
Proof.
  intros [[f Hf] (groups & Hg & Hc)]. unfold flush. rewrite Hf. eexists. split; [done|].
  split; [by eexists|]. exists groups. split; [|done]. unfold all_files in *. cbn. rewrite Hf in Hg.
  rewrite map_app in *. done.
Qed.

(** A line goes to the file that is open. *)
Lemma append_file_holds l f writes line lines :
  holds l lines -> file_ l = Some f -> writes_ok writes ->
  holds (set_file l (file_append f writes line)) (lines ++ [line]).
Proof.
  intros [_ (groups & Hg & Hc)] Hf Hw. split; [by eexists|].
  unfold all_files in *. cbn. rewrite Hf, map_app in Hg. cbn [map] in Hg.
  destruct groups as [|g g0 _] using rev_ind; [by destruct (map content (closed_files l))|].
  rewrite map_app in Hg. cbn [map] in Hg. apply app_inj_tail in Hg as [Hg1 Hg2].
  exists (g0 ++ [g ++ [line]]). rewrite !map_app, Hg1. cbn [map]. rewrite file_append_content by done.
  split; [|rewrite <- Hc, !concat_app; cbn; by rewrite !app_nil_r, app_assoc].
  by rewrite Hg2, concat_app; cbn; rewrite app_nil_r.
Qed.

Lemma append_holds l e line lines :
  holds l lines -> writes_ok (env_writes e) ->
  exists l', append l e line = Ok l' /\ holds l' (lines ++ [line]).
Proof.
  intros Hl Hw. unfold append, append_unlocked. pose proof Hl as [[f Hf] _]. rewrite Hf.
  pose proof (append_file_holds l f (env_writes e) line lines Hl Hf Hw) as Hl'.
  destruct (_ <? writtenBytes_ _); [eexists; split; [done|by apply rollFile_holds]|].
  apply (set_count_holds _ (count_ (set_file l (file_append f (env_writes e) line)) + 1)) in Hl' as Hl2.
  destruct (_ <=? count_ _); [|eauto].
  apply (set_count_holds _ 0) in Hl2. destruct (negb _); [eexists; split; [done|by apply rollFile_holds]|].
  destruct (_ <? _); [|eauto]. apply flush_holds. by destruct Hl2.
Qed.

Lemma append_lines_holds es : forall l lines,
  holds l lines -> Forall (fun p => writes_ok (env_writes p.1)) es ->
  exists l', append_lines l es = Ok l' /\ holds l' (lines ++ map snd es).
Proof.
  induction es as [|[e line] es IH]; intros l lines Hl Hes; cbn [append_lines map].
  - exists l. by rewrite app_nil_r.
  - apply Forall_cons in Hes as [He Hes]. destruct (append_holds l e line lines Hl He) as (l1 & -> & Hl1).
    cbn [mbind res_bind snd]. destruct (IH l1 _ Hl1 Hes) as (l' & ? & Hl'). exists l'.
    by rewrite <- app_assoc in Hl'.
Qed.

Lemma concat_map_concat {A} (groups : list (list (list A))) :
  concat (map (@concat A) groups) = concat (concat groups).
Proof. induction groups as [|g groups IH]; cbn; [done|]. by rewrite concat_app, IH. Qed.

Lemma holds_content l lines : holds l lines -> concat (map content (all_files l)) = concat lines.
Proof. intros [_ (groups & Hg & <-)]. rewrite Hg. apply concat_map_concat. Qed.

Lemma holds_some l : is_Some (file_ l) -> holds l (map content (all_files l)).
Proof.
  intros Hf. split; [done|]. exists (map (fun f => [content f]) (all_files l)).
  induction (all_files l) as [|f fs [IH1 IH2]]; cbn; [done|]. rewrite app_nil_r. 
  split; [by rewrite IH1|by rewrite IH2].
Qed.

(** A file is begun exactly when the size or the day asks for it, and never
    twice in a second. *)
Lemma append_rolls l e line l' f :
  file_ l = Some f -> append l e line = Ok l' ->
  zlen (all_files l') =
    zlen (all_files l) +
    (if ((rollSize_ l <? writtenBytes_ f + zlen line) ||
         ((checkEveryN_ l <=? count_ l + 1) && negb (period (env_now e) =? startOfPeriod_ l)))
        && (lastRoll_ l <? env_roll e) then 1 else 0).
Proof.
  intros Hf. unfold append, append_unlocked, rollFile, flush, all_files. rewrite Hf. cbn -[zlen].
  rewrite zlen_app.
  repeat match goal with
  | |- context [if ?b then _ else _] => destruct b; cbn -[zlen]
  end; intros [= <-]; cbn -[zlen]; rewrite ?Hf, ?zlen_app; unfold zlen; cbn [length]; lia.
Qed.
End LogFile.

(** ** The sink of the asynchronous log *)

#[export] Instance LogFile_sink (env : process_env) : Sink LogFile append_env := {
  sink_append := append env;
  sink_flush := flush;
  sink_content l := concat (map content (all_files l));
  sink_ok l := is_Some (file_ l);
  sink_env e _ := writes_ok (env_writes e)
}.

#[export] Instance LogFile_sink_laws (env : process_env) :
  @SinkLaws LogFile append_env (LogFile_sink env).
Proof.
  split; cbn.
  - intros l e d Hl He. destruct (append_holds env l e d _ (holds_some l Hl) He) as (l' & E & Hl').
    exists l'. split; [done|]. split; [apply Hl'|]. rewrite (holds_content _ _ Hl').
    rewrite concat_app. cbn. by rewrite app_nil_r.
  - intros l Hl. destruct (flush_holds l _ (holds_some l Hl)) as (l' & E & Hl').
    exists l'. split; [done|]. split; [apply Hl'|]. apply (holds_content _ _ Hl').
Qed.

(** ** Properties *)

(** C33: a log file opened after the epoch takes any sequence of lines without
    losing, repeating, splitting or reordering one, whenever it rolls over to
    new files: its files hold, one after the other, whole groups of lines
    whose concatenation is the sequence, when every call of [fwrite] makes
    progress. *)
Theorem logfile_whole_lines env basename rollSize flushInterval checkEveryN now lines :
  x2f ∉ basename -> 0 < now -> Forall (fun p => writes_ok (env_writes p.1)) lines ->
  exists l0 l, LogFile_ctor env basename rollSize flushInterval checkEveryN now = Ok l0 /\
    append_lines env l0 lines = Ok l /\ is_Some (file_ l) /\
    exists groups, map content (all_files l) = map (@concat byte) groups /\
      concat groups = map snd lines.
Proof.
  intros Hb Hn Hw. unfold LogFile_ctor. rewrite find_byte_absent, assert_true by (done || lia).
  cbn [mbind res_bind]. eexists _. 
  destruct (append_lines_holds env lines
    (rollFile env (mkLogFile basename rollSize flushInterval checkEveryN 0 0 0 0 None []) now).1 [])
    as (l & E & Hl); [|done|].
  { unfold rollFile. cbn. replace (0 <? now) with true by lia. split; [by eexists|]. by exists [[]]. }
  exists l. split; [done|]. split; [done|]. exact Hl.
Qed.

Definition log_env : process_env :=
  mkProcess (fun now => mkTm 124 5 1 0 0 now) (Some (lit "host")) 77.

Lemma logfile_whole_lines_witness :
  let lines := [(mkEnv (fun _ => 1) 5 6, lit "one"); (mkEnv (fun _ => 2) 8 9, lit "two");
                (mkEnv (fun _ => 100) 8 9, lit "three")] in
  exists l0 l, LogFile_ctor log_env (lit "log") 4 3 2 4 = Ok l0 /\
    append_lines log_env l0 lines = Ok l /\ is_Some (file_ l) /\
    exists groups, map content (all_files l) = map (@concat byte) groups /\
      concat groups = map snd lines.
Proof.
  apply (logfile_whole_lines log_env (lit "log") 4 3 2 4); [decide_now|lia|].
  repeat constructor; intros k; cbn; lia.
Defined.

(** The first two lines go to the first file, which is then over 4 bytes; the
    third goes over the size again, but in the second of the last roll. *)
Example logfile_example :
  (l ← LogFile_ctor log_env (lit "log") 4 3 2 4;
   l ← append_lines log_env l
     [(mkEnv (fun _ => 1) 5 6, lit "one"); (mkEnv (fun _ => 2) 8 9, lit "two");
      (mkEnv (fun _ => 100) 8 9, lit "three")];
   Ok (map content (all_files l))) = Ok [lit "onetwo"; lit "three"].
Proof. vm_compute. reflexivity. Qed.
