(* ===== verification/AsyncLogging.v ===== *)
(** * Asynchronous logging: tmuduo/base/AsyncLogging.h and AsyncLogging.cc

    The buffers of the front end, which any thread appends to under the mutex,
    and the back end's thread, which takes them under the mutex and writes them
    to its log file outside it.  A run is an interleaving of appends with the
    steps of the back end, split where it holds the mutex; the log file is any
    [Sink]. *)

From S2P Require Import Prelude LogStream LogFile.

Section AsyncLogging.
Context {F E : Type} `{!Sink F E}.

(** The memory of a new buffer, [kLargeBuffer] bytes in the code. *)
Context (memory : bytes).

Definition new_buffer : FixedBuffer := FixedBuffer_ctor memory.

(** [None] is a null or moved-from pointer.  [buffersToWrite], [newBuffer1] and
    [newBuffer2] are the back end's; [collected] tells where it is in its loop:
    between taking the buffers and having written them; [exited] that it left
    the loop. *)
Record AsyncLogging := mkAsync {
  running_ : bool;
  currentBuffer_ : option FixedBuffer;
  nextBuffer_ : option FixedBuffer;
  buffers_ : list FixedBuffer;
  newBuffer1 : option FixedBuffer;
  newBuffer2 : option FixedBuffer;
  buffersToWrite : list FixedBuffer;
  output : F;
  collected : bool;
  exited : bool
}.

(** After [start]: the back end has opened its log file. *)
Definition async_start (log : F) : AsyncLogging :=
  mkAsync true (Some (bzero new_buffer)) (Some (bzero new_buffer)) []
    (Some (bzero new_buffer)) (Some (bzero new_buffer)) [] log false false.

(** [append], under the mutex. *)
Definition async_append (a : AsyncLogging) (logline : bytes) : res AsyncLogging :=
  match currentBuffer_ a with
  | None => Err NullDereference
  | Some cur =>
      if zlen logline <? avail cur then
        cur ← LogStream.append cur logline;
        Ok (mkAsync (running_ a) (Some cur) (nextBuffer_ a) (buffers_ a) (newBuffer1 a) (newBuffer2 a)
              (buffersToWrite a) (output a) (collected a) (exited a))
      else
        let buffers := buffers_ a ++ [cur] in
        let '(cur, next) := match nextBuffer_ a with
                            | Some b => (b, None)
                            | None => (new_buffer, None)
                            end in
        cur ← LogStream.append cur logline;
        Ok (mkAsync (running_ a) (Some cur) next buffers (newBuffer1 a) (newBuffer2 a)
              (buffersToWrite a) (output a) (collected a) (exited a))
  end.

(** [stop], up to the join. *)
Definition async_stop (a : AsyncLogging) : AsyncLogging :=
  mkAsync false (currentBuffer_ a) (nextBuffer_ a) (buffers_ a) (newBuffer1 a) (newBuffer2 a)
    (buffersToWrite a) (output a) (collected a) (exited a).

Definition empty_buffer (b : option FixedBuffer) : bool :=
  match b with Some b => length_ b =? 0 | None => false end.

(** The head of the loop and the part under the mutex: leaves the loop, or
    takes the buffers. *)
Definition async_collect (a : AsyncLogging) : res AsyncLogging :=
  if running_ a then
    assert_ (empty_buffer (newBuffer1 a));;
    assert_ (empty_buffer (newBuffer2 a));;
    assert_ (bool_decide (length (buffersToWrite a) = 0%nat));;
    let buffers := buffers_ a ++ match currentBuffer_ a with Some b => [b] | None => [] end in
    let current := newBuffer1 a in
    let '(next, new2) := match nextBuffer_ a with
                         | Some b => (Some b, newBuffer2 a)
                         | None => (newBuffer2 a, None)
                         end in
    assert_ (negb (bool_decide (length buffers = 0%nat)));;
    Ok (mkAsync true current next [] None new2 buffers (output a) true (exited a))
  else
    log ← sink_flush (output a);
    Ok (mkAsync false (currentBuffer_ a) (nextBuffer_ a) (buffers_ a) (newBuffer1 a) (newBuffer2 a)
          (buffersToWrite a) log false true).

(** Appending every buffer to the file. *)
Fixpoint write_all (log : F) (envs : nat -> E) (k : nat) (bs : list FixedBuffer) : res F :=
  match bs with
  | [] => Ok log
  | b :: bs => log ← sink_append log (envs k) (toStringView b); write_all log envs (S k) bs
  end.

(** Taking the last of [buffersToWrite] for a null buffer. *)
Definition refill (b : option FixedBuffer) (bs : list FixedBuffer) :
    res (option FixedBuffer * list FixedBuffer) :=
  match b with
  | Some b => Ok (Some b, bs)
  | None =>
      assert_ (negb (bool_decide (length bs = 0%nat)));;
      match last bs with
      | Some l => Ok (Some (reset l), removelast bs)
      | None => Err EndDereference
      end
  end.

(** The rest of the loop, outside the mutex; [notice] is the message about
    dropped buffers. *)
Definition async_write (a : AsyncLogging) (envs : nat -> E) (notice : bytes) : res AsyncLogging :=
  '(log, bs) ←
    (if bool_decide (25 < length (buffersToWrite a))%nat then
       log ← sink_append (output a) (envs 0%nat) (take 255 notice);
       Ok (log, take 2 (buffersToWrite a))
     else Ok (output a, buffersToWrite a));
  log ← write_all log envs 1 bs;
  let bs := if bool_decide (2 < length bs)%nat then take 2 bs else bs in
  '(new1, bs) ← refill (newBuffer1 a) bs;
  '(new2, bs) ← refill (newBuffer2 a) bs;
  log ← sink_flush log;
  Ok (mkAsync (running_ a) (currentBuffer_ a) (nextBuffer_ a) (buffers_ a) new1 new2 [] log false
        (exited a)).

(** ** Runs *)

Inductive async_op :=
| OpAppend (logline : bytes)
| OpStop
| OpCollect
| OpWrite (envs : nat -> E) (notice : bytes).

(** The back end's steps alternate, and it does nothing after its loop. *)
Definition async_step (a : AsyncLogging) (op : async_op) : res AsyncLogging :=
  match op with
  | OpAppend logline => async_append a logline
  | OpStop => Ok (async_stop a)
  | OpCollect => if collected a || exited a then Ok a else async_collect a
  | OpWrite envs notice => if collected a then async_write a envs notice else Ok a
  end.

Fixpoint async_run (a : AsyncLogging) (ops : list async_op) : res AsyncLogging :=
  match ops with
  | [] => Ok a
  | op :: ops => a ← async_step a op; async_run a ops
  end.

Definition logged (ops : list async_op) : bytes :=
  concat (map (fun op => match op with OpAppend l => l | _ => [] end) ops).

(** ** Invariant *)

Definition views (bs : list FixedBuffer) : bytes := concat (map toStringView bs).
Definition view_opt (b : option FixedBuffer) : bytes :=
  match b with Some b => toStringView b | None => [] end.

(** Everything on its way to the file, oldest first. *)
Definition pending (a : AsyncLogging) : bytes :=
  views (buffersToWrite a) ++ views (buffers_ a) ++ view_opt (currentBuffer_ a).

Definition opt_ok (size : Z) (b : option FixedBuffer) : Prop :=
  match b with Some b => fixed_ok size b /\ length_ b = 0 | None => True end.

Record async_inv (size : Z) (acc : bytes) (a : AsyncLogging) : Prop := {
  inv_current : exists b, currentBuffer_ a = Some b /\ fixed_ok size b;
  inv_next : opt_ok size (nextBuffer_ a);
  inv_buffers : Forall (fixed_ok size) (buffers_ a);
  inv_write : Forall (fixed_ok size) (buffersToWrite a);
  inv_new1 : opt_ok size (newBuffer1 a);
  inv_new2 : opt_ok size (newBuffer2 a);
  inv_sink : sink_ok (output a);
  inv_log : sink_content (output a) ++ pending a = acc;
  (** A missing spare buffer is one that has filled up since. *)
  inv_spare : nextBuffer_ a = None -> buffers_ a <> [];
  inv_idle : collected a = false ->
    is_Some (newBuffer1 a) /\ is_Some (newBuffer2 a) /\ buffersToWrite a = [];
  inv_busy : collected a = true ->
    buffersToWrite a <> [] /\ newBuffer1 a = None /\
    (newBuffer2 a = None -> (2 <= length (buffersToWrite a))%nat)
}.

(** Lines shorter than a buffer, [fwrite]s that make progress, and fewer than
    26 buffers at a time. *)
Definition async_op_ok (size : Z) (a : AsyncLogging) (op : async_op) : Prop :=
  match op with
  | OpAppend l => zlen l < size
  | OpWrite envs _ => (length (buffersToWrite a) <= 25)%nat /\ forall k d, sink_env (envs k) d
  | _ => True
  end.

Fixpoint async_run_ok (size : Z) (a : AsyncLogging) (ops : list async_op) : Prop :=
  match ops with
  | [] => True
  | op :: ops =>
      async_op_ok size a op /\ match async_step a op with Ok a => async_run_ok size a ops | Err _ => True end
  end.
End AsyncLogging.

(** ** Lemmas *)

Arguments views bs : simpl never.

Lemma views_nil : views [] = [].
Proof. done. Qed.

Lemma views_app a b : views (a ++ b) = views a ++ views b.
Proof. unfold views. by rewrite map_app, concat_app. Qed.

Lemma views_one b : views [b] = toStringView b.
Proof. unfold views. cbn. apply app_nil_r. Qed.

Lemma view_empty b : length_ b = 0 -> toStringView b = [].
Proof. intros H. unfold toStringView. by rewrite H. Qed.

Lemma fresh_ok size m : zlen m = size -> 0 < size < 2 ^ 31 ->
  opt_ok size (Some (new_buffer m)) /\ opt_ok size (Some (bzero (new_buffer m))).
Proof.
  intros Hm Hs. split; split; try done; split; cbn; try lia.
  unfold zlen in *. by rewrite length_replicate.
Qed.

Lemma reset_ok size b : fixed_ok size b -> opt_ok size (Some (reset b)).
Proof. intros []. split; [split; cbn; lia|done]. Qed.

(** Appending to an empty buffer. *)
Lemma append_empty size b l : opt_ok size (Some b) -> zlen l < size ->
  exists b', LogStream.append b l = Ok b' /\ fixed_ok size b' /\ toStringView b' = l.
Proof.
  intros [Hb He] Hl. pose proof Hb as [_ _ Hm].
  destruct (fixed_append_ok size b l Hb ltac:(lia)) as (b' & H1 & H2 & H3). exists b'.
  split; [done|]. split; [done|]. rewrite H3, view_empty by done. change (zlen (@nil byte)) with 0.
  by replace (0 + (zlen l + 1) <=? size) with true by lia.
Qed.

Section Proofs.
Context {F E : Type} `{!Sink F E} `{!SinkLaws F E}.
Context (memory : bytes) (size : Z) (Hmem : zlen memory = size) (Hsize : 0 < size < 2 ^ 31).
Implicit Types (a : @AsyncLogging F) (acc : bytes).

Lemma async_append_ok acc a l :
  async_inv size acc a -> zlen l < size ->
  exists a', async_append memory a l = Ok a' /\ async_inv size (acc ++ l) a'.
Proof using Hmem Hsize.
  intros Hi Hl. pose proof Hi as [(cur & Hcur & Hb) Hn Hbs Hw H1 H2 Hs Hlog Hsp Hid Hbu].
  unfold async_append. rewrite Hcur. pose proof (avail_eq size cur Hb) as Hav.
  unfold pending in Hlog. rewrite Hcur in Hlog. cbn [view_opt] in Hlog.
  destruct (Z.ltb_spec (zlen l) (avail cur)) as [Hlt|Hge].
  - pose proof Hb as [_ _ Hm].
    destruct (fixed_append_ok size cur l Hb ltac:(lia)) as (cur' & -> & Hb' & Hv). cbn [mbind res_bind].
    rewrite (zlen_fixed_view size) in Hv by done.
    replace (cur_ cur + (zlen l + 1) <=? size) with true in Hv by lia.
    eexists. split; [done|]. split; cbn; try done; [by eexists|].
    unfold pending. cbn. by rewrite Hv, <- Hlog, <- !app_assoc.
  - set (p := match nextBuffer_ a with Some b => (b, None) | None => _ end).
    assert (opt_ok size (Some p.1) /\ p.2 = None) as [Hp1 Hp2].
    { unfold p. destruct (nextBuffer_ a); [done|]. split; [by apply fresh_ok|done]. }
    destruct p as [c n]. cbn in Hp1, Hp2. subst n.
    destruct (append_empty size c l Hp1 Hl) as (c' & -> & Hc' & Hv). cbn [mbind res_bind].
    eexists. split; [done|]. split; cbn; try done.
    + by eexists.
    + apply Forall_app. split; [done|]. by constructor.
    + unfold pending. cbn. rewrite Hv, views_app, views_one, <- Hlog, <- !app_assoc. done.
    + intros _ E1. by destruct (buffers_ a).
Qed.

Lemma async_collect_ok acc a :
  async_inv size acc a -> collected a = false ->
  exists a', async_collect a = Ok a' /\ async_inv size acc a'.
Proof using Type*.
  intros Hi Hc. pose proof Hi as [(cur & Hcur & Hb) Hn Hbs Hw H1 H2 Hs Hlog Hsp Hid Hbu].
  destruct (Hid Hc) as ([n1 Hn1] & [n2 Hn2] & Hw0). unfold async_collect. destruct (running_ a).
  - rewrite Hn1, Hn2, Hcur, Hw0. rewrite Hn1 in H1. rewrite Hn2 in H2.
    destruct H1 as [H1 H1']. destruct H2 as [H2 H2'].
    rewrite (assert_true (empty_buffer (Some n1))) by (unfold empty_buffer; by rewrite H1').
    rewrite (assert_true (empty_buffer (Some n2))) by (unfold empty_buffer; by rewrite H2').
    rewrite (assert_true (bool_decide _)) by done. cbn [mbind res_bind].
    set (p := match nextBuffer_ a with Some b => _ | None => _ end).
    assert (opt_ok size p.1 /\ is_Some p.1 /\ opt_ok size p.2 /\
            (p.2 = None -> nextBuffer_ a = None)) as (Hp1 & [x Hp2] & Hp3 & Hp4).
    { unfold p. destruct (nextBuffer_ a); cbn in *; by eauto. }
    destruct p as [nx nw]. cbn in Hp1, Hp2, Hp3, Hp4.
    rewrite assert_true by (by destruct (buffers_ a)). cbn [mbind res_bind].
    eexists. split; [done|]. unfold pending in Hlog. rewrite Hcur, Hw0 in Hlog. cbn [views view_opt map concat app] in Hlog.
    split; cbn; try done.
    + by eexists.
    + apply Forall_app. split; [done|]. by constructor.
    + unfold pending. cbn. rewrite view_empty, !app_nil_r, views_app, views_one by done. done.
    + rewrite Hp2. done.
    + intros _. split; [by destruct (buffers_ a)|]. split; [done|]. intros E1. specialize (Hsp (Hp4 E1)).
      rewrite length_app. cbn. destruct (buffers_ a); [done|cbn; lia].
  - destruct (sink_flush_ok (output a) Hs) as (f & -> & Hf & Hcf). cbn [mbind res_bind].
    eexists. split; [done|]. split; cbn; try done; [by eexists|]. unfold pending in *. cbn. by rewrite Hcf.
Qed.

Lemma write_all_ok envs bs : forall k (f : F),
  sink_ok f -> (forall k d, sink_env (envs k) d) ->
  exists f', write_all f envs k bs = Ok f' /\ sink_ok f' /\ sink_content f' = sink_content f ++ views bs.
Proof using Type*.
  induction bs as [|b bs IH]; intros k f Hf He; cbn [write_all].
  - exists f. unfold views. cbn. by rewrite app_nil_r.
  - destruct (sink_append_ok f (envs k) (toStringView b) Hf (He _ _)) as (f1 & -> & Hf1 & Hc1).
    cbn [mbind res_bind]. destruct (IH (S k) f1 Hf1 He) as (f' & ? & ? & Hc). exists f'.
    split; [done|]. split; [done|]. by rewrite Hc, Hc1, <- app_assoc.
Qed.

Lemma refill_ok b bs :
  opt_ok size b -> Forall (fixed_ok size) bs -> (b = None -> bs <> []) ->
  exists b' bs', refill b bs = Ok (Some b', bs') /\ opt_ok size (Some b') /\ Forall (fixed_ok size) bs' /\
    (length bs <= length bs' + match b with Some _ => 0 | None => 1 end)%nat.
Proof using Type*.
  intros Hb Hbs Hne. destruct b as [b|]; cbn [refill].
  - exists b, bs. split; [done|]. split; [done|]. split; [done|lia].
  - specialize (Hne eq_refl). destruct bs as [|l bs _] using rev_ind; [done|].
    rewrite assert_true by (rewrite length_app; cbn; by rewrite Nat.add_comm). cbn [mbind res_bind].
    rewrite last_snoc, removelast_last. apply Forall_app in Hbs as [Hbs Hl]. inversion Hl; subst.
    do 2 eexists. split; [done|]. split; [by apply reset_ok|]. split; [done|].
    rewrite length_app. cbn. lia.
Qed.

Lemma async_write_ok acc a envs notice :
  async_inv size acc a -> collected a = true -> async_op_ok size a (OpWrite envs notice) ->
  exists a', async_write a envs notice = Ok a' /\ async_inv size acc a'.
Proof using Type*.
  intros Hi Hc [Hlen Henv]. pose proof Hi as [(cur & Hcur & Hb) Hn Hbs Hw H1 H2 Hs Hlog Hsp Hid Hbu].
  destruct (Hbu Hc) as (Hne & Hn1 & Hn2). unfold async_write.
  rewrite (bool_decide_false (25 < _)%nat) by lia. cbn [mbind res_bind].
  destruct (write_all_ok envs (buffersToWrite a) 1 (output a) Hs Henv) as (f1 & -> & Hf1 & Hc1).
  cbn [mbind res_bind]. set (bs := if bool_decide _ then _ else _).
  assert (Forall (fixed_ok size) bs /\ bs <> [] /\ (newBuffer2 a = None -> (2 <= length bs)%nat))
    as (Hbs1 & Hbs2 & Hbs3).
  { unfold bs. case_bool_decide as Ht; [|done]. split; [by apply Forall_take|].
    destruct (buffersToWrite a) as [|x [|y l]]; [done|cbn in Ht; lia|]. by cbn. }
  rewrite Hn1. destruct (refill_ok None bs) as (b1 & bs1 & -> & Hb1 & Hbs1' & Hl1); [done|done|done|].
  cbn [mbind res_bind].
  destruct (refill_ok (newBuffer2 a) bs1) as (b2 & bs2 & -> & Hb2 & _ & _); [done|done| |].
  { intros E1. specialize (Hbs3 E1). destruct bs1; [cbn in Hl1; lia|done]. }
  cbn [mbind res_bind]. destruct (sink_flush_ok f1 Hf1) as (f & -> & Hf & Hcf). cbn [mbind res_bind].
  eexists. split; [done|]. split; cbn; try done; [by eexists|].
  unfold pending in *. cbn. rewrite Hcf, Hc1, <- Hlog, <- !app_assoc. done.
Qed.

Lemma async_step_ok acc a op :
  async_inv size acc a -> async_op_ok size a op ->
  exists a', async_step memory a op = Ok a' /\
    async_inv size (acc ++ match op with OpAppend l => l | _ => [] end) a'.
Proof using Type*.
  intros Hi Hok. destruct op as [l| | |envs notice]; cbn [async_step]; rewrite ?app_nil_r.
  - by apply async_append_ok.
  - eexists. split; [done|]. by destruct Hi.
  - destruct (collected a) eqn:Hc; [eauto|]. destruct (exited a); [eauto|]. by apply async_collect_ok.
  - destruct (collected a) eqn:Hc; [|eauto]. by apply async_write_ok.
Qed.

Lemma async_run_inv ops : forall acc a,
  async_inv size acc a -> async_run_ok memory size a ops ->
  exists a', async_run memory a ops = Ok a' /\ async_inv size (acc ++ logged ops) a'.
Proof using Type*.
  induction ops as [|op ops IH]; intros acc a Hi Hok; cbn [async_run].
  - exists a. unfold logged. cbn. by rewrite app_nil_r.
  - destruct Hok as [Hop Hok]. destruct (async_step_ok acc a op Hi Hop) as (a1 & E1 & Hi1).
    rewrite E1 in *. cbn [mbind res_bind]. unfold logged. cbn [map concat]. rewrite app_assoc. by apply IH.
Qed.

(** What appending and writing leave alone. *)
Lemma async_append_frame acc a l a' :
  async_inv size acc a -> zlen l < size -> async_append memory a l = Ok a' ->
  collected a' = collected a /\ exited a' = exited a /\ buffersToWrite a' = buffersToWrite a /\
  exists rest, views (buffers_ a') ++ view_opt (currentBuffer_ a') = rest ++ l.
Proof using Hmem Hsize.
  intros Hi Hl. pose proof Hi as [(cur & Hcur & Hb) Hn _ _ _ _ _ _ _ _ _].
  unfold async_append. rewrite Hcur. pose proof (avail_eq size cur Hb) as Hav. pose proof Hb as [_ _ Hm].
  destruct (Z.ltb_spec (zlen l) (avail cur)) as [Hlt|Hge].
  - destruct (fixed_append_ok size cur l Hb ltac:(lia)) as (cur' & -> & Hb' & Hv). cbn [mbind res_bind].
    rewrite (zlen_fixed_view size) in Hv by done.
    replace (cur_ cur + (zlen l + 1) <=? size) with true in Hv by lia.
    intros [= <-]. cbn. do 3 (split; [done|]). rewrite Hv, app_assoc. by eexists.
  - set (p := match nextBuffer_ a with Some b => (b, None) | None => _ end).
    assert (opt_ok size (Some p.1)) as Hp1.
    { unfold p. destruct (nextBuffer_ a); [done|]. by apply fresh_ok. }
    destruct p as [c n]. cbn in Hp1.
    destruct (append_empty size c l Hp1 Hl) as (c' & -> & Hc' & Hv). cbn [mbind res_bind].
    intros [= <-]. cbn. do 3 (split; [done|]). rewrite Hv. by eexists.
Qed.

Lemma async_write_frame a envs notice a' :
  async_write a envs notice = Ok a' ->
  running_ a' = running_ a /\ exited a' = exited a /\ collected a' = false /\ buffersToWrite a' = [] /\
  buffers_ a' = buffers_ a /\ currentBuffer_ a' = currentBuffer_ a.
Proof using Type.
  clear Hmem Hsize. intros E2. unfold async_write in E2. apply bind_ok_inv in E2 as ([f bs] & _ & E2). inv_res.
  do 2 (match goal with p : _ * _ |- _ => destruct p end; inv_res). done.
Qed.

(** A round of the back end empties the queue. *)
Lemma round_drains acc a envs notice :
  async_inv size acc a -> collected a = false -> exited a = false -> running_ a = true ->
  (length (buffers_ a) <= 24)%nat -> (forall k d, sink_env (envs k) d) ->
  exists a', async_run memory a [OpCollect; OpWrite envs notice] = Ok a' /\ sink_content (output a') = acc.
Proof using Type*.
  intros Hi Hc He Hr Hlen Henv. cbn [async_run async_step]. rewrite Hc, He. cbn [orb].
  destruct (async_collect_ok acc a Hi Hc) as (a1 & E1 & Hi1). rewrite E1. cbn [mbind res_bind].
  assert (collected a1 = true /\ currentBuffer_ a1 = newBuffer1 a /\ buffers_ a1 = [] /\
          (length (buffersToWrite a1) <= 25)%nat) as (Hc1 & Hcur1 & Hb1 & Hl1).
  { revert E1. unfold async_collect. rewrite Hr. destruct (inv_current _ _ _ Hi) as (cur & Hcur & _).
    destruct (nextBuffer_ a); intros E1; inv_res; cbn; rewrite Hcur, length_app; cbn;
      repeat (split; [done|]); lia. }
  rewrite Hc1. destruct (async_write_ok acc a1 envs notice Hi1 Hc1) as (a2 & E2 & Hi2); [by split|].
  rewrite E2. cbn [mbind res_bind]. exists a2. split; [done|].
  assert (pending a2 = []) as Hp.
  { destruct (async_write_frame _ _ _ _ E2) as (_ & _ & _ & Hw2 & Hb2 & Hcur2).
    unfold pending. rewrite Hw2, Hb2, Hcur2, Hb1, Hcur1. destruct (inv_idle _ _ _ Hi Hc) as ([n Hn] & _ & _).
    pose proof (inv_new1 _ _ _ Hi) as Hno. rewrite Hn in Hno |- *. destruct Hno as [_ Hz].
    cbn. by rewrite view_empty. }
  pose proof (inv_log _ _ _ Hi2) as Hl. by rewrite Hp, app_nil_r in Hl.
Qed.

Lemma async_start_inv log : sink_ok log -> async_inv size (sink_content log) (async_start memory log).
Proof using Hmem Hsize.
  intros Hl. destruct (fresh_ok size memory Hmem Hsize) as [_ [Hb Hz]].
  split; cbn; try done.
  - by eexists.
  - unfold pending. cbn. rewrite view_empty by done. by rewrite app_nil_r.
Qed.
End Proofs.

(** ** Properties *)

(** In every interleaving of appends by any threads with the steps of the
    back end, no assertion fails, no null buffer is used, and the file holds,
    followed by the bytes on their way to it, exactly the lines appended, in
    order; while the back end runs, one more round of it writes everything.
    Lines are shorter than a buffer and there are at most 25 buffers at once. *)
Theorem async_no_loss {F E} `{!Sink F E} `{!SinkLaws F E} memory (log : F) ops :
  0 < zlen memory < 2 ^ 31 -> sink_ok log -> async_run_ok memory (zlen memory) (async_start memory log) ops ->
  exists a, async_run memory (async_start memory log) ops = Ok a /\
    sink_content (output a) ++ pending a = sink_content log ++ logged ops /\
    forall envs notice,
      collected a = false -> exited a = false -> running_ a = true -> (length (buffers_ a) <= 24)%nat ->
      (forall k d, sink_env (envs k) d) ->
      exists a', async_run memory a [OpCollect; OpWrite envs notice] = Ok a' /\
        sink_content (output a') = sink_content log ++ logged ops.
Proof.
  intros Hm Hl Hok.
  destruct (async_run_inv memory (zlen memory) eq_refl Hm ops (sink_content log) (async_start memory log))
    as (a & E1 & Hi); [by apply async_start_inv|done|].
  exists a. split; [done|]. split; [apply Hi|]. intros envs notice Hc He Hr Hlen Henv.
  by apply (round_drains memory (zlen memory)).
Qed.

(** A line appended while the back end writes, before [stop], is never
    written: the thread leaves its loop without looking at the buffers again. *)
Theorem stop_loses_tail {F E} `{!Sink F E} `{!SinkLaws F E} memory acc (a : @AsyncLogging F) l envs notice :
  0 < zlen memory < 2 ^ 31 -> async_inv (zlen memory) acc a -> collected a = true -> zlen l < zlen memory ->
  (length (buffersToWrite a) <= 25)%nat -> (forall k d, sink_env (envs k) d) ->
  exists a', async_run memory a [OpAppend l; OpStop; OpWrite envs notice; OpCollect] = Ok a' /\
    exited a' = true /\ sink_content (output a') ++ pending a' = acc ++ l /\
    (exists rest, pending a' = rest ++ l) /\
    async_step memory a' OpCollect = Ok a' /\ async_step memory a' (OpWrite envs notice) = Ok a'.
Proof.
  intros Hm Hi Hc Hl Hlen Henv. cbn [async_run async_step].
  destruct (async_append_ok memory (zlen memory) eq_refl Hm acc a l Hi Hl) as (a1 & E1 & Hi1).
  destruct (async_append_frame memory (zlen memory) eq_refl Hm acc a l a1 Hi Hl E1) as (Hc1 & _ & Hw1 & rest & Hrest).
  rewrite E1. cbn [mbind res_bind]. set (a2 := async_stop a1).
  assert (async_inv (zlen memory) (acc ++ l) a2) as Hi2 by (by destruct Hi1).
  change (collected a2) with (collected a1). rewrite Hc1, Hc.
  destruct (async_write_ok memory (zlen memory) eq_refl Hm (acc ++ l) a2 envs notice Hi2) as (a3 & E3 & Hi3);
    [by rewrite <- Hc, <- Hc1 | by cbn; rewrite Hw1 |].
  rewrite E3. cbn [mbind res_bind].
  destruct (async_write_frame _ _ _ _ E3) as (Hr3 & He3 & Hc3 & Hw3 & Hb3 & Hcur3).
  rewrite Hc3. cbn [orb].
  assert (exists a', (if exited a3 then Ok a3 else async_collect a3) = Ok a' /\ exited a' = true /\
            collected a' = false /\ sink_content (output a') = sink_content (output a3) /\
            pending a' = pending a3) as (a' & E4 & He4 & Hc4 & Hs4 & Hp4).
  { destruct (exited a3) eqn:He; [by exists a3|]. unfold async_collect. rewrite Hr3. cbn [a2 async_stop running_].
    destruct (sink_flush_ok (output a3) (inv_sink _ _ _ Hi3)) as (f & -> & _ & Hcf). cbn [mbind res_bind].
    eexists. split; [done|]. by rewrite <- Hc3. }
  exists a'. rewrite E4. cbn [mbind res_bind]. split; [done|]. split; [done|].
  rewrite Hs4, Hp4, Hc4, He4, orb_true_r. split; [apply Hi3|]. split; [|done].
  exists rest. unfold pending. rewrite Hw3, Hb3, Hcur3. exact Hrest.
Qed.

(** ** Witnesses: eight-byte buffers into a log file *)

Definition demo_log : LogFile :=
  match LogFile_ctor log_env (lit "log") 1000 3 1024 1 with
  | Ok l => l
  | Err _ => mkLogFile [] 0 0 0 0 0 0 0 None []
  end.

Definition demo_env : nat -> append_env := fun _ => mkEnv (fun _ => 5) 2 2.

Definition demo_memory : bytes := replicate 8 x00.

(** Lines logged before, between and while the back end collects and writes. *)
Definition demo_log_ops : list (@async_op append_env) :=
  [OpAppend (lit "aaaaa"); OpAppend (lit "bbbbb"); OpCollect; OpAppend (lit "ccccc");
   OpWrite demo_env []; OpAppend (lit "ddddd"); OpAppend (lit "e")].

#[local] Existing Instance LogFile_sink_laws.
#[local] Instance demo_sink : Sink LogFile append_env := LogFile_sink log_env.
#[local] Instance demo_laws : SinkLaws LogFile append_env := LogFile_sink_laws log_env.

Lemma demo_env_ok : forall (k : nat) (d : bytes), sink_env (demo_env k) d.
Proof. intros k d j. cbn. lia. Qed.

Lemma run_ok_step a op ops a1 :
  async_op_ok 8 a op -> async_step demo_memory a op = Ok a1 -> async_run_ok demo_memory 8 a1 ops ->
  async_run_ok demo_memory 8 a (op :: ops).
Proof. intros H1 H2 H3. split; [done|]. by rewrite H2. Qed.

Lemma demo_run_ok : async_run_ok demo_memory 8 (async_start demo_memory demo_log) demo_log_ops.
Proof.
  unfold demo_log_ops.
  do 7 (eapply run_ok_step;
        [first [exact I | exact eq_refl | split; [apply Nat.leb_le; vm_compute; reflexivity | exact demo_env_ok]]
        | vm_compute; reflexivity |]).
  exact I.
Qed.

Lemma async_no_loss_witness :
  exists a, async_run demo_memory (async_start demo_memory demo_log) demo_log_ops = Ok a /\
    sink_content (output a) ++ pending a = sink_content demo_log ++ logged demo_log_ops /\
    forall envs notice,
      collected a = false -> exited a = false -> running_ a = true -> (length (buffers_ a) <= 24)%nat ->
      (forall k d, sink_env (envs k) d) ->
      exists a', async_run demo_memory a [OpCollect; OpWrite envs notice] = Ok a' /\
        sink_content (output a') = sink_content demo_log ++ logged demo_log_ops.
Proof.
  apply (async_no_loss demo_memory demo_log demo_log_ops);
    [by vm_compute | by eexists | exact demo_run_ok].
Defined.

(** The back end between collecting and writing. *)
Definition demo_busy : AsyncLogging :=
  match async_run demo_memory (async_start demo_memory demo_log)
          [OpAppend (lit "aaaaa"); OpCollect] with
  | Ok a => a
  | Err _ => async_start demo_memory demo_log
  end.

Lemma demo_busy_inv : async_inv 8 (lit "aaaaa") demo_busy.
Proof.
  destruct (async_run_inv demo_memory 8 eq_refl ltac:(done) [OpAppend (lit "aaaaa"); OpCollect]
    (sink_content demo_log) (async_start demo_memory demo_log)) as (a & E & Hi).
  - apply async_start_inv; [done..|by eexists].
  - repeat split; by vm_compute.
  - unfold demo_busy. rewrite E. exact Hi.
Qed.

Lemma stop_loses_tail_witness :
  exists a', async_run demo_memory demo_busy
      [OpAppend (lit "late"); OpStop; OpWrite demo_env []; OpCollect] = Ok a' /\
    exited a' = true /\ sink_content (output a') ++ pending a' = lit "aaaaa" ++ lit "late" /\
    (exists rest, pending a' = rest ++ lit "late") /\
    async_step demo_memory a' OpCollect = Ok a' /\ async_step demo_memory a' (OpWrite demo_env []) = Ok a'.
Proof.
  apply (stop_loses_tail demo_memory (lit "aaaaa") demo_busy (lit "late") demo_env []);
    [by vm_compute | exact demo_busy_inv | by vm_compute | by vm_compute |
     change (1 <= 25)%nat; lia | exact demo_env_ok].
Defined.
