(* ===== verification/CurrentThread.v ===== *)
(** * The current thread: tmuduo/base/CurrentThread.h and CurrentThread.cc

    The cached id of a thread, the time [sleepUSec] asks for, and the text of
    [stackTrace].  The texts of [backtrace_symbols] and what [__cxa_demangle]
    makes of a name are arguments. *)

From S2P Require Import Prelude Format Timestamp.

(** ** Thread-local variables

    Those of CurrentThread.cc, and the two that Logging.cc adds. *)

Record thread_locals := mkLocals {
  t_cachedTid : Z;
  t_tidString : bytes;
  t_tidStringLength : Z;
  t_time : bytes;
  t_lastSecond : Z
}.

Definition locals_start : thread_locals := mkLocals 0 [] 6 [] 0.

(** [gettid] is what the system call returns in this thread. *)
Definition cacheTid (gettid : Z) (t : thread_locals) : thread_locals :=
  if t_cachedTid t =? 0 then
    let s := print_wd 6 gettid ++ lit " " in
    mkLocals gettid (snprintf 32 s) (zlen s) (t_time t) (t_lastSecond t)
  else t.

Definition tid (gettid : Z) (t : thread_locals) : Z * thread_locals :=
  let t := if t_cachedTid t =? 0 then cacheTid gettid t else t in (t_cachedTid t, t).

Definition isMainThread (gettid getpid : Z) (t : thread_locals) : bool * thread_locals :=
  let '(id, t) := tid gettid t in (id =? getpid, t).

(** The [timespec] given to [nanosleep]: [*] binds tighter than [&]. *)
Definition sleepUSec (usec : Z) : Z * Z :=
  (Z.quot usec kMicroSecondsPerSecond, Z.land usec (kMicroSecondsPerSecond * 1000)).

(** ** stackTrace *)

Section StackTrace.
(** The demangled name, when the status is 0. *)
Context (cxa_demangle : bytes -> option bytes).

(** The last left parenthesis and the last plus of a frame. *)
Fixpoint scan_frame (i : Z) (left_par plus : option Z) (p : bytes) : option Z * option Z :=
  match p with
  | [] => (left_par, plus)
  | c :: p =>
      if decide (c = x28) then scan_frame (i + 1) (Some i) plus p
      else if decide (c = x2b) then scan_frame (i + 1) left_par (Some i) p
      else scan_frame (i + 1) left_par plus p
  end.

(** The string that starts after the parenthesis while the plus is a null
    character; a plus before it does not end it. *)
Definition mangled_name (frame : bytes) (left_par plus : Z) : bytes :=
  let name := drop (Z.to_nat (left_par + 1)) frame in
  if left_par <? plus then take (Z.to_nat (plus - (left_par + 1))) name else name.

Definition frame_line (demangle : bool) (frame : bytes) : bytes :=
  let fallback := frame ++ [x0a] in
  if demangle then
    match scan_frame 0 None None frame with
    | (Some left_par, Some plus) =>
        match cxa_demangle (mangled_name frame left_par plus) with
        | Some demangled =>
            take (Z.to_nat (left_par + 1)) frame ++ demangled ++ drop (Z.to_nat plus) frame ++ [x0a]
        | None => fallback
        end
    | _ => fallback
    end
  else fallback.

(** [strings] is what [backtrace_symbols] returns, null when it cannot
    allocate; the first frame is that of [stackTrace] itself. *)
Definition stackTrace (demangle : bool) (strings : option (list bytes)) : bytes :=
  match strings with
  | Some frames => concat (map (frame_line demangle) (drop 1 frames))
  | None => []
  end.

(** *** The frames of a trace

    A frame names a module, a mangled name and an offset with an address; the
    scan finds the name between the last parenthesis and the last plus. *)

Record symbol := mkSymbol { module_ : bytes; mangled : bytes; offset : bytes }.

Definition symbol_frame (y : symbol) : bytes := module_ y ++ [x28] ++ mangled y ++ [x2b] ++ offset y.
Definition symbol_ok (y : symbol) : Prop := x28 ∉ (mangled y ++ offset y) /\ x2b ∉ offset y.

(** The name a reader wants to see, if there is one. *)
Definition symbol_name (y : symbol) : bytes := default (mangled y) (cxa_demangle (mangled y)).

Lemma scan_frame_skip p : forall i left plus s,
  x28 ∉ p -> x2b ∉ p -> scan_frame i left plus (p ++ s) = scan_frame (i + zlen p) left plus s.
Proof.
  induction p as [|c p IH]; intros i left plus s H1 H2; [cbn; by rewrite Z.add_0_r|].
  apply not_elem_of_cons in H1 as [N1 H1], H2 as [N2 H2]. cbn [app scan_frame].
  rewrite !decide_False by congruence. rewrite IH by done. rewrite zlen_cons. f_equal; lia.
Qed.

Lemma scan_frame_left p : forall i left plus s,
  exists left' plus', scan_frame i left plus (p ++ s) = scan_frame (i + zlen p) left' plus' s.
Proof.
  induction p as [|c p IH]; intros i left plus s; [exists left, plus; cbn; by rewrite Z.add_0_r|].
  cbn [app scan_frame]. rewrite zlen_cons. replace (i + (1 + zlen p)) with (i + 1 + zlen p) by lia.
  destruct (decide _); [apply IH|]. destruct (decide _); apply IH.
Qed.

(** Pluses in the name (an operator) do not move the last one. *)
Lemma scan_frame_name p : forall i left plus s,
  x28 ∉ p -> exists plus', scan_frame i left plus (p ++ s) = scan_frame (i + zlen p) left plus' s.
Proof.
  induction p as [|c p IH]; intros i left plus s Hp; [exists plus; cbn; by rewrite Z.add_0_r|].
  apply not_elem_of_cons in Hp as [N Hp]. cbn [app scan_frame]. rewrite decide_False by congruence.
  rewrite zlen_cons. replace (i + (1 + zlen p)) with (i + 1 + zlen p) by lia.
  destruct (decide _); by apply IH.
Qed.

Lemma scan_symbol y :
  symbol_ok y ->
  scan_frame 0 None None (symbol_frame y) =
    (Some (zlen (module_ y)), Some (zlen (module_ y) + 1 + zlen (mangled y))).
Proof.
  intros [Hp Ho]. apply not_elem_of_app in Hp as [Hm Hp]. unfold symbol_frame.
  destruct (scan_frame_left (module_ y) 0 None None ([x28] ++ mangled y ++ [x2b] ++ offset y)) as (l & p & ->).
  cbn [app scan_frame]. rewrite decide_True by done.
  destruct (scan_frame_name (mangled y) (0 + zlen (module_ y) + 1) (Some (0 + zlen (module_ y))) p
    (x2b :: offset y) Hm) as [p' ->].
  cbn [scan_frame]. rewrite decide_False, decide_True by done.
  rewrite <- (app_nil_r (offset y)), scan_frame_skip by done. done.
Qed.

Lemma frame_line_symbol y :
  symbol_ok y ->
  frame_line true (symbol_frame y) =
    module_ y ++ [x28] ++ symbol_name y ++ [x2b] ++ offset y ++ [x0a].
Proof.
  intros Hy. unfold frame_line. rewrite scan_symbol by done. pose proof (zlen_nonneg (module_ y)).
  pose proof (zlen_nonneg (mangled y)).
  assert (symbol_frame y = (module_ y ++ [x28]) ++ mangled y ++ [x2b] ++ offset y) as E1
    by (unfold symbol_frame; by rewrite <- app_assoc).
  assert (symbol_frame y = (module_ y ++ [x28] ++ mangled y) ++ [x2b] ++ offset y) as E2
    by (unfold symbol_frame; by rewrite <- !app_assoc).
  assert (mangled_name (symbol_frame y) (zlen (module_ y)) (zlen (module_ y) + 1 + zlen (mangled y)) = mangled y)
    as ->.
  { unfold mangled_name. replace (_ <? _) with true by lia.
    rewrite E1, drop_zlen by (rewrite zlen_app; done). replace (_ - _) with (zlen (mangled y)) by lia. apply take_zlen. }
  unfold symbol_name. destruct (cxa_demangle (mangled y)) as [d|]; cbn [default].
  - rewrite E1 at 1. rewrite E2.
    replace (zlen (module_ y) + 1) with (zlen (module_ y ++ [x28])) by (by rewrite zlen_app).
    rewrite take_zlen. rewrite zlen_app. rewrite drop_zlen by (rewrite !zlen_app; change (zlen [x28]) with 1; lia).
    by rewrite <- !app_assoc.
  - unfold symbol_frame. by rewrite <- !app_assoc.
Qed.

(** The trace has a line for every frame but the first, with the demangled name
    where there is one and the frame as it is otherwise. *)
Theorem stackTrace_symbols self ys :
  Forall symbol_ok ys ->
  stackTrace true (Some (self :: map symbol_frame ys)) =
    concat (map (fun y => module_ y ++ [x28] ++ symbol_name y ++ [x2b] ++ offset y ++ [x0a]) ys).
Proof.
  intros Hy. cbn [stackTrace drop]. rewrite drop_0, map_map. f_equal.
  apply map_ext_Forall. eapply Forall_impl; [done|]. apply frame_line_symbol.
Qed.

(** Without demangling the lines are the frames. *)
Lemma stackTrace_plain frames :
  stackTrace false (Some frames) = concat (map (fun frame => frame ++ [x0a]) (drop 1 frames)).
Proof. done. Qed.

End StackTrace.

(** ** The sleep that is asked for

    The mask keeps some bits of the microseconds and takes them for
    nanoseconds: less than a thousandth of the time. *)
Lemma land_le a b : 0 <= a -> Z.land a b <= a.
Proof.
  intros Ha. apply Z.ldiff_le; [done|]. apply Z.bits_inj'. intros n Hn.
  rewrite Z.ldiff_spec, Z.land_spec, Z.bits_0. by destruct (Z.testbit a n), (Z.testbit b n).
Qed.

Lemma sleepUSec_short usec : 0 <= usec < kMicroSecondsPerSecond ->
  exists tv_nsec, sleepUSec usec = (0, tv_nsec) /\ 0 <= tv_nsec <= usec.
Proof.
  intros H. eexists. unfold sleepUSec. split; [f_equal; by apply Z.quot_small|].
  split; [apply Z.land_nonneg; left; lia|]. apply land_le. lia.
Qed.

(** ** Witness *)

Definition demo_demangle (name : bytes) : option bytes :=
  if bool_decide (name = lit "_ZN3Bar4testEv") then Some (lit "Bar::test()") else None.

Definition demo_symbols : list symbol :=
  [mkSymbol (lit "bin/exception_test") (lit "_ZN3Bar4testEv") (lit "0x79) [0x401909]");
   mkSymbol (lit "bin/exception_test") [] (lit "0x10) [0x401000]")].

Lemma stackTrace_symbols_witness :
  stackTrace demo_demangle true (Some (lit "stackTrace" :: map symbol_frame demo_symbols)) =
    concat (map (fun y => module_ y ++ [x28] ++ symbol_name demo_demangle y ++ [x2b] ++ offset y ++ [x0a])
              demo_symbols).
Proof.
  apply stackTrace_symbols. repeat constructor; decide_now.
Defined.

Example stackTrace_example :
  stackTrace demo_demangle true (Some (lit "stackTrace" :: map symbol_frame demo_symbols)) =
    lit "bin/exception_test(Bar::test()+0x79) [0x401909]" ++ [x0a] ++
    lit "bin/exception_test(+0x10) [0x401000]" ++ [x0a].
Proof. vm_compute. reflexivity. Qed.
