(* ===== verification/Logging.v ===== *)
(** * Log records: tmuduo/base/Logging.h/.cc

    What a [LOG_*] statement does: the level test of the macro, the prefix
    that the constructor of [Logger::Impl] streams (time, thread, level,
    error), the operators of the statement, the suffix of [finish], and the
    output and the abort of the destructor.  The thread-local variables, which
    cache the thread's id and the text of the last second, are a state that the
    statements of a thread pass on.  [localtime_r], [strerror_r] and the [%.12g]
    conversion are parameters. *)

From S2P Require Import Prelude Format Timestamp LogStream.
From S2P Require Export CurrentThread.

(** ** Logger::SourceFile *)

Definition strrchr (s : bytes) (c : byte) : option Z :=
  let k := find_byte c (reverse s) in if k =? zlen s then None else Some (zlen s - 1 - k).

Record SourceFile := mkSourceFile { sf_data_ : bytes; sf_size_ : Z }.

Definition SourceFile_ctor (arr : bytes) : SourceFile :=
  match strrchr arr x2f with
  | Some slash => mkSourceFile (drop (Z.to_nat (slash + 1)) arr) (zlen arr - (slash + 1))
  | None => mkSourceFile arr (zlen arr)
  end.

(** ** Levels *)

Inductive LogLevel := TRACE | DEBUG | INFO | WARN | ERROR | FATAL.

#[global] Instance LogLevel_eq_dec : EqDecision LogLevel.
Proof. solve_decision. Defined.

Definition level_num (l : LogLevel) : Z :=
  match l with TRACE => 0 | DEBUG => 1 | INFO => 2 | WARN => 3 | ERROR => 4 | FATAL => 5 end.

Definition LogLevelName (l : LogLevel) : bytes :=
  match l with
  | TRACE => lit "TRACE " | DEBUG => lit "DEBUG " | INFO => lit "INFO  "
  | WARN => lit "WARN  " | ERROR => lit "ERROR " | FATAL => lit "FATAL "
  end.

(** Whether the two environment variables are set. *)
Definition initLogLevel (log_trace log_debug : bool) : LogLevel :=
  if log_trace then TRACE else if log_debug then DEBUG else INFO.

Section Logger.

Context {double : Type} (format_g12 : double -> bytes).
Context (localtime : Z -> tm) (strerror : Z -> bytes).

Abbreviation log_op := (log_op (double := double)).
Abbreviation stream_put := (put format_g12).

(** [T]: a string with a length that must be its own. *)
Definition put_T (s : FixedBuffer) (str : bytes) (len : Z) : res FixedBuffer :=
  assert_ (zlen str =? len);;
  append s str.

Definition put_SourceFile (s : FixedBuffer) (v : SourceFile) : res FixedBuffer :=
  append s (take (Z.to_nat (sf_size_ v)) (sf_data_ v)).

(** ** Logger::Impl *)

Record Impl := mkImpl {
  time_ : Timestamp;
  stream_ : FixedBuffer;
  level_ : LogLevel;
  line_ : Z;
  basename_ : SourceFile
}.

Definition set_stream (i : Impl) (s : FixedBuffer) : Impl :=
  mkImpl (time_ i) s (level_ i) (line_ i) (basename_ i).

Definition second_text (seconds : Z) : bytes :=
  let tm_time := localtime seconds in
  print_wd 4 (tm_year tm_time + 1900) ++ print_0d 2 (tm_mon tm_time + 1) ++
  print_0d 2 (tm_mday tm_time) ++ lit " " ++ print_0d 2 (tm_hour tm_time) ++ lit ":" ++
  print_0d 2 (tm_min tm_time) ++ lit ":" ++ print_0d 2 (tm_sec tm_time).

Definition formatTime (i : Impl) (t : thread_locals) : res (Impl * thread_locals) :=
  let seconds := Z.quot (time_ i) kMicroSecondsPerSecond in
  let microseconds := Z.rem (time_ i) kMicroSecondsPerSecond in
  t ← (if negb (seconds =? t_lastSecond t) then
         let text := second_text seconds in
         assert_ (zlen text =? 17);;
         Ok (mkLocals (t_cachedTid t) (t_tidString t) (t_tidStringLength t) (snprintf 64 text) seconds)
       else Ok t);
  s ← put_T (stream_ i) (t_time t) 17;
  data ← Fmt_ctor (lit "." ++ print_0d 6 microseconds ++ lit " ");
  s ← put_T s data 8;
  Ok (set_stream i s, t).

Definition Impl_ctor (now : Timestamp) (memory : bytes) (gettid : Z)
    (level : LogLevel) (savedErrno : Z) (file : SourceFile) (line : Z) (t : thread_locals)
    : res (Impl * thread_locals) :=
  '(i, t) ← formatTime (mkImpl now (FixedBuffer_ctor memory) level line file) t;
  let '(_, t) := tid gettid t in
  s ← put_T (stream_ i) (t_tidString t) (t_tidStringLength t);
  s ← put_T s (LogLevelName level) 6;
  s ← (if negb (savedErrno =? 0) then
         s ← stream_put s (LCStr (Some (strerror savedErrno)));
         s ← stream_put s (LCStr (Some (lit " (errno=")));
         s ← stream_put s (LInt savedErrno);
         stream_put s (LCStr (Some (lit ")")))
       else Ok s);
  Ok (set_stream i s, t).

Definition finish (i : Impl) : res Impl :=
  s ← stream_put (stream_ i) (LCStr (Some (lit " - ")));
  s ← put_SourceFile s (basename_ i);
  s ← stream_put s (LChar COLON);
  s ← stream_put s (LInt (line_ i));
  s ← stream_put s (LChar LF);
  Ok (set_stream i s).

(** ** Logger *)

(** The five constructors. *)
Inductive Logger_ctor :=
| LoggerInfo
| LoggerFunc (level : LogLevel) (func : bytes)
| LoggerLevel (level : LogLevel)
| LoggerErrno (toAbort : bool)
| LoggerBacktrace (level : LogLevel) (func backtrace : bytes).

Definition ctor_level (c : Logger_ctor) : LogLevel :=
  match c with
  | LoggerInfo => INFO
  | LoggerFunc l _ | LoggerLevel l | LoggerBacktrace l _ _ => l
  | LoggerErrno toAbort => if toAbort then FATAL else ERROR
  end.

Definition ctor_errno (c : Logger_ctor) (errno : Z) : Z :=
  match c with LoggerErrno _ => errno | _ => 0 end.

Definition Logger_start (c : Logger_ctor) (file : SourceFile) (line errno : Z)
    (now : Timestamp) (memory : bytes) (gettid : Z) (t : thread_locals)
    : res (Impl * thread_locals) :=
  '(i, t) ← Impl_ctor now memory gettid (ctor_level c) (ctor_errno c errno) file line t;
  s ← match c with
      | LoggerFunc _ func =>
          s ← stream_put (stream_ i) (LCStr (Some func)); stream_put s (LChar SP)
      | LoggerBacktrace _ func backtrace =>
          s ← stream_put (stream_ i) (LCStr (Some func)); s ← stream_put s (LChar SP);
          s ← stream_put s (LString backtrace); stream_put s (LChar SP)
      | _ => Ok (stream_ i)
      end;
  Ok (set_stream i s, t).

(** The record given to [g_output], and whether the process aborts. *)
Definition Logger_dtor (i : Impl) : res (bytes * bool) :=
  i ← finish i;
  Ok (toStringView (stream_ i), bool_decide (level_ i = FATAL)).

(** ** The macros *)

Inductive macro :=
| LOG_TRACE | LOG_DEBUG | LOG_INFO | LOG_WARN | LOG_ERROR | LOG_FATAL | LOG_SYSERR | LOG_SYSFATAL.

Definition macro_ctor (m : macro) (func : bytes) : Logger_ctor :=
  match m with
  | LOG_TRACE => LoggerFunc TRACE func
  | LOG_DEBUG => LoggerFunc DEBUG func
  | LOG_INFO => LoggerInfo
  | LOG_WARN => LoggerLevel WARN
  | LOG_ERROR => LoggerLevel ERROR
  | LOG_FATAL => LoggerLevel FATAL
  | LOG_SYSERR => LoggerErrno false
  | LOG_SYSFATAL => LoggerErrno true
  end.

Definition macro_enabled (g_logLevel : LogLevel) (m : macro) : bool :=
  match m with
  | LOG_TRACE => level_num g_logLevel <=? level_num TRACE
  | LOG_DEBUG => level_num g_logLevel <=? level_num DEBUG
  | LOG_INFO => level_num g_logLevel <=? level_num INFO
  | _ => true
  end.

(** A statement with its place in the source, the moment it runs, the error
    number and the stack memory it finds, and the operators after the macro. *)
Record statement := mkStatement {
  st_macro : macro;
  st_file : bytes;
  st_line : Z;
  st_func : bytes;
  st_errno : Z;
  st_now : Timestamp;
  st_memory : bytes;
  st_ops : list log_op
}.

Definition log_statement (g_logLevel : LogLevel) (gettid : Z) (st : statement) (t : thread_locals)
    : res (option (bytes * bool) * thread_locals) :=
  if macro_enabled g_logLevel (st_macro st) then
    '(i, t) ← Logger_start (macro_ctor (st_macro st) (st_func st)) (SourceFile_ctor (st_file st))
                (st_line st) (st_errno st) (st_now st) (st_memory st) gettid t;
    s ← put_all format_g12 (stream_ i) (st_ops st);
    out ← Logger_dtor (set_stream i s);
    Ok (Some out, t)
  else Ok (None, t).

(** The statements of one thread: the records output, and whether it ended in
    an abort. *)
Fixpoint log_run (g_logLevel : LogLevel) (gettid : Z) (sts : list statement) (t : thread_locals)
    : res (list bytes * bool) :=
  match sts with
  | [] => Ok ([], false)
  | st :: sts =>
      '(out, t) ← log_statement g_logLevel gettid st t;
      match out with
      | Some (r, true) => Ok ([r], true)
      | Some (r, false) =>
          '(rs, aborted) ← log_run g_logLevel gettid sts t;
          Ok (r :: rs, aborted)
      | None => log_run g_logLevel gettid sts t
      end
  end.

(** ** Specification

    A record as one list of operators on an empty stream, without the caches. *)

Definition micro_text (now : Timestamp) : bytes :=
  lit "." ++ print_0d 6 (Z.rem now kMicroSecondsPerSecond) ++ lit " ".

Definition tid_text (gettid : Z) : bytes := print_wd 6 gettid ++ lit " ".

Definition errno_ops (e : Z) : list log_op :=
  if e =? 0 then []
  else [LCStr (Some (strerror e)); LCStr (Some (lit " (errno=")); LInt e; LCStr (Some (lit ")"))].

Definition ctor_ops (c : Logger_ctor) : list log_op :=
  match c with
  | LoggerFunc _ func => [LCStr (Some func); LChar SP]
  | LoggerBacktrace _ func backtrace =>
      [LCStr (Some func); LChar SP; LString backtrace; LChar SP]
  | _ => []
  end.

Definition time_ops (now : Timestamp) : list log_op :=
  [LString (second_text (Z.quot now kMicroSecondsPerSecond)); LString (micro_text now)].

Definition prefix_ops (gettid : Z) (st : statement) : list log_op :=
  let c := macro_ctor (st_macro st) (st_func st) in
  time_ops (st_now st) ++
  ([LString (tid_text gettid); LString (LogLevelName (ctor_level c))] ++
   errno_ops (ctor_errno c (st_errno st))) ++ ctor_ops c.

Definition suffix_ops (st : statement) : list log_op :=
  [LCStr (Some (lit " - ")); LString (sf_data_ (SourceFile_ctor (st_file st))); LChar COLON;
   LInt (st_line st); LChar LF].

Definition record_ops (gettid : Z) (st : statement) : list log_op :=
  prefix_ops gettid st ++ st_ops st ++ suffix_ops st.

Definition record_text (gettid : Z) (st : statement) : bytes :=
  line format_g12 kSmallBuffer (record_ops gettid st).

Definition st_fatal (st : statement) : bool :=
  bool_decide (ctor_level (macro_ctor (st_macro st) (st_func st)) = FATAL).

(** The records of a thread, with nothing carried from one to the next. *)
Fixpoint record_run (g_logLevel : LogLevel) (gettid : Z) (sts : list statement)
    : list bytes * bool :=
  match sts with
  | [] => ([], false)
  | st :: sts =>
      if macro_enabled g_logLevel (st_macro st) then
        if st_fatal st then ([record_text gettid st], true)
        else let '(rs, aborted) := record_run g_logLevel gettid sts in
             (record_text gettid st :: rs, aborted)
      else record_run g_logLevel gettid sts
  end.

(** A calendar time whose year has at most four digits. *)
Definition tm_ok (x : tm) : Prop :=
  0 <= tm_year x + 1900 <= 9999 /\ 0 <= tm_mon x <= 11 /\ 1 <= tm_mday x <= 31 /\
  0 <= tm_hour x <= 23 /\ 0 <= tm_min x <= 59 /\ 0 <= tm_sec x <= 60.

Record st_ok (st : statement) : Prop := {
  ok_memory : zlen (st_memory st) = kSmallBuffer;
  ok_now : kMicroSecondsPerSecond <= st_now st < 2 ^ 63;
  ok_tm : tm_ok (localtime (Z.quot (st_now st) kMicroSecondsPerSecond));
  ok_errno : - 2 ^ 31 <= st_errno st < 2 ^ 31;
  ok_line : 0 <= st_line st < 2 ^ 31;
  ok_strings : zlen (st_file st) < 2 ^ 31 /\ zlen (st_func st) < 2 ^ 31 /\
               zlen (strerror (st_errno st)) < 2 ^ 31;
  ok_ops : Forall (put_op_ok format_g12) (st_ops st)
}.

(** What the caches of a thread hold. *)
Record locals_ok (gettid : Z) (t : thread_locals) : Prop := {
  ok_second : t_lastSecond t <> 0 ->
    t_time t = second_text (t_lastSecond t) /\ zlen (t_time t) = 17;
  ok_tid : t_cachedTid t <> 0 -> t_cachedTid t = gettid /\
    t_tidString t = tid_text gettid /\ t_tidStringLength t = zlen (tid_text gettid)
}.

(** ** Widths *)

Lemma print_0d_zlen w n : 0 <= n < 10 ^ Z.of_nat w -> (0 < w)%nat -> zlen (print_0d w n) = Z.of_nat w.
Proof.
  intros Hn Hw. unfold print_0d, zlen. rewrite (proj2 (Z.ltb_ge n 0)) by lia. rewrite Z.abs_eq by lia.
  pose proof (print_u_length w n Hn Hw). cbn [app]. rewrite length_app, length_replicate. cbn [length]. lia.
Qed.

Lemma print_wd_zlen w n : 0 <= n < 10 ^ Z.of_nat w -> (0 < w)%nat -> zlen (print_wd w n) = Z.of_nat w.
Proof.
  intros Hn Hw. unfold print_wd, print_d, zlen. rewrite (proj2 (Z.ltb_ge n 0)) by lia.
  pose proof (print_u_length w n Hn Hw). rewrite length_app, length_replicate. lia.
Qed.

Lemma second_text_zlen s : tm_ok (localtime s) -> zlen (second_text s) = 17.
Proof.
  intros (Hy & Hm & Hd & Hh & Hi & Hs). unfold second_text. cbv zeta. rewrite !zlen_app.
  rewrite (print_wd_zlen 4), !(print_0d_zlen 2) by (cbn; lia). done.
Qed.

Lemma micro_text_zlen now : 0 <= now -> zlen (micro_text now) = 8.
Proof.
  intros H. unfold micro_text. rewrite !zlen_app, (print_0d_zlen 6); [done| |lia].
  apply (seconds_microseconds now H).
Qed.

Lemma tid_text_short gettid : 0 < gettid < 2 ^ 31 -> (length (tid_text gettid) <= 11)%nat.
Proof.
  intros H. unfold tid_text, print_wd, print_d. rewrite (proj2 (Z.ltb_ge gettid 0)) by lia.
  pose proof (print_u_length 10 gettid). rewrite !length_app, length_replicate.
  change (length (lit " ")) with 1%nat. lia.
Qed.

(** ** The code streams the operators of the specification *)

Lemma put_all_split a c b b' :
  put_all format_g12 b (a ++ c) = Ok b' ->
  exists b1, put_all format_g12 b a = Ok b1 /\ put_all format_g12 b1 c = Ok b'.
Proof.
  revert b. induction a as [|op a IH]; intros b; cbn [app put_all]; [by exists b|].
  intros (b0 & E & H)%bind_ok_inv. destruct (IH _ H) as (b1 & H1 & H2).
  exists b1. by rewrite E.
Qed.

Lemma put_T_text s str len : zlen str = len -> put_T s str len = stream_put s (LString str).
Proof. intros <-. unfold put_T. by rewrite assert_true by lia. Qed.

Lemma formatTime_emits gettid t now s s' l ln f :
  locals_ok gettid t -> kMicroSecondsPerSecond <= now ->
  tm_ok (localtime (Z.quot now kMicroSecondsPerSecond)) ->
  put_all format_g12 s (time_ops now) = Ok s' ->
  exists t', formatTime (mkImpl now s l ln f) t = Ok (mkImpl now s' l ln f, t') /\ locals_ok gettid t'.
Proof.
  intros [Hs Ht] Hnow Htm Hp. unfold time_ops in Hp. cbn [put_all] in Hp.
  apply bind_ok_inv in Hp as (s1 & E1 & (s2 & E2 & [= ->])%bind_ok_inv).
  pose proof (second_text_zlen _ Htm) as H17.
  assert (0 < Z.quot now kMicroSecondsPerSecond) as Hpos
    by (unfold kMicroSecondsPerSecond in *; apply Z.quot_str_pos; lia).
  unfold formatTime. cbn [time_ stream_ set_stream level_ line_ basename_].
  set (sec := Z.quot now kMicroSecondsPerSecond) in *. clearbody sec.
  assert (exists t', (if negb (sec =? t_lastSecond t)
      then assert_ (zlen (second_text sec) =? 17);;
           Ok (mkLocals (t_cachedTid t) (t_tidString t) (t_tidStringLength t)
                 (snprintf 64 (second_text sec)) sec)
      else Ok t) = Ok t' /\ t_time t' = second_text sec /\ locals_ok gettid t') as (t' & -> & Etime & Ht').
  { destruct (Z.eqb_spec sec (t_lastSecond t)) as [E|E]; cbn [negb].
    - exists t. split; [done|]. subst sec. destruct Hs as [Hs1 Hs2]; [lia|]. by split.
    - rewrite assert_true by (rewrite H17; done). cbn [mbind res_bind].
      eexists. split; [done|]. cbn [t_time].
      rewrite snprintf_fits by (unfold zlen in H17; lia). split; [done|]. by split. }
  exists t'. split; [|done]. rewrite bind_ok, Etime, put_T_text, E1, bind_ok by done.
  fold (micro_text now). pose proof (micro_text_zlen now) as H8. unfold kMicroSecondsPerSecond in Hnow.
  unfold Fmt_ctor. rewrite assert_true by lia. cbn [mbind res_bind].
  rewrite snprintf_fits by (unfold zlen in H8; lia). rewrite put_T_text by lia.
  by rewrite E2.
Qed.

Lemma tid_emits gettid t : 0 < gettid < 2 ^ 31 -> locals_ok gettid t ->
  exists t', tid gettid t = (gettid, t') /\ locals_ok gettid t' /\
    t_tidString t' = tid_text gettid /\ t_tidStringLength t' = zlen (tid_text gettid).
Proof.
  intros Hg [Hs Ht]. unfold tid, cacheTid. fold (tid_text gettid).
  destruct (Z.eqb_spec (t_cachedTid t) 0) as [E|E].
  - pose proof (tid_text_short gettid Hg) as H. eexists. split; [done|].
    cbn [t_tidString t_tidStringLength]. rewrite snprintf_fits by lia.
    split; [|done]. by split.
  - destruct (Ht E) as (E0 & H1 & H2). exists t. rewrite E0. split; [done|]. split; [by split|done].
Qed.

Lemma level_name_zlen l : zlen (LogLevelName l) = 6.
Proof. by destruct l. Qed.

Lemma errno_emits s e s' :
  put_all format_g12 s (errno_ops e) = Ok s' ->
  (if negb (e =? 0) then
     s ← stream_put s (LCStr (Some (strerror e)));
     s ← stream_put s (LCStr (Some (lit " (errno=")));
     s ← stream_put s (LInt e);
     stream_put s (LCStr (Some (lit ")")))
   else Ok s) = Ok s'.
Proof.
  unfold errno_ops. destruct (e =? 0); [done|]. cbn [put_all negb]. intros H. inv_res.
  by rewrite Hr, bind_ok, Hr0, bind_ok, Hr1, bind_ok.
Qed.

Lemma Impl_ctor_emits gettid t now memory level e file ln s' :
  0 < gettid < 2 ^ 31 -> locals_ok gettid t -> kMicroSecondsPerSecond <= now ->
  tm_ok (localtime (Z.quot now kMicroSecondsPerSecond)) ->
  put_all format_g12 (FixedBuffer_ctor memory)
    (time_ops now ++ [LString (tid_text gettid); LString (LogLevelName level)] ++ errno_ops e) = Ok s' ->
  exists t', Impl_ctor now memory gettid level e file ln t = Ok (mkImpl now s' level ln file, t') /\
    locals_ok gettid t'.
Proof.
  intros Hg Ht Hnow Htm (s1 & E1 & H)%put_all_split. cbn [app put_all] in H.
  apply bind_ok_inv in H as (s2 & E2 & (s3 & E3 & H)%bind_ok_inv). apply errno_emits in H.
  destruct (formatTime_emits gettid t now _ s1 level ln file Ht Hnow Htm E1) as (t1 & Ef & Ht1).
  destruct (tid_emits gettid t1 Hg Ht1) as (t2 & Et & Ht2 & Es & El).
  exists t2. split; [|done]. unfold Impl_ctor. rewrite Ef, bind_ok. cbv beta iota. rewrite Et.
  cbv beta iota. cbn [stream_]. rewrite Es, put_T_text, E2, bind_ok by done.
  rewrite put_T_text, E3, bind_ok by apply level_name_zlen. by rewrite H, bind_ok.
Qed.

Lemma sf_append s v : sf_size_ v = zlen (sf_data_ v) ->
  put_SourceFile s v = stream_put s (LString (sf_data_ v)).
Proof. intros E. unfold put_SourceFile. rewrite E. unfold zlen. by rewrite Nat2Z.id, firstn_all. Qed.

Lemma SourceFile_size arr : sf_size_ (SourceFile_ctor arr) = zlen (sf_data_ (SourceFile_ctor arr)).
Proof.
  unfold SourceFile_ctor, strrchr. destruct (Z.eqb_spec (find_byte x2f (reverse arr)) (zlen arr)) as [|Hne];
    cbn [sf_size_ sf_data_]; [done|].
  pose proof (find_byte_range x2f (reverse arr)) as H. unfold zlen in *. rewrite length_reverse in H.
  rewrite length_drop. lia.
Qed.

Lemma finish_emits now s level ln file s' :
  sf_size_ file = zlen (sf_data_ file) ->
  put_all format_g12 s [LCStr (Some (lit " - ")); LString (sf_data_ file); LChar COLON; LInt ln; LChar LF] = Ok s' ->
  finish (mkImpl now s level ln file) = Ok (mkImpl now s' level ln file).
Proof.
  intros Hf. cbn [put_all]. intros H.
  apply bind_ok_inv in H as (s1 & E1 & (s2 & E2 & (s3 & E3 & (s4 & E4 & (s5 & E5 & [= <-])%bind_ok_inv)%bind_ok_inv)%bind_ok_inv)%bind_ok_inv).
  unfold finish. cbn [stream_ basename_ line_].
  by rewrite E1, bind_ok, sf_append, E2, bind_ok, E3, bind_ok, E4, bind_ok, E5.
Qed.

Lemma ctor_emits c s s' :
  put_all format_g12 s (ctor_ops c) = Ok s' ->
  match c with
  | LoggerFunc _ func =>
      s ← stream_put s (LCStr (Some func)); stream_put s (LChar SP)
  | LoggerBacktrace _ func backtrace =>
      s ← stream_put s (LCStr (Some func)); s ← stream_put s (LChar SP);
      s ← stream_put s (LString backtrace); stream_put s (LChar SP)
  | _ => Ok s
  end = Ok s'.
Proof.
  destruct c as [|l func| |a|l func bt]; cbn [ctor_ops put_all]; intros H; inv_res; try done.
  - by rewrite Hr, bind_ok.
  - by rewrite Hr, bind_ok, Hr0, bind_ok, Hr1, bind_ok.
Qed.

(** Every operator of a record is one the stream accepts. *)
Lemma lit_small (s : bytes) : zlen s < 2 ^ 31 -> zlen s < 2 ^ 63.
Proof. lia. Qed.

Lemma sf_short arr : zlen (sf_data_ (SourceFile_ctor arr)) <= zlen arr.
Proof.
  unfold SourceFile_ctor. destruct (strrchr arr x2f); cbn [sf_data_]; [|done].
  unfold zlen. rewrite length_drop. lia.
Qed.

Lemma record_ops_ok gettid st : 0 < gettid < 2 ^ 31 -> st_ok st ->
  Forall (put_op_ok format_g12) (record_ops gettid st).
Proof.
  intros Hg [_ Hn Htm He Hl (Hf & Hfn & Hse) Hops].
  pose proof (second_text_zlen _ Htm). unfold kMicroSecondsPerSecond in Hn.
  pose proof (micro_text_zlen (st_now st)).
  pose proof (tid_text_short gettid Hg) as Ht. pose proof (sf_short (st_file st)).
  unfold record_ops, prefix_ops, suffix_ops, time_ops. rewrite !Forall_app.
  set (c := macro_ctor _ _).
  assert (Forall (put_op_ok format_g12) (errno_ops (ctor_errno c (st_errno st)))).
  { unfold errno_ops. destruct (Z.eqb_spec (ctor_errno c (st_errno st)) 0) as [|Hne]; [constructor|].
    assert (ctor_errno c (st_errno st) = st_errno st) as -> by (destruct c; done).
    repeat constructor; cbn; lia. }
  assert (Forall (put_op_ok format_g12) (ctor_ops c)).
  { unfold c. destruct (st_macro st); cbn [macro_ctor ctor_ops]; repeat constructor; cbn -[zlen]; lia. }
  pose proof (level_name_zlen (ctor_level c)).
  repeat match goal with |- _ /\ _ => split end; try done;
    repeat (apply Forall_cons_2 || apply Forall_nil_2);
    cbn [put_op_ok]; try done; unfold zlen in *; lia.
Qed.

(** One enabled statement outputs its record, and aborts if it is fatal. *)
Lemma log_statement_ok g gettid st t :
  0 < gettid < 2 ^ 31 -> locals_ok gettid t -> st_ok st ->
  macro_enabled g (st_macro st) = true ->
  exists t', log_statement g gettid st t = Ok (Some (record_text gettid st, st_fatal st), t') /\
    locals_ok gettid t'.
Proof.
  intros Hg Ht Hst Hen. pose proof (record_ops_ok gettid st Hg Hst) as Hops.
  destruct Hst as [Hm Hn Htm He Hl _ _].
  assert (fixed_ok kSmallBuffer (FixedBuffer_ctor (st_memory st))) as Hb
    by (split; cbn; [done|unfold kSmallBuffer; lia|done]).
  destruct (put_all_ok format_g12 kSmallBuffer _ _ Hb Hops) as (s & E & Hs & Hv).
  unfold record_ops, prefix_ops in E.
  apply put_all_split in E as (s0 & E0 & (s1 & E1 & E2)%put_all_split).
  rewrite app_assoc in E0. apply put_all_split in E0 as (s2 & E3 & E4).
  apply ctor_emits in E4. apply (finish_emits (st_now st) _
    (ctor_level (macro_ctor (st_macro st) (st_func st)))) in E2; [|apply SourceFile_size].
  destruct (Impl_ctor_emits gettid t _ _ (ctor_level (macro_ctor (st_macro st) (st_func st)))
    _ (SourceFile_ctor (st_file st)) (st_line st) _ Hg Ht (proj1 Hn) Htm E3) as (t' & Ei & Ht').
  exists t'. split; [|done]. unfold log_statement, Logger_start. rewrite Hen, Ei, bind_ok.
  cbv beta iota. cbn [stream_]. rewrite E4, bind_ok, bind_ok. cbv beta iota.
  cbn [set_stream stream_ time_ level_ line_ basename_]. rewrite E1, bind_ok.
  unfold Logger_dtor, set_stream. cbn [stream_ time_ level_ line_ basename_]. rewrite E2, bind_ok, bind_ok. cbn [stream_ level_].
  do 3 f_equal. by rewrite Hv.
Qed.

End Logger.

(** The records a thread outputs, whatever their number and order, are
    those of the specification, in which no statement sees what an earlier one
    cached: the text of the second is never stale and the thread's id is its
    own.  The level test drops exactly the statements below the level, and
    nothing follows the record of a fatal one, which aborts. *)
Theorem log_run_correct {double} (format_g12 : double -> bytes) localtime strerror g gettid sts t :
  0 < gettid < 2 ^ 31 -> locals_ok localtime gettid t ->
  Forall (st_ok format_g12 localtime strerror) sts ->
  log_run format_g12 localtime strerror g gettid sts t =
    Ok (record_run format_g12 localtime strerror g gettid sts).
Proof.
  intros Hg Ht Hsts. revert t Ht. induction Hsts as [|st sts Hst Hsts IH]; intros t Ht; [done|].
  cbn [log_run record_run]. destruct (macro_enabled g (st_macro st)) eqn:Hen.
  - destruct (log_statement_ok format_g12 localtime strerror g gettid st t Hg Ht Hst Hen)
      as (t' & E & Ht'). rewrite E, bind_ok. cbv beta iota.
    destruct (st_fatal st); [done|]. rewrite IH, bind_ok by done.
    by destruct (record_run _ _ _ _ _ sts).
  - unfold log_statement. rewrite Hen, bind_ok. cbv beta iota. by apply IH.
Qed.

(** A fresh thread has empty caches. *)
Lemma locals_start_ok localtime gettid : locals_ok localtime gettid locals_start.
Proof. by split. Qed.

(** The name of a file without its directories. *)
Lemma SourceFile_name dir name : x2f ∉ name -> sf_data_ (SourceFile_ctor (dir ++ lit "/" ++ name)) = name.
Proof.
  intros Hname. unfold SourceFile_ctor, strrchr. rewrite !reverse_app, <- app_assoc.
  assert (x2f ∉ reverse name) as Hr by (by rewrite elem_of_reverse).
  change (reverse (lit "/")) with [x2f]. cbn [app].
  rewrite find_byte_hit by done.
  assert (zlen (reverse name) = zlen name) as -> by (unfold zlen; by rewrite length_reverse).
  rewrite !zlen_app. change (zlen (lit "/")) with 1. pose proof (zlen_nonneg dir).
  rewrite (proj2 (Z.eqb_neq _ _)) by lia. cbn [sf_data_].
  rewrite app_assoc. apply drop_zlen. rewrite zlen_app. change (zlen (lit "/")) with 1. lia.
Qed.

Lemma SourceFile_plain arr : x2f ∉ sf_data_ (SourceFile_ctor arr).
Proof.
  destruct (find_byte_cases x2f (reverse arr)) as [[Ha E]|(p & s & E & Hp & _)].
  - unfold SourceFile_ctor, strrchr. rewrite E. unfold zlen. rewrite length_reverse, Z.eqb_refl.
    by rewrite elem_of_reverse in Ha.
  - apply (f_equal reverse) in E. rewrite reverse_involutive, reverse_app, reverse_cons, <- app_assoc in E.
    rewrite E. change ([x2f] ++ reverse p) with (lit "/" ++ reverse p).
    rewrite SourceFile_name by (by rewrite elem_of_reverse). by rewrite elem_of_reverse.
Qed.

(** ** The layout of a record *)

Section Layout.

Context {double : Type} (format_g12 : double -> bytes).

Definition texts (ops : list (log_op (double := double))) : bytes :=
  foldr (fun op l => text_of format_g12 op ++ l) [] ops.

Lemma needs_bound op : put_op_ok format_g12 op -> needs format_g12 op <= zlen (text_of format_g12 op) + 32.
Proof. intros _. pose proof (zlen_nonneg (text_of format_g12 op)). destruct op; cbn [needs]; unfold kMaxNumericSize; lia. Qed.

Lemma line_fits_from size ops : forall l,
  Forall (put_op_ok format_g12) ops -> zlen l + zlen (texts ops) + 32 <= size ->
  fold_left (line_step format_g12 size) ops l = l ++ texts ops.
Proof.
  induction ops as [|op ops IH]; intros l Hops Hl; cbn [fold_left texts foldr] in *; [by rewrite app_nil_r|].
  apply Forall_cons in Hops as [Hop Hops]. fold (texts ops) in *. rewrite zlen_app in Hl.
  pose proof (needs_bound op Hop). pose proof (zlen_nonneg (texts ops)).
  unfold line_step at 2. rewrite (proj2 (Z.leb_le _ _)) by lia.
  rewrite IH by (try done; rewrite zlen_app; lia). by rewrite <- app_assoc.
Qed.

Lemma texts_app a b : texts (a ++ b) = texts a ++ texts b.
Proof. induction a as [|op a IH]; cbn; [done|]. fold (texts (a ++ b)). rewrite IH. apply app_assoc. Qed.

(** A full buffer takes no more text. *)
Lemma line_full_from size ops : forall l,
  zlen l = size - 1 -> 32 <= size -> fold_left (line_step format_g12 size) ops l = l.
Proof.
  induction ops as [|op ops IH]; intros l Hl Hs; cbn [fold_left]; [done|].
  replace (line_step format_g12 size l op) with l; [by apply IH|].
  unfold line_step. destruct (Z.leb_spec (zlen l + needs format_g12 op) size) as [H|]; [|done].
  pose proof (zlen_nonneg (text_of format_g12 op)).
  assert (zlen (text_of format_g12 op) = 0) as Hz.
  { destruct op; cbn [needs] in H; unfold kMaxNumericSize in H; lia. }
  destruct (text_of format_g12 op) as [|x s]; [by rewrite app_nil_r|].
  rewrite zlen_cons in Hz. pose proof (zlen_nonneg s). lia.
Qed.

End Layout.

(** A record whose text leaves 32 bytes of the buffer is the time to the
    microsecond, the thread, the level, the error if there is one, the message,
    and the name of the file without its directories, the line and a newline. *)
Theorem record_layout {double} (format_g12 : double -> bytes) localtime strerror gettid st dir name :
  0 < gettid < 2 ^ 31 -> st_ok format_g12 localtime strerror st ->
  st_file st = dir ++ lit "/" ++ name -> x2f ∉ name ->
  zlen (texts format_g12 (record_ops localtime strerror gettid st)) + 32 <= kSmallBuffer ->
  let c := macro_ctor (st_macro st) (st_func st) in
  record_text format_g12 localtime strerror gettid st =
    second_text localtime (Z.quot (st_now st) kMicroSecondsPerSecond) ++ micro_text (st_now st) ++
    tid_text gettid ++ LogLevelName (ctor_level c) ++
    texts format_g12 (errno_ops strerror (ctor_errno c (st_errno st))) ++
    texts format_g12 (ctor_ops c) ++
    texts format_g12 (st_ops st) ++
    lit " - " ++ name ++ lit ":" ++ print_u (st_line st) ++ [LF].
Proof.
  intros Hg Hst Hf Hname Hfit c.
  unfold record_text, line. rewrite line_fits_from; [|by apply record_ops_ok|exact Hfit].
  assert (sf_data_ (SourceFile_ctor (st_file st)) = name) as Hsf by (rewrite Hf; by apply SourceFile_name).
  unfold record_ops, prefix_ops, suffix_ops, time_ops. fold c. rewrite Hsf, !texts_app.
  cbn [texts foldr text_of app]. rewrite !app_nil_r. change (zlen []) with 0.
  pose proof (ok_line _ _ _ _ Hst) as Hl. unfold print_d. rewrite (proj2 (Z.ltb_ge _ _)) by lia.
  cbn [app]. by rewrite <- !app_assoc.
Qed.

(** A record whose prefix and message fill the buffer ends there: the
    place in the source and the newline are missing, and the next record
    starts on the same line. *)
Theorem full_record_unterminated {double} (format_g12 : double -> bytes) localtime strerror gettid st :
  zlen (line format_g12 kSmallBuffer (prefix_ops localtime strerror gettid st ++ st_ops st)) =
    kSmallBuffer - 1 ->
  record_text format_g12 localtime strerror gettid st =
    line format_g12 kSmallBuffer (prefix_ops localtime strerror gettid st ++ st_ops st).
Proof.
  intros H. unfold record_text, record_ops. rewrite app_assoc. unfold line at 1.
  rewrite fold_left_app. by apply line_full_from.
Qed.

(** ** Concrete inputs *)

Definition demo_fmt (d : bool) : bytes := lit "1.5".
Definition demo_localtime (s : Z) : tm := mkTm 124 6 9 10 41 (s mod 60).
Definition demo_strerror (e : Z) : bytes := lit "Connection refused".

Definition demo_statement (m : macro) (now : Z) (ops : list (log_op (double := bool))) : statement :=
  mkStatement m (lit "/root/tmuduo/net/TcpServer.cc") 61 (lit "start") 111 now (replicate 4000 x00) ops.

Definition demo_statements : list statement :=
  [demo_statement LOG_INFO 1720521665000250 [LString (lit "listening on "); LInt 80];
   demo_statement LOG_TRACE 1720521665000251 [];
   demo_statement LOG_SYSERR 1720521665999999 [LCStr (Some (lit "connect"))];
   demo_statement LOG_FATAL 1720521666000000 [LDouble true];
   demo_statement LOG_WARN 1720521667000000 []].

Lemma demo_st_ok m now ops :
  kMicroSecondsPerSecond <= now < 2 ^ 63 -> Forall (put_op_ok demo_fmt) ops ->
  st_ok demo_fmt demo_localtime demo_strerror (demo_statement m now ops).
Proof.
  intros Hn Hops. split; cbn -[replicate Z.quot]; try done.
  unfold tm_ok, demo_localtime. cbn -[Z.quot]. pose proof (Z.mod_pos_bound (now ÷ kMicroSecondsPerSecond) 60).
  lia.
Defined.

Lemma demo_statements_ok : Forall (st_ok demo_fmt demo_localtime demo_strerror) demo_statements.
Proof. repeat (apply Forall_cons_2 || apply Forall_nil_2); (apply demo_st_ok; [done|]);
  repeat (apply Forall_cons_2 || apply Forall_nil_2); by vm_compute. Defined.

Lemma log_run_correct_witness :
  log_run demo_fmt demo_localtime demo_strerror INFO 4711 demo_statements locals_start =
    Ok ([lit "20240709 10:41:05.000250   4711 INFO  listening on 80 - TcpServer.cc:61" ++ [LF];
         lit "20240709 10:41:05.999999   4711 ERROR Connection refused (errno=111)connect - TcpServer.cc:61" ++ [LF];
         lit "20240709 10:41:06.000000   4711 FATAL 1.5 - TcpServer.cc:61" ++ [LF]], true).
Proof.
  rewrite (log_run_correct demo_fmt demo_localtime demo_strerror INFO 4711 demo_statements locals_start);
    [by vm_compute|done|apply locals_start_ok|apply demo_statements_ok].
Defined.

Lemma record_layout_witness :
  let st := demo_statement LOG_DEBUG 1720521665000250 [LInt 7] in
  record_text demo_fmt demo_localtime demo_strerror 4711 st =
    lit "20240709 10:41:05.000250   4711 DEBUG start 7 - TcpServer.cc:61" ++ [LF].
Proof.
  intros st. rewrite (record_layout demo_fmt demo_localtime demo_strerror 4711 st
    (lit "/root/tmuduo/net") (lit "TcpServer.cc")).
  - by vm_compute.
  - done.
  - apply demo_st_ok; [done|]. repeat constructor; by vm_compute.
  - by vm_compute.
  - decide_now.
  - by vm_compute.
Defined.

Lemma full_record_unterminated_witness :
  let st := demo_statement LOG_INFO 1720521665000250 [LString (replicate 3961 x61)] in
  last (record_text demo_fmt demo_localtime demo_strerror 4711 st) = Some x61.
Proof.
  intros st. rewrite (full_record_unterminated demo_fmt demo_localtime demo_strerror 4711 st); by vm_compute.
Defined.
