(* ===== verification/LogSystem.v ===== *)
(** * Logging in a program: examples/httpd/main.cc over base/Logging.cc

    The log of a whole process, as the web server's [main] sets it up: the
    threads' statements (Logging.v) go through [g_output] either to standard
    output or to the asynchronous log (AsyncLogging.v), whose thread writes
    them to rolling files (LogFile.v).  A run interleaves the statements of any
    threads, the steps of the log's thread and the end of a thread that has
    output a fatal record. *)

From S2P Require Import Prelude Format Timestamp LogStream FileUtil ProcessInfo LogFile AsyncLogging Logging.

(** Standard output: what [fwrite] took, and how much of it a flush has
    certainly passed on. *)
Record std_stream := mkStd { std_written : bytes; std_flushed : bytes }.

Definition std_write (s : std_stream) (msg : bytes) : std_stream :=
  mkStd (std_written s ++ msg) (std_flushed s).
Definition std_flush (s : std_stream) : std_stream := mkStd (std_written s) (std_written s).

(** ** The process *)

Section LogSystem.
Context {F E : Type} `{!Sink F E}.
Context {double : Type} (format_g12 : double -> bytes).
Context (localtime : Z -> tm) (strerror : Z -> bytes).
Context (memory : bytes).

Abbreviation statement := (statement (double := double)).

(** What [g_output] is, with what it writes to. *)
Inductive log_output :=
| DefaultOutput (stdout : std_stream)
| LogOutput (g_asynclog : @AsyncLogging F).

(** The global variables and the thread-local ones of every thread by its id;
    [dying] are the threads in the destructor of a fatal record, before
    [g_flush]; [aborted]: one of them has got through. *)
Record process := mkProc {
  g_logLevel : LogLevel;
  g_output : log_output;
  g_flush : log_output -> log_output;
  t_locals : gmap Z thread_locals;
  dying : gset Z;
  aborted : bool
}.

Definition locals_of (p : process) (gettid : Z) : thread_locals :=
  default locals_start (t_locals p !! gettid).

(** The statics of [Logger], and the globals as they are initialised: the level
    by the environment's LOG_TRACE and LOG_DEBUG. *)
Definition setLogLevel (p : process) (level : LogLevel) : process :=
  mkProc level (g_output p) (g_flush p) (t_locals p) (dying p) (aborted p).
Definition setOutPut (p : process) (out : log_output) : process :=
  mkProc (g_logLevel p) out (g_flush p) (t_locals p) (dying p) (aborted p).
Definition setFlush (p : process) (flush : log_output -> log_output) : process :=
  mkProc (g_logLevel p) (g_output p) flush (t_locals p) (dying p) (aborted p).

(** [defaultOutput] and [logOutput]. *)
Definition output_call (o : log_output) (msg : bytes) : res log_output :=
  match o with
  | DefaultOutput stdout => Ok (DefaultOutput (std_write stdout msg))
  | LogOutput a => a ← async_append memory a msg; Ok (LogOutput a)
  end.

(** [defaultFlush]: of standard output. *)
Definition flush_call (o : log_output) : log_output :=
  match o with DefaultOutput stdout => DefaultOutput (std_flush stdout) | LogOutput a => LogOutput a end.

Definition process_start (log_trace log_debug : bool) : process :=
  mkProc (initLogLevel log_trace log_debug) (DefaultOutput (mkStd [] [])) flush_call ∅ ∅ false.

(** A statement of the thread [gettid], up to the call of [g_output]. *)
Definition log_in_thread (p : process) (gettid : Z) (st : statement) : res process :=
  '(out, t) ← log_statement format_g12 localtime strerror (g_logLevel p) gettid st (locals_of p gettid);
  let locals := <[gettid := t]> (t_locals p) in
  match out with
  | None => Ok (mkProc (g_logLevel p) (g_output p) (g_flush p) locals (dying p) (aborted p))
  | Some (msg, fatal) =>
      o ← output_call (g_output p) msg;
      Ok (mkProc (g_logLevel p) o (g_flush p) locals
            (if (fatal : bool) then {[gettid]} ∪ dying p else dying p) (aborted p))
  end.

(** The rest of the destructor of a fatal record. *)
Definition log_abort (p : process) : process :=
  mkProc (g_logLevel p) (g_flush p (g_output p)) (g_flush p) (t_locals p) (dying p) true.

Inductive log_event :=
| EvStatement (gettid : Z) (st : statement)
| EvAbort (gettid : Z)
| EvStop
| EvCollect
| EvWrite (envs : nat -> E) (notice : bytes).

(** The step of the asynchronous log's thread or owner in an event. *)
Definition log_thread_op (ev : log_event) : option (@async_op E) :=
  match ev with
  | EvStop => Some OpStop
  | EvCollect => Some OpCollect
  | EvWrite envs notice => Some (OpWrite envs notice)
  | _ => None
  end.

(** Nothing runs after an abort, and a thread that is about to abort does
    nothing else. *)
Definition log_event_step (p : process) (ev : log_event) : res process :=
  if aborted p then Ok p else
  match ev with
  | EvStatement gettid st => if decide (gettid ∈ dying p) then Ok p else log_in_thread p gettid st
  | EvAbort gettid => if decide (gettid ∈ dying p) then Ok (log_abort p) else Ok p
  | _ =>
      match g_output p, log_thread_op ev with
      | LogOutput a, Some op =>
          a ← async_step memory a op;
          Ok (mkProc (g_logLevel p) (LogOutput a) (g_flush p) (t_locals p) (dying p) (aborted p))
      | _, _ => Ok p
      end
  end.

Fixpoint log_system_run (p : process) (evs : list log_event) : res process :=
  match evs with
  | [] => Ok p
  | ev :: evs => p ← log_event_step p ev; log_system_run p evs
  end.

(** ** Specification

    The records of a run with the threads that output them, in the order of
    the calls of [g_output], without caches and buffers. *)
Fixpoint records (level : LogLevel) (dead : gset Z) (evs : list log_event) : list (Z * bytes) :=
  match evs with
  | [] => []
  | EvStatement gettid st :: evs =>
      if decide (gettid ∈ dead) then records level dead evs
      else if macro_enabled level (st_macro st) then
        (gettid, record_text format_g12 localtime strerror gettid st) ::
        records level (if st_fatal st then {[gettid]} ∪ dead else dead) evs
      else records level dead evs
  | EvAbort gettid :: evs => if decide (gettid ∈ dead) then [] else records level dead evs
  | _ :: evs => records level dead evs
  end.

Definition records_of (gettid : Z) (rs : list (Z * bytes)) : list bytes :=
  map snd (filter (fun r => r.1 = gettid) rs).

Definition statements_of (gettid : Z) (evs : list log_event) : list statement :=
  omap (fun ev => match ev with
                  | EvStatement t st => if decide (t = gettid) then Some st else None
                  | _ => None
                  end) evs.

(** What has been output, in the destination or on its way to it. *)
Definition logged_bytes (p : process) : bytes :=
  match g_output p with
  | DefaultOutput stdout => std_written stdout
  | LogOutput a => sink_content (output a) ++ pending a
  end.

(** What has reached the destination: [fwrite] of the log's thread, or of a
    statement. *)
Definition written_bytes (p : process) : bytes :=
  match g_output p with
  | DefaultOutput stdout => std_written stdout
  | LogOutput a => sink_content (output a)
  end.

(** Whether a run gets to an abort. *)
Fixpoint aborts (level : LogLevel) (dead : gset Z) (evs : list log_event) : bool :=
  match evs with
  | [] => false
  | EvStatement gettid st :: evs =>
      if decide (gettid ∈ dead) then aborts level dead evs
      else aborts level
             (if macro_enabled level (st_macro st) && st_fatal st then {[gettid]} ∪ dead else dead) evs
  | EvAbort gettid :: evs => if decide (gettid ∈ dead) then true else aborts level dead evs
  | _ :: evs => aborts level dead evs
  end.

(** ** Invariant and hypotheses of a run *)

Definition output_inv (acc : bytes) (o : log_output) : Prop :=
  match o with
  | DefaultOutput stdout => std_written stdout = acc
  | LogOutput a => async_inv (zlen memory) acc a
  end.

Record process_inv (acc : bytes) (p : process) : Prop := {
  inv_output : output_inv acc (g_output p);
  inv_flush : g_flush p = flush_call;
  inv_locals : forall gettid, locals_ok localtime gettid (locals_of p gettid)
}.

(** A statement of a thread with a proper id; the log's thread writes with
    [fwrite]s that make progress, at most 25 buffers at a time. *)
Definition event_ok (p : process) (ev : log_event) : Prop :=
  match ev with
  | EvStatement gettid st => 0 < gettid < 2 ^ 31 /\ st_ok format_g12 localtime strerror st
  | EvWrite envs notice =>
      match g_output p with
      | LogOutput a => async_op_ok (zlen memory) a (OpWrite envs notice)
      | _ => True
      end
  | _ => True
  end.

Fixpoint events_ok (p : process) (evs : list log_event) : Prop :=
  match evs with
  | [] => True
  | ev :: evs =>
      event_ok p ev /\ match log_event_step p ev with Ok p => events_ok p evs | Err _ => True end
  end.

End LogSystem.

(** ** main

    [argv0] is truncated to 255 bytes; [::basename] takes what follows the
    last slash.  The level is set before other threads run. *)
Definition main_basename (argv0 : bytes) : bytes :=
  sf_data_ (SourceFile_ctor (take 255 argv0)).

Definition main_log (env : process_env) (memory : bytes) (log_trace log_debug : bool) (argc : Z)
    (argv0 : bytes) (now : Z) : res (process (F := LogFile)) :=
  let p := process_start log_trace log_debug in
  p ← (if 1 <? argc then
         log ← LogFile_ctor env (main_basename argv0) (10 * 1000 * 1000) 3 1024 now;
         Ok (setOutPut p (LogOutput (async_start memory log)))
       else Ok p);
  Ok (setLogLevel p WARN).

(** ** Lemmas *)

Section Proofs.
Context {F E : Type} `{!Sink F E} `{!SinkLaws F E}.
Context {double : Type} (format_g12 : double -> bytes).
Context (localtime : Z -> tm) (strerror : Z -> bytes).
Context (memory : bytes) (Hmem : kSmallBuffer <= zlen memory < 2 ^ 31).

Abbreviation run := (log_system_run (F := F) (E := E) format_g12 localtime strerror memory).
Abbreviation step := (log_event_step (F := F) (E := E) format_g12 localtime strerror memory).
Abbreviation recs := (records (E := E) format_g12 localtime strerror).
Abbreviation rrun := (record_run format_g12 localtime strerror).
Abbreviation process_inv := (process_inv localtime memory).
Implicit Types (p : @process F) (evs : list (@log_event E double)).

(** A record leaves a byte of the buffer it is built in. *)
Lemma record_zlen gettid st : 0 < gettid < 2 ^ 31 -> st_ok format_g12 localtime strerror st ->
  zlen (record_text format_g12 localtime strerror gettid st) < kSmallBuffer.
Proof using Type.
  clear Hmem. intros Hg Hst. pose proof (record_ops_ok format_g12 localtime strerror gettid st Hg Hst) as Hops.
  pose proof (ok_memory _ _ _ _ Hst) as Hm.
  destruct (put_all_ok format_g12 kSmallBuffer _ (FixedBuffer_ctor (st_memory st))
    ltac:(split; cbn; [done|unfold kSmallBuffer; lia|done]) Hops) as (b & _ & Hb & Hv).
  unfold record_text, line. change (@nil byte) with (toStringView (FixedBuffer_ctor (st_memory st))).
  rewrite <- Hv, (zlen_fixed_view kSmallBuffer) by done. destruct Hb. lia.
Qed.

Lemma output_call_ok acc (o : @log_output F) msg :
  output_inv memory acc o -> zlen msg < kSmallBuffer ->
  exists o', output_call memory o msg = Ok o' /\ output_inv memory (acc ++ msg) o'.
Proof using Type*.
  intros Ho Hl. unfold kSmallBuffer in *. destruct o as [s|a]; cbn [output_call output_inv] in *.
  - eexists. split; [done|]. cbn. by rewrite Ho.
  - destruct (async_append_ok memory (zlen memory) eq_refl ltac:(lia) acc a msg Ho ltac:(lia)) as (a' & -> & Ha').
    by eexists.
Qed.

Lemma locals_insert p gettid t level o fl dead ab :
  (forall g, locals_ok localtime g (locals_of p g)) -> locals_ok localtime gettid t ->
  forall g, locals_ok localtime g (locals_of (F := F) (mkProc level o fl (<[gettid := t]> (t_locals p)) dead ab) g).
Proof using Type.
  clear. intros Hp Ht g. unfold locals_of. cbn. destruct (decide (g = gettid)) as [->|Hne].
  - by rewrite lookup_insert_eq.
  - rewrite lookup_insert_ne by done. apply Hp.
Qed.

(** What a statement of a thread that runs does. *)
Lemma log_in_thread_ok acc p gettid st :
  process_inv acc p -> 0 < gettid < 2 ^ 31 -> st_ok format_g12 localtime strerror st ->
  let enabled := macro_enabled (g_logLevel p) (st_macro st) in
  exists p', log_in_thread format_g12 localtime strerror memory p gettid st = Ok p' /\
    process_inv (acc ++ if enabled then record_text format_g12 localtime strerror gettid st else []) p' /\
    g_logLevel p' = g_logLevel p /\ aborted p' = aborted p /\
    dying p' = if enabled && st_fatal st then {[gettid]} ∪ dying p else dying p.
Proof using Type*.
  intros [Ho Hfl Hl] Hg Hst enabled. unfold enabled, log_in_thread.
  destruct (macro_enabled (g_logLevel p) (st_macro st)) eqn:Hen; cbn [andb].
  - destruct (log_statement_ok format_g12 localtime strerror _ gettid st _ Hg (Hl gettid) Hst Hen) as (t' & -> & Ht').
    cbn [mbind res_bind]. pose proof (record_zlen gettid st Hg Hst) as Hz.
    destruct (output_call_ok acc (g_output p) _ Ho Hz) as (o' & -> & Ho').
    cbn [mbind res_bind]. eexists. split; [done|]. split; [|done].
    split; [done|exact Hfl|]. by apply locals_insert.
  - unfold log_statement. rewrite Hen. cbn [mbind res_bind]. eexists. split; [done|].
    rewrite app_nil_r. split; [|done]. split; [done|exact Hfl|]. by apply locals_insert.
Qed.

(** A step of the log's thread keeps everything else. *)
Lemma log_thread_step acc p op :
  process_inv acc p -> (forall l, op <> OpAppend l) ->
  match g_output p with LogOutput a => async_op_ok (zlen memory) a op | _ => True end ->
  exists p',
    match g_output p with
    | LogOutput a =>
        a ← async_step memory a op;
        Ok (mkProc (g_logLevel p) (LogOutput a) (g_flush p) (t_locals p) (dying p) (aborted p))
    | _ => Ok p
    end = Ok p' /\
    process_inv acc p' /\ g_logLevel p' = g_logLevel p /\ aborted p' = aborted p /\ dying p' = dying p.
Proof using Type*.
  intros [Ho Hfl Hl] Hop Hok. unfold kSmallBuffer in Hmem. destruct (g_output p) as [s|a] eqn:Eo.
  - exists p. split; [done|]. split; [|done]. split; [by rewrite Eo|done..].
  - destruct (async_step_ok memory (zlen memory) eq_refl ltac:(lia) acc a op Ho Hok) as (a' & -> & Ha').
    cbn [mbind res_bind]. eexists. split; [done|]. split; [|done]. split; [|done..].
    destruct op; [by destruct (Hop logline)|by rewrite app_nil_r in Ha'..].
Qed.

Lemma run_aborted p evs : aborted p = true -> run p evs = Ok p.
Proof using Type.
  clear. intros Ha. induction evs as [|ev evs IH]; cbn [log_system_run]; [done|].
  unfold log_event_step at 1. rewrite Ha. exact IH.
Qed.

(** One event, against the specification. *)
Lemma log_event_ok acc p ev :
  process_inv acc p -> aborted p = false ->
  event_ok (F := F) format_g12 localtime strerror memory p ev ->
  exists p' rs, step p ev = Ok p' /\ process_inv (acc ++ concat (map snd rs)) p' /\
    g_logLevel p' = g_logLevel p /\
    forall evs,
      recs (g_logLevel p) (dying p) (ev :: evs) =
        rs ++ (if aborted p' then [] else recs (g_logLevel p) (dying p') evs) /\
      aborts (g_logLevel p) (dying p) (ev :: evs) =
        aborted p' || aborts (g_logLevel p) (dying p') evs.
Proof using Type*.
  intros Hp Ha Hev. unfold log_event_step. destruct (aborted p) eqn:Ha'; [done|]. clear Ha. rename Ha' into Ha.
  assert (forall op, log_thread_op ev = Some op -> (forall l, op <> OpAppend l) ->
    match g_output p with LogOutput a => async_op_ok (zlen memory) a op | _ => True end ->
    exists p' (rs : list (Z * bytes)), match g_output p with
      | LogOutput a =>
          a ← async_step memory a op;
          Ok (mkProc (g_logLevel p) (LogOutput a) (g_flush p) (t_locals p) (dying p) false)
      | _ => Ok p
      end = Ok p' /\ process_inv (acc ++ concat (map snd rs)) p' /\
      g_logLevel p' = g_logLevel p /\ rs = [] /\ aborted p' = false /\ dying p' = dying p) as Hop.
  { intros op _ Hne Hok. destruct (log_thread_step acc p op Hp Hne Hok) as (p' & E1 & Hp' & Hl & Hab & Hd).
    rewrite Ha in E1. exists p', []. cbn. rewrite app_nil_r, Hab. done. }
  destruct ev as [gettid st|gettid| | |envs notice]; cbn [log_thread_op] in Hop |- *;
    cbn [records aborts].
  - destruct Hev as [Hg Hst]. destruct (decide _) as [Hd|Hd].
    { exists p, []. cbn. rewrite app_nil_r, Ha. done. }
    destruct (log_in_thread_ok acc p gettid st Hp Hg Hst) as (p' & E1 & Hp' & Hl & Hab & Hdy).
    rewrite E1. exists p', (if macro_enabled (g_logLevel p) (st_macro st)
      then [(gettid, record_text format_g12 localtime strerror gettid st)] else []).
    rewrite Hab, Ha, Hdy. split; [done|].
    destruct (macro_enabled _ _); cbn; rewrite ?app_nil_r; by rewrite ?app_nil_r in Hp'.
  - destruct (decide _) as [Hd|Hd].
    + exists (log_abort p), []. cbn. rewrite app_nil_r. split; [done|]. split; [|done].
      destruct Hp as [Ho Hfl Hl]. split; [|done..]. cbn. rewrite Hfl. by destruct (g_output p).
    + exists p, []. cbn. rewrite app_nil_r, Ha. done.
  - destruct (Hop OpStop) as (p' & rs & -> & Hp' & Hl & -> & Hab & Hd); [done..|by destruct (g_output p)|].
    exists p', []. by rewrite Hab, Hd.
  - destruct (Hop OpCollect) as (p' & rs & -> & Hp' & Hl & -> & Hab & Hd); [done..|by destruct (g_output p)|].
    exists p', []. by rewrite Hab, Hd.
  - destruct (Hop (OpWrite envs notice)) as (p' & rs & -> & Hp' & Hl & -> & Hab & Hd); [done..|].
    exists p', []. by rewrite Hab, Hd.
Qed.

(** The bytes of a run, and whether it aborts, are those of the specification. *)
Lemma log_run_inv evs : forall acc p,
  process_inv acc p -> aborted p = false ->
  events_ok (F := F) format_g12 localtime strerror memory p evs ->
  exists p', run p evs = Ok p' /\
    process_inv (acc ++ concat (map snd (recs (g_logLevel p) (dying p) evs))) p' /\
    aborted p' = aborts (g_logLevel p) (dying p) evs.
Proof using Type*.
  induction evs as [|ev evs IH]; intros acc p Hp Ha Hok.
  { exists p. cbn. by rewrite app_nil_r. }
  cbn [events_ok log_system_run] in *. destruct Hok as [Hev Hok].
  destruct (log_event_ok acc p ev Hp Ha Hev) as (p1 & rs & E1 & Hp1 & Hl1 & Hspec).
  destruct (Hspec evs) as [-> ->]. rewrite E1 in *. cbn [mbind res_bind].
  destruct (aborted p1) eqn:Ha1; cbn [orb].
  - rewrite run_aborted by done. exists p1. rewrite app_nil_r. done.
  - destruct (IH _ p1 Hp1 Ha1 Hok) as (p' & ? & Hp' & ?). exists p'.
    rewrite Hl1, <- app_assoc, <- concat_app, <- map_app in *. done.
Qed.

(** A thread's records are those it would output alone, up to an abort. *)
Lemma records_of_cons gettid r rs :
  records_of gettid (r :: rs) = (if decide (r.1 = gettid) then [r.2] else []) ++ records_of gettid rs.
Proof using Type. clear. unfold records_of. rewrite filter_cons. by destruct (decide _). Qed.

Lemma records_dead level evs : forall dead gettid,
  gettid ∈ dead -> records_of gettid (recs level dead evs) = [].
Proof using Type.
  clear. induction evs as [|ev evs IH]; intros dead gettid Hd; [done|].
  destruct ev as [t st|t| | |envs notice]; cbn [records]; try by apply IH.
  - destruct (decide (t ∈ dead)) as [|Ht]; [by apply IH|].
    destruct (macro_enabled _ _); [|by apply IH]. rewrite records_of_cons. cbn.
    rewrite decide_False by (intros ->; done). apply IH.
    destruct (st_fatal st); [by apply elem_of_union_r|done].
  - destruct (decide _); [done|]. by apply IH.
Qed.

Lemma records_thread level evs : forall dead gettid,
  gettid ∉ dead ->
  records_of gettid (recs level dead evs) `prefix_of`
    (rrun level gettid (statements_of gettid evs)).1 /\
  (aborts level dead evs = false ->
   records_of gettid (recs level dead evs) =
     (rrun level gettid (statements_of gettid evs)).1).
Proof using Type.
  clear. induction evs as [|ev evs IH]; intros dead gettid Hd; [done|].
  destruct ev as [t st|t| | |envs notice];
    cbn [records aborts statements_of omap list_omap]; try by apply IH.
  - fold (statements_of gettid evs). destruct (decide (t ∈ dead)) as [Ht|Ht].
    { rewrite decide_False by (intros ->; done). by apply IH. }
    destruct (decide (t = gettid)) as [->|Hne]; cbn [record_run].
    + destruct (macro_enabled level (st_macro st)); cbn [andb]; [|by apply IH].
      rewrite records_of_cons. cbn [fst snd]. rewrite decide_True by done.
      destruct (st_fatal st).
      * rewrite records_dead by (by apply elem_of_union_l, elem_of_singleton). done.
      * destruct (IH dead gettid Hd) as [IH1 IH2].
        destruct (rrun level gettid (statements_of gettid evs)) as [rs ab]. cbn in *.
        split; [by apply prefix_cons|]. intros Hab. by rewrite IH2.
    + destruct (macro_enabled level (st_macro st)); cbn [andb]; [|by apply IH].
      rewrite records_of_cons. cbn [fst snd]. rewrite decide_False by done. cbn [app].
      apply IH. destruct (st_fatal st); [|done].
      by rewrite not_elem_of_union, not_elem_of_singleton; split.
  - destruct (decide _); [|by apply IH]. split; [apply prefix_nil|done].
Qed.

(** Appending only touches the front end. *)
Lemma async_append_output (a a' : @AsyncLogging F) l : async_append memory a l = Ok a' -> output a' = output a.
Proof using Type.
  clear. unfold async_append. destruct (currentBuffer_ a); [|done].
  destruct (_ <? _); [|destruct (nextBuffer_ a)]; intros H; by inv_res.
Qed.
End Proofs.

(** The name of the log's files is the program's without directories. *)
Lemma main_basename_plain argv0 : x2f ∉ main_basename argv0.
Proof. apply SourceFile_plain. Qed.

Section Main.
Context (env : process_env).

#[local] Instance main_sink : Sink LogFile append_env := LogFile_sink env.
#[local] Instance main_sink_laws : SinkLaws LogFile append_env := LogFile_sink_laws env.

(** The process before its threads run. *)
Lemma main_log_ok localtime memory log_trace log_debug argc argv0 now :
  kSmallBuffer <= zlen memory < 2 ^ 31 -> 0 < now ->
  exists p, main_log env memory log_trace log_debug argc argv0 now = Ok p /\
    process_inv localtime memory [] p /\
    g_logLevel p = WARN /\ dying p = ∅ /\ aborted p = false.
Proof.
  intros Hm Hnow. unfold main_log, kSmallBuffer in *.
  assert (forall gettid, locals_ok localtime gettid locals_start) as Hl by (intros; apply locals_start_ok).
  destruct (1 <? argc).
  - unfold LogFile_ctor, rollFile. cbn [lastRoll_].
    rewrite find_byte_absent, assert_true by (apply main_basename_plain || lia). cbn [mbind res_bind].
    replace (0 <? now) with true by lia. cbn [fst]. eexists. split; [done|]. split; [|done].
    split; [|done|by intros gettid]. cbn [g_output setLogLevel setOutPut output_inv].
    match goal with |- async_inv _ _ (async_start _ ?log) =>
      refine (async_start_inv memory (zlen memory) eq_refl _ log _) end;
      [lia|by eexists].
  - eexists. split; [done|]. split; [|done]. split; [done..|by intros gettid].
Qed.

(** ** Properties *)

(** C13: logging of the web server's process: in every interleaving of the
    statements of any threads with the steps of the log's thread in which that
    thread never finds more than 25 buffers to write in one round
    (AsyncLogging.cc drops all but the first two then, which is not a part of
    this claim) and its [fwrite]s make progress, no assertion
    fails; what is written, followed by the bytes on their way, is exactly the
    records of the specification in the order they were output, with the
    asynchronous log or without; the records of each thread are those it would
    output alone (their times, thread, level and text never depend on the
    others), all of them unless a fatal record aborts the process; and while
    the log's thread runs, one more round of it, with at most 24 full buffers
    waiting, writes everything to the files. *)
Theorem log_system_correct {double} (format_g12 : double -> bytes) localtime strerror memory
    log_trace log_debug argc argv0 now (evs : list (@log_event append_env double)) :
  kSmallBuffer <= zlen memory < 2 ^ 31 -> 0 < now ->
  exists p0, main_log env memory log_trace log_debug argc argv0 now = Ok p0 /\
    (events_ok format_g12 localtime strerror memory p0 evs ->
     exists p, log_system_run format_g12 localtime strerror memory p0 evs = Ok p /\
       let rs := records format_g12 localtime strerror WARN ∅ evs in
       logged_bytes p = concat (map snd rs) /\
       aborted p = aborts WARN ∅ evs /\
       (forall gettid, 
          let own := (record_run format_g12 localtime strerror WARN gettid (statements_of gettid evs)).1 in
          records_of gettid rs `prefix_of` own /\ (aborted p = false -> records_of gettid rs = own)) /\
       forall a envs notice,
         g_output p = LogOutput a -> aborted p = false ->
         collected a = false -> exited a = false -> running_ a = true ->
         (length (buffers_ a) <= 24)%nat -> (forall k d, sink_env (envs k) d) ->
         exists p', log_system_run format_g12 localtime strerror memory p [EvCollect; EvWrite envs notice] = Ok p' /\
           written_bytes p' = concat (map snd rs)).
Proof.
  intros Hm Hnow.
  destruct (main_log_ok localtime memory log_trace log_debug argc argv0 now Hm Hnow) as (p0 & E0 & Hp0 & Hl0 & Hd0 & Ha0).
  exists p0. split; [done|]. intros Hok.
  destruct (log_run_inv format_g12 localtime strerror memory Hm evs [] p0 Hp0 Ha0 Hok) as (p & E & Hp & Ha).
  rewrite Hl0, Hd0 in *. exists p. split; [done|]. intros rs. fold rs in Hp. cbn [app] in Hp.
  split; [|split; [done|split]].
  - destruct Hp as [Ho _]. unfold logged_bytes. destruct (g_output p); [done|]. by destruct Ho.
  - intros gettid own. rewrite Ha. apply records_thread. set_solver.
  - intros a envs notice Eo Hab Hc He Hr Hlen Henv. destruct Hp as [Ho _]. rewrite Eo in Ho.
    unfold kSmallBuffer in Hm.
    destruct (round_drains memory (zlen memory) eq_refl ltac:(lia) _ a envs notice Ho Hc He Hr Hlen Henv)
      as (a' & Ea & Hw).
    cbn [async_run] in Ea. apply bind_ok_inv in Ea as (a1 & E1 & (a2 & E2 & [= ->])%bind_ok_inv).
    cbn [log_system_run]. unfold log_event_step. rewrite Eo, Hab. cbn [log_thread_op].
    rewrite E1. cbn [mbind res_bind aborted g_output]. rewrite E2. cbn [mbind res_bind]. eexists. split; [done|]. exact Hw.
Qed.

End Main.

(** C40: a fatal record goes to the asynchronous log only as far as its
    buffers: unless the log's thread gets in between, the process aborts
    before the record is written, since [g_flush] still flushes standard
    output; without the asynchronous log the record is written and flushed. *)
Theorem fatal_record_lost {F E} `{!Sink F E} `{!SinkLaws F E} {double} (format_g12 : double -> bytes)
    localtime strerror memory acc (p : @process F) gettid st :
  kSmallBuffer <= zlen memory < 2 ^ 31 -> process_inv localtime memory acc p ->
  aborted p = false -> gettid ∉ dying p ->
  0 < gettid < 2 ^ 31 -> st_ok format_g12 localtime strerror st -> st_fatal st = true ->
  exists p', log_system_run format_g12 localtime strerror memory p
      [EvStatement gettid st; EvAbort gettid] = Ok p' /\
    (forall evs, log_system_run format_g12 localtime strerror memory p' evs = Ok p') /\
    let msg := record_text format_g12 localtime strerror gettid st in
    match g_output p, g_output p' with
    | DefaultOutput s, DefaultOutput s' => std_flushed s' = std_written s ++ msg
    | LogOutput a, LogOutput a' => output a' = output a /\ exists rest, pending a' = rest ++ msg
    | _, _ => False
    end.
Proof.
  intros Hm [Ho Hfl Hl] Hab Hd Hg Hst Hf. set (msg := record_text _ _ _ _ _).
  assert (macro_enabled (g_logLevel p) (st_macro st) = true) as Hen.
  { unfold st_fatal in Hf. by destruct (st_macro st). }
  pose proof (record_zlen format_g12 localtime strerror gettid st Hg Hst) as Hz. fold msg in Hz.
  destruct (log_statement_ok format_g12 localtime strerror _ gettid st _ Hg (Hl gettid) Hst Hen) as (t' & E1 & _).
  fold msg in E1. destruct (output_call_ok memory Hm acc (g_output p) msg Ho Hz) as (o' & E2 & Ho').
  cbn [log_system_run]. unfold log_event_step at 2. rewrite Hab, decide_False by done.
  unfold log_in_thread. rewrite E1. cbn [mbind res_bind]. rewrite E2, Hf. cbn [mbind res_bind].
  unfold log_event_step. cbn [aborted dying]. rewrite Hab, decide_True by (apply elem_of_union_l; set_solver).
  cbn [mbind res_bind]. eexists. split; [done|]. split; [intros evs; by apply run_aborted|].
  cbn [log_abort g_output g_flush]. rewrite Hfl. unfold kSmallBuffer in *.
  destruct (g_output p) as [s|a]; cbn [output_call] in E2; inv_res; cbn [flush_call]; [done|].
  split; [by eapply async_append_output|].
  destruct (async_append_frame memory (zlen memory) eq_refl ltac:(lia) acc a msg _ Ho ltac:(lia) Hr)
    as (_ & _ & Hw & rest & Hrest).
  unfold pending. rewrite Hrest. eexists. by rewrite app_assoc.
Qed.

(** ** Concrete inputs: two threads of a program called with an argument *)

Definition sys_memory : bytes := replicate 4000 x00.

Definition sys_events : list (@log_event append_env bool) :=
  [EvStatement 4711 (demo_statement LOG_WARN 1720521665000250 [LInt 1]);
   EvStatement 4712 (demo_statement LOG_ERROR 1720521665000260 [LInt 2]);
   EvCollect;
   EvStatement 4711 (demo_statement LOG_INFO 1720521665000270 [LInt 3]);
   EvStatement 4711 (demo_statement LOG_WARN 1720521667000000 [LInt 4]);
   EvWrite demo_env [];
   EvStatement 4712 (demo_statement LOG_FATAL 1720521667000001 []);
   EvStatement 4712 (demo_statement LOG_WARN 1720521667000002 []);
   EvAbort 4712;
   EvStatement 4711 (demo_statement LOG_WARN 1720521667000003 [])].

#[local] Instance sys_sink : Sink LogFile append_env := LogFile_sink log_env.
#[local] Instance sys_laws : SinkLaws LogFile append_env := LogFile_sink_laws log_env.

Definition sys_start (argc : Z) : process :=
  match main_log log_env sys_memory false false argc (lit "./bin/web") 1720521600 with
  | Ok p => p
  | Err _ => process_start false false
  end.

Abbreviation sys_run := (log_system_run demo_fmt demo_localtime demo_strerror sys_memory).

(** Along a run that is evaluated. *)
Lemma events_ok_step (p : @process LogFile) ev evs p1 :
  event_ok demo_fmt demo_localtime demo_strerror sys_memory p ev ->
  log_event_step demo_fmt demo_localtime demo_strerror sys_memory p ev = Ok p1 ->
  events_ok demo_fmt demo_localtime demo_strerror sys_memory p1 evs ->
  events_ok demo_fmt demo_localtime demo_strerror sys_memory p (ev :: evs).
Proof. intros H1 H2 H3. split; [done|]. by rewrite H2. Qed.

Lemma demo_event_ok (p : @process LogFile) gettid m now ops :
  0 < gettid < 2 ^ 31 -> kMicroSecondsPerSecond <= now < 2 ^ 63 -> Forall (put_op_ok demo_fmt) ops ->
  event_ok (E := append_env) demo_fmt demo_localtime demo_strerror sys_memory p
    (EvStatement gettid (demo_statement m now ops)).
Proof. intros Hg Hn Hops. split; [done|]. by apply demo_st_ok. Qed.

Lemma sys_events_ok : events_ok demo_fmt demo_localtime demo_strerror sys_memory (sys_start 2) sys_events.
Proof.
  unfold sys_events.
  do 10 (eapply events_ok_step;
    [first [exact I
           | apply demo_event_ok; [lia|done|repeat constructor; done]
           | split; [apply Nat.leb_le; vm_compute; reflexivity | exact demo_env_ok]]
    | vm_compute; reflexivity |]).
  exact I.
Qed.

Lemma log_system_correct_witness :
  exists p0 p, main_log log_env sys_memory false false 2 (lit "./bin/web") 1720521600 = Ok p0 /\
    sys_run p0 sys_events = Ok p /\ aborted p = true /\
    logged_bytes p =
      lit "20240709 10:41:05.000250   4711 WARN  1 - TcpServer.cc:61" ++ [LF] ++
      lit "20240709 10:41:05.000260   4712 ERROR 2 - TcpServer.cc:61" ++ [LF] ++
      lit "20240709 10:41:07.000000   4711 WARN  4 - TcpServer.cc:61" ++ [LF] ++
      lit "20240709 10:41:07.000001   4712 FATAL  - TcpServer.cc:61" ++ [LF].
Proof.
  destruct (log_system_correct log_env demo_fmt demo_localtime demo_strerror sys_memory false false 2 (lit "./bin/web")
    1720521600 sys_events) as (p0 & E0 & H); [by vm_compute|done|].
  assert (p0 = sys_start 2) as -> by (unfold sys_start; by rewrite E0).
  destruct (H sys_events_ok) as (p & E & Hb & Ha & _). exists (sys_start 2), p.
  split; [exact E0|]. split; [exact E|]. split; [by rewrite Ha|].
  etransitivity; [exact Hb|by vm_compute].
Defined.

Lemma sys_start_inv : process_inv demo_localtime sys_memory [] (sys_start 2).
Proof.
  destruct (main_log_ok log_env demo_localtime sys_memory false false 2 (lit "./bin/web") 1720521600)
    as (p & E & Hp & _); [by vm_compute|done|]. unfold sys_start. by rewrite E.
Qed.

Lemma fatal_record_lost_witness :
  exists p', sys_run (sys_start 2)
      [EvStatement 4712 (demo_statement LOG_FATAL 1720521667000001 []); EvAbort 4712] = Ok p' /\
    written_bytes p' = [] /\
    logged_bytes p' = lit "20240709 10:41:07.000001   4712 FATAL  - TcpServer.cc:61" ++ [LF].
Proof.
  destruct (fatal_record_lost demo_fmt demo_localtime demo_strerror sys_memory [] (sys_start 2) 4712
    (demo_statement LOG_FATAL 1720521667000001 [])) as (p' & E & _ & H);
    [by vm_compute|exact sys_start_inv|by vm_compute|by vm_compute|lia| |by vm_compute|].
  { apply demo_st_ok; [done|constructor]. }
  exists p'. split; [exact E|]. revert E. vm_compute. intros [= <-]. by split.
Defined.
