(* ===== verification/TcpClient.v ===== *)
(** * The client: tmuduo/net/TcpClient.h and TcpClient.cc

    A client is a connector and at most one current connection.  The model
    composes the models of [Connector] and [TcpConnection]: the sockets that
    the connector hands over become connections, and the close callback of a
    connection is the client's [removeConnection], which may start the
    connector again.  [TcpConnectionPtr] is an index into the connections made
    so far. *)

From S2P Require Import Prelude Format Buffer Channel Poller Connector TcpConnection.

(** A connection object with its name, its socket, and whether
    [connectionDestroyed] has run. *)
Record client_conn := mkClientConn {
  cc_name : bytes;
  cc_fd : Z;
  cc_conn : TcpConnection;
  cc_destroyed : bool
}.

(** [hostport_] is [peerAddr.toIpPort()]; [conns] are the connections made,
    and [pending] the [connectionDestroyed] functors in the loop's queue.
    [alive] is whether the object exists. *)
Record TcpClient := mkClient {
  connector_ : Connector;
  name_ : bytes;
  hostport_ : bytes;
  retry_ : bool;
  connect_ : bool;
  nextConnId_ : Z;
  connection_ : option nat;
  conns : list client_conn;
  pending : list nat;
  alive : bool
}.

Definition TcpClient_ctor (hostport name : bytes) : TcpClient :=
  mkClient Connector_ctor name hostport false true 1 None [] [] true.

Definition setConnector (cl : TcpClient) (c : Connector) : TcpClient :=
  mkClient c (name_ cl) (hostport_ cl) (retry_ cl) (connect_ cl) (nextConnId_ cl) (connection_ cl)
    (conns cl) (pending cl) (alive cl).
Definition setConnect (cl : TcpClient) (b : bool) : TcpClient :=
  mkClient (connector_ cl) (name_ cl) (hostport_ cl) (retry_ cl) b (nextConnId_ cl) (connection_ cl)
    (conns cl) (pending cl) (alive cl).
Definition setConnection (cl : TcpClient) (i : option nat) : TcpClient :=
  mkClient (connector_ cl) (name_ cl) (hostport_ cl) (retry_ cl) (connect_ cl) (nextConnId_ cl) i
    (conns cl) (pending cl) (alive cl).
Definition setConns (cl : TcpClient) (cs : list client_conn) : TcpClient :=
  mkClient (connector_ cl) (name_ cl) (hostport_ cl) (retry_ cl) (connect_ cl) (nextConnId_ cl)
    (connection_ cl) cs (pending cl) (alive cl).
Definition setPending (cl : TcpClient) (p : list nat) : TcpClient :=
  mkClient (connector_ cl) (name_ cl) (hostport_ cl) (retry_ cl) (connect_ cl) (nextConnId_ cl)
    (connection_ cl) (conns cl) p (alive cl).

Definition setConn (cl : TcpClient) (i : nat) (cc : client_conn) (c : TcpConnection) : TcpClient :=
  setConns cl (<[i := mkClientConn (cc_name cc) (cc_fd cc) c (cc_destroyed cc)]> (conns cl)).

Definition retry (cl : TcpClient) : bool := retry_ cl.
Definition connection (cl : TcpClient) : option nat := connection_ cl.
Definition enableRetry (cl : TcpClient) : TcpClient :=
  mkClient (connector_ cl) (name_ cl) (hostport_ cl) true (connect_ cl) (nextConnId_ cl) (connection_ cl)
    (conns cl) (pending cl) (alive cl).

(** ** Operations

    [sockfd] and [savedErrno] are what socket(2) and connect(2) return when
    the connector gets that far. *)

Definition connect (in_loop : bool) (cl : TcpClient) (sockfd savedErrno : Z) : res TcpClient :=
  let cl := setConnect cl true in
  c ← Connector.start in_loop (connector_ cl) sockfd savedErrno;
  Ok (setConnector cl c).

Definition disconnect (in_loop : bool) (cl : TcpClient) : res TcpClient :=
  let cl := setConnect cl false in
  match connection_ cl with
  | Some i =>
      match conns cl !! i with
      | Some cc =>
          c ← TcpConnection.shutdown in_loop (cc_conn cc);
          Ok (setConn cl i cc c)
      | None => Err UseAfterFree
      end
  | None => Ok cl
  end.

Definition stop (in_loop : bool) (cl : TcpClient) : res TcpClient :=
  let cl := setConnect cl false in
  c ← Connector.stop in_loop (connector_ cl);
  Ok (setConnector cl c).

(** [snprintf(buf, sizeof(buf), ":%s#%d", ...)] with a buffer of 32 bytes. *)
Definition full_suffix (hostport : bytes) (id : Z) : bytes := lit ":" ++ hostport ++ lit "#" ++ print_d id.
Definition connName (cl : TcpClient) : bytes :=
  name_ cl ++ snprintf 32 (full_suffix (hostport_ cl) (nextConnId_ cl)).

Section Client.

(** Whether the application set a write-complete callback. *)
Context (writeCompleteCallback_ : bool).

Definition newConnection (in_loop : bool) (cl : TcpClient) (sockfd : Z) : res TcpClient :=
  assertInLoopThread in_loop;;
  guard_ UseAfterFree (alive cl);;
  let connName := connName cl in
  guard_ IntOverflow (nextConnId_ cl + 1 <? 2 ^ 31);;
  conn ← TcpConnection_ctor 0 sockfd;
  let conn := setWriteCompleteCallback conn writeCompleteCallback_ in
  let i := length (conns cl) in
  let cl := mkClient (connector_ cl) (name_ cl) (hostport_ cl) (retry_ cl) (connect_ cl)
              (nextConnId_ cl + 1) (Some i) (conns cl) (pending cl) (alive cl) in
  conn ← connectionEstablished in_loop conn;
  Ok (setConns cl (conns cl ++ [mkClientConn connName sockfd conn false])).

Definition removeConnection (in_loop : bool) (cl : TcpClient) (i : nat) (sockfd savedErrno : Z)
    : res TcpClient :=
  assertInLoopThread in_loop;;
  assert_ (bool_decide (connection_ cl = Some i));;
  let cl := setConnection cl None in
  let cl := setPending cl (pending cl ++ [i]) in
  if retry_ cl && connect_ cl then
    c ← restart (connector_ cl) sockfd savedErrno;
    Ok (setConnector cl c)
  else Ok cl.

(** [detail::removeConnection], the close callback that outlives the client. *)
Definition detail_removeConnection (cl : TcpClient) (i : nat) : TcpClient :=
  setPending cl (pending cl ++ [i]).

(** The destructor in the loop's thread: a current connection gets the other
    close callback, otherwise the connector is stopped. *)
Definition TcpClient_dtor (in_loop : bool) (cl : TcpClient) : res TcpClient :=
  cl ← match connection_ cl with
       | Some _ => Ok cl
       | None => c ← Connector.stop in_loop (connector_ cl); Ok (setConnector cl c)
       end;
  Ok (mkClient (connector_ cl) (name_ cl) (hostport_ cl) (retry_ cl) (connect_ cl) (nextConnId_ cl)
        (connection_ cl) (conns cl) (pending cl) false).

(** ** Events of the loop *)

(** An event of the connector; the socket it hands over, which is the last
    thing [Connector::handleWrite] does, goes to [newConnection]. *)
Definition connector_event (cl : TcpClient) (op : connector_op) : res TcpClient :=
  c ← Connector.step (connector_ cl) op;
  let fds := drop (length (handed (connector_ cl))) (handed c) in
  let cl := setConnector cl c in
  match fds with
  | fd :: _ => newConnection true cl fd
  | [] => Ok cl
  end.

(** Whether an operation has called the close callback, which is the last
    thing [TcpConnection::handleClose] does. *)
Definition close_calls (c : TcpConnection) : nat :=
  count_occ conn_event_eq_dec (TcpConnection.events_ c) EvClose.
Definition closes (c c' : TcpConnection) : bool := bool_decide (close_calls c < close_calls c')%nat.

Definition conn_event (cl : TcpClient) (i : nat) (op : conn_op) (sockfd savedErrno : Z)
    : res TcpClient :=
  match conns cl !! i with
  | None => Err UseAfterFree
  | Some cc =>
      c ← conn_step (cc_conn cc) op;
      let cl := setConn cl i cc c in
      if closes (cc_conn cc) c then
        if alive cl then removeConnection true cl i sockfd savedErrno
        else Ok (detail_removeConnection cl i)
      else Ok cl
  end.

(** The next [connectionDestroyed] in the queue. *)
Definition run_pending (cl : TcpClient) : res TcpClient :=
  match pending cl with
  | [] => Ok cl
  | i :: p =>
      match conns cl !! i with
      | None => Err UseAfterFree
      | Some cc =>
          c ← connectionDestroyed true (cc_conn cc);
          Ok (setPending
                (setConns cl (<[i := mkClientConn (cc_name cc) (cc_fd cc) c true]> (conns cl))) p)
      end
  end.

Inductive client_op :=
| ClConnect (in_loop : bool) (sockfd savedErrno : Z)
| ClDisconnect (in_loop : bool)
| ClStop (in_loop : bool)
| ClEnableRetry
| ClConnector (op : connector_op)
| ClConn (i : nat) (op : conn_op) (sockfd savedErrno : Z)
| ClPending.

Definition client_step (cl : TcpClient) (op : client_op) : res TcpClient :=
  match op with
  | ClConnect in_loop fd e => connect in_loop cl fd e
  | ClDisconnect in_loop => disconnect in_loop cl
  | ClStop in_loop => stop in_loop cl
  | ClEnableRetry => Ok (enableRetry cl)
  | ClConnector op => connector_event cl op
  | ClConn i op fd e => conn_event cl i op fd e
  | ClPending => run_pending cl
  end.

Fixpoint client_run (cl : TcpClient) (ops : list client_op) : res TcpClient :=
  match ops with
  | [] => Ok cl
  | op :: ops => cl ← client_step cl op; client_run cl ops
  end.

(** ** Invariant *)

Record conn_good (cc : client_conn) : Prop := {
  good_inv : exists acc, conn_inv acc (cc_conn cc);
  good_life : List.filter is_life (TcpConnection.events_ (cc_conn cc)) =
    life_calls (TcpConnection.state_ (cc_conn cc))
}.

Definition up (c : TcpConnection) : Prop :=
  TcpConnection.state_ c = TcpConnection.kConnected \/ TcpConnection.state_ c = kDisconnecting.

Record client_inv (cl : TcpClient) : Prop := {
  ci_connector : connector_inv (connector_ cl);
  ci_conns : forall i cc, conns cl !! i = Some cc -> conn_good cc;
  (** The current connection is up, and the connector is done with it. *)
  ci_current : forall i, connection_ cl = Some i ->
    Connector.state_ (connector_ cl) = Connector.kConnected /\
    exists cc, conns cl !! i = Some cc /\ up (cc_conn cc) /\ cc_destroyed cc = false;
  (** Without retries the connector never leaves the connected state. *)
  ci_settled : retry_ cl = false -> conns cl <> [] ->
    Connector.state_ (connector_ cl) = Connector.kConnected;
  (** Every other one is down, and destroyed or about to be. *)
  ci_others : forall i cc, conns cl !! i = Some cc -> connection_ cl <> Some i ->
    TcpConnection.state_ (cc_conn cc) = TcpConnection.kDisconnected /\
    (cc_destroyed cc = true <-> i ∉ pending cl);
  ci_pending : NoDup (pending cl) /\
    forall i, i ∈ pending cl -> (i < length (conns cl))%nat /\ connection_ cl <> Some i;
  ci_handed : handed (connector_ cl) = map cc_fd (conns cl);
  ci_names : map cc_name (conns cl) =
    map (fun k => name_ cl ++ snprintf 32 (full_suffix (hostport_ cl) (Z.of_nat k)))
      (seq 1 (length (conns cl)));
  ci_id : nextConnId_ cl = Z.of_nat (length (conns cl)) + 1;
  ci_alive : alive cl = true
}.

(** The events of the connector that the loop delivers. *)
Definition loop_event (op : connector_op) : bool :=
  match op with OpStart _ _ _ | OpStop _ | OpRestart _ _ => false | _ => true end.

(** Events come in order: the connector is started when it may be, and a
    connection that is replaced closes after the channel of the connector has
    been reset, which is queued when the connection is made.  A connection is
    destroyed by the functor that [removeConnection] queues. *)
Definition client_op_ok (cl : TcpClient) (op : client_op) : Prop :=
  match op with
  | ClConnect in_loop fd e => Connector.op_ok (connector_ cl) (OpStart in_loop fd e)
  | ClConnector op =>
      loop_event op = true /\ Connector.op_ok (connector_ cl) op /\ nextConnId_ cl + 1 < 2 ^ 31
  | ClConn i op _ _ => exists cc, conns cl !! i = Some cc /\ TcpConnection.op_ok (cc_conn cc) op /\
      op <> OpDestroyed /\
      (retry_ cl && connect_ cl = true -> connection_ cl = Some i -> Connector.channel_ (connector_ cl) = None)
  | _ => True
  end.

Fixpoint client_run_ok (cl : TcpClient) (ops : list client_op) : Prop :=
  match ops with
  | [] => True
  | op :: ops => client_op_ok cl op /\ forall cl', client_step cl op = Ok cl' -> client_run_ok cl' ops
  end.

(** ** The connector's side *)

Lemma connecting_handed c fd c' : connecting c fd = Ok c' -> handed c' = handed c.
Proof. unfold connecting. intros H. inv_res. done. Qed.

Lemma retry_handed c fd : handed (Connector.retry c fd) = handed c.
Proof. unfold Connector.retry. by destruct (Connector.connect_ _). Qed.

Lemma startInLoop_handed c fd e c' : startInLoop c fd e = Ok c' -> handed c' = handed c.
Proof.
  unfold startInLoop. intros H. inv_res. destruct (Connector.connect_ c); inv_res; [|done].
  unfold Connector.connect in H. case_bool_decide; [by apply connecting_handed in H|].
  case_bool_decide; inv_res; [by rewrite retry_handed|done].
Qed.

Lemma removeAndReset_handed c c' fd : removeAndResetChannel c = Ok (c', fd) -> handed c' = handed c.
Proof.
  unfold removeAndResetChannel. destruct (Connector.channel_ c); [|done].
  intros ([] & _ & [= <- <-])%bind_ok_inv. done.
Qed.

Lemma stopInLoop_handed c c' : stopInLoop c = Ok c' -> handed c' = handed c.
Proof.
  unfold stopInLoop. case_bool_decide; [|by intros [= <-]]. intros ((c1 & fd) & E & [= <-])%bind_ok_inv.
  rewrite retry_handed. by rewrite (removeAndReset_handed _ _ _ E).
Qed.

Lemma handleError_handed c c' : Connector.handleError c = Ok c' -> handed c' = handed c /\ Connector.state_ c' <> Connector.kConnecting.
Proof.
  unfold Connector.handleError. intros ([] & _ & ((c1 & fd) & E & [= <-])%bind_ok_inv)%bind_ok_inv.
  rewrite retry_handed. split; [by apply removeAndReset_handed in E|].
  unfold Connector.retry. by destruct (Connector.connect_ _).
Qed.

Lemma handleWrite_handed c err self c' :
  Connector.handleWrite c err self = Ok c' ->
  handed c' = handed c \/
  exists fd, handed c' = handed c ++ [fd] /\ Connector.state_ c = Connector.kConnecting /\
    Connector.state_ c' = Connector.kConnected.
Proof.
  unfold Connector.handleWrite. case_bool_decide as Hst.
  - intros ((c1 & fd) & E & H)%bind_ok_inv. pose proof (removeAndReset_handed _ _ _ E) as Hh.
    destruct (negb (err =? 0)); [injection H as <-; left; by rewrite retry_handed|].
    destruct self; [injection H as <-; left; by rewrite retry_handed|].
    injection H as <-. cbn [Connector.connect_ Connector.setState].
    destruct (Connector.connect_ c1); [right|left]; cbn; [|done]. exists fd. by rewrite Hh.
  - intros H. inv_res. by left.
Qed.

(** A step hands over at most one socket, and is then connected. *)
Lemma step_handed c op c' :
  connector_inv c -> Connector.step c op = Ok c' ->
  handed c' = handed c \/
  exists fd, handed c' = handed c ++ [fd] /\ Connector.state_ c = Connector.kConnecting /\ Connector.state_ c' = Connector.kConnected.
Proof.
  intros Hi. destruct op as [in_loop fd e|in_loop|fd e|r err self|fd e|fd e]; cbn [Connector.step].
  - unfold Connector.start. destruct in_loop; [|intros [= <-]; by left]. intros H%startInLoop_handed. by left.
  - unfold Connector.stop. destruct in_loop; [|intros [= <-]; by left]. intros H%stopInLoop_handed. by left.
  - unfold restart. intros H%startInLoop_handed. by left.
  - destruct (channel_event_cases c r err self) as [->|((ch & Hch & Hn) & error & write & ->)];
      [intros [= <-]; by left|]. intros (c1 & E1 & E2)%bind_ok_inv.
    destruct error; [|injection E1 as <-; destruct write; [by apply handleWrite_handed in E2|injection E2 as <-; by left]].
    apply handleError_handed in E1 as [<- Hs]. destruct write; [|injection E2 as <-; by left].
    apply handleWrite_handed in E2 as [|(fd & _ & H & _)]; [by left|done].
  - destruct (Connector.queued c) as [|[| |] q]; cbn [Connector.run_functor]; [intros [= <-]; by left| | |].
    + intros H%startInLoop_handed. by left.
    + intros H%stopInLoop_handed. by left.
    + intros [= <-]. by left.
  - destruct (timers c); [intros [= <-]; by left|]. intros H%startInLoop_handed. by left.
Qed.

(** A connected connector stays so until it is restarted. *)
Lemma step_connected c op c' :
  connector_inv c -> Connector.step c op = Ok c' -> Connector.op_ok c op ->
  Connector.state_ c = Connector.kConnected ->
  (forall fd e, op <> OpRestart fd e) -> Connector.state_ c' = Connector.kConnected.
Proof.
  intros Hi E [_ Hok] Hs Hr.
  destruct (Connector.starts c op) as [[cs e]|] eqn:Es.
  { destruct Hok. left. destruct op as [[] fd e'|in_loop|fd e'|r err self|fd e'|fd e']; cbn in Es; try done.
    - injection Es as <- _. cbn. congruence.
    - by destruct (Hr fd e').
    - destruct (Connector.queued c) as [|[] q]; try done. injection Es as <- _. cbn. congruence.
    - destruct (timers c); [done|]. injection Es as <- _. cbn. congruence. }
  destruct op as [[] fd e|in_loop|fd e|r err self|fd e|fd e]; cbn in E, Es; try done.
  - by injection E as <-.
  - unfold Connector.stop in E. destruct in_loop; [|by injection E as <-].
    unfold stopInLoop in E. cbn in E. rewrite Hs in E. by injection E as <-.
  - destruct (channel_event_cases c r err self) as [Ec|((ch & Hch & Hn) & _)]; [congruence|].
    pose proof (inv_watched _ Hi ch Hch Hn). congruence.
  - destruct (Connector.queued c) as [|[| |] q]; cbn in E; [congruence|done| |].
    + unfold stopInLoop in E. cbn in E. rewrite Hs in E. by injection E as <-.
    + by injection E as <-.
  - destruct (timers c); [congruence|done].
Qed.

(** ** The connections' side *)

Lemma count_life l :
  count_occ conn_event_eq_dec l EvClose = count_occ conn_event_eq_dec (List.filter is_life l) EvClose.
Proof. induction l as [|e l IH]; [done|]. destruct e; cbn; by rewrite IH. Qed.

Lemma close_calls_state cc : conn_good cc ->
  close_calls (cc_conn cc) =
    if bool_decide (TcpConnection.state_ (cc_conn cc) = TcpConnection.kDisconnected) then 1%nat else 0%nat.
Proof.
  intros [_ Hl]. unfold close_calls. rewrite count_life, Hl. by destruct (TcpConnection.state_ (cc_conn cc)).
Qed.

Lemma closes_iff cc cc' : conn_good cc -> conn_good cc' ->
  closes (cc_conn cc) (cc_conn cc') = true <->
  TcpConnection.state_ (cc_conn cc) <> TcpConnection.kDisconnected /\
  TcpConnection.state_ (cc_conn cc') = TcpConnection.kDisconnected.
Proof.
  intros H1 H2. unfold closes. rewrite !close_calls_state, bool_decide_eq_true by done.
  repeat case_bool_decide; split; intros; try lia; try tauto; split; done || lia.
Qed.

(** A step on a connection that is not being set up. *)
Lemma conn_step_good cc op :
  conn_good cc -> TcpConnection.op_ok (cc_conn cc) op -> op <> OpDestroyed ->
  exists c, conn_step (cc_conn cc) op = Ok c /\
    conn_good (mkClientConn (cc_name cc) (cc_fd cc) c (cc_destroyed cc)) /\
    (up (cc_conn cc) -> up c \/ TcpConnection.state_ c = TcpConnection.kDisconnected) /\
    (TcpConnection.state_ (cc_conn cc) = TcpConnection.kDisconnected ->
     TcpConnection.state_ c = TcpConnection.kDisconnected).
Proof.
  intros [(acc & Hi) Hl] Hok Hop. destruct (conn_step_ok acc _ op Hi Hok) as (c & E & Hi').
  apply op_ok_any in Hok as Hany. exists c. split; [done|].
  destruct (step_life acc _ op c Hi Hany E) as [Hs|[Hs _]].
  - unfold life in Hs. injection Hs as Hs1 Hs2. split; [|unfold up; rewrite Hs1; tauto].
    split; [by eexists|]. cbn. by rewrite Hs2, Hs1.
  - pose proof (step_closes acc _ op c Hi Hany E Hop) as Hcl. unfold life in Hs, Hcl. cbn [snd] in Hcl.
    assert (List.filter is_life (TcpConnection.events_ c) = life_calls (TcpConnection.state_ c) /\
      (TcpConnection.state_ (cc_conn cc) <> TcpConnection.kDisconnected) /\
      (up (cc_conn cc) -> up c \/ TcpConnection.state_ c = TcpConnection.kDisconnected)) as (Hf & Hn & Hu).
    { unfold up. rewrite Hl in Hs, Hcl. revert Hs Hcl.
      generalize (TcpConnection.state_ (cc_conn cc)) (TcpConnection.state_ c)
        (List.filter is_life (TcpConnection.events_ c)).
      intros s s' l Hs Hcl.
      inversion Hs as [l0|l0|s0 l0 [-> | ->]|l0]; subst; (split; [try done|]); try (split; tauto || done).
      by specialize (Hcl ltac:(done) eq_refl). }
    split; [split; [by eexists|done]|]. split; [done|]. intros E1. by destruct Hn.
Qed.

(** The same step for the connection of a new socket. *)
Lemma established_good sockfd name :
  exists c0 c, TcpConnection_ctor 0 sockfd = Ok c0 /\
    connectionEstablished true (setWriteCompleteCallback c0 writeCompleteCallback_) = Ok c /\
    conn_good (mkClientConn name sockfd c false) /\ TcpConnection.state_ c = TcpConnection.kConnected.
Proof.
  destruct (TcpConnection_ctor 0 sockfd) as [c0|] eqn:E0; [|done].
  set (c1 := setWriteCompleteCallback c0 writeCompleteCallback_).
  assert (new_connection 0 sockfd writeCompleteCallback_ false (64 * 1024 * 1024) = Ok c1) as En
    by (unfold new_connection; rewrite E0; cbn; injection E0 as <-; done).
  pose proof (new_connection_inv _ _ _ _ _ _ En) as Hi.
  assert (TcpConnection.state_ c1 = TcpConnection.kConnecting) as Hs by (by injection E0 as <-).
  assert (TcpConnection.events_ c1 = []) as He by (by injection E0 as <-).
  destruct (connectionEstablished_ok [] c1 Hi Hs) as (c & E & Hi' & Hs').
  exists c0, c. split; [done|]. split; [done|]. split; [|done].
  split; [by eexists|]. pose proof (established_life _ _ E Hs) as Hl.
  cbn. rewrite Hs'. unfold life in Hl. rewrite Hs, Hs', He in Hl. cbn in Hl. by inversion Hl.
Qed.

(** ** Preservation *)

Lemma connector_frame cl c :
  client_inv cl -> connector_inv c -> handed c = handed (connector_ cl) ->
  (forall i, connection_ cl = Some i -> Connector.state_ c = Connector.kConnected) ->
  (retry_ cl = false -> conns cl <> [] -> Connector.state_ c = Connector.kConnected) ->
  client_inv (setConnector cl c).
Proof.
  intros [] Hc Hh Hs Hs2. split; cbn; try done; [|congruence].
  intros i Hi. split; [by eapply Hs|]. by eapply ci_current0.
Qed.

(** A connector step that hands nothing over. *)
Lemma connector_step cl op c :
  client_inv cl -> Connector.op_ok (connector_ cl) op -> (forall fd e, op <> OpRestart fd e) ->
  Connector.step (connector_ cl) op = Ok c -> handed c = handed (connector_ cl) ->
  client_inv (setConnector cl c).
Proof.
  intros Hi Hok Hr E Hh. destruct (step_ok _ op (ci_connector _ Hi) Hok) as (c' & E' & Hc).
  rewrite E in E'. injection E' as <-. apply connector_frame; try done.
  - intros i Hcn. eapply step_connected; [apply (ci_connector _ Hi)|done|done| |done]. by eapply ci_current.
  - intros H1 H2. eapply step_connected; [apply (ci_connector _ Hi)|done|done| |done]. by apply ci_settled.
Qed.

Lemma lookup_last {A} (l : list A) x j y :
  (l ++ [x]) !! j = Some y -> (l !! j = Some y /\ (j < length l)%nat) \/ (j = length l /\ y = x).
Proof.
  rewrite lookup_app. destruct (l !! j) eqn:E; [intros [= <-]; left; split; [done|by eapply lookup_lt_Some]|].
  intros H. right. apply lookup_ge_None in E.
  destruct (j - length l)%nat eqn:Ej; [|done]. injection H as <-. split; [lia|done].
Qed.

Lemma new_connection_ok cl c sockfd :
  client_inv cl -> connection_ cl = None -> connector_inv c ->
  handed c = handed (connector_ cl) ++ [sockfd] -> Connector.state_ c = Connector.kConnected ->
  nextConnId_ cl + 1 < 2 ^ 31 ->
  exists cl', newConnection true (setConnector cl c) sockfd = Ok cl' /\ client_inv cl'.
Proof.
  intros [] Hn Hc Hh Hs Hid. unfold newConnection. cbn [assertInLoopThread guard_ mbind res_bind setConnector alive nextConnId_].
  rewrite ci_alive0. cbn [guard_ mbind res_bind]. rewrite guard_true by lia. cbn [mbind res_bind].
  set (name := connName _). destruct (established_good sockfd name) as (c0 & c1 & E0 & E1 & Hg & Hs1).
  rewrite E0. cbn [mbind res_bind]. rewrite E1. cbn [mbind res_bind].
  eexists. split; [done|]. split; cbn.
  - done.
  - intros i cc [[Hi _]|[-> ->]]%lookup_last; [by eapply ci_conns0|done].
  - intros i [= <-]. split; [done|]. eexists. rewrite lookup_app_r, Nat.sub_diag by done.
    split; [done|]. split; [by left|done].
  - done.
  - intros i cc [[Hi Hlt]|[-> ->]]%lookup_last Hne; [|done]. apply ci_others0; [done|by rewrite Hn].
  - destruct ci_pending0 as [Hnd Hp]. split; [done|]. intros i Hi. rewrite length_app. cbn.
    destruct (Hp i Hi) as [Hlt _]. split; [lia|]. intros [= <-]. lia.
  - rewrite Hh, map_app, ci_handed0. done.
  - rewrite map_app, ci_names0, length_app, Nat.add_1_r, seq_S, map_app. cbn. f_equal. f_equal.
    unfold name, connName. cbn. rewrite ci_id0.
    by replace (Z.of_nat (S (length (conns cl)))) with (Z.of_nat (length (conns cl)) + 1) by lia.
  - rewrite length_app. cbn. lia.
  - done.
Qed.

Lemma map_insert_same {A B} (f : A -> B) l i x y :
  l !! i = Some x -> f y = f x -> map f (<[i := y]> l) = map f l.
Proof.
  revert i. induction l as [|a l IH]; intros [|i]; cbn; try done.
  - by intros [= ->] ->.
  - intros Hx Hy. f_equal. by apply IH.
Qed.

Lemma insert_nonempty {A} (l : list A) i x : <[i := x]> l <> [] -> l <> [].
Proof. by destruct l. Qed.

(** Replacing the state of a connection. *)
Lemma setConn_ok cl i cc c :
  client_inv cl -> conns cl !! i = Some cc ->
  conn_good (mkClientConn (cc_name cc) (cc_fd cc) c (cc_destroyed cc)) ->
  (connection_ cl = Some i -> up c) ->
  (connection_ cl <> Some i -> TcpConnection.state_ c = TcpConnection.kDisconnected) ->
  client_inv (setConn cl i cc c).
Proof.
  intros [] Hcc Hg Hup Hdown. pose proof (lookup_lt_Some _ _ _ Hcc) as Hlt.
  assert (map cc_fd (conns (setConn cl i cc c)) = map cc_fd (conns cl)) as Hfd
    by by apply (map_insert_same _ _ _ cc).
  assert (map cc_name (conns (setConn cl i cc c)) = map cc_name (conns cl)) as Hnm
    by by apply (map_insert_same _ _ _ cc).
  assert (length (conns (setConn cl i cc c)) = length (conns cl)) as Hlen by apply length_insert.
  split; try done.
  - cbn. intros j cc' [(_ & <- & _)|[_ Hj]]%list_lookup_insert_Some; [done|by eapply ci_conns0].
  - cbn. intros j Hj. destruct (ci_current0 j Hj) as (Hs & cc' & Hcc' & Hu & Hd). split; [done|].
    destruct (decide (j = i)) as [->|Hne].
    + eexists. rewrite list_lookup_insert_eq by done. split; [done|]. split; [by apply Hup|].
      cbn. congruence.
    + exists cc'. by rewrite list_lookup_insert_ne.
  - cbn. intros H1 H2%insert_nonempty. by apply ci_settled0.
  - cbn. intros j cc' [(<- & <- & _)|[_ Hj]]%list_lookup_insert_Some Hne; [|by eapply ci_others0].
    split; [by apply Hdown|]. cbn. by apply (ci_others0 i cc).
  - destruct ci_pending0 as [Hnd Hp]. split; [done|]. rewrite Hlen. exact Hp.
  - rewrite Hfd. done.
  - rewrite Hnm, Hlen. done.
  - rewrite Hlen. done.
Qed.

(** The current connection has gone down: it is queued for destruction. *)
Lemma detach_ok cl i cc c :
  client_inv cl -> connection_ cl = Some i -> conns cl !! i = Some cc ->
  conn_good (mkClientConn (cc_name cc) (cc_fd cc) c (cc_destroyed cc)) ->
  TcpConnection.state_ c = TcpConnection.kDisconnected ->
  client_inv (setPending (setConnection (setConn cl i cc c) None) (pending cl ++ [i])).
Proof.
  intros Hi Hc Hcc Hg Hs. pose proof (lookup_lt_Some _ _ _ Hcc) as Hlt.
  destruct (ci_current _ Hi i Hc) as (_ & cc' & Hcc' & _ & Hnd). rewrite Hcc in Hcc'. injection Hcc' as <-.
  destruct (ci_pending _ Hi) as [Hn Hp].
  assert (i ∉ pending cl) as Hni by (intros H; by destruct (Hp i H)).
  destruct Hi. split; cbn; try done.
  - intros j cc' [(_ & <- & _)|[_ Hj]]%list_lookup_insert_Some; [done|by eapply ci_conns0].
  - intros H1 H2%insert_nonempty. by apply ci_settled0.
  - intros j cc' Hj _. rewrite elem_of_app, list_elem_of_singleton.
    apply list_lookup_insert_Some in Hj as [(<- & <- & _)|[Hne Hj]].
    + split; [done|]. cbn. rewrite Hnd. split; [done|]. intros Hout. destruct Hout. by right.
    + destruct (ci_others0 j cc' Hj) as [Hs' Hd]; [congruence|]. split; [done|]. rewrite Hd.
      split; intros Hout; [|tauto]. intros [Hin|Hin]; [done|congruence].
  - rewrite length_insert. split.
    + apply NoDup_app. split; [done|]. split; [|apply NoDup_singleton].
      intros x Hx Hx'. apply list_elem_of_singleton in Hx'. congruence.
    + intros j [Hj|Hj]%elem_of_app; (split; [|done]); [by apply Hp|].
      apply list_elem_of_singleton in Hj. by subst.
  - by rewrite (map_insert_same _ _ _ cc).
  - by rewrite (map_insert_same _ _ _ cc), length_insert.
  - by rewrite length_insert.
Qed.

Lemma removeConnection_ok cl i cc c fd e :
  client_inv cl -> connection_ cl = Some i -> conns cl !! i = Some cc ->
  conn_good (mkClientConn (cc_name cc) (cc_fd cc) c (cc_destroyed cc)) ->
  TcpConnection.state_ c = TcpConnection.kDisconnected ->
  (retry_ cl && connect_ cl = true -> Connector.channel_ (connector_ cl) = None) ->
  exists cl', removeConnection true (setConn cl i cc c) i fd e = Ok cl' /\ client_inv cl' /\
    (if retry_ cl && connect_ cl then restart (connector_ cl) fd e = Ok (connector_ cl')
     else connector_ cl' = connector_ cl).
Proof.
  intros Hi Hc Hcc Hg Hs Hch. pose proof (detach_ok cl i cc c Hi Hc Hcc Hg Hs) as Hd.
  destruct (ci_current _ Hi i Hc) as (Hconn & _).
  unfold removeConnection. cbn [assertInLoopThread guard_ mbind res_bind].
  rewrite assert_true by (apply bool_decide_eq_true; done). cbn [mbind res_bind].
  change (retry_ (setPending _ _)) with (retry_ cl). change (connect_ (setPending _ _)) with (connect_ cl).
  change (pending (setConnection _ _)) with (pending cl).
  change (connector_ (setPending _ _)) with (connector_ cl).
  set (d := setPending _ _) in *. destruct (retry_ cl && connect_ cl) eqn:Eb; [|by exists d].
  destruct (step_ok _ (OpRestart fd e) (ci_connector _ Hi)) as (c' & E & Hci).
  { split; [cbn; congruence|]. intros [?|(_ & _ & H)]; [done|]. by apply H, Hch. }
  cbn in E. rewrite E. cbn [mbind res_bind]. eexists. split; [done|]. split; [|done].
  apply connector_frame; [done|done| |done|].
  2:{ intros H. exfalso. change (retry_ d) with (retry_ cl) in H. by rewrite H in Eb. }
  destruct (step_handed _ (OpRestart fd e) _ (ci_connector _ Hi) E) as [H|(fd' & _ & H & _)]; [done|congruence].
Qed.

(** An event of a connection. *)
Lemma conn_event_ok cl i op fd e :
  client_inv cl -> client_op_ok cl (ClConn i op fd e) ->
  exists cl', conn_event cl i op fd e = Ok cl' /\ client_inv cl'.
Proof.
  intros Hi (cc & Hcc & Hok & Hop & Hch). pose proof (ci_conns _ Hi i cc Hcc) as Hg.
  destruct (conn_step_good cc op Hg Hok Hop) as (c & E & Hg' & Hup & Hdn).
  unfold conn_event. rewrite Hcc, E. cbn [mbind res_bind].
  change c with (cc_conn (mkClientConn (cc_name cc) (cc_fd cc) c (cc_destroyed cc))) at 2.
  pose proof (closes_iff cc _ Hg Hg') as Hcl. cbn [cc_conn] in *.
  destruct (closes (cc_conn cc) c) eqn:Ec.
  - destruct (proj1 Hcl eq_refl) as [Hns Hs]. cbn [setConn setConns alive]. rewrite (ci_alive _ Hi).
    assert (connection_ cl = Some i) as Hcur.
    { destruct (decide (connection_ cl = Some i)) as [|Hne]; [done|].
      destruct Hns. by eapply (ci_others _ Hi). }
    destruct (removeConnection_ok cl i cc c fd e Hi Hcur Hcc Hg' Hs) as (cl' & Er & Hi' & _);
      [intros; by apply Hch|]. by exists cl'.
  - eexists. split; [done|]. apply setConn_ok; try done.
    + intros Hcur. destruct (ci_current _ Hi i Hcur) as (_ & cc' & Hcc' & Hu & _).
      rewrite Hcc in Hcc'. injection Hcc' as <-. destruct (Hup Hu) as [|Hs]; [done|].
      assert (false = true) as [=]. apply Hcl. split; [|done]. destruct Hu as [-> | ->]; done.
    + intros Hne. apply Hdn. by eapply (ci_others _ Hi).
Qed.

Lemma run_pending_ok cl : client_inv cl -> exists cl', run_pending cl = Ok cl' /\ client_inv cl'.
Proof.
  intros Hi. unfold run_pending. destruct (pending cl) as [|i p] eqn:Hp; [by exists cl|].
  destruct (ci_pending _ Hi) as [Hnd Hin]. rewrite Hp in Hnd, Hin. apply NoDup_cons in Hnd as [Hip Hnd].
  destruct (Hin i) as [Hlt Hne]; [by left|].
  destruct (lookup_lt_is_Some_2 _ _ Hlt) as [cc Hcc]. rewrite Hcc.
  destruct (ci_others _ Hi i cc Hcc Hne) as [Hs _].
  destruct (ci_conns _ Hi i cc Hcc) as [(acc & Hci) Hl].
  unfold connectionDestroyed. cbn [assertInLoopThread guard_ mbind res_bind].
  rewrite bool_decide_false by (rewrite Hs; done).
  rewrite assert_true by (unfold isNoneEvent; by rewrite (inv_disconnected _ _ Hci Hs)).
  cbn [mbind res_bind]. eexists. split; [done|].
  set (cc' := mkClientConn _ _ _ _).
  assert (conn_good cc') as Hg'.
  { split; [|done]. exists acc. eapply conn_inv_frame; [exact Hci|done..|]. apply (inv_queued _ _ Hci). }
  destruct Hi. split; cbn; try done.
  - intros j c0 [(_ & <- & _)|[_ Hj]]%list_lookup_insert_Some; [done|by eapply ci_conns0].
  - intros j Hj. destruct (ci_current0 j Hj) as (Hst & c0 & Hc0 & ?). split; [done|]. exists c0.
    rewrite list_lookup_insert_ne; [done|]. congruence.
  - intros H1 H2%insert_nonempty. by apply ci_settled0.
  - intros j c0 [(<- & <- & _)|[Hij Hj]]%list_lookup_insert_Some Hcj; [split; [done|]; split; done|].
    destruct (ci_others0 j c0 Hj Hcj) as [Hs' Hd]. split; [done|]. rewrite Hd, Hp, not_elem_of_cons.
    split; [tauto|]. intros ?. split; [congruence|done].
  - rewrite length_insert. split; [done|]. intros j Hj. apply Hin. by right.
  - by rewrite (map_insert_same _ _ _ cc).
  - by rewrite (map_insert_same _ _ _ cc), length_insert.
  - by rewrite length_insert.
Qed.

Lemma connector_event_ok cl op :
  client_inv cl -> client_op_ok cl (ClConnector op) ->
  exists cl', connector_event cl op = Ok cl' /\ client_inv cl'.
Proof.
  intros Hi (Hlp & Hok & Hid). destruct (step_ok _ op (ci_connector _ Hi) Hok) as (c & E & Hc).
  assert (forall fd e, op <> OpRestart fd e) as Hnr by (intros fd e ->; done).
  unfold connector_event. rewrite E. cbn [mbind res_bind].
  destruct (step_handed _ _ _ (ci_connector _ Hi) E) as [Hh|(fd & Hh & Hs & Hs')]; rewrite Hh.
  - rewrite drop_all. eexists. split; [done|]. by eapply connector_step.
  - rewrite drop_app_length. apply new_connection_ok; try done.
    destruct (connection_ cl) as [j|] eqn:Hj; [|done].
    destruct (ci_current _ Hi j Hj) as [Hx _]. congruence.
Qed.

Lemma client_step_ok cl op :
  client_inv cl -> client_op_ok cl op -> exists cl', client_step cl op = Ok cl' /\ client_inv cl'.
Proof.
  intros Hi Hok. assert (forall b, client_inv (setConnect cl b)) as Hb by (intros b; by destruct Hi).
  destruct op as [in_loop fd e|in_loop|in_loop| |op|i op fd e|]; cbn [client_step].
  - unfold connect. cbn [client_op_ok] in Hok.
    destruct (step_ok _ (OpStart in_loop fd e) (ci_connector _ Hi) Hok) as (c & E & _). cbn in E.
    change (connector_ (setConnect cl true)) with (connector_ cl). rewrite E. cbn [mbind res_bind].
    eexists. split; [done|]. eapply (connector_step _ (OpStart in_loop fd e)); [apply Hb|done|done|exact E|].
    destruct (step_handed _ (OpStart in_loop fd e) _ (ci_connector _ Hi) E) as [H|(fd' & _ & H & H')]; [done|].
    exfalso. destruct in_loop; [apply (proj2 Hok); left; cbn; congruence|].
    unfold Connector.start in E. injection E as <-. cbn in H'. by rewrite H in H'.
  - unfold disconnect. change (connection_ (setConnect cl false)) with (connection_ cl).
    destruct (connection_ cl) as [i|] eqn:Hc; [|eexists; split; [done|apply Hb]].
    destruct (ci_current _ Hi i Hc) as (_ & cc & Hcc & Hu & _).
    change (conns (setConnect cl false)) with (conns cl). rewrite Hcc.
    destruct (conn_step_good cc (OpShutdown in_loop) (ci_conns _ Hi i cc Hcc) Hu) as (c & E & Hg & _); [done|].
    cbn [conn_step] in E. rewrite E. cbn [mbind res_bind]. eexists. split; [done|].
    apply setConn_ok; [apply Hb|done|done| |intros Hne; by destruct Hne].
    intros _. right. by eapply shutdown_state.
  - unfold stop. destruct (step_ok _ (OpStop in_loop) (ci_connector _ Hi) (conj I I)) as (c & E & _). cbn in E.
    change (connector_ (setConnect cl false)) with (connector_ cl). rewrite E. cbn [mbind res_bind].
    eexists. split; [done|]. eapply (connector_step _ (OpStop in_loop)); [apply Hb|done|done|exact E|].
    unfold Connector.stop in E. destruct in_loop; [|by injection E as <-].
    by apply stopInLoop_handed in E.
  - eexists. split; [done|]. by destruct Hi.
  - by apply connector_event_ok.
  - by apply conn_event_ok.
  - by apply run_pending_ok.
Qed.

Lemma client_run_inv ops : forall cl,
  client_inv cl -> client_run_ok cl ops -> exists cl', client_run cl ops = Ok cl' /\ client_inv cl'.
Proof.
  induction ops as [|op ops IH]; intros cl Hi Hok; cbn [client_run]; [eauto|].
  destruct Hok as [Hop Hok]. destruct (client_step_ok cl op Hi Hop) as (cl1 & E & Hi1).
  rewrite E. cbn [mbind res_bind]. by apply IH; [|apply Hok].
Qed.

Lemma client_ctor_inv hostport name : client_inv (TcpClient_ctor hostport name).
Proof.
  split; cbn; try done. split; [apply NoDup_nil_2|]. intros i Hi. by apply not_elem_of_nil in Hi.
Qed.

End Client.

(** ** Properties *)

(** C16: in every run in which events come in order, the client aborts
    nowhere; every socket the connector opened is closed, or the one being
    connected, or belongs to exactly one connection; at most one connection is
    up, the current one; and each of the others is down, has made its
    connection and close callbacks, and has been destroyed or is queued once
    for it. *)
Theorem client_connections wc hostport name ops :
  client_run_ok wc (TcpClient_ctor hostport name) ops ->
  exists cl, client_run wc (TcpClient_ctor hostport name) ops = Ok cl /\
    opened (connector_ cl) ≡ₚ closed (connector_ cl) ++ map cc_fd (conns cl) ++ held (connector_ cl) /\
    NoDup (pending cl) /\
    (forall i cc, conns cl !! i = Some cc ->
       if decide (connection_ cl = Some i)
       then up (cc_conn cc) /\ cc_destroyed cc = false
       else List.filter is_life (TcpConnection.events_ (cc_conn cc)) =
              [EvConnection true; EvConnection false; EvClose] /\
            (cc_destroyed cc = true <-> i ∉ pending cl)).
Proof.
  intros Hok. destruct (client_run_inv wc ops _ (client_ctor_inv hostport name) Hok) as (cl & E & Hi).
  exists cl. split; [done|]. split; [|split; [apply (ci_pending _ Hi)|]].
  - rewrite <- (ci_handed _ Hi). apply (inv_sockets _ (ci_connector _ Hi)).
  - intros i cc Hcc. case_decide as Hc.
    + destruct (ci_current _ Hi i Hc) as (_ & cc' & Hcc' & H). rewrite Hcc in Hcc'. by injection Hcc' as <-.
    + destruct (ci_others _ Hi i cc Hcc Hc) as [Hs Hd]. split; [|done].
      by rewrite (good_life _ (ci_conns _ Hi i cc Hcc)), Hs.
Qed.

(** A client that does not retry connects once: after any run in which it
    had a connection, up or down by now, calling [connect] again in the loop
    fails the assertion of [Connector::startInLoop]. *)
Theorem second_connect_aborts wc hostport name ops cl fd e :
  client_run_ok wc (TcpClient_ctor hostport name) ops ->
  client_run wc (TcpClient_ctor hostport name) ops = Ok cl ->
  retry_ cl = false -> conns cl <> [] ->
  connect true cl fd e = Err AssertFail.
Proof.
  intros Hok E Hr Hc. destruct (client_run_inv wc ops _ (client_ctor_inv hostport name) Hok) as (cl' & E' & Hi).
  rewrite E in E'. injection E' as <-. pose proof (ci_settled _ Hi Hr Hc) as Hs.
  unfold connect, Connector.start, startInLoop. cbn. by rewrite Hs.
Qed.

(** Once told to stop, a connector that only gets events of the loop hands
    nothing over any more. *)
Definition stopped (c c' : Connector) : Prop :=
  Connector.connect_ c' = false /\ handed c' = handed c.

Lemma retry_stopped c fd : Connector.connect_ c = false -> stopped c (Connector.retry c fd).
Proof. intros Hc. unfold Connector.retry. cbn. rewrite Hc. by split. Qed.

Lemma removed_retry_stopped c c1 fd :
  Connector.connect_ c = false -> removeAndResetChannel c = Ok (c1, fd) ->
  stopped c c1 /\ stopped c (Connector.retry c1 fd).
Proof.
  intros Hc. unfold removeAndResetChannel. destruct (Connector.channel_ c); [|done].
  intros ([] & _ & [= <- _])%bind_ok_inv. split; [by split|].
  by apply (retry_stopped (Connector.queueInLoop (Connector.setChannel c _) FResetChannel)).
Qed.

Lemma stopInLoop_stopped c c' : Connector.connect_ c = false -> stopInLoop c = Ok c' -> stopped c c'.
Proof.
  intros Hc. unfold stopInLoop. case_bool_decide; [|by intros [= <-]].
  intros ((c1 & fd0) & E & [= <-])%bind_ok_inv. by apply removed_retry_stopped in E as [_ ?].
Qed.

Lemma startInLoop_stopped c fd e c' : Connector.connect_ c = false -> startInLoop c fd e = Ok c' -> c' = c.
Proof. unfold startInLoop. intros -> H. by inv_res. Qed.

Lemma stopped_trans c c1 c' : stopped c c1 -> stopped c1 c' -> stopped c c'.
Proof. intros [_ H1] [H2 H3]. split; congruence. Qed.

Lemma handleWrite_stopped c err self c' :
  Connector.connect_ c = false -> Connector.handleWrite c err self = Ok c' -> stopped c c'.
Proof.
  intros Hc. unfold Connector.handleWrite. case_bool_decide.
  - intros ((c1 & fd) & E1 & E)%bind_ok_inv. apply removed_retry_stopped in E1 as [H1 H2]; [|done].
    destruct (negb _); [by injection E as <-|]. destruct self; [by injection E as <-|].
    cbn [Connector.connect_ Connector.setState] in E. rewrite (proj1 H1) in E. by injection E as <-.
  - intros E. by inv_res.
Qed.

Lemma handleError_stopped c c' : Connector.connect_ c = false -> Connector.handleError c = Ok c' -> stopped c c'.
Proof.
  intros Hc. unfold Connector.handleError. intros ([] & _ & ((c1 & fd) & E1 & [= <-])%bind_ok_inv)%bind_ok_inv.
  by apply removed_retry_stopped in E1 as [_ ?].
Qed.

Lemma stopped_step c op c' :
  Connector.connect_ c = false -> loop_event op = true -> Connector.step c op = Ok c' -> stopped c c'.
Proof.
  intros Hc Hl E. destruct op as [| | |r err self|fd e|fd e]; try done; cbn in E.
  - destruct (channel_event_cases c r err self) as [Ec|(_ & error & write & Ec)]; rewrite Ec in E;
      [by injection E as <-|]. apply bind_ok_inv in E as (c1 & E1 & E2).
    assert (stopped c c1) as H1 by (destruct error; [by apply handleError_stopped|by injection E1 as <-]).
    destruct write; [|by injection E2 as <-]. eapply stopped_trans; [done|].
    eapply handleWrite_stopped; [apply H1|done].
  - destruct (Connector.queued c) as [|[| |] q]; cbn in E; [by injection E as <-| | |].
    + by rewrite (startInLoop_stopped (Connector.pop_functor c) fd e c' Hc E).
    + by apply (stopInLoop_stopped (Connector.pop_functor c)).
    + by injection E as <-.
  - destruct (timers c); [by injection E as <-|].
    by rewrite (startInLoop_stopped (Connector.pop_timer c) fd e c' Hc E).
Qed.

Lemma stopped_events wc events : forall cl,
  connector_inv (connector_ cl) -> Connector.connect_ (connector_ cl) = false ->
  Forall (fun op => loop_event op = true) events -> Connector.run_ok (connector_ cl) events ->
  exists cl', client_run wc cl (map ClConnector events) = Ok cl' /\ conns cl' = conns cl /\
    handed (connector_ cl') = handed (connector_ cl) /\ connector_inv (connector_ cl').
Proof.
  induction events as [|op events IH]; intros cl Hi Hc Hev Hok; cbn [map client_run]; [by exists cl|].
  apply Forall_cons in Hev as [Hop Hev]. destruct Hok as [Ho Hok].
  destruct (step_ok _ op Hi Ho) as (c & E & Hci). destruct (stopped_step _ _ _ Hc Hop E) as [Hcf Hh].
  cbn [client_step]. unfold connector_event. rewrite E. cbn [mbind res_bind]. rewrite Hh, drop_all.
  cbn [mbind res_bind].
  destruct (IH (setConnector cl c) Hci Hcf Hev (Hok c E)) as (cl' & E' & H1 & H2 & H3).
  exists cl'. split; [done|]. split; [done|]. split; [|done]. by rewrite H2.
Qed.

(** Destroying a client that has no current connection is safe: whatever
    events its connector, which outlives it, still gets in order, nothing
    aborts and the connector never calls [newConnection] on the destroyed
    client; a socket that connects late is closed. *)
Theorem destroyed_client_silent wc hostport name ops cl events :
  client_run_ok wc (TcpClient_ctor hostport name) ops ->
  client_run wc (TcpClient_ctor hostport name) ops = Ok cl -> connection_ cl = None ->
  Forall (fun op => loop_event op = true) events ->
  exists cl1, TcpClient_dtor true cl = Ok cl1 /\ alive cl1 = false /\
    (Connector.run_ok (connector_ cl1) events ->
     exists cl2, client_run wc cl1 (map ClConnector events) = Ok cl2 /\ conns cl2 = conns cl /\
       opened (connector_ cl2) ≡ₚ closed (connector_ cl2) ++ map cc_fd (conns cl2) ++ held (connector_ cl2)).
Proof.
  intros Hok E Hn Hev. destruct (client_run_inv wc ops _ (client_ctor_inv hostport name) Hok) as (cl' & E' & Hi).
  rewrite E in E'. injection E' as <-. unfold TcpClient_dtor. rewrite Hn.
  destruct (step_ok _ (OpStop true) (ci_connector _ Hi) (conj I I)) as (c & Es & Hc).
  change (Connector.step _ _) with (Connector.stop true (connector_ cl)) in Es. rewrite Es.
  cbn [mbind res_bind]. set (cl1 := mkClient _ _ _ _ _ _ _ _ _ _). exists cl1.
  split; [done|]. split; [done|]. intros Hrun.
  destruct (stopInLoop_stopped (Connector.setConnect (connector_ cl) false) c) as [Hcf Hh]; [done|exact Es|].
  destruct (stopped_events wc events cl1 Hc Hcf Hev Hrun) as (cl2 & E2 & H1 & H2 & H3).
  exists cl2. split; [exact E2|]. split; [exact H1|].
  assert (map cc_fd (conns cl2) = handed (connector_ cl2)) as ->; [|apply (inv_sockets _ H3)].
  rewrite H1, H2. change (conns cl1) with (conns cl). rewrite <- (ci_handed _ Hi). symmetry. exact Hh.
Qed.

(** ** Deciding that a run is allowed *)

#[global] Instance is_destroyed_dec op : Decision (op = OpDestroyed).
Proof. destruct op; first [by left|by right]. Defined.
#[global] Instance client_op_ok_dec cl op : Decision (client_op_ok cl op).
Proof.
  destruct op as [in_loop fd e|in_loop|in_loop| |op|i op fd e|]; unfold client_op_ok; try apply _.
  destruct (conns cl !! i) as [cc|] eqn:Hcc.
  - destruct (decide (TcpConnection.op_ok (cc_conn cc) op /\ op <> OpDestroyed /\
      (retry_ cl && connect_ cl = true -> connection_ cl = Some i -> Connector.channel_ (connector_ cl) = None)))
      as [H|H]; [left; by exists cc|right].
    intros (cc' & [= <-] & H'). by apply H.
  - right. by intros (cc' & [=] & _).
Defined.

Fixpoint client_run_okb (wc : bool) (cl : TcpClient) (ops : list client_op) : bool :=
  match ops with
  | [] => true
  | op :: ops =>
      bool_decide (client_op_ok cl op) &&
      match client_step wc cl op with Ok cl => client_run_okb wc cl ops | Err _ => true end
  end.

Lemma client_run_okb_ok wc ops : forall cl, client_run_okb wc cl ops = true -> client_run_ok wc cl ops.
Proof.
  induction ops as [|op ops IH]; intros cl; cbn; [done|]. rewrite andb_true_iff, bool_decide_eq_true.
  intros [H1 H2]. split; [done|]. intros cl' E. rewrite E in H2. by apply IH.
Qed.

(** ** Witnesses *)

Definition demo_client : TcpClient := TcpClient_ctor (lit "10.0.0.7:80") (lit "cli").

(** A connection that comes up and is closed by the peer. *)
Definition demo_once (fd2 e2 : Z) : list client_op :=
  [ClConnect true 5 EINPROGRESS; ClConnector (OpEvent POLLOUT 0 false);
   ClConnector (Connector.OpRunFunctor 0 0); ClConn 0 (OpReadable (ReadvOk [] [])) fd2 e2].

(** With retries: a second connection while the first awaits destruction. *)
Definition demo_retry : list client_op :=
  ClEnableRetry :: demo_once 6 0 ++
  [ClConnector (OpEvent POLLOUT 0 false); ClPending; ClDisconnect true].

Lemma client_connections_witness :
  exists cl, client_run false demo_client demo_retry = Ok cl /\
    opened (connector_ cl) ≡ₚ closed (connector_ cl) ++ map cc_fd (conns cl) ++ held (connector_ cl) /\
    NoDup (pending cl) /\
    (forall i cc, conns cl !! i = Some cc ->
       if decide (connection_ cl = Some i)
       then up (cc_conn cc) /\ cc_destroyed cc = false
       else List.filter is_life (TcpConnection.events_ (cc_conn cc)) =
              [EvConnection true; EvConnection false; EvClose] /\
            (cc_destroyed cc = true <-> i ∉ pending cl)).
Proof. apply client_connections, client_run_okb_ok. by vm_compute. Defined.

Definition demo_after (ops : list client_op) : TcpClient :=
  match client_run false demo_client ops with Ok cl => cl | Err _ => demo_client end.

Example demo_retry_state :
  map cc_fd (conns (demo_after demo_retry)) = [5; 6] /\ connection_ (demo_after demo_retry) = Some 1%nat /\
  map cc_name (conns (demo_after demo_retry)) = [lit "cli:10.0.0.7:80#1"; lit "cli:10.0.0.7:80#2"].
Proof. by vm_compute. Qed.

Lemma second_connect_aborts_witness :
  connect true (demo_after (demo_once 0 0 ++ [ClPending])) 6 0 = Err AssertFail.
Proof.
  apply (second_connect_aborts false (lit "10.0.0.7:80") (lit "cli") (demo_once 0 0 ++ [ClPending]));
    [apply client_run_okb_ok; by vm_compute|by vm_compute..|by vm_compute].
Defined.

Definition demo_late : list client_op := [ClConnect true 5 EINPROGRESS].

Lemma destroyed_client_silent_witness :
  exists cl1, TcpClient_dtor true (demo_after demo_late) = Ok cl1 /\ alive cl1 = false /\
    (Connector.run_ok (connector_ cl1) [Connector.OpRunFunctor 0 0] ->
     exists cl2, client_run false cl1 (map ClConnector [Connector.OpRunFunctor 0 0]) = Ok cl2 /\
       conns cl2 = conns (demo_after demo_late) /\
       opened (connector_ cl2) ≡ₚ closed (connector_ cl2) ++ map cc_fd (conns cl2) ++ held (connector_ cl2)).
Proof.
  apply (destroyed_client_silent false (lit "10.0.0.7:80") (lit "cli") demo_late);
    [apply client_run_okb_ok; by vm_compute|by vm_compute|by vm_compute|by repeat constructor].
Defined.
