(* ===== verification/Singleton.v ===== *)
(** * The singleton: tmuduo/base/Singleton.h

    [getInstance] in any number of threads, in all interleavings, with
    [pthread_once] as POSIX has it (one caller runs the routine, the others wait
    until it is done) and with the exit of the process, which runs the routine
    registered with [atexit]. *)

From S2P Require Import Prelude.

(** ** State *)

Inductive once := OnceInit | OnceRunning | OnceDone.

(** Where a thread is in [getInstance]: before [pthread_once], before the
    construction and before the registration of [init], before the assertion,
    and with the instance it returned. *)
Inductive call_pc :=
| CStart
| CConstruct
| CRegister
| CAssert
| CReturned (instance : nat).

(** [value_] is a pointer to one of the objects [T] made so far; [atexit_] says
    whether [destroy] is registered. *)
Record Singleton := mkSingleton {
  ponce_ : once;
  value_ : option nat;
  constructed : nat;
  destroyed : list nat;
  atexit_ : bool;
  callers : list call_pc
}.

Definition singleton_start (n : nat) : Singleton := mkSingleton OnceInit None 0 [] false (replicate n CStart).

Definition set_caller (s : Singleton) (i : nat) (pc : call_pc) : Singleton :=
  mkSingleton (ponce_ s) (value_ s) (constructed s) (destroyed s) (atexit_ s) (<[i := pc]> (callers s)).
Definition set_once (s : Singleton) (o : once) : Singleton :=
  mkSingleton o (value_ s) (constructed s) (destroyed s) (atexit_ s) (callers s).

Section Singleton.
(** [has_no_destroy<T>::value]. *)
Context (no_destroy : bool).

(** [value_ = new T()]. *)
Definition construct (s : Singleton) : Singleton :=
  mkSingleton (ponce_ s) (Some (constructed s)) (S (constructed s)) (destroyed s) (atexit_ s) (callers s).

Definition register_destroy (s : Singleton) : Singleton :=
  mkSingleton (ponce_ s) (value_ s) (constructed s) (destroyed s)
    (if negb no_destroy then true else atexit_ s) (callers s).

(** [delete] of a null pointer does nothing. *)
Definition destroy (s : Singleton) : Singleton :=
  mkSingleton (ponce_ s) None (constructed s)
    (match value_ s with Some p => destroyed s ++ [p] | None => destroyed s end) (atexit_ s) (callers s).

(** One step of the call of thread [i]; a thread waits while another runs the
    routine. *)
Definition call_step (i : nat) (s : Singleton) : res Singleton :=
  match callers s !! i with
  | Some CStart =>
      match ponce_ s with
      | OnceInit => Ok (set_once (set_caller s i CConstruct) OnceRunning)
      | OnceRunning => Ok s
      | OnceDone => Ok (set_caller s i CAssert)
      end
  | Some CConstruct => Ok (set_caller (construct s) i CRegister)
  | Some CRegister => Ok (set_once (set_caller (register_destroy s) i CAssert) OnceDone)
  | Some CAssert =>
      match value_ s with
      | Some p => Ok (set_caller s i (CReturned p))
      | None => Err AssertFail
      end
  | Some (CReturned _) | None => Ok s
  end.

(** The routines registered with [atexit] run once. *)
Definition exit_process (s : Singleton) : Singleton := if atexit_ s then destroy s else s.

Fixpoint run (s : Singleton) (sched : list nat) : res Singleton :=
  match sched with
  | [] => Ok s
  | i :: sched => s ← call_step i s; run s sched
  end.

(** ** The invariant *)

(** Where a thread can be while the routine has not run, is being run and has
    run. *)
Definition pc_ok (s : Singleton) (pc : call_pc) : Prop :=
  match pc with
  | CStart => True
  | CConstruct => ponce_ s = OnceRunning /\ value_ s = None
  | CRegister => ponce_ s = OnceRunning /\ value_ s = Some 0%nat
  | CAssert => ponce_ s = OnceDone
  | CReturned p => ponce_ s = OnceDone /\ p = 0%nat
  end.

Definition in_routine (pc : call_pc) : bool := match pc with CConstruct | CRegister => true | _ => false end.

Record singleton_inv (s : Singleton) : Prop := {
  sg_pcs : forall i pc, callers s !! i = Some pc -> pc_ok s pc;
  sg_one : forall i j pi pj, callers s !! i = Some pi -> callers s !! j = Some pj ->
    in_routine pi = true -> in_routine pj = true -> i = j;
  sg_value : value_ s = (if bool_decide (constructed s = 0%nat) then None else Some 0%nat);
  sg_count : (constructed s <= 1)%nat /\ destroyed s = [];
  sg_done : ponce_ s = OnceDone -> constructed s = 1%nat /\ atexit_ s = negb no_destroy;
  sg_init : ponce_ s = OnceInit -> constructed s = 0%nat;
  sg_atexit : ponce_ s <> OnceDone -> atexit_ s = false
}.

Lemma singleton_start_ok n : singleton_inv (singleton_start n).
Proof.
  assert (forall i pc, replicate n CStart !! i = Some pc -> pc = CStart) as Hs
    by (by intros i pc [-> _]%lookup_replicate).
  split; cbn; try done.
  - by intros i pc ->%Hs.
  - by intros i j pi pj ->%Hs.
  - split; [lia|done].
Qed.

Lemma step_caller (cs : list call_pc) i pc j qc :
  <[i := pc]> cs !! j = Some qc -> qc = pc /\ i = j \/ i <> j /\ cs !! j = Some qc.
Proof. intros [(-> & -> & _)|[Hne Hj]]%list_lookup_insert_Some; [by left|by right]. Qed.

(** While one thread runs the routine the others have not passed it. *)
Lemma others_start s i pc j qc :
  singleton_inv s -> callers s !! i = Some pc -> in_routine pc = true -> i <> j ->
  callers s !! j = Some qc -> qc = CStart.
Proof.
  intros [Hp Ho _ _ _ _ _] Hi Hr Hne Hj. pose proof (Hp _ _ Hi) as H1. pose proof (Hp _ _ Hj) as H2.
  destruct qc; cbn in H2; [done| | | |];
    try (exfalso; apply Hne; by eapply (Ho i j)); destruct pc; cbn in H1, Hr; destruct_and?; congruence.
Qed.

Lemma call_step_ok s i : singleton_inv s -> exists s', call_step i s = Ok s' /\ singleton_inv s'.
Proof.
  intros Hi. pose proof Hi as [Hp Ho Hv [Hc Hd] Hdone Hinit Hat]. unfold call_step.
  destruct (callers s !! i) as [[| | | |p]|] eqn:E; try (by exists s).
  - destruct (ponce_ s) eqn:Eo; [|by exists s|]; eexists; (split; [done|]).
    + assert (forall j pc, callers s !! j = Some pc -> pc = CStart) as Hs.
      { intros j pc Hj. pose proof (Hp _ _ Hj) as H. destruct pc; cbn in H; destruct_and?; [done|congruence..]. }
      split; cbn; try done; [| |by intros _; apply Hat].
      * intros j pc [[-> _]|[_ ->%Hs]]%step_caller; [|done]. cbn. by rewrite Hv, Hinit by done.
      * intros j k pj pk [[-> <-]|[_ ->%Hs]]%step_caller [[-> <-]|[_ ->%Hs]]%step_caller; done.
    + split; cbn; rewrite ?Eo; try done.
      * intros j pc [[-> _]|[_ Hj]]%step_caller; [done|]. pose proof (Hp _ _ Hj) as H. by destruct pc.
      * intros j k pj pk [[-> <-]|[_ Hj]]%step_caller [[-> <-]|[_ Hk]]%step_caller; try done. by eapply Ho.
  - pose proof (Hp _ _ E) as [Eo Ev]. cbn in Eo, Ev.
    assert (constructed s = 0%nat) as Ec by (rewrite Hv in Ev; by case_bool_decide).
    eexists. split; [done|].
    split; cbn; rewrite ?Ec, ?Eo; try (by intros _; apply Hat; rewrite Eo); try done.
    + intros j pc [[-> _]|[Hne Hj]]%step_caller; [cbn; by rewrite Eo, Ec|].
      by rewrite (others_start s i CConstruct j pc Hi E eq_refl Hne Hj).
    + intros j k pj pk [[-> <-]|[Hne Hj]]%step_caller [[-> <-]|[Hne' Hk]]%step_caller Rj Rk; try done;
        [by rewrite (others_start s i CConstruct k pk Hi E eq_refl Hne' Hk) in Rk
        |by rewrite (others_start s i CConstruct j pj Hi E eq_refl Hne Hj) in Rj|by eapply Ho].
  - pose proof (Hp _ _ E) as [Eo Ev]. cbn in Eo, Ev.
    assert (constructed s = 1%nat) as Ec by (rewrite Hv in Ev; case_bool_decide; [done|lia]).
    eexists. split; [done|]. split; cbn; rewrite ?Ec; try done.
    + intros j pc [[-> _]|[Hne Hj]]%step_caller; [done|].
      by rewrite (others_start s i CRegister j pc Hi E eq_refl Hne Hj).
    + intros j k pj pk [[-> <-]|[Hne Hj]]%step_caller [[-> <-]|[Hne' Hk]]%step_caller Rj Rk; try done;
        by rewrite (others_start s i CRegister j pj Hi E eq_refl Hne Hj) in Rj.
    + intros _. split; [done|]. rewrite Hat by by rewrite Eo. by destruct no_destroy.
  - pose proof (Hp _ _ E) as Eo. cbn in Eo. destruct (Hdone Eo) as [Ec Ea].
    rewrite Hv, bool_decide_eq_false_2 by by rewrite Ec. eexists. split; [done|].
    split; cbn; try done.
    + intros j pc [[-> _]|[_ Hj]]%step_caller; [done|]. pose proof (Hp _ _ Hj) as H. by destruct pc.
    + intros j k pj pk [[-> <-]|[_ Hj]]%step_caller [[-> <-]|[_ Hk]]%step_caller; try done. by eapply Ho.
Qed.

Lemma singleton_run_ok sched : forall s, singleton_inv s -> exists s', run s sched = Ok s' /\ singleton_inv s'.
Proof.
  induction sched as [|i sched IH]; intros s Hi; cbn [run]; [by exists s|].
  destruct (call_step_ok s i Hi) as (s' & -> & Hi'). by apply IH.
Qed.

(** However the calls of the threads are interleaved, the assertion holds, one
    object at most is made, every call that returned has returned it, and the
    exit of the process destroys it once, unless the class asks not to. *)
Theorem one_instance n sched :
  exists s, run (singleton_start n) sched = Ok s /\
    (constructed s <= 1)%nat /\ destroyed s = [] /\
    (forall i j p q, callers s !! i = Some (CReturned p) -> callers s !! j = Some (CReturned q) -> p = q) /\
    (forall i p, callers s !! i = Some (CReturned p) ->
       value_ s = Some p /\ constructed s = 1%nat /\
       destroyed (exit_process s) = (if no_destroy then [] else [p]) /\
       value_ (exit_process s) = (if no_destroy then Some p else None)).
Proof.
  destruct (singleton_run_ok sched _ (singleton_start_ok n)) as (s & E & [Hp Ho Hv [Hc Hd] Hdone Hinit Hat]).
  exists s. split; [done|]. split; [done|]. split; [done|]. split.
  - intros i j p q Hi Hj. destruct (Hp _ _ Hi) as [_ ->], (Hp _ _ Hj) as [_ ->]. done.
  - intros i p Hi. destruct (Hp _ _ Hi) as [Eo ->]. destruct (Hdone Eo) as [Ec Ea].
    assert (value_ s = Some 0%nat) as Ev by by rewrite Hv, Ec.
    split; [done|]. split; [done|]. unfold exit_process. rewrite Ea.
    destruct no_destroy; cbn; by rewrite ?Ev, ?Hd.
Qed.

End Singleton.

(** Three threads call at once. *)
Example three_callers :
  (s ← run false (singleton_start 3) [0; 1; 2; 0; 1; 0; 1; 0; 2; 1; 2]%nat; Ok (callers s, constructed s, value_ s)) =
  Ok ([CReturned 0; CReturned 0; CReturned 0], 1%nat, Some 0%nat).
Proof. vm_compute. reflexivity. Qed.

(** A call after the exit routines, in the destructor of a static object or in
    a thread that still runs, fails the assertion; a reference that an earlier
    call returned is to a destroyed object. *)
Example call_after_exit :
  (s ← run false (singleton_start 2) [0; 0; 0; 0]%nat; run false (exit_process s) [1; 1]%nat) = Err AssertFail.
Proof. vm_compute. reflexivity. Qed.
