(* ===== verification/SqlPool.v ===== *)
(** * The database connection pool: tmuduo/net/sql

    [SQLConnection] with the handles of the MySQL client library it makes and
    closes, the pool over a [BlockingQueue] of connections, and the threads
    that use it through [ConnPoolWrapper].  The library's results are
    arguments. *)

From S2P Require Import Prelude Monitor Blocking.
Import BlockingQueue.

(** ** SQLConnection *)

(** [conn_] is a handle or null. *)
Record SQLConnection := mkSQL { conn_ : option nat }.

(** The handles [mysql_init] has made and [mysql_close] has freed. *)
Record mysql := mkMysql { inited : list nat; freed : list nat }.

Definition mysql_start : mysql := mkMysql [] [].

(** [mysql_close] of a null handle does nothing. *)
Definition mysql_close (m : mysql) (h : option nat) : mysql :=
  match h with Some h => mkMysql (inited m) (freed m ++ [h]) | None => m end.

Definition SQLConnection_ctor (m : mysql) : SQLConnection * mysql :=
  let h := length (inited m) in (mkSQL (Some h), mkMysql (inited m ++ [h]) (freed m)).

(** [mysql_real_connect] returns its handle, or null when it fails. *)
Definition SQLConnection_connect (c : SQLConnection) (ok : bool) : SQLConnection * bool :=
  let c := mkSQL (if ok then conn_ c else None) in
  match conn_ c with None => (c, false) | Some _ => (c, true) end.

Definition SQLConnection_dtor (m : mysql) (c : SQLConnection) : mysql :=
  match conn_ c with
  | None => mysql_close m (conn_ c)
  | Some _ => m
  end.

(** [update] and [query]: the result of [mysql_query], and of
    [mysql_use_result]. *)
Definition update (mysql_query : Z) : bool := negb (negb (mysql_query =? 0)).
Definition query {R} (mysql_query : Z) (mysql_use_result : option R) : option R :=
  if negb (mysql_query =? 0) then None else mysql_use_result.

(** ** SQLConnectionPool

    The connections in the queue; [all] are the objects made by [init], which
    are what the queue and the users refer to. *)
Record SQLConnectionPool := mkPool {
  establishedNum_ : Z;
  maxNum_ : Z;
  connections_ : list nat;
  objects : list SQLConnection
}.

(** [init] of a new pool: the results of connecting, one per round of its loop. *)
Fixpoint init_loop (oks : list bool) (p : SQLConnectionPool) (m : mysql) : SQLConnectionPool * mysql :=
  match oks with
  | [] => (p, m)
  | ok :: oks =>
      let '(c, m) := SQLConnection_ctor m in
      let '(c, connected) := SQLConnection_connect c ok in
      let id := length (objects p) in
      init_loop oks
        (mkPool (establishedNum_ p) (maxNum_ p)
           (if connected then connections_ p ++ [id] else connections_ p) (objects p ++ [c])) m
  end.

Definition init (oks : list bool) (m : mysql) : SQLConnectionPool * mysql :=
  let '(p, m) := init_loop oks (mkPool 0 0 [] []) m in
  (mkPool (zlen (connections_ p)) (zlen oks) (connections_ p) (objects p), m).

(** [destroy] when nobody else uses the pool: every queued connection is
    taken and deleted. *)
Fixpoint destroy_loop (q : list nat) (objs : list SQLConnection) (m : mysql) : res mysql :=
  match q with
  | [] => Ok m
  | id :: q =>
      match objs !! id with
      | Some c => destroy_loop q objs (SQLConnection_dtor m c)
      | None => Err UseAfterFree
      end
  end.

Definition destroy (p : SQLConnectionPool) (m : mysql) : res (SQLConnectionPool * mysql) :=
  if 0 <? zlen (connections_ p) then
    m ← destroy_loop (connections_ p) (objects p) m;
    Ok (mkPool 0 (maxNum_ p) [] (objects p), m)
  else Ok (p, m).

Lemma init_loop_spec oks : forall p m p' m',
  init_loop oks p m = (p', m') ->
  freed m' = freed m /\ length (inited m') = (length (inited m) + length oks)%nat /\
  (forall i c, objects p !! i = Some c -> objects p' !! i = Some c) /\
  length (objects p') = (length (objects p) + length oks)%nat /\
  exists l, connections_ p' = connections_ p ++ l /\ NoDup l /\
    length l = length (List.filter id oks) /\
    forall i, i ∈ l -> (length (objects p) <= i)%nat /\ exists h, objects p' !! i = Some (mkSQL (Some h)).
Proof.
  induction oks as [|ok oks IH]; intros p m p' m'; cbn [init_loop].
  { intros [= <- <-]. split; [done|]. cbn. rewrite !Nat.add_0_r. split; [done|]. split; [done|].
    split; [done|]. exists []. rewrite app_nil_r. split; [done|]. split; [apply NoDup_nil_2|].
    split; [done|]. by intros i ?%not_elem_of_nil. }
  cbn [SQLConnection_ctor]. destruct (SQLConnection_connect _ ok) as [c connected] eqn:Ec.
  intros (H1 & H2 & H3 & H4 & l & H5 & H6 & H7 & H8)%IH. cbn in *. split; [done|].
  rewrite length_app in H2. cbn in H2. rewrite length_app in H4. cbn in H4.
  split; [lia|]. split; [intros i c0 Hi; apply H3; by apply lookup_app_l_Some|]. split; [lia|].
  assert (objects p' !! length (objects p) = Some c) as Hc
    by (apply H3; by rewrite lookup_app_r, Nat.sub_diag by done).
  unfold SQLConnection_connect in Ec. destruct ok; cbn in Ec; injection Ec as <- <-.
  - exists (length (objects p) :: l). rewrite H5, <- app_assoc. split; [done|]. split.
    + apply NoDup_cons. split; [|done]. intros Hin. destruct (H8 _ Hin) as [Hle _].
      rewrite length_app in Hle. cbn in Hle. lia.
    + split; [cbn; by rewrite H7|]. intros i [->|Hin]%elem_of_cons; [split; [done|by eexists]|].
      destruct (H8 i Hin) as [Hle Hh]. rewrite length_app in Hle. split; [lia|done].
  - exists l. split; [done|]. split; [done|]. split; [done|]. intros i Hin.
    destruct (H8 i Hin) as [Hle Hh]. rewrite length_app in Hle. split; [lia|done].
Qed.

(** The destructor closes the handle exactly when there is none: a pool
    made with any results of connecting and destroyed at once closes no handle
    at all, neither those of the connections that were refused nor those of
    the established ones. *)
Theorem handles_leak oks m :
  freed m = [] ->
  let '(p, m1) := init oks m in
  establishedNum_ p = zlen (List.filter id oks) /\
  length (inited m1) = (length (inited m) + length oks)%nat /\
  exists p2 m2, destroy p m1 = Ok (p2, m2) /\ connections_ p2 = [] /\ freed m2 = [].
Proof.
  intros Hm. unfold init. destruct (init_loop oks (mkPool 0 0 [] []) m) as [p m1] eqn:E.
  apply init_loop_spec in E as (H1 & H2 & _ & _ & l & H5 & H6 & H7 & H8). cbn in H5.
  split; [cbn; rewrite H5; unfold zlen; by rewrite H7|]. split; [done|].
  assert (destroy_loop (connections_ p) (objects p) m1 = Ok m1) as Hd.
  { rewrite H5. clear -H8. induction l as [|i l IH]; [done|]. cbn [destroy_loop].
    destruct (H8 i) as [_ [h ->]]; [by left|]. apply IH. intros j Hj. apply H8. by right. }
  unfold destroy. cbn [connections_ objects maxNum_]. destruct (Z.ltb_spec 0 (zlen (connections_ p))) as [Hz|Hz].
  - rewrite Hd. cbn. do 2 eexists. split; [done|]. split; [done|]. by rewrite H1.
  - do 2 eexists. split; [done|]. cbn. split; [|by rewrite H1].
    destruct (connections_ p) as [|x q]; [done|]. autorewrite with zlen in Hz.
    pose proof (zlen_nonneg q). lia.
Qed.

(** ** The pool in use

    Threads take a connection in the constructor of a [ConnPoolWrapper] and
    put it back in its destructor.  [lent] are the connections the wrappers
    hold, with the threads they live in. *)

Abbreviation queue := (monitor (St := list nat) (Op := op nat) (Cond := cond) (Res := result nat)).

Record system := mkSystem { pool : queue; lent : list (nat * nat) }.

(** What a critical section gives to the thread that ran it. *)
Definition obtained (m m' : queue) : list (nat * nat) :=
  match drop (length (done_ops m)) (done_ops m') with
  | (i, Take, RVal x) :: _ => [(i, x)]
  | _ => []
  end.

Definition call (i : nat) (o : op nat) (m : queue) : queue :=
  mkMonitor (state_of m) (<[i := Enter o]> (threads m)) (done_ops m).

Inductive pool_step : system -> system -> Prop :=
| wrapper_ctor i s :
    threads (pool s) !! i = Some Idle ->
    pool_step s (mkSystem (call i Take (pool s)) (lent s))
| wrapper_dtor i x l1 l2 s :
    threads (pool s) !! i = Some Idle -> lent s = l1 ++ (i, x) :: l2 ->
    pool_step s (mkSystem (call i (Put x) (pool s)) (l1 ++ l2))
| pool_run i s m' :
    run section i (pool s) m' -> pool_step s (mkSystem m' (lent s ++ obtained (pool s) m'))
| pool_spurious i s :
    pool_step s (mkSystem (mkMonitor (state_of (pool s)) (wake i (threads (pool s))) (done_ops (pool s))) (lent s)).

(** [n] threads around a pool of the given connections. *)
Definition pool_start (connections : list nat) (n : nat) : system :=
  mkSystem (mkMonitor connections (replicate n Idle) []) [].

(** The connections on their way back. *)
Definition returning (t : thread (op nat) cond) : option nat :=
  match t with Enter (Put x) | Asleep _ (Put x) => Some x | _ => None end.

Definition in_transit (m : queue) : list nat := omap returning (threads m).

Lemma omap_insert_same {A B} (f : A -> option B) (l : list A) (i : nat) x y :
  l !! i = Some x -> f y = f x -> omap f (<[i := y]> l) = omap f l.
Proof.
  revert i. induction l as [|a l IH]; intros [|i]; try done.
  - cbn. by intros [= ->] ->.
  - intros Hx Hy. specialize (IH i Hx Hy). cbn. destruct (f a); [f_equal|]; exact IH.
Qed.

Lemma omap_insert_perm {A B} (f : A -> option B) (l : list A) (i : nat) x y :
  l !! i = Some x ->
  option_list (f x) ++ omap f (<[i := y]> l) ≡ₚ option_list (f y) ++ omap f l.
Proof.
  revert i. induction l as [|a l IH]; intros [|i]; try done.
  - cbn. intros [= ->]. destruct (f x), (f y); cbn; try done. apply Permutation_swap.
  - intros Hx. specialize (IH i Hx). cbn. destruct (f a); [|exact IH].
    etransitivity; [symmetry; apply Permutation_middle|].
    etransitivity; [|apply Permutation_middle]. by apply Permutation_skip.
Qed.

Lemma transit_wake i ts : omap returning (wake i ts) = omap returning ts.
Proof.
  destruct (wake_spec i ts) as [(c & o & Hi & ->)|[-> _]]; [|done].
  by apply (omap_insert_same _ _ _ (Asleep c o)).
Qed.

Lemma transit_notified n ts ts' : notified n ts ts' -> omap returning ts' = omap returning ts.
Proof.
  destruct 1 as [| |c ts i o Hi|c ts]; try done; [apply transit_wake|].
  induction ts as [|t ts IH]; [done|]. cbn. rewrite IH.
  destruct t as [|o|c' o]; cbn; try done. by case_decide.
Qed.

Record pool_inv (connections : list nat) (s : system) : Prop := {
  pool_conserved : state_of (pool s) ++ map snd (lent s) ++ in_transit (pool s) ≡ₚ connections;
  pool_served : served waits_on slots (pool s)
}.

Lemma start_inv connections n : pool_inv connections (pool_start connections n).
Proof.
  split; cbn.
  - unfold in_transit. cbn. assert (omap returning (replicate n Idle) = []) as ->
      by (induction n; done). by rewrite app_nil_r.
  - apply served_start.
Qed.

Lemma run_conserved i s m' connections :
  state_of (pool s) ++ map snd (lent s) ++ in_transit (pool s) ≡ₚ connections ->
  run section i (pool s) m' ->
  state_of m' ++ map snd (lent s ++ obtained (pool s) m') ++ in_transit m' ≡ₚ connections.
Proof.
  intros <- Hr. destruct s as [m lent]. cbn in *. unfold in_transit, obtained.
  destruct Hr as [m o c Hi Hb|m o q r n ts Hi Hb Hn]; cbn [state_of done_ops threads].
  - rewrite drop_all, app_nil_r. rewrite (omap_insert_same _ _ _ (Enter o)); [done|done|].
    by destruct o.
  - rewrite drop_app_length, (transit_notified _ _ _ Hn).
    pose proof (omap_insert_perm returning _ _ _ Idle Hi) as Hp. cbn in Hp.
    destruct o as [x| |]; cbn in Hb; unfold put, take in Hb.
    + injection Hb as <- <- <-. cbn in Hp |- *. rewrite app_nil_r, <- Hp.
      rewrite <- app_assoc. cbn. by rewrite Permutation_middle.
    + destruct (state_of m) as [|x q0]; cbn in Hb; [done|]. injection Hb as <- <- <-.
      cbn in Hp |- *. rewrite map_app, Hp. cbn. rewrite <- app_assoc. cbn.
      by rewrite <- !Permutation_middle.
    + injection Hb as <- <- <-. cbn in Hp |- *. by rewrite app_nil_r, Hp.
Qed.

Lemma sql_pool_step_inv connections s s' : pool_inv connections s -> pool_step s s' -> pool_inv connections s'.
Proof.
  intros [Hc Hs] Hst. destruct Hst as [i s Hi|i x l1 l2 s Hi Hl|i s m' Hr|i s].
  - split; cbn.
    + unfold in_transit in *. cbn. by rewrite (omap_insert_same _ _ _ Idle).
    + exact (served_step _ _ _ _ _ Hs (step_call _ i Take _ Hi)).
  - split; cbn.
    + rewrite <- Hc, Hl. unfold in_transit, call. cbn [threads].
      pose proof (omap_insert_perm returning _ _ _ (Enter (Put x)) Hi) as Hp. cbn in Hp.
      rewrite Hp, !map_app. cbn. rewrite <- !app_assoc. cbn. by rewrite <- !Permutation_middle.
    + exact (served_step _ _ _ _ _ Hs (step_call _ i (Put x) _ Hi)).
  - split; cbn; [by eapply run_conserved|]. exact (served_step _ _ _ _ _ Hs (step_run _ i _ _ Hr)).
  - split; cbn.
    + unfold in_transit in *. cbn. by rewrite transit_wake.
    + exact (served_step _ _ _ _ _ Hs (step_spurious _ i _)).
Qed.

(** C36: however threads use the pool through wrappers, a connection is in one
    place: in the queue, held by one wrapper of one thread, or on its way
    back, so that no two threads ever use the same connection; and a thread
    sleeps in the constructor of a wrapper, with nobody else awake in the
    pool, only when every connection is held by a wrapper. *)
Theorem pool_exclusive connections n s :
  NoDup connections -> rtc pool_step (pool_start connections n) s ->
  NoDup (state_of (pool s) ++ map snd (lent s) ++ in_transit (pool s)) /\
  state_of (pool s) ++ map snd (lent s) ++ in_transit (pool s) ≡ₚ connections /\
  (quiet (pool s) -> forall i c o, threads (pool s) !! i = Some (Asleep c o) ->
     map snd (lent s) ≡ₚ connections).
Proof.
  intros Hn Hr. assert (pool_inv connections s) as [Hc Hs].
  { revert s Hr. apply (rtc_ind_r (fun s => pool_inv connections s)); [apply start_inv|].
    intros s s' _ Hst Hi. by eapply sql_pool_step_inv. }
  split; [by rewrite Hc|]. split; [done|]. intros Hq i c o Hi. rewrite <- Hc.
  assert (state_of (pool s) = []) as ->.
  { assert (slots c (state_of (pool s)) <= 0) as Hz.
    { eapply served_quiet; [exact Hs|exact Hq|]. apply (count_pos _ _ _ _ Hi). cbn.
      by rewrite bool_decide_eq_true_2. }
    unfold slots in Hz. destruct (state_of (pool s)) as [|x q]; [done|].
    autorewrite with zlen in Hz. pose proof (zlen_nonneg q). lia. }
  assert (in_transit (pool s) = []) as ->; [|by rewrite app_nil_r].
  unfold in_transit. unfold quiet in Hq. rewrite count_zero in Hq.
  pose proof (served_kind _ _ _ Hs) as Hk.
  assert (forall j t, threads (pool s) !! j = Some t -> returning t = None) as Hnone.
  { intros j [|o'|c' o'] Hj; [done| |].
    - specialize (Hq j _ Hj). done.
    - specialize (Hk j c' o' Hj). by destruct o'. }
  revert Hnone. generalize (threads (pool s)). intros ts. induction ts as [|t ts IH]; intros Hnone; [done|].
  cbn. rewrite (Hnone 0%nat t eq_refl). apply IH. intros j t' Hj. by apply (Hnone (S j)).
Qed.

(** Two connections, three threads: thread 2 finds the pool empty and sleeps. *)
Definition demo : system :=
  mkSystem (mkMonitor [] [Idle; Idle; Asleep notEmpty_ Take]
              [(0%nat, Take, RVal 0%nat); (1%nat, Take, RVal 1%nat)])
    [(0%nat, 0%nat); (1%nat, 1%nat)].

Lemma demo_pool_reachable : rtc pool_step (pool_start [0%nat; 1%nat] 3) demo.
Proof.
  eapply rtc_l; [by apply (wrapper_ctor 0)|].
  eapply rtc_l; [by eapply (pool_run 0), (run_returns _ 0); [done|done|constructor]|].
  eapply rtc_l; [by apply (wrapper_ctor 1)|].
  eapply rtc_l; [by eapply (pool_run 1), (run_returns _ 1); [done|done|constructor]|].
  eapply rtc_l; [by apply (wrapper_ctor 2)|].
  eapply rtc_l; [by eapply (pool_run 2), (run_waits _ 2)|]. apply rtc_refl.
Defined.

Lemma pool_exclusive_witness :
  NoDup (state_of (pool demo) ++ map snd (lent demo) ++ in_transit (pool demo)) /\
  map snd (lent demo) ≡ₚ [0%nat; 1%nat].
Proof.
  destruct (pool_exclusive [0%nat; 1%nat] 3 demo) as (H1 & _ & H2); [decide_now|apply demo_pool_reachable|].
  split; [done|]. apply (H2 eq_refl 2%nat notEmpty_ Take). done.
Defined.

Lemma handles_leak_witness :
  exists p2 m2, destroy (init [true; false; true] mysql_start).1 (init [true; false; true] mysql_start).2 = Ok (p2, m2) /\
    connections_ p2 = [] /\ freed m2 = [].
Proof. apply (handles_leak [true; false; true] mysql_start). done. Defined.
