(* ===== verification/ThreadPool.v ===== *)
(** * The thread pool: tmuduo/base/ThreadPool.h

    Worker threads, the threads that push tasks, the thread that destroys or
    resets the pool, and the shared atomics, with one step per access to shared
    state, so that every interleaving of the code is a sequence of steps.  A
    task is an element of [T]; running it is one step, and the order in which
    tasks were pushed, popped and finished is recorded. *)

From S2P Require Import Prelude Monitor.

Section Pool.

Context {T : Type}.

(** Where a worker is in [worker]: at the test of the loop, at the test of
    [paused_], at [popTask], at the call of its task, at the decrement, or out
    of the loop. *)
Inductive worker_pc :=
| WRunning
| WPaused
| WPop
| WCall (task : T)
| WDecrement
| WExited.

(** Where a thread is in [pushTask]: outside, or between the increment and
    the push. *)
Inductive pusher_pc := PIdle | PPush (task : T).

Record ThreadPool := mkThreadPool {
  tasks_ : list T;
  tasksTotal_ : Z;
  paused_ : bool;
  running_ : bool;
  workers : list worker_pc;
  pushers : list pusher_pc;
  pushed : list T;
  popped : list T;
  finished : list T
}.

(** [createThreads] starts the workers at the top of [worker]. *)
Definition createThreads (threadNum : nat) : list worker_pc := replicate threadNum WRunning.

Definition ThreadPool_ctor (threadNum clients : nat) : ThreadPool :=
  mkThreadPool [] 0 false true (createThreads threadNum) (replicate clients PIdle) [] [] [].

(** [uint_fast32_t] has 64 bits. *)
Definition getTasksQueued (p : ThreadPool) : Z := zlen (tasks_ p).

(** [getTasksRunning]: the difference of two reads. *)
Definition getTasksRunning (total queued : Z) : Z := u64 (total - queued).

Definition set_worker (p : ThreadPool) (i : nat) (w : worker_pc) : ThreadPool :=
  mkThreadPool (tasks_ p) (tasksTotal_ p) (paused_ p) (running_ p) (<[i := w]> (workers p))
    (pushers p) (pushed p) (popped p) (finished p).

(** [popTask], under the mutex. *)
Definition popTask (p : ThreadPool) : option T * ThreadPool :=
  match tasks_ p with
  | [] => (None, p)
  | task :: tasks =>
      (Some task, mkThreadPool tasks (tasksTotal_ p) (paused_ p) (running_ p) (workers p)
                    (pushers p) (pushed p) (popped p ++ [task]) (finished p))
  end.

(** One step of [worker]. *)
Definition worker_step (i : nat) (p : ThreadPool) : option ThreadPool :=
  match workers p !! i with
  | None | Some WExited => None
  | Some WRunning => Some (set_worker p i (if running_ p then WPaused else WExited))
  | Some WPaused => Some (set_worker p i (if negb (paused_ p) then WPop else WRunning))
  | Some WPop =>
      let '(task, p) := popTask p in
      Some (set_worker p i (match task with Some task => WCall task | None => WRunning end))
  | Some (WCall task) =>
      Some (set_worker
              (mkThreadPool (tasks_ p) (tasksTotal_ p) (paused_ p) (running_ p) (workers p) (pushers p)
                 (pushed p) (popped p) (finished p ++ [task])) i WDecrement)
  | Some WDecrement =>
      Some (set_worker
              (mkThreadPool (tasks_ p) (u64 (tasksTotal_ p - 1)) (paused_ p) (running_ p) (workers p)
                 (pushers p) (pushed p) (popped p) (finished p)) i WRunning)
  end.

(** One step of [pushTask]: the increment, or the push under the mutex. *)
Definition push_increment (j : nat) (task : T) (p : ThreadPool) : ThreadPool :=
  mkThreadPool (tasks_ p) (u64 (tasksTotal_ p + 1)) (paused_ p) (running_ p) (workers p)
    (<[j := PPush task]> (pushers p)) (pushed p) (popped p) (finished p).
Definition push_task (j : nat) (task : T) (p : ThreadPool) : ThreadPool :=
  mkThreadPool (tasks_ p ++ [task]) (tasksTotal_ p) (paused_ p) (running_ p) (workers p)
    (<[j := PIdle]> (pushers p)) (pushed p ++ [task]) (popped p) (finished p).

Definition set_paused (b : bool) (p : ThreadPool) : ThreadPool :=
  mkThreadPool (tasks_ p) (tasksTotal_ p) b (running_ p) (workers p) (pushers p) (pushed p) (popped p) (finished p).
Definition set_running (b : bool) (p : ThreadPool) : ThreadPool :=
  mkThreadPool (tasks_ p) (tasksTotal_ p) (paused_ p) b (workers p) (pushers p) (pushed p) (popped p) (finished p).

(** The end of [reset], once its [destroyThreads] has joined every worker:
    new workers, as many as asked for or as the machine has, and the old value
    of [paused_]. *)
Definition restart (threadNum hardware_concurrency : nat) (wasPaused : bool) (p : ThreadPool) : ThreadPool :=
  mkThreadPool (tasks_ p) (tasksTotal_ p) wasPaused true
    (createThreads (match threadNum with O => hardware_concurrency | S _ => threadNum end))
    (pushers p) (pushed p) (popped p) (finished p).

Inductive pool_step : ThreadPool -> ThreadPool -> Prop :=
| step_worker i p p' : worker_step i p = Some p' -> pool_step p p'
| step_increment j task p : pushers p !! j = Some PIdle -> pool_step p (push_increment j task p)
| step_push j task p : pushers p !! j = Some (PPush task) -> pool_step p (push_task j task p)
| step_paused b p : pool_step p (set_paused b p)
| step_stop p : pool_step p (set_running false p)
| step_restart threadNum hardware b p :
    Forall (fun w => w = WExited) (workers p) -> pool_step p (restart threadNum hardware b p).

(** *** waitForTasks

    The thread that calls it: at the test of [paused_], at that of
    [tasksTotal_], in [getTasksRunning] before its first or its second read (in
    the order written; the language leaves it open), or behind the loop.  The
    sleep at the end of a round changes nothing. *)
Inductive wait_pc := WtPaused | WtTotal | WtRunning | WtQueued (total : Z) | WtReturned.

Definition waitForTasks_step (p : ThreadPool) (pc : wait_pc) : option wait_pc :=
  match pc with
  | WtPaused => Some (if negb (paused_ p) then WtTotal else WtRunning)
  | WtTotal => Some (if tasksTotal_ p =? 0 then WtReturned else WtPaused)
  | WtRunning => Some (WtQueued (tasksTotal_ p))
  | WtQueued total => Some (if getTasksRunning total (getTasksQueued p) =? 0 then WtReturned else WtPaused)
  | WtReturned => None
  end.


(** ** Invariant *)

Definition busy (w : worker_pc) : bool :=
  match w with WCall _ | WDecrement => true | _ => false end.
Definition pushing (q : pusher_pc) : bool := match q with PPush _ => true | PIdle => false end.
Definition task_of (w : worker_pc) : option T := match w with WCall task => Some task | _ => None end.

Definition in_flight (p : ThreadPool) : nat :=
  (length (tasks_ p) + count busy (workers p) + count pushing (pushers p))%nat.

Record pool_inv (p : ThreadPool) : Prop := {
  pool_total : tasksTotal_ p = u64 (Z.of_nat (in_flight p));
  pool_fifo : pushed p = popped p ++ tasks_ p;
  pool_finished : popped p ≡ₚ finished p ++ omap task_of (workers p)
}.

Lemma u64_step x y : u64 (u64 x + y) = u64 (x + y).
Proof. unfold u64, wrapu. apply Zplus_mod_idemp_l. Qed.

Lemma omap_change (l : list worker_pc) (i : nat) x y :
  l !! i = Some x ->
  option_list (task_of x) ++ omap task_of (<[i := y]> l) ≡ₚ option_list (task_of y) ++ omap task_of l.
Proof.
  revert i. induction l as [|a l IH]; intros [|i]; try done.
  - cbn. intros [= ->]. destruct (task_of x), (task_of y); cbn; try done. apply Permutation_swap.
  - intros Hx. specialize (IH i Hx). cbn. destruct (task_of a); [|exact IH].
    etransitivity; [symmetry; apply Permutation_middle|].
    etransitivity; [|apply Permutation_middle]. by apply Permutation_skip.
Qed.

(** A worker changes place without touching a task. *)
Lemma set_worker_inv p i w w' :
  pool_inv p -> workers p !! i = Some w -> busy w' = busy w -> task_of w' = task_of w ->
  pool_inv (set_worker p i w').
Proof.
  intros [Ht Hf Hp] Hi Hb Hw. pose proof (count_insert busy _ _ _ w' Hi) as Hc. rewrite Hb in Hc.
  pose proof (omap_change _ _ _ w' Hi) as Ho. rewrite Hw in Ho. apply Permutation_app_inv_l in Ho.
  split; cbn -[in_flight count]; [|done|by rewrite Ho].
  rewrite Ht. unfold in_flight. cbn -[count]. f_equal. lia.
Qed.

Lemma worker_step_inv i p p' : pool_inv p -> worker_step i p = Some p' -> pool_inv p'.
Proof.
  intros Hi E. unfold worker_step in E. destruct (workers p !! i) as [w|] eqn:Hw; [|done].
  destruct w as [| | |task| |]; [| | | | |done].
  - injection E as <-. eapply set_worker_inv; [done|done|by destruct (running_ p)..].
  - injection E as <-. eapply set_worker_inv; [done|done|by destruct (negb (paused_ p))..].
  - unfold popTask in E. destruct (tasks_ p) as [|task tasks] eqn:Et; injection E as <-.
    + by eapply set_worker_inv.
    + destruct Hi as [Ht Hf Hp]. pose proof (count_insert busy _ _ _ (WCall task) Hw) as Hc.
      pose proof (omap_change _ _ _ (WCall task) Hw) as Ho. cbn -[count] in Hc, Ho.
      split; cbn -[in_flight count].
      * rewrite Ht. unfold in_flight. cbn -[count]. rewrite Et. cbn [length]. f_equal. lia.
      * by rewrite Hf, Et, <- app_assoc.
      * rewrite Ho, Hp, <- Permutation_cons_append. apply Permutation_middle.
  - injection E as <-. destruct Hi as [Ht Hf Hp].
    pose proof (count_insert busy _ _ _ WDecrement Hw) as Hc.
    pose proof (omap_change _ _ _ WDecrement Hw) as Ho. cbn -[count] in Hc, Ho.
    split; cbn -[in_flight count]; [|done|].
    + rewrite Ht. unfold in_flight. cbn -[count]. f_equal. lia.
    + rewrite Hp, <- Ho, <- app_assoc. done.
  - injection E as <-. destruct Hi as [Ht Hf Hp].
    pose proof (count_insert busy _ _ _ WRunning Hw) as Hc.
    pose proof (omap_change _ _ _ WRunning Hw) as Ho. cbn -[count] in Hc, Ho.
    split; cbn -[in_flight count]; [|done|by rewrite Ho].
    rewrite Ht. unfold Z.sub. rewrite u64_step. unfold in_flight. cbn -[count]. f_equal. lia.
Qed.

Lemma exited_no_task ws : Forall (fun w => w = WExited) ws -> omap task_of ws = [].
Proof. induction 1 as [|w ws -> _ IH]; [done|]. exact IH. Qed.

Lemma created_no_task n : omap task_of (createThreads n) = [].
Proof. unfold createThreads. by induction n. Qed.

Lemma pool_step_inv p p' : pool_inv p -> pool_step p p' -> pool_inv p'.
Proof.
  intros Hi Hst. destruct Hst as [i p p' E|j task p Hj|j task p Hj|b p|p|threadNum hw b p Hex].
  - by eapply worker_step_inv.
  - destruct Hi as [Ht Hf Hp]. pose proof (count_insert pushing _ _ _ (PPush task) Hj) as Hc. cbn -[count] in Hc.
    split; cbn -[in_flight count]; [|done|done]. rewrite Ht, u64_step. unfold in_flight. cbn -[count]. f_equal. lia.
  - destruct Hi as [Ht Hf Hp]. pose proof (count_insert pushing _ _ _ PIdle Hj) as Hc. cbn -[count] in Hc.
    split; cbn -[in_flight count]; [|by rewrite Hf, app_assoc|done].
    rewrite Ht. unfold in_flight. cbn -[count]. rewrite length_app. cbn [length]. f_equal. lia.
  - by destruct Hi.
  - by destruct Hi.
  - destruct Hi as [Ht Hf Hp].
    assert (count busy (workers p) = 0%nat) as Hb
      by (apply count_zero; intros i w Hw; by rewrite (Forall_lookup_1 _ _ _ _ Hex Hw)).
    rewrite exited_no_task in Hp by done.
    split; cbn -[in_flight count]; [|done|by rewrite created_no_task].
    rewrite Ht. unfold in_flight, restart. cbn [tasks_ workers pushers].
    rewrite Hb. unfold createThreads. by rewrite count_replicate_false.
Qed.

Lemma pool_ctor_inv threadNum clients : pool_inv (ThreadPool_ctor threadNum clients).
Proof.
  split; cbn -[in_flight count]; [|done|by rewrite created_no_task]. unfold in_flight. cbn -[count].
  unfold createThreads. by rewrite !count_replicate_false.
Qed.

Lemma pool_reachable_inv threadNum clients p :
  rtc pool_step (ThreadPool_ctor threadNum clients) p -> pool_inv p.
Proof.
  revert p. apply (rtc_ind_r pool_inv); [apply pool_ctor_inv|]. intros p p' _ Hst Hi. by eapply pool_step_inv.
Qed.





End Pool.

Arguments ThreadPool T : clear implicits.
Arguments worker_pc T : clear implicits.
Arguments pusher_pc T : clear implicits.

(** Nothing is in flight: the tasks have been run. *)
Lemma quiet_finished {T} (p : ThreadPool T) :
  pool_inv p -> in_flight p = 0%nat ->
  tasks_ p = [] /\ finished p ≡ₚ pushed p /\
  (forall i task, workers p !! i <> Some (WCall task)) /\
  (forall j task, pushers p !! j <> Some (PPush task)).
Proof.
  intros [Ht Hf Hp] Hz. unfold in_flight in Hz.
  assert (tasks_ p = []) as Hn by (apply length_zero_iff_nil; lia).
  assert (count busy (workers p) = 0%nat) as Hw by lia.
  assert (count pushing (pushers p) = 0%nat) as Hq by lia.
  rewrite count_zero in Hw. rewrite count_zero in Hq.
  assert (forall i task, workers p !! i <> Some (WCall task)) as Hcall
    by (intros i task Hi; by specialize (Hw i _ Hi)).
  split; [done|]. split; [|split; [done|]].
  - rewrite Hf, Hn, app_nil_r, Hp.
    assert (omap task_of (workers p) = []) as ->; [|by rewrite app_nil_r].
    revert Hcall. generalize (workers p). intros ws. induction ws as [|w ws IH]; intros Hcall; [done|].
    cbn. destruct w as [| | |task| |]; cbn;
      try (apply IH; intros i t Hi; by apply (Hcall (S i) t)). by destruct (Hcall 0%nat task).
  - intros j task Hj. by specialize (Hq j _ Hj).
Qed.

Lemma total_zero {T} (p : ThreadPool T) :
  pool_inv p -> Z.of_nat (in_flight p) < 2 ^ 64 -> (tasksTotal_ p =? 0) = bool_decide (in_flight p = 0%nat).
Proof.
  intros [Ht _ _] Hb. rewrite Ht, u64_small by lia.
  destruct (Z.eqb_spec (Z.of_nat (in_flight p)) 0); [rewrite bool_decide_true|rewrite bool_decide_false]; (done || lia).
Qed.



(** ** Joining the workers *)

Section Join.

Context {T : Type}.

(** Steps a worker has left once [running_] is false. *)
Definition rank (w : worker_pc T) : nat :=
  match w with
  | WExited => 0 | WRunning => 1 | WDecrement => 2 | WCall _ => 3 | WPop => 4 | WPaused => 5
  end.

Definition total (f : worker_pc T -> nat) (ws : list (worker_pc T)) : nat :=
  foldr (fun w n => (f w + n)%nat) 0%nat ws.

Definition ranks (p : ThreadPool T) : nat := total rank (workers p).

#[local] Arguments total : simpl never.

Lemma total_insert f (l : list (worker_pc T)) i w w' :
  l !! i = Some w -> (total f (<[i := w']> l) + f w = total f l + f w')%nat.
Proof.
  unfold total. revert i. induction l as [|a l IH]; intros [|i]; cbn; try done.
  - intros [= ->]. lia.
  - intros H. specialize (IH _ H). unfold insert in *. cbn in *. lia.
Qed.

(** A step of some worker. *)
Definition worker_steps (p p' : ThreadPool T) : Prop := exists i, worker_step i p = Some p'.

Lemma worker_step_rank p p' :
  running_ p = false -> worker_steps p p' -> running_ p' = false /\ (ranks p' < ranks p)%nat.
Proof.
  intros Hr [i E]. unfold worker_step in E. destruct (workers p !! i) as [w|] eqn:Hw; [|done].
  pose proof (total_insert rank _ _ _ WRunning Hw) as H1.
  pose proof (total_insert rank _ _ _ WDecrement Hw) as H2.
  pose proof (total_insert rank _ _ _ WPop Hw) as H3.
  pose proof (total_insert rank _ _ _ WExited Hw) as H4.
  pose proof (fun task => total_insert rank _ _ _ (WCall task) Hw) as H5.
  unfold ranks. destruct w as [| | |task| |]; [| | | | |done].
  - injection E as <-. cbn in *. rewrite Hr. split; [done|]. lia.
  - injection E as <-. cbn in *. split; [done|]. destruct (negb (paused_ p)); lia.
  - unfold popTask in E. destruct (tasks_ p) as [|task tasks]; injection E as <-; cbn in *; (split; [done|]).
    + lia.
    + specialize (H5 task). lia.
  - injection E as <-. cbn in *. split; [done|]. lia.
  - injection E as <-. cbn in *. split; [done|]. lia.
Qed.

Lemma stuck_exited p : (forall p', ~ worker_steps p p') ->
  forall i w, workers p !! i = Some w -> w = WExited.
Proof.
  intros Hn i w Hi. destruct w as [| | |task| |]; try done; exfalso.
  3: destruct (tasks_ p) eqn:Et.
  all: eapply Hn; exists i; unfold worker_step; rewrite Hi; try done.
  all: unfold popTask; by rewrite Et.
Qed.

End Join.

(** [destroyThreads] returns: once [running_] is false the workers make
    at most [ranks p] steps in any order, paused or not, whatever is queued,
    and when they have stopped every worker has left its loop. *)
Lemma destroyThreads_terminates {T} (p : ThreadPool T) :
  running_ p = false ->
  (forall k p', nsteps worker_steps k p p' -> (k <= ranks p)%nat /\
     ((forall p'', ~ worker_steps p' p'') -> Forall (fun w => w = WExited) (workers p'))) /\
  exists p', rtc worker_steps p p' /\ Forall (fun w => w = WExited) (workers p').
Proof.
  intros Hr.
  assert (forall p, (forall p'', ~ worker_steps p p'') -> Forall (fun w : worker_pc T => w = WExited) (workers p))
    as Hstuck.
  { intros q Hn. apply Forall_lookup. intros i w Hi. by eapply stuck_exited. }
  split.
  - intros k p' Hs. split; [|apply Hstuck].
    cut (running_ p' = false /\ (k + ranks p' <= ranks p)%nat); [intros [_ ?]; lia|].
    induction Hs as [p|k p p1 p' Hst Hs IH]; [split; [done|lia]|].
    destruct (worker_step_rank _ _ Hr Hst) as [Hr1 Hlt]. destruct (IH Hr1) as [? ?]. split; [done|lia].
  - remember (ranks p) as n eqn:En. revert p Hr En.
    induction n as [n IH] using (well_founded_induction lt_wf). intros p Hr ->.
    destruct (decide (Forall (fun w : worker_pc T => bool_decide (rank w = 0%nat) = true) (workers p))) as [Hall|Hex].
    + exists p. split; [apply rtc_refl|]. eapply Forall_impl; [exact Hall|]. intros [| | |task| |]; done.
    + apply not_Forall_Exists in Hex; [|apply _].
      apply Exists_exists in Hex as (w & Hin & Hw). apply list_elem_of_lookup in Hin as [i Hi].
      assert (exists p1, worker_step i p = Some p1) as [p1 E].
      { unfold worker_step. rewrite Hi. destruct w; try (by eexists); [|by destruct Hw].
        destruct (popTask p). by eexists. }
      assert (worker_steps p p1) as Hst by by exists i.
      destruct (worker_step_rank _ _ Hr Hst) as [Hr1 Hlt].
      destruct (IH _ Hlt p1 Hr1 eq_refl) as (p' & Hs & Hf). exists p'. split; [|done].
      by eapply rtc_l.
Qed.

(** ** The owner: the destructor and the first part of [reset]

    [~ThreadPool] and [reset] wait for the tasks, clear [running_] and join the
    workers one after the other. *)

Section Owner.

Context {T : Type}.

(** In [waitForTasks], as above; before the assignment to [running_]; before
    the join of a thread; or behind [destroyThreads]. *)
Inductive owner_pc := OWait (w : wait_pc) | OJoin (i : nat) | ODone.

#[local] Notation OPaused := (OWait WtPaused).
#[local] Notation OStop := (OWait WtReturned).

(** One round of [destroyThreads]; a join blocks until its thread has left
    [worker]. *)
Definition destroyThreads_step (p : ThreadPool T) (i : nat) : option owner_pc :=
  match workers p !! i with
  | None => Some ODone
  | Some WExited => Some (OJoin (S i))
  | Some _ => None
  end.

Definition owner_step (p : ThreadPool T) (pc : owner_pc) : option (ThreadPool T * owner_pc) :=
  match pc with
  | OWait WtReturned => Some (set_running false p, OJoin 0)
  | OWait w => option_map (fun w => (p, OWait w)) (waitForTasks_step p w)
  | OJoin i => option_map (pair p) (destroyThreads_step p i)
  | ODone => None
  end.

(** The owner and the workers; nobody else uses a pool that goes away. *)
Inductive owner_steps : ThreadPool T * owner_pc -> ThreadPool T * owner_pc -> Prop :=
| steps_worker i p p' pc : worker_step i p = Some p' -> owner_steps (p, pc) (p', pc)
| steps_owner p pc x : owner_step p pc = Some x -> owner_steps (p, pc) x.

Definition stopped (pc : owner_pc) : bool := match pc with OJoin _ | ODone => true | _ => false end.

Definition idle_pushers (p : ThreadPool T) : Prop := Forall (fun q => q = PIdle) (pushers p).
Definition all_exited (p : ThreadPool T) : Prop := Forall (fun w => w = WExited) (workers p).
Definition none_exited (p : ThreadPool T) : Prop := Forall (fun w => w <> WExited) (workers p).

(** *** Invariant *)

Lemma set_worker_frame (p q : ThreadPool T) i w w' :
  workers p !! i = Some w -> workers q = workers p -> w <> WExited ->
  length (workers (set_worker q i w')) = length (workers p) /\
  (w' <> WExited -> none_exited p -> none_exited (set_worker q i w')) /\
  (forall j, workers p !! j = Some WExited -> workers (set_worker q i w') !! j = Some WExited).
Proof.
  intros Hw Eq Hne. unfold none_exited, set_worker. cbn [workers]. rewrite Eq.
  split; [by rewrite length_insert|]. split; [by intros; apply Forall_insert|].
  intros j Hj. rewrite list_lookup_insert_ne; [done|]. by intros ->; simplify_eq.
Qed.

Lemma worker_step_frame i (p p' : ThreadPool T) :
  worker_step i p = Some p' ->
  running_ p' = running_ p /\ paused_ p' = paused_ p /\ pushers p' = pushers p /\ pushed p' = pushed p /\
  length (workers p') = length (workers p) /\ (in_flight p' <= in_flight p)%nat /\
  (running_ p = true -> none_exited p -> none_exited p') /\
  (forall j, workers p !! j = Some WExited -> workers p' !! j = Some WExited).
Proof.
  intros E. unfold worker_step in E. destruct (workers p !! i) as [w|] eqn:Hw; [|done].
  pose proof (fun w' => count_insert busy _ _ _ w' Hw) as Hc.
  assert (exists q w', p' = set_worker q i w' /\ workers q = workers p /\ w <> WExited /\
    (running_ p = true -> w' <> WExited) /\ running_ q = running_ p /\ paused_ q = paused_ p /\
    pushers q = pushers p /\ pushed q = pushed p /\
    (length (tasks_ q) + Nat.b2n (busy w') <= length (tasks_ p) + Nat.b2n (busy w))%nat)
    as (q & w' & -> & Hq & Hne & Hr & H1 & H2 & H3 & H4 & Hlen).
  { destruct w as [| | |task| |]; [| |unfold popTask in E; destruct (tasks_ p) eqn:Et| | |done];
      injection E as <-; eexists _, _; (split; [reflexivity|]); repeat (split; [done|]).
    1-2: destruct (running_ p), (paused_ p); cbn; repeat split; (done || lia).
    all: cbn; rewrite ?Et; cbn; repeat split; (done || lia). }
  destruct (set_worker_frame p q i w w' Hw Hq Hne) as (Hl & Ha & Hex). specialize (Hc w').
  do 4 (split; [done|]). split; [done|]. split; [|split; [auto|done]].
  unfold in_flight, set_worker. cbn [tasks_ workers pushers]. rewrite Hq, H3. lia.
Qed.

(** While [running_] is set, no worker has left its loop. *)
Lemma reachable_alive threadNum clients p :
  rtc pool_step (ThreadPool_ctor threadNum clients) p -> running_ p = true -> none_exited p.
Proof.
  revert p. apply (rtc_ind_r (fun p => running_ p = true -> none_exited p)).
  - intros _. apply Forall_forall. by intros w [-> _]%elem_of_replicate.
  - intros p p' _ Hst IH. destruct Hst as [i p p' E|j task p Hj|j task p Hj|b p|p|n hw b p Hex]; try done.
    + destruct (worker_step_frame i p p' E) as (-> & _ & _ & _ & _ & _ & Ha & _). auto.
    + intros _. apply Forall_forall. by intros w [-> _]%elem_of_replicate.
Qed.

Record owner_inv (tasks : list T) (n : nat) (x : ThreadPool T * owner_pc) : Prop := {
  ow_pool : pool_inv x.1;
  ow_pushed : pushed x.1 = tasks;
  ow_paused : paused_ x.1 = false;
  ow_threads : length (workers x.1) = n;
  ow_idle : idle_pushers x.1;
  ow_bound : Z.of_nat (in_flight x.1) < 2 ^ 64;
  ow_alive : stopped x.2 = false -> running_ x.1 = true /\ none_exited x.1;
  ow_pc :
    match x.2 with
    | OWait WtPaused | OWait WtTotal => True
    | OWait WtRunning | OWait (WtQueued _) => False
    | OWait WtReturned => in_flight x.1 = 0%nat
    | OJoin i => running_ x.1 = false /\ in_flight x.1 = 0%nat /\
        forall j, (j < i)%nat -> (j < n)%nat -> workers x.1 !! j = Some WExited
    | ODone => running_ x.1 = false /\ in_flight x.1 = 0%nat /\ all_exited x.1
    end
}.

Lemma owner_steps_inv tasks n x y : owner_inv tasks n x -> owner_steps x y -> owner_inv tasks n y.
Proof.
  intros [H1 H2 H3 H4 Hq H5 H6 H7] Hst. destruct Hst as [i p p' pc E|p pc x E]; cbn [fst snd] in *.
  - pose proof (worker_step_inv i p p' H1 E) as Hi.
    destruct (worker_step_frame i p p' E) as (Hr & Hpa & Hps & Hpu & Hlen & Hfl & Ha & Hex).
    split; cbn [fst snd]; [done|congruence|congruence|congruence|unfold idle_pushers; by rewrite Hps|lia|rewrite Hr; intros Hs; destruct (H6 Hs); auto|].
    destruct pc as [[| | | |]|i0|]; try done; [lia| |].
    + destruct H7 as (Hr' & Hz & Hj). rewrite Hr. split; [done|]. split; [lia|auto].
    + destruct H7 as (Hr' & Hz & Hall). rewrite Hr. split; [done|]. split; [lia|]. apply Forall_lookup. intros j w Hw.
      assert (is_Some (workers p !! j)) as [w0 Hw0] by (apply lookup_lt_is_Some; rewrite <- Hlen; by eapply lookup_lt_Some).
      pose proof (Forall_lookup_1 _ _ _ _ Hall Hw0) as ->. apply Hex in Hw0. congruence.
  - destruct pc as [[| | | |]|i|]; cbn [owner_step waitForTasks_step option_map stopped] in *; unfold destroyThreads_step in *; try done.
    + injection E as <-. rewrite H3. by split.
    + injection E as <-. rewrite total_zero by done. case_bool_decide; by split.
    + injection E as <-. split; cbn [fst snd]; try done; [by destruct H1|].
      split; [done|]. split; [done|]. lia.
    + destruct H7 as (Hr & Hz & Hj). destruct (workers p !! i) as [w|] eqn:Hw.
      * destruct w; try done. injection E as <-. split; cbn [fst snd]; try done. split; [done|]. split; [done|].
        intros j Hj1 Hj2. destruct (decide (j = i)) as [->|]; [done|]. apply Hj; lia.
      * injection E as <-. split; cbn [fst snd]; try done. split; [done|]. split; [done|]. apply Forall_lookup. intros j w Hw'.
        apply lookup_lt_Some in Hw' as Hlt. apply lookup_ge_None in Hw. rewrite Hj in Hw'; [by injection Hw'|lia..].
Qed.

Lemma owner_run_inv tasks n x y : rtc owner_steps x y -> owner_inv tasks n x -> owner_inv tasks n y.
Proof. induction 1 as [|x y z Hst _ IH]; [done|]. intros Hi. by eapply IH, owner_steps_inv. Qed.

(** *** Draining *)

(** What the workers have still to do for the tasks. *)
Definition work (w : worker_pc T) : nat := match w with WCall _ => 2 | WDecrement => 1 | _ => 0 end.
Definition load (p : ThreadPool T) : nat := (3 * length (tasks_ p) + total work (workers p))%nat.

Lemma total_busy (ws : list (worker_pc T)) : (count busy ws <= total work ws)%nat.
Proof.
  unfold total, count in *. induction ws as [|w ws IH]; [done|]. cbn [foldr List.filter].
  destruct w; cbn in *; lia.
Qed.

Lemma to_pop (p : ThreadPool T) i w :
  workers p !! i = Some w -> w <> WExited -> busy w = false -> running_ p = true -> paused_ p = false ->
  rtc worker_steps p (set_worker p i WPop).
Proof.
  intros Hw Hne Hb Hr Hp.
  assert (forall q : ThreadPool T, workers q !! i = Some WPaused -> paused_ q = false -> worker_steps q (set_worker q i WPop)) as H1.
  { intros q Hq Hpq. exists i. unfold worker_step. by rewrite Hq, Hpq. }
  destruct w; try done.
  - eapply rtc_l.
    + exists i. unfold worker_step. rewrite Hw, Hr. reflexivity.
    + assert (set_worker p i WPop = set_worker (set_worker p i WPaused) i WPop) as ->
        by (unfold set_worker; cbn; by rewrite list_insert_insert_eq).
      apply rtc_once, H1; [|done]. cbn. apply list_lookup_insert_eq. by eapply lookup_lt_Some.
  - by apply rtc_once, H1.
  - replace (set_worker p i WPop) with p; [apply rtc_refl|]. unfold set_worker.
    rewrite list_insert_id by done. by destruct p.
Qed.

(** Some worker can bring the tasks forward. *)
Lemma load_step (p : ThreadPool T) :
  running_ p = true -> paused_ p = false -> none_exited p -> (0 < length (workers p))%nat -> (0 < load p)%nat ->
  exists p', rtc worker_steps p p' /\ (load p' < load p)%nat.
Proof.
  intros Hr Hp Hex Hn Hl. destruct (decide (count busy (workers p) = 0%nat)) as [Hz|Hz].
  - destruct (lookup_lt_is_Some_2 (workers p) 0%nat Hn) as [w Hw].
    pose proof (Forall_lookup_1 _ _ _ _ Hex Hw) as Hne.
    rewrite count_zero in Hz. pose proof (Hz _ _ Hw) as Hb.
    assert (total work (workers p) = 0%nat) as Ht.
    { unfold total. clear -Hz. revert Hz. generalize (workers p). intros ws Hz.
      induction ws as [|a ws IH]; [done|]. cbn. rewrite IH by (intros i; apply (Hz (S i))).
      pose proof (Hz 0%nat a eq_refl). by destruct a. }
    unfold load in *. destruct (tasks_ p) as [|task tasks] eqn:Et; [cbn in Hl; lia|].
    eexists. split.
    + eapply rtc_r; [by apply (to_pop p 0%nat w)|]. exists 0%nat. unfold worker_step. cbn.
      rewrite list_lookup_insert_eq by done. unfold popTask. cbn. rewrite Et. reflexivity.
    + cbn [set_worker workers tasks_]. rewrite list_insert_insert_eq.
      pose proof (total_insert work _ _ _ (WCall task) Hw) as Hi. cbn [work length] in *.
      destruct w; cbn [work] in *; (done || lia).
  - destruct (count_pick busy (workers p)) as (i & w & Hw & Hb); [lia|].
    destruct w; try done; eexists; (split; [apply rtc_once; exists i; unfold worker_step; rewrite Hw; reflexivity|]);
      unfold load; cbn [set_worker workers tasks_];
      [pose proof (total_insert work _ _ _ WDecrement Hw)|pose proof (total_insert work _ _ _ WRunning Hw)];
      cbn [work] in *; lia.
Qed.

Lemma workers_run (p p' : ThreadPool T) pc : rtc worker_steps p p' -> rtc owner_steps (p, pc) (p', pc).
Proof.
  induction 1 as [|p p1 p' [i E] _ IH]; [apply rtc_refl|]. eapply rtc_l; [by eapply steps_worker|exact IH].
Qed.

Lemma pool_drains tasks n pc : (0 < n)%nat -> stopped pc = false -> forall m p, load p = m ->
  owner_inv tasks n (p, pc) ->
  exists p', rtc owner_steps (p, pc) (p', pc) /\ owner_inv tasks n (p', pc) /\ load p' = 0%nat.
Proof.
  intros Hn Hpc m. induction m as [m IH] using (well_founded_induction lt_wf). intros p Hm Hi.
  destruct (decide (m = 0%nat)) as [->|Hz]; [exists p; split; [apply rtc_refl|done]|].
  destruct (ow_alive _ _ _ Hi Hpc) as [Hr Hex]. pose proof (ow_threads _ _ _ Hi) as Hth. cbn [fst] in *.
  destruct (load_step p Hr (ow_paused _ _ _ Hi) Hex) as (p1 & H1 & Hlt); [lia..|].
  apply (workers_run p p1 pc) in H1.
  destruct (IH (load p1) ltac:(lia) p1 eq_refl) as (p' & H2 & Hi' & Hz'); [by eapply owner_run_inv|].
  exists p'. split; [by etransitivity|done].
Qed.

Lemma load_flight (p : ThreadPool T) : idle_pushers p -> load p = 0%nat -> in_flight p = 0%nat.
Proof.
  intros Hq Hl. unfold load in Hl. pose proof (total_busy (workers p)). unfold in_flight.
  assert (count pushing (pushers p) = 0%nat) as ->; [|lia].
  apply count_zero. intros j q Hj. by rewrite (Forall_lookup_1 _ _ _ _ Hq Hj).
Qed.

(** *** Joining *)

Lemma join_all (p : ThreadPool T) : all_exited p -> forall k i, (i + k = length (workers p))%nat ->
  rtc owner_steps (p, OJoin i) (p, ODone).
Proof.
  intros Hall k. induction k as [|k IH]; intros i Hi.
  - apply rtc_once, steps_owner. cbn [owner_step]. unfold destroyThreads_step. by rewrite (lookup_ge_None_2 (workers p) i) by lia.
  - destruct (lookup_lt_is_Some_2 (workers p) i ltac:(lia)) as [w Hw].
    pose proof (Forall_lookup_1 _ _ _ _ Hall Hw) as ->.
    eapply rtc_l; [|apply (IH (S i)); lia]. apply steps_owner. cbn [owner_step]. unfold destroyThreads_step. by rewrite Hw.
Qed.

Lemma join_completes (p : ThreadPool T) i :
  running_ p = false -> exists p', rtc owner_steps (p, OJoin i) (p', ODone).
Proof.
  intros Hr. destruct (destroyThreads_terminates p Hr) as [_ (p' & Hs & Hall)]. exists p'.
  etransitivity; [by apply workers_run|]. destruct (decide (i <= length (workers p'))%nat) as [Hle|Hgt].
  - apply (join_all p' Hall (length (workers p') - i)). lia.
  - apply rtc_once, steps_owner. cbn [owner_step]. unfold destroyThreads_step. by rewrite (lookup_ge_None_2 (workers p') i) by lia.
Qed.

(** With nothing left to run. *)
Lemma quiet_completes tasks n (p : ThreadPool T) pc :
  owner_inv tasks n (p, pc) -> in_flight p = 0%nat -> exists p', rtc owner_steps (p, pc) (p', ODone).
Proof.
  intros Hi Hz.
  assert (exists p', rtc owner_steps (p, OStop) (p', ODone)) as (p1 & H1).
  { destruct (join_completes (set_running false p) 0) as [p' Hp']; [done|]. exists p'.
    eapply rtc_l; [by apply steps_owner|exact Hp']. }
  assert (rtc owner_steps (p, OWait WtTotal) (p1, ODone)) as H2.
  { eapply rtc_l; [apply steps_owner; reflexivity|].
    by rewrite (total_zero p (ow_pool _ _ _ Hi) (ow_bound _ _ _ Hi)), bool_decide_true. }
  destruct pc as [[| | | |]|i|]; [|eauto|by destruct (ow_pc _ _ _ Hi)..|eauto| |exists p; apply rtc_refl].
  - exists p1. eapply rtc_l; [apply steps_owner; reflexivity|]. cbn. pose proof (ow_paused _ _ _ Hi) as Hp.
    cbn in Hp. by rewrite Hp.
  - apply join_completes, (ow_pc _ _ _ Hi).
Qed.

Lemma owner_completes tasks n (p : ThreadPool T) pc :
  owner_inv tasks n (p, pc) -> (0 < n)%nat -> exists p', rtc owner_steps (p, pc) (p', ODone).
Proof.
  intros Hi Hn. destruct (stopped pc) eqn:Hs.
  - eapply quiet_completes; [exact Hi|]. pose proof (ow_pc _ _ _ Hi) as Hpc. by destruct pc as [[| | | |]|i|]; (try done); apply Hpc.
  - destruct (pool_drains tasks n pc Hn Hs _ p eq_refl Hi) as (p1 & H1 & Hi1 & Hl).
    destruct (quiet_completes tasks n p1 pc Hi1) as [p' H2]; [apply load_flight; [apply Hi1|done]|].
    exists p'. by etransitivity.
Qed.

(** What is left once [running_] has been cleared. *)
Definition join_rank (x : ThreadPool T * owner_pc) : nat :=
  (ranks x.1 + match x.2 with OJoin i => S (length (workers x.1) - i) | _ => 0 end)%nat.

Lemma join_rank_step x y :
  owner_steps x y -> stopped x.2 = true -> running_ x.1 = false ->
  stopped y.2 = true /\ running_ y.1 = false /\ (join_rank y < join_rank x)%nat.
Proof.
  intros Hst Hs Hr. destruct Hst as [i p p' pc E|p pc x E]; unfold join_rank; cbn [fst snd] in *.
  - destruct (worker_step_rank p p' Hr ltac:(by exists i)) as [Hr' Hlt].
    destruct (worker_step_frame i p p' E) as (_ & _ & _ & _ & -> & _). repeat split; (done || lia).
  - destruct pc; try done. cbn [owner_step] in E. unfold destroyThreads_step in E. destruct (workers p !! i) as [w|] eqn:Hw.
    + destruct w; try done. injection E as <-. apply lookup_lt_Some in Hw. cbn. repeat split; (done || lia).
    + injection E as <-. cbn. repeat split; (done || lia).
Qed.

Lemma join_stuck x : stopped x.2 = true -> (forall y, ~ owner_steps x y) -> x.2 = ODone.
Proof.
  destruct x as [p pc]. cbn. intros Hs Hn. destruct pc as [|i|]; try done. exfalso.
  assert (forall j w, workers p !! j = Some w -> w = WExited) as Hall.
  { apply stuck_exited. intros p' [j E]. by apply (Hn (p', OJoin i)), (steps_worker j). }
  destruct (workers p !! i) as [w|] eqn:Hw.
  - pose proof (Hall _ _ Hw) as ->. apply (Hn (p, OJoin (S i))), steps_owner. cbn [owner_step]. unfold destroyThreads_step. by rewrite Hw.
  - apply (Hn (p, ODone)), steps_owner. cbn [owner_step]. unfold destroyThreads_step. by rewrite Hw.
Qed.

Lemma join_bound k x y :
  nsteps owner_steps k x y -> stopped x.2 = true -> running_ x.1 = false ->
  stopped y.2 = true /\ (k + join_rank y <= join_rank x)%nat.
Proof.
  induction 1 as [x|k x x1 y Hst _ IH]; intros Hs Hr; [split; [done|lia]|].
  destruct (join_rank_step x x1 Hst Hs Hr) as (Hs1 & Hr1 & Hlt). destruct (IH Hs1 Hr1). split; [done|lia].
Qed.

(** Without threads and with a task to run it waits for ever. *)
Lemma no_threads_wait (p : ThreadPool T) x :
  pool_inv p -> Z.of_nat (in_flight p) < 2 ^ 64 -> workers p = [] -> paused_ p = false -> in_flight p <> 0%nat ->
  rtc owner_steps (p, OPaused) x -> x = (p, OPaused) \/ x = (p, OWait WtTotal).
Proof.
  intros Hi Hb Hw Hp Hz. revert x. apply (rtc_ind_r (fun x => x = (p, OPaused) \/ x = (p, OWait WtTotal))); [auto|].
  intros x y _ Hst Hx. destruct Hst as [i q q' pc E|q pc y E].
  - assert (q = p) as -> by (by destruct Hx as [[= -> _]|[= -> _]]).
    unfold worker_step in E. by rewrite Hw in E.
  - destruct Hx as [[= -> ->]|[= -> ->]]; injection E as <-; [rewrite Hp; auto|].
    rewrite total_zero, bool_decide_false by done. auto.
Qed.

End Owner.

Lemma owner_start_inv {T} threadNum clients (p : ThreadPool T) :
  rtc pool_step (ThreadPool_ctor threadNum clients) p -> Z.of_nat (in_flight p) < 2 ^ 64 ->
  running_ p = true -> paused_ p = false -> idle_pushers p ->
  owner_inv (pushed p) (length (workers p)) (p, OWait WtPaused).
Proof.
  intros Hreach Hb Hr Hp Hq. split; cbn; try done; [by eapply pool_reachable_inv|].
  intros _. split; [done|by eapply reachable_alive].
Qed.

(** C39: the destructor of a pool that is not paused, and [reset] up to its new
    threads, in every interleaving with the workers: when it is through, every
    task that was pushed has been run exactly once and every worker has left its
    loop; a pool with threads can always get there; and from the moment
    [running_] is cleared every schedule gets there, within a bounded number of
    steps. *)
Theorem destructor_runs_all {T} threadNum clients (p : ThreadPool T) q pc :
  rtc pool_step (ThreadPool_ctor threadNum clients) p -> Z.of_nat (in_flight p) < 2 ^ 64 ->
  running_ p = true -> paused_ p = false -> idle_pushers p ->
  rtc owner_steps (p, OWait WtPaused) (q, pc) ->
  (pc = ODone -> all_exited q /\ tasks_ q = [] /\ finished q ≡ₚ pushed p) /\
  ((0 < length (workers p))%nat -> exists q', rtc owner_steps (q, pc) (q', ODone)) /\
  (stopped pc = true -> forall k x, nsteps owner_steps k (q, pc) x ->
     (k <= join_rank (q, pc))%nat /\ ((forall y, ~ owner_steps x y) -> x.2 = ODone)).
Proof.
  intros Hreach Hb Hr Hp Hidle Hrun.
  pose proof (owner_run_inv _ _ _ _ Hrun (owner_start_inv _ _ _ Hreach Hb Hr Hp Hidle)) as Hi. split; [|split].
  - intros ->. destruct Hi as [H1 H2 _ _ _ _ _ (_ & Hz & Hall)]. cbn [fst snd] in *.
    destruct (quiet_finished q H1 Hz) as (Ht & Hf & _). by rewrite <- H2.
  - intros Hn. by eapply owner_completes.
  - intros Hs k x Hk. assert (running_ q = false) as Hrq.
    { pose proof (ow_pc _ _ _ Hi) as Hpc. by destruct pc; (try done); apply Hpc. }
    destruct (join_bound k (q, pc) x Hk Hs Hrq) as [Hsx ?]. split; [lia|by apply join_stuck].
Qed.

(** ** The paused pool *)

(** Steps that leave worker [i] alone. *)
Definition demo_running : ThreadPool nat :=
  mkThreadPool [] 1 true true [WCall 0%nat] [PIdle] [0%nat] [0%nat] [].
Definition demo_pushed : ThreadPool nat :=
  mkThreadPool [1%nat] 2 true true [WCall 0%nat] [PIdle] [0%nat; 1%nat] [0%nat] [].

(** [getTasksRunning] is not a count of the running tasks: it reads
    [tasksTotal_] and the queue at different moments, so that a push in
    between hides a running task, and [waitForTasks] of a paused pool returns
    although task 0 has not finished. *)
Theorem running_count_races :
  exists p1 p2 : ThreadPool nat,
    rtc pool_step (ThreadPool_ctor 1 1) p1 /\ rtc pool_step p1 p2 /\
    paused_ p1 = true /\ workers p1 !! 0%nat = Some (WCall 0%nat) /\ workers p2 !! 0%nat = Some (WCall 0%nat) /\
    getTasksRunning (tasksTotal_ p1) (getTasksQueued p2) = 0 /\ finished p2 = [].
Proof.
  exists demo_running, demo_pushed. split; [|split; [|by repeat split]].
  - eapply rtc_l; [by apply (step_increment 0 0%nat)|].
    eapply rtc_l; [by apply (step_push 0 0%nat)|].
    eapply rtc_l; [by apply (step_worker 0)|]. eapply rtc_l; [by apply (step_worker 0)|].
    eapply rtc_l; [by apply (step_worker 0)|].
    eapply rtc_l; [by apply (step_paused true)|]. apply rtc_refl.
  - eapply rtc_l; [by apply (step_increment 0 1%nat)|].
    eapply rtc_l; [by apply (step_push 0 1%nat)|]. apply rtc_refl.
Qed.

(** ** Witnesses *)






Definition demo_queued : ThreadPool nat :=
  mkThreadPool [7%nat] 1 false true [WRunning; WRunning] [PIdle] [7%nat] [] [].

Lemma demo_queued_reachable : rtc pool_step (ThreadPool_ctor 2 1) demo_queued.
Proof.
  eapply rtc_l; [by apply (step_increment 0 7%nat)|].
  eapply rtc_l; [by apply (step_push 0 7%nat)|]. apply rtc_refl.
Defined.

Lemma destructor_runs_all_witness :
  exists q, rtc owner_steps (demo_queued, OWait WtPaused) (q, ODone) /\ all_exited q /\ finished q ≡ₚ [7%nat].
Proof.
  destruct (destructor_runs_all 2 1 demo_queued demo_queued (OWait WtPaused) demo_queued_reachable) as (_ & H & _);
    [done|done|done|by repeat constructor|apply rtc_refl|].
  destruct H as [q Hq]; [cbn; lia|]. exists q. split; [exact Hq|].
  destruct (destructor_runs_all 2 1 demo_queued q ODone demo_queued_reachable) as (H & _);
    [done|done|done|by repeat constructor|exact Hq|].
  destruct (H eq_refl) as (H1 & _ & H2). split; [exact H1|exact H2].
Defined.

(** A pool that is paused when it goes away drops its queue. *)
Example paused_destructor_drops :
  exists q, rtc owner_steps (set_paused true demo_queued, OWait WtPaused) (q, ODone) /\
    tasks_ q = [7%nat] /\ finished q = [] /\ all_exited q.
Proof.
  eexists. split.
  - do 4 (eapply rtc_l; [by apply steps_owner|]). cbn.
    eapply rtc_l; [by apply (steps_worker 0%nat)|]. eapply rtc_l; [by apply (steps_worker 1%nat)|].
    do 3 (eapply rtc_l; [by apply steps_owner|]). apply rtc_refl.
  - by repeat constructor.
Qed.
