(* ===== verification/EventLoopThread.v ===== *)
(** * A loop in a thread of its own: tmuduo/net/EventLoopThread.h and .cc

    The caller of [startLoop] and of the destructor, and the thread, which
    constructs the loop on its stack, publishes its address under the mutex,
    and runs it until it is told to quit; the loop is gone when [threadFunc]
    returns, and [loop_] keeps pointing at it. *)

From S2P Require Import Prelude.

(** Where the owner is: outside, at the test of [startLoop]'s loop, asleep on
    [cond_], with the loop it returned, in the destructor between the two
    halves of [EventLoop::quit], at [join], or done. *)
Inductive owner_pc :=
| OwnerIdle
| OwnerTest
| OwnerAsleep
| OwnerReturned (loop : nat)
| OwnerWakeup
| OwnerJoin
| OwnerDone.

(** Where the thread is: not created, in the init callback, about to publish,
    in [loop.loop()], or out of [threadFunc]. *)
Inductive thread_pc := NoThread | Callback | Publish | Looping | Ended.

#[global] Instance thread_pc_eq_dec : EqDecision thread_pc.
Proof. solve_decision. Defined.

Record EventLoopThread := mkLoopThread {
  loop_ : option nat;
  exiting_ : bool;
  owner : owner_pc;
  thread : thread_pc;
  quit_ : bool
}.

Definition EventLoopThread_ctor : EventLoopThread := mkLoopThread None false OwnerIdle NoThread false.

Definition set_owner (s : EventLoopThread) (o : owner_pc) : EventLoopThread :=
  mkLoopThread (loop_ s) (exiting_ s) o (thread s) (quit_ s).
Definition set_thread (s : EventLoopThread) (t : thread_pc) : EventLoopThread :=
  mkLoopThread (loop_ s) (exiting_ s) (owner s) t (quit_ s).
Definition set_quit (s : EventLoopThread) : EventLoopThread :=
  mkLoopThread (loop_ s) (exiting_ s) (owner s) (thread s) true.

(** The loop object exists while its thread is in [threadFunc]. *)
Definition loop_alive (s : EventLoopThread) : bool :=
  match thread s with Callback | Publish | Looping => true | _ => false end.

(** Using the loop through [loop_]. *)
Definition deref (s : EventLoopThread) : res unit :=
  match loop_ s with
  | None => Err NullDereference
  | Some _ => guard_ UseAfterFree (loop_alive s)
  end.

(** [startLoop]: the thread is created, then the loop waits under the mutex. *)
Definition startLoop (s : EventLoopThread) : EventLoopThread := set_owner (set_thread s Callback) OwnerTest.
Definition startLoop_test (s : EventLoopThread) : EventLoopThread :=
  set_owner s (match loop_ s with None => OwnerAsleep | Some l => OwnerReturned l end).

(** [threadFunc], step by step; [self] is the address of its loop. *)
Definition threadFunc_step (self : nat) (s : EventLoopThread) : option EventLoopThread :=
  match thread s with
  | Callback => Some (set_thread s Publish)
  | Publish =>
      let s := mkLoopThread (Some self) (exiting_ s) (owner s) (thread s) (quit_ s) in
      let s := match owner s with OwnerAsleep => set_owner s OwnerTest | _ => s end in
      Some (set_thread s Looping)
  | Looping => if quit_ s then Some (set_thread s Ended) else None
  | NoThread | Ended => None
  end.

(** The destructor: [quit_ = true], then [wakeup()], both through [loop_],
    then [join], which needs a thread. *)
Definition dtor_quit (s : EventLoopThread) : res EventLoopThread :=
  deref s;;
  Ok (set_owner (mkLoopThread (loop_ s) true (owner s) (thread s) true) OwnerWakeup).
Definition dtor_wakeup (s : EventLoopThread) : res EventLoopThread :=
  deref s;;
  Ok (set_owner s OwnerJoin).
Definition dtor_join (s : EventLoopThread) : option EventLoopThread :=
  match thread s with Ended => Some (set_owner s OwnerDone) | _ => None end.

(** One step of the owner, the thread, or anybody else who calls [quit] on
    the running loop; a fault ends the run. *)
Inductive step (self : nat) : EventLoopThread -> res EventLoopThread -> Prop :=
| step_start s : owner s = OwnerIdle -> step self s (Ok (startLoop s))
| step_test s : owner s = OwnerTest -> step self s (Ok (startLoop_test s))
| step_spurious s : owner s = OwnerAsleep -> step self s (Ok (set_owner s OwnerTest))
| step_thread s s' : threadFunc_step self s = Some s' -> step self s (Ok s')
| step_quit s : thread s = Looping -> step self s (Ok (set_quit s))
| step_dtor s l : owner s = OwnerReturned l -> step self s (dtor_quit s)
| step_wakeup s : owner s = OwnerWakeup -> step self s (dtor_wakeup s)
| step_join s s' : owner s = OwnerJoin -> dtor_join s = Some s' -> step self s (Ok s').

Definition steps (self : nat) (s s' : EventLoopThread) : Prop := step self s (Ok s').

(** ** Invariant *)

Record loop_inv (self : nat) (s : EventLoopThread) : Prop := {
  inv_idle : owner s = OwnerIdle <-> thread s = NoThread;
  inv_published : loop_ s = (match thread s with Looping | Ended => Some self | _ => None end);
  inv_asleep : owner s = OwnerAsleep -> loop_ s = None;
  inv_returned : match owner s with
                 | OwnerReturned l => loop_ s = Some l
                 | OwnerWakeup | OwnerJoin | OwnerDone => loop_ s = Some self
                 | _ => True
                 end;
  inv_ended : thread s = Ended -> quit_ s = true;
  inv_quitting : match owner s with OwnerWakeup | OwnerJoin | OwnerDone => quit_ s = true | _ => True end
}.

Lemma thread_ctor_inv self : loop_inv self EventLoopThread_ctor.
Proof. by split. Qed.

Lemma thread_step_inv self s s' : loop_inv self s -> threadFunc_step self s = Some s' -> loop_inv self s'.
Proof.
  intros [H1 H2 H3 H4 H5 H6] E. unfold threadFunc_step in E.
  destruct (thread s) eqn:Et; try done; [| |destruct (quit_ s) eqn:Eq; [|done]];
    injection E as <-; destruct (owner s) eqn:Eo; split; cbn; rewrite ?Eo; try done;
    try (split; [by intros|by intros]); try (by destruct H1; intuition); try congruence.
Qed.

Lemma step_inv self s s' : loop_inv self s -> step self s (Ok s') -> loop_inv self s'.
Proof.
  intros Hi Hst. inversion Hst as [s0 Ho E1 E2|s0 Ho E1 E2|s0 Ho E1 E2|s0 s1 E E1 E2|s0 Ht E1 E2
    |s0 l Ho E1 E2|s0 Ho E1 E2|s0 s1 Ho E E1 E2]; subst.
  - destruct Hi as [H1 H2 H3 H4 H5 H6]. apply H1 in Ho as Ht. split; cbn; try done. by rewrite H2, Ht.
  - destruct Hi as [H1 H2 H3 H4 H5 H6]. unfold startLoop_test. rewrite Ho in *.
    destruct (loop_ s) eqn:El; split; cbn; rewrite ?El; try done; split; try done;
      intros Ht; by destruct H1 as [_ H1]; specialize (H1 Ht).
  - destruct Hi as [H1 H2 H3 H4 H5 H6]. split; cbn; try done. rewrite Ho in H1.
    split; [done|]. intros Ht. by destruct H1 as [_ H1]; specialize (H1 Ht).
  - by eapply thread_step_inv.
  - destruct Hi as [H1 H2 H3 H4 H5 H6]. split; cbn; try done. by destruct (owner s).
  - destruct Hi as [H1 H2 H3 H4 H5 H6]. unfold dtor_quit in E2. inv_res. rewrite Ho in *.
    split; cbn; try done.
    + split; [done|]. intros Ht. by destruct H1 as [_ H1]; specialize (H1 Ht).
    + rewrite H2 in H4 |- *. by destruct (thread s).
  - destruct Hi as [H1 H2 H3 H4 H5 H6]. unfold dtor_wakeup in E2. inv_res. rewrite Ho in *.
    split; cbn; try done. split; [done|]. intros Ht. by destruct H1 as [_ H1]; specialize (H1 Ht).
  - destruct Hi as [H1 H2 H3 H4 H5 H6]. unfold dtor_join in E. rewrite Ho in *.
    destruct (thread s) eqn:Et; try done. injection E as <-. split; cbn; rewrite ?Et; try done.
Qed.

Lemma thread_reachable_inv self s : rtc (steps self) EventLoopThread_ctor s -> loop_inv self s.
Proof.
  revert s. apply (rtc_ind_r (loop_inv self)); [apply thread_ctor_inv|]. intros s s' _ Hst Hi. by eapply step_inv.
Qed.

(** C37: in every interleaving [startLoop] returns the address of the thread's
    own loop, published and not yet destroyed unless it has been told to quit;
    its owner never sleeps through the notification: while it is asleep the
    thread has not published yet, and from there, or from the test, a few
    steps of the two lead to the return. *)
Theorem startLoop_handshake self s :
  rtc (steps self) EventLoopThread_ctor s ->
  (forall l, owner s = OwnerReturned l -> l = self /\ loop_ s = Some self /\
     (thread s = Looping \/ (thread s = Ended /\ quit_ s = true))) /\
  (owner s = OwnerAsleep -> thread s = Callback \/ thread s = Publish) /\
  (owner s = OwnerAsleep \/ owner s = OwnerTest ->
   exists s', rtc (steps self) s s' /\ owner s' = OwnerReturned self).
Proof.
  intros Hr. pose proof (thread_reachable_inv _ _ Hr) as [H1 H2 H3 H4 H5 H6].
  assert (owner s = OwnerAsleep -> thread s = Callback \/ thread s = Publish) as Ha.
  { intros Ho. specialize (H3 Ho). rewrite H2 in H3. destruct (thread s) eqn:Et; try tauto; try done.
    destruct H1 as [_ H1]. specialize (H1 eq_refl). congruence. }
  split; [|split; [exact Ha|]].
  - intros l Ho. rewrite Ho in H4. rewrite H2 in H4. destruct (thread s) eqn:Et; try done;
      injection H4 as <-; rewrite H2; split; [done| |done|]; split; try done; [by left|right; by split; [|apply H5]].
  - intros Ho. assert (forall s, owner s = OwnerTest -> loop_ s = Some self ->
      exists s', rtc (steps self) s s' /\ owner s' = OwnerReturned self) as Hret.
    { intros s0 Ho0 Hl0. eexists. split; [by apply rtc_once, step_test|]. cbn. by rewrite Hl0. }
    assert (forall s, thread s = Publish -> owner s = OwnerAsleep \/ owner s = OwnerTest ->
      exists s', rtc (steps self) s s' /\ owner s' = OwnerReturned self) as Hpub.
    { intros s0 Ht0 Ho0. edestruct Hret as (s' & Hs & Hs'); cycle 2.
      - exists s'. split; [|exact Hs']. eapply rtc_l; [|exact Hs].
        apply step_thread. unfold threadFunc_step. rewrite Ht0. reflexivity.
      - cbn. by destruct Ho0 as [-> | ->].
      - cbn. by destruct Ho0 as [-> | ->]. }
    destruct (thread s) eqn:Et.
    + destruct H1 as [_ H1]. specialize (H1 eq_refl). by destruct Ho; congruence.
    + edestruct (Hpub (set_thread s Publish)) as (s' & Hs & Hs'); [done|done|].
      exists s'. split; [|done]. eapply rtc_l; [|exact Hs]. apply step_thread.
      unfold threadFunc_step. by rewrite Et.
    + by apply Hpub.
    + apply Hret; [|done]. destruct Ho as [Ho|Ho]; [|done]. destruct (Ha Ho); congruence.
    + apply Hret; [|done]. destruct Ho as [Ho|Ho]; [|done]. destruct (Ha Ho); congruence.
Qed.

(** What the destructor does in every reachable state: without a
    [startLoop] before it, it dereferences null; after one, it uses a loop
    that no longer exists if the loop has quit already, or quits for another
    reason between the two halves of [EventLoop::quit]; otherwise the thread
    ends and [join] returns.  The late case is reachable. *)
Theorem dtor_outcome self s :
  rtc (steps self) EventLoopThread_ctor s ->
  (owner s = OwnerIdle -> dtor_quit s = Err NullDereference) /\
  (forall l, owner s = OwnerReturned l ->
     if bool_decide (thread s = Ended) then dtor_quit s = Err UseAfterFree
     else exists s', dtor_quit s = Ok s' /\ quit_ s' = true /\ owner s' = OwnerWakeup) /\
  (owner s = OwnerWakeup ->
     if bool_decide (thread s = Ended) then dtor_wakeup s = Err UseAfterFree
     else dtor_wakeup s = Ok (set_owner s OwnerJoin)) /\
  (owner s = OwnerJoin -> exists s', rtc (steps self) s s' /\ owner s' = OwnerDone).
Proof.
  intros Hr. pose proof (thread_reachable_inv _ _ Hr) as [H1 H2 H3 H4 H5 H6].
  assert (loop_ s = Some self -> if bool_decide (thread s = Ended) then deref s = Err UseAfterFree
          else deref s = Ok tt) as Hd.
  { intros Hl. unfold deref. rewrite Hl. unfold loop_alive. rewrite H2 in Hl.
    destruct (thread s); try done. }
  split; [|split; [|split]].
  - intros Ho. apply H1 in Ho. unfold dtor_quit, deref. rewrite H2, Ho. done.
  - intros l Ho. rewrite Ho in H4. assert (loop_ s = Some self) as Hl
      by (rewrite H2 in H4 |- *; by destruct (thread s)).
    specialize (Hd Hl). unfold dtor_quit. case_bool_decide; rewrite Hd; [done|]. by eexists.
  - intros Ho. rewrite Ho in H4. specialize (Hd H4). unfold dtor_wakeup. case_bool_decide; by rewrite Hd.
  - intros Ho. rewrite Ho in H4, H6. rewrite H2 in H4. destruct (thread s) eqn:Et; try done.
    + exists (set_owner (set_thread s Ended) OwnerDone). split; [|done].
      eapply rtc_l; [apply step_thread; unfold threadFunc_step; by rewrite Et, H6|].
      apply rtc_once. by eapply step_join.
    + exists (set_owner s OwnerDone). split; [|done]. apply rtc_once. eapply step_join; [done|].
      unfold dtor_join. by rewrite Et.
Qed.

(** The loop ends by itself between the two halves of [quit]. *)
Definition demo_late : EventLoopThread := mkLoopThread (Some 9%nat) true OwnerWakeup Ended true.

Lemma demo_late_reachable : rtc (steps 9) EventLoopThread_ctor demo_late.
Proof.
  eapply rtc_l; [by apply step_start|]. eapply rtc_l; [by apply step_test|].
  eapply rtc_l; [by apply step_thread|]. eapply rtc_l; [by apply step_thread|].
  eapply rtc_l; [by apply step_test|]. 
  apply (rtc_l _ _ (mkLoopThread (Some 9%nat) true OwnerWakeup Looping true));
    [exact (step_dtor 9 (mkLoopThread (Some 9%nat) false (OwnerReturned 9) Looping false) 9 eq_refl)|].
  eapply rtc_l; [by apply step_thread|]. apply rtc_refl.
Defined.

Lemma dtor_outcome_witness : dtor_wakeup demo_late = Err UseAfterFree.
Proof. destruct (dtor_outcome 9 demo_late demo_late_reachable) as (_ & _ & H & _). by apply H. Defined.

Definition demo_asleep : EventLoopThread := mkLoopThread None false OwnerAsleep Publish false.

Lemma demo_asleep_reachable : rtc (steps 9) EventLoopThread_ctor demo_asleep.
Proof.
  eapply rtc_l; [by apply step_start|]. eapply rtc_l; [by apply step_test|].
  eapply rtc_l; [by apply step_thread|]. apply rtc_refl.
Defined.

Lemma startLoop_handshake_witness :
  exists s', rtc (steps 9) demo_asleep s' /\ owner s' = OwnerReturned 9.
Proof.
  destruct (startLoop_handshake 9 demo_asleep demo_asleep_reachable) as (_ & _ & H). apply H. by left.
Defined.
