(* ===== verification/TcpServer.v ===== *)
(** * The server: Acceptor, EventLoopThreadPool and TcpServer

    tmuduo/net/Acceptor.cc, EventLoopThreadPool.cc, TcpServer.h and
    TcpServer.cc.  Loops are known by their addresses and connections by
    theirs; what the server has the loops do with a connection is recorded as
    calls.  Results of system calls are arguments. *)

From S2P Require Import Prelude Format InetAddress.
From S2P Require Socket.

(** ** Acceptor *)

Module Acceptor.
Import Socket.

(** [opened], [handed] and [closed]: the descriptors opened (the listening one,
    idle ones and accepted ones), given to the server, and closed. *)
Record Acceptor := mkAcceptor {
  acceptSocket_ : Socket;
  listenning_ : bool;
  idleFd_ : Z;
  newConnectionCallback_ : bool;
  reading : bool;
  opened : list Z;
  handed : list Z;
  closed : list Z
}.

(** What the system calls of the constructor return: the socket, the idle
    descriptor, the two options, the binding. *)
Record ctor_results := mkResults { r_socket : Z; r_idle : Z; r_reuseaddr : Z; r_reuseport : Z; r_bind : Z }.

Definition Acceptor_ctor (listenAddr : sockaddr) (reuseport : bool) (r : ctor_results) : res Acceptor :=
  sockfd ← createNonblockingOrDie (r_socket r);
  assert_ (0 <=? r_idle r);;
  let s := (setReuseAddr (Socket_ctor sockfd) true (r_reuseaddr r)).1 in
  let s := (setReusePort s reuseport (r_reuseport r)).1 in
  s ← bindAddress s listenAddr (r_bind r);
  Ok (mkAcceptor s false (r_idle r) false false [sockfd; r_idle r] [] []).

Definition setNewConnectionCallback (a : Acceptor) : Acceptor :=
  mkAcceptor (acceptSocket_ a) (listenning_ a) (idleFd_ a) true (reading a) (opened a) (handed a) (closed a).

(** [ret] is the result of listening; then the channel is read. *)
Definition listen (in_loop : bool) (a : Acceptor) (ret : Z) : res Acceptor :=
  guard_ FatalLog in_loop;;
  s ← Socket.listen (acceptSocket_ a) ret;
  Ok (mkAcceptor s true (idleFd_ a) (newConnectionCallback_ a) true (opened a) (handed a) (closed a)).

(** The destructor: the channel, the idle descriptor, then the socket. *)
Definition Acceptor_dtor (a : Acceptor) : Acceptor :=
  mkAcceptor (acceptSocket_ a) (listenning_ a) (idleFd_ a) (newConnectionCallback_ a) false (opened a)
    (handed a) (closed a ++ [idleFd_ a; Socket_dtor (acceptSocket_ a)]).

(** [handleRead]; [idle_accept] and [idle_open] are the results of the second
    accept and of the new open, -1 when they fail. *)
Definition handleRead (in_loop : bool) (a : Acceptor) (r : accept_ret) (idle_accept idle_open : Z)
    : res Acceptor :=
  guard_ FatalLog in_loop;;
  r ← sockets_accept r;
  match r with
  | AcceptOk connfd =>
      Ok (if newConnectionCallback_ a
          then mkAcceptor (acceptSocket_ a) (listenning_ a) (idleFd_ a) true (reading a)
                 (opened a ++ [connfd]) (handed a ++ [connfd]) (closed a)
          else mkAcceptor (acceptSocket_ a) (listenning_ a) (idleFd_ a) false (reading a)
                 (opened a ++ [connfd]) (handed a) (closed a ++ [connfd]))
  | AcceptErr e =>
      if e =? EMFILE then
        Ok (mkAcceptor (acceptSocket_ a) (listenning_ a) idle_open (newConnectionCallback_ a) (reading a)
              (opened a ++ [idle_accept; idle_open]) (handed a) (closed a ++ [idleFd_ a; idle_accept]))
      else Ok a
  end.

Fixpoint handleReads (a : Acceptor) (rs : list (accept_ret * Z * Z)) : res Acceptor :=
  match rs with
  | [] => Ok a
  | (r, ia, io) :: rs => a ← handleRead true a r ia io; handleReads a rs
  end.

(** The errors the code expects. *)
Definition expected (r : accept_ret) : Prop := is_ok (sockets_accept r) = true.

(** The accounts of the descriptors while the acceptor lives. *)
Definition accounted (a : Acceptor) : Prop :=
  opened a ≡ₚ handed a ++ closed a ++ [idleFd_ a; sockfd_ (acceptSocket_ a)].

Lemma handleReads_ok rs : forall a,
  accounted a -> Forall (fun p => expected p.1.1) rs ->
  exists a', handleReads a rs = Ok a' /\ accounted a' /\ acceptSocket_ a' = acceptSocket_ a.
Proof.
  induction rs as [|[[r ia] io] rs IH]; intros a Ha Hrs; cbn [handleReads]; [eauto|].
  apply Forall_cons in Hrs as [Hr Hrs]. unfold expected in Hr. cbn [fst] in Hr.
  assert (exists a1, handleRead true a r ia io = Ok a1 /\ accounted a1 /\ acceptSocket_ a1 = acceptSocket_ a)
    as (a1 & -> & Ha1 & <-); [|by apply IH].
  unfold handleRead, accounted in *. destruct r as [fd|e]; cbn [sockets_accept guard_ mbind res_bind] in *.
  - eexists. split; [done|].
    destruct (newConnectionCallback_ a); cbn; (split; [|done]); rewrite Ha; solve_Permutation.
  - destruct (bool_decide _); [|done]. cbn [mbind res_bind]. destruct (e =? EMFILE); [|eauto].
    eexists. split; [done|]. cbn. split; [|done]. rewrite Ha. solve_Permutation.
Qed.

(** The options the listening socket ends up with: [setReuseAddr] sets the
    option of [setReusePort], which then overwrites it. *)
Lemma acceptor_options listenAddr reuseport r a :
  Acceptor_ctor listenAddr reuseport r = Ok a -> 0 <= r_reuseport r ->
  sockopts (acceptSocket_ a) !! (SOL_SOCKET, SO_REUSEPORT) = Some (Z.b2z reuseport) /\
  sockopts (acceptSocket_ a) !! (SOL_SOCKET, SO_REUSEADDR) = None.
Proof.
  intros (fd & _ & ([] & _ & (s & Hb & [= <-])%bind_ok_inv)%bind_ok_inv)%bind_ok_inv Hr.
  apply bind_ok_inv in Hb as (z & _ & [= <-]). cbn [acceptSocket_ sockopts]. split.
  - by apply set_option_last.
  - etransitivity; [by apply (reuseaddr_unset _ SOL_SOCKET SO_REUSEPORT)|].
    by apply (reuseaddr_unset (Socket_ctor fd) SOL_SOCKET SO_REUSEPORT true).
Qed.

(** C35: through any number of accepts, with or without the error of a process
    out of descriptors, every descriptor opened has been handed to the server,
    closed, or is the one idle descriptor or the listening one, and none twice;
    after the destructor all have been handed on or closed. *)
Theorem acceptor_no_leak listenAddr reuseport r ret cb rs :
  0 <= r_socket r -> 0 <= r_idle r -> 0 <= r_bind r -> 0 <= ret -> Forall (fun p => expected p.1.1) rs ->
  exists a0 a1 a, Acceptor_ctor listenAddr reuseport r = Ok a0 /\
    listen true (if cb : bool then setNewConnectionCallback a0 else a0) ret = Ok a1 /\
    handleReads a1 rs = Ok a /\
    opened a ≡ₚ handed a ++ closed a ++ [idleFd_ a; sockfd_ (acceptSocket_ a)] /\
    opened (Acceptor_dtor a) ≡ₚ handed (Acceptor_dtor a) ++ closed (Acceptor_dtor a).
Proof.
  intros Hs Hi Hb Hl Hrs. unfold Acceptor_ctor, createNonblockingOrDie, bindAddress, bindOrDie, orDie.
  replace (r_socket r <? 0) with false by lia. replace (r_bind r <? 0) with false by lia.
  cbn [mbind res_bind]. rewrite assert_true by lia. cbn [mbind res_bind].
  eexists. unfold listen, Socket.listen, listenOrDie, orDie. replace (ret <? 0) with false by lia.
  match goal with |- context [Ok ?a0 = Ok _ /\ _] => set (a := a0) end.
  set (a1 := mkAcceptor
    (mkSocket (sockfd_ (acceptSocket_ a)) (sockopts (acceptSocket_ a)) (bound (acceptSocket_ a)) true
       (write_shut (acceptSocket_ a))) true (idleFd_ a) cb true (opened a) [] []).
  destruct (handleReads_ok rs a1) as (a' & E & Ha & _); [|done|].
  { unfold accounted. cbn. unfold setReusePort, setReuseAddr, set_option, setsockopt. cbn.
    repeat case_match; cbn; apply Permutation_swap. }
  exists a1, a'. split; [done|]. split; [by destruct cb|]. split; [exact E|]. split; [exact Ha|].
  exact Ha.
Qed.

Lemma acceptor_no_leak_witness :
  let rs := [(AcceptOk 5, 0, 0); (AcceptErr EMFILE, 6, 7); (AcceptErr EAGAIN, 0, 0)] in
  exists a0 a1 a, Acceptor_ctor [] true (mkResults 3 4 0 0 0) = Ok a0 /\
    listen true (if true then setNewConnectionCallback a0 else a0) 0 = Ok a1 /\
    handleReads a1 rs = Ok a /\
    opened a ≡ₚ handed a ++ closed a ++ [idleFd_ a; sockfd_ (acceptSocket_ a)] /\
    opened (Acceptor_dtor a) ≡ₚ handed (Acceptor_dtor a) ++ closed (Acceptor_dtor a).
Proof.
  apply (acceptor_no_leak [] true (mkResults 3 4 0 0 0) 0 true); [done..|].
  repeat constructor; by vm_compute.
Defined.

End Acceptor.

(** ** EventLoopThreadPool *)

Module Pool.

(** The threads are those of the loops they started. *)
Record EventLoopThreadPool := mkPool {
  baseLoop_ : Z;
  started_ : bool;
  numThreads_ : Z;
  next_ : Z;
  loops_ : list Z
}.

Definition Pool_ctor (baseLoop : Z) : EventLoopThreadPool := mkPool baseLoop false 0 0 [].

Definition setThreadNum (p : EventLoopThreadPool) (numThreads : Z) : EventLoopThreadPool :=
  mkPool (baseLoop_ p) (started_ p) numThreads (next_ p) (loops_ p).

(** [start], with the addresses of the loops the threads start, and the loops
    the callback is called with in this thread. *)
Definition start (in_loop : bool) (p : EventLoopThreadPool) (cb : bool) (new_loops : nat -> Z) :
    res (EventLoopThreadPool * list Z) :=
  assert_ (negb (started_ p));;
  guard_ FatalLog in_loop;;
  let loops := loops_ p ++ map new_loops (seq 0 (Z.to_nat (numThreads_ p))) in
  Ok (mkPool (baseLoop_ p) true (numThreads_ p) (next_ p) loops,
      if (numThreads_ p =? 0) && cb then [baseLoop_ p] else []).

Definition getNextLoop (in_loop : bool) (p : EventLoopThreadPool) : res (Z * EventLoopThreadPool) :=
  guard_ FatalLog in_loop;;
  match loops_ p with
  | [] => Ok (baseLoop_ p, p)
  | _ =>
      match loops_ p !! Z.to_nat (next_ p) with
      | None => Err OutOfBounds
      | Some loop =>
          let next := next_ p + 1 in
          let next := if zlen (loops_ p) <=? next then 0 else next in
          Ok (loop, mkPool (baseLoop_ p) (started_ p) (numThreads_ p) next (loops_ p))
      end
  end.

(** [n] calls in a row. *)
Fixpoint next_loops (n : nat) (p : EventLoopThreadPool) : res (list Z) :=
  match n with
  | O => Ok []
  | S n => '(l, p) ← getNextLoop true p; ls ← next_loops n p; Ok (l :: ls)
  end.

(** The loop of the [k]-th call. *)
Definition nth_loop (base : Z) (loops : list Z) (k : nat) : Z :=
  match loops with [] => base | _ => nth (k mod length loops) loops base end.

Definition pool_ok (p : EventLoopThreadPool) : Prop := 0 <= next_ p < Z.max 1 (zlen (loops_ p)).

Lemma getNextLoop_ok p :
  pool_ok p ->
  exists p', getNextLoop true p = Ok (nth_loop (baseLoop_ p) (loops_ p) (Z.to_nat (next_ p)), p') /\
    pool_ok p' /\ loops_ p' = loops_ p /\ baseLoop_ p' = baseLoop_ p /\
    (loops_ p <> [] -> next_ p' = (next_ p + 1) mod zlen (loops_ p)) /\
    (loops_ p = [] -> p' = p).
Proof.
  unfold pool_ok, getNextLoop, nth_loop. intros Hn. cbn [assert_ guard_ mbind res_bind].
  destruct (loops_ p) as [|l0 ls] eqn:E; [exists p; by rewrite E|]. rewrite <- E in *.
  assert (0 < zlen (loops_ p)) as Hlen by (rewrite E; zlen_lia).
  assert (Z.to_nat (next_ p) < length (loops_ p))%nat as Hlt by (unfold zlen in *; lia).
  destruct (lookup_lt_is_Some_2 (loops_ p) (Z.to_nat (next_ p)) Hlt) as [l Hl]. rewrite Hl.
  rewrite Nat.mod_small by done. rewrite (nth_lookup_Some _ _ _ _ Hl).
  eexists. split; [done|]. cbn.
  destruct (Z.leb_spec (zlen (loops_ p)) (next_ p + 1)).
  - split; [lia|]. split; [done|]. split; [done|]. split; [|by rewrite E]. intros _.
    replace (next_ p + 1) with (zlen (loops_ p)) by lia. by rewrite Z_mod_same_full.
  - split; [lia|]. split; [done|]. split; [done|]. split; [|by rewrite E]. intros _. rewrite Z.mod_small; lia.
Qed.

Lemma nth_loop_mod base loops k : nth_loop base loops (k mod length loops) = nth_loop base loops k.
Proof. destruct loops; [done|]. unfold nth_loop. by rewrite Nat.Div0.mod_mod. Qed.

Lemma next_loops_ok n : forall p,
  pool_ok p ->
  next_loops n p = Ok (map (fun k => nth_loop (baseLoop_ p) (loops_ p) (Z.to_nat (next_ p) + k)) (seq 0 n)).
Proof.
  induction n as [|n IH]; intros p Hp; cbn [next_loops seq map]; [done|].
  destruct (getNextLoop_ok p Hp) as (p' & -> & Hp' & Hl & Hb & Hn & _). cbn [mbind res_bind].
  rewrite (IH p' Hp'). cbn [mbind res_bind]. rewrite Nat.add_0_r. f_equal. f_equal.
  rewrite <- seq_shift, map_map. apply map_ext. intros k. rewrite Hl, Hb.
  destruct (loops_ p) as [|l0 ls] eqn:E; [done|]. rewrite <- E in *. specialize (Hn ltac:(by rewrite E)).
  unfold pool_ok in Hp. assert (0 < zlen (loops_ p)) as Hlen by (rewrite E; zlen_lia).
  rewrite Hn. rewrite <- (nth_loop_mod _ _ (_ + k)), <- (nth_loop_mod _ _ (_ + S k)).
  f_equal. rewrite Z2Nat.inj_mod by lia. unfold zlen. rewrite Nat2Z.id.
  rewrite Nat.Div0.add_mod_idemp_l. f_equal. lia.
Qed.

End Pool.

(** ** TcpServer *)

Module Server.
Import Pool.

(** A connection object: its address, its name and its loop. *)
Record conn := mkConn { conn_addr : Z; conn_name : bytes; conn_loop : Z }.

#[global] Instance conn_eq_dec : EqDecision conn.
Proof. solve_decision. Defined.

(** What the server has the loops do: [listen], [connectionEstablished] and
    [connectionDestroyed]. *)
Inductive server_call :=
| CallListen
| CallEstablished (c : conn)
| CallDestroyed (c : conn).

Record TcpServer := mkServer {
  hostport_ : bytes;
  name_ : bytes;
  pool_ : EventLoopThreadPool;
  started_ : bool;
  listenning_ : bool;
  nextConnId_ : Z;
  connections_ : gmap bytes conn;
  calls : list server_call
}.

Definition TcpServer_ctor (loop : Z) (hostport name : bytes) : TcpServer :=
  mkServer hostport name (Pool_ctor loop) false false 1 ∅ [].

Definition setPool (s : TcpServer) (p : EventLoopThreadPool) : TcpServer :=
  mkServer (hostport_ s) (name_ s) p (started_ s) (listenning_ s) (nextConnId_ s) (connections_ s) (calls s).
Definition call (s : TcpServer) (c : server_call) : TcpServer :=
  mkServer (hostport_ s) (name_ s) (pool_ s) (started_ s) (listenning_ s) (nextConnId_ s)
    (connections_ s) (calls s ++ [c]).

Definition setThreadNum (s : TcpServer) (numThreads : Z) : res TcpServer :=
  assert_ (0 <=? numThreads);;
  Ok (setPool s (Pool.setThreadNum (pool_ s) numThreads)).

(** [start]; the acceptor listens when the loop gets to it. *)
Definition start (in_loop : bool) (s : TcpServer) (cb : bool) (new_loops : nat -> Z) : res TcpServer :=
  s ← (if negb (started_ s) then
         '(p, _) ← Pool.start in_loop (pool_ s) cb new_loops;
         Ok (mkServer (hostport_ s) (name_ s) p true (listenning_ s) (nextConnId_ s) (connections_ s) (calls s))
       else Ok s);
  Ok (if negb (listenning_ s) then call s CallListen else s).

(** [snprintf(buf, sizeof(buf), ":%s#%d", hostport, id)] with a buffer of 32
    bytes, behind the server's name. *)
Definition full_suffix (hostport : bytes) (id : Z) : bytes := lit ":" ++ hostport ++ lit "#" ++ print_d id.
Definition connName (s : TcpServer) : bytes := name_ s ++ snprintf 32 (full_suffix (hostport_ s) (nextConnId_ s)).

(** [newConnection] of the connection object at [addr]. *)
Definition newConnection (in_loop : bool) (s : TcpServer) (addr : Z) : res TcpServer :=
  guard_ FatalLog in_loop;;
  '(ioLoop, p) ← getNextLoop in_loop (pool_ s);
  let s := setPool s p in
  let name := connName s in
  guard_ IntOverflow (nextConnId_ s + 1 <? 2 ^ 31);;
  let c := mkConn addr name ioLoop in
  Ok (mkServer (hostport_ s) (name_ s) (pool_ s) (started_ s) (listenning_ s) (nextConnId_ s + 1)
        (<[name := c]> (connections_ s)) (calls s ++ [CallEstablished c])).

Definition removeConnectionInLoop (in_loop : bool) (s : TcpServer) (c : conn) : res TcpServer :=
  guard_ FatalLog in_loop;;
  let n := match connections_ s !! conn_name c with Some _ => 1 | None => 0 end in
  assert_ (n =? 1);;
  Ok (call (mkServer (hostport_ s) (name_ s) (pool_ s) (started_ s) (listenning_ s) (nextConnId_ s)
              (delete (conn_name c) (connections_ s)) (calls s)) (CallDestroyed c)).

(** The destructor. *)
Definition TcpServer_dtor (in_loop : bool) (s : TcpServer) : res (list server_call) :=
  guard_ FatalLog in_loop;;
  Ok (calls s ++ map (fun item => CallDestroyed item.2) (map_to_list (connections_ s))).

(** ** Runs: connections accepted, and connections that close *)

Inductive server_op :=
| OpNew (addr : Z)
| OpRemove (c : conn).

Definition server_step (s : TcpServer) (op : server_op) : res TcpServer :=
  match op with
  | OpNew addr => newConnection true s addr
  | OpRemove c => removeConnectionInLoop true s c
  end.

Fixpoint server_run (s : TcpServer) (ops : list server_op) : res TcpServer :=
  match ops with
  | [] => Ok s
  | op :: ops => s ← server_step s op; server_run s ops
  end.

Definition established (s : TcpServer) : list conn :=
  omap (fun c => match c with CallEstablished c => Some c | _ => None end) (calls s).
Definition destroyed (s : TcpServer) : list conn :=
  omap (fun c => match c with CallDestroyed c => Some c | _ => None end) (calls s).

(** The names fit their buffer, and only a connection the server has made
    calls its close callback. *)
Definition server_op_ok (s : TcpServer) (op : server_op) : Prop :=
  match op with
  | OpNew _ => zlen (full_suffix (hostport_ s) (nextConnId_ s)) <= 31 /\ nextConnId_ s + 1 < 2 ^ 31
  | OpRemove c => c ∈ established s
  end.

Fixpoint server_run_ok (s : TcpServer) (ops : list server_op) : Prop :=
  match ops with
  | [] => True
  | op :: ops => server_op_ok s op /\ match server_step s op with Ok s => server_run_ok s ops | Err _ => True end
  end.

#[global] Instance server_op_ok_dec s op : Decision (server_op_ok s op).
Proof. destruct op; unfold server_op_ok; apply _. Defined.

#[global] Instance server_run_ok_dec ops : forall s, Decision (server_run_ok s ops).
Proof.
  induction ops as [|op ops IH]; intros s; cbn [server_run_ok]; [apply _|].
  apply and_dec; [apply _|]. destruct (server_step s op); apply _.
Defined.

Record server_inv (base : Z) (loops : list Z) (s : TcpServer) : Prop := {
  inv_pool : pool_ok (pool_ s);
  inv_base : baseLoop_ (pool_ s) = base /\ loops_ (pool_ s) = loops;
  inv_id : nextConnId_ s = zlen (established s) + 1;
  (** The names are numbered from 1 in the order of the connections. *)
  inv_names : map conn_name (established s) =
    map (fun k => name_ s ++ full_suffix (hostport_ s) (Z.of_nat k)) (seq 1 (length (established s)));
  inv_loops : map conn_loop (established s) =
    map (nth_loop base loops) (seq 0 (length (established s)));
  inv_next : Z.to_nat (next_ (pool_ s)) = (match loops with [] => 0 | _ => length (established s) mod length loops end)%nat;
  (** The table holds the connections established and not destroyed. *)
  inv_table : forall n c, connections_ s !! n = Some c <->
    conn_name c = n /\ c ∈ established s /\ c ∉ destroyed s;
  inv_destroyed : NoDup (destroyed s) /\ destroyed s ⊆ established s
}.

(** ** Lemmas *)

Lemma suffix_inj hp a b : 0 <= a -> 0 <= b -> full_suffix hp a = full_suffix hp b -> a = b.
Proof.
  intros Ha Hb E. unfold full_suffix in E. do 3 apply app_inv_head in E.
  unfold print_d in E. replace (a <? 0) with false in E by lia. replace (b <? 0) with false in E by lia.
  rewrite <- (dec_value_print a), <- (dec_value_print b) by done. by rewrite E.
Qed.

Lemma names_nodup base loops s : server_inv base loops s -> NoDup (map conn_name (established s)).
Proof.
  intros Hi. rewrite (inv_names _ _ _ Hi). apply NoDup_fmap_2_strong; [|apply NoDup_seq].
  intros a b _ _ E. apply app_inv_head, suffix_inj in E; lia.
Qed.

Lemma name_fresh base loops s c :
  server_inv base loops s -> c ∈ established s ->
  conn_name c <> name_ s ++ full_suffix (hostport_ s) (nextConnId_ s).
Proof.
  intros Hi Hc E. assert (conn_name c ∈ map conn_name (established s)) as Hin.
  { apply list_elem_of_fmap. eauto. }
  rewrite (inv_names _ _ _ Hi), list_elem_of_fmap in Hin. destruct Hin as (k & Ek & Hk).
  rewrite E in Ek. apply app_inv_head, suffix_inj in Ek; [|rewrite (inv_id _ _ _ Hi); unfold zlen; lia|lia].
  apply elem_of_seq in Hk. rewrite (inv_id _ _ _ Hi) in Ek. unfold zlen in Ek. lia.
Qed.

Lemma connName_fits s : zlen (full_suffix (hostport_ s) (nextConnId_ s)) <= 31 ->
  connName s = name_ s ++ full_suffix (hostport_ s) (nextConnId_ s).
Proof. intros H. unfold connName. rewrite snprintf_fits; [done|]. unfold zlen in H. lia. Qed.

Lemma new_ok base loops s addr :
  server_inv base loops s -> server_op_ok s (OpNew addr) ->
  exists s', newConnection true s addr = Ok s' /\ server_inv base loops s' /\ destroyed s' = destroyed s.
Proof.
  intros Hi [Hfit Hmax]. unfold newConnection. cbn [assert_ guard_ mbind res_bind].
  pose proof Hi as [Hp [Hb Hl] Hid Hn Hlp Hx Ht [Hd1 Hd2]].
  destruct (getNextLoop_ok (pool_ s) Hp) as (p' & E & Hp' & Hl' & Hb' & Hn' & Hn0). rewrite E.
  cbn [mbind res_bind]. rewrite guard_true by (cbn; lia). cbn [mbind res_bind].
  change (connName (setPool s p')) with (connName s). rewrite connName_fits by done.
  set (c := mkConn _ _ _). set (s' := mkServer _ _ _ _ _ _ _ _). exists s'. split; [done|].
  assert (established s' = established s ++ [c]) as Hes by (unfold established; cbn; by rewrite omap_snoc).
  assert (destroyed s' = destroyed s) as Hds by (unfold destroyed; cbn; by rewrite omap_snoc, app_nil_r).
  assert (length (established s') = S (length (established s))) as Hlen
    by (rewrite Hes, length_app; cbn; lia).
  split; [|exact Hds]. split; rewrite ?Hlen, ?Hes, ?Hds; try done.
  - cbn. by rewrite Hb', Hl'.
  - cbn. rewrite Hid, zlen_app. change (zlen [c]) with 1. lia.
  - rewrite map_app, Hn, seq_S, map_app. cbn [map hostport_ name_ s' conn_name c]. do 3 f_equal.
    rewrite Hid. unfold zlen. do 2 f_equal. lia.
  - rewrite map_app, Hlp, seq_S, map_app. cbn [map conn_loop c]. do 2 f_equal.
    rewrite Hb, Hl, Hx. cbn. destruct loops; [done|]. apply (nth_loop_mod base (z :: loops)).
  - cbn. rewrite Hl in Hn', Hn0. destruct loops as [|l0 ls]; [by rewrite Hn0|].
    rewrite Hn' by done. rewrite Z2Nat.inj_mod by (unfold pool_ok in Hp; zlen_lia).
    unfold pool_ok in Hp. rewrite Z2Nat.inj_add by lia. rewrite Hx.
    unfold zlen. rewrite Nat2Z.id, Nat.Div0.add_mod_idemp_l. f_equal. cbn. lia.
  - intros n c0. cbn. destruct (decide (n = conn_name c)) as [->|Hne].
    + change (name_ s ++ _) with (conn_name c). rewrite lookup_insert_eq. split.
      * intros [= <-]. split; [done|]. split; [apply elem_of_app; right; by apply list_elem_of_singleton|].
        intros Hin. by apply (name_fresh _ _ _ c Hi (Hd2 _ Hin)).
      * intros (E1 & Hin & _). apply elem_of_app in Hin as [Hin|Hin].
        -- destruct (name_fresh _ _ _ c0 Hi Hin E1).
        -- apply list_elem_of_singleton in Hin. by subst.
    + change (name_ s ++ _) with (conn_name c). rewrite lookup_insert_ne by done. rewrite Ht, elem_of_app.
      rewrite list_elem_of_singleton. split; [tauto|]. intros (E1 & [Hin|E2] & Hnd); [done|by subst].
  - split; [done|]. intros x Hxin. apply elem_of_app. left. by apply Hd2.
Qed.

Lemma remove_ok base loops s c :
  server_inv base loops s -> c ∈ established s /\ c ∉ destroyed s ->
  exists s', removeConnectionInLoop true s c = Ok s' /\ server_inv base loops s' /\ destroyed s' = destroyed s ++ [c].
Proof.
  intros Hi [Hin Hnd]. unfold removeConnectionInLoop. cbn [assert_ guard_ mbind res_bind].
  pose proof Hi as [Hp [Hb Hl] Hid Hn Hlp Hx Ht [Hd1 Hd2]].
  assert (connections_ s !! conn_name c = Some c) as Hc by by apply Ht.
  rewrite Hc. cbn [Z.eqb Pos.eqb assert_ mbind res_bind]. set (s' := call _ _). exists s'. split; [done|].
  assert (established s' = established s) as Hes by (unfold established; cbn; by rewrite omap_snoc, app_nil_r).
  assert (destroyed s' = destroyed s ++ [c]) as Hds by (unfold destroyed; cbn; by rewrite omap_snoc).
  split; [|exact Hds].
  pose proof (names_nodup _ _ _ Hi) as Hnames.
  split; rewrite ?Hes, ?Hds; try done.
  - intros n c0. cbn. rewrite elem_of_app, list_elem_of_singleton.
    destruct (decide (n = conn_name c)) as [->|Hne].
    + rewrite lookup_delete_eq. split; [done|]. intros (E1 & Hin0 & Hnd0).
      assert (connections_ s !! conn_name c = Some c0) as Hc0 by (apply Ht; tauto).
      rewrite Hc in Hc0. injection Hc0 as <-. tauto.
    + rewrite lookup_delete_ne by done. rewrite Ht. split; [|tauto].
      intros (E1 & ? & ?). split; [done|]. split; [done|]. intros [?| ->]; done.
  - split.
    + apply NoDup_app. split; [done|]. split; [|apply NoDup_singleton].
      intros x Hx1 Hx2. apply list_elem_of_singleton in Hx2. by subst.
    + intros x [Hx1|Hx1]%elem_of_app; [by apply Hd2|]. apply list_elem_of_singleton in Hx1. by subst.
Qed.

(** A connection that was removed is no more in the table, whose names are
    different, so that removing it again fails the assertion. *)
Lemma remove_again base loops s c :
  server_inv base loops s -> c ∈ destroyed s -> removeConnectionInLoop true s c = Err AssertFail.
Proof.
  intros Hi Hc. unfold removeConnectionInLoop. cbn [guard_ mbind res_bind].
  destruct (connections_ s !! conn_name c) as [c'|] eqn:E; [|done].
  apply (inv_table _ _ _ Hi) in E as (En & Hin' & Hnd). destruct Hnd.
  assert (c ∈ established s) as Hin by by apply (inv_destroyed _ _ _ Hi).
  apply list_elem_of_lookup in Hin as [i Hi1], Hin' as [k Hk].
  pose proof (names_nodup _ _ _ Hi) as Hnames. rewrite NoDup_alt in Hnames.
  assert (i = k) as ->.
  { apply (Hnames i k (conn_name c)); rewrite list_lookup_fmap; [by rewrite Hi1|]. rewrite Hk. cbn. by rewrite En. }
  rewrite Hi1 in Hk. by injection Hk as <-.
Qed.

(** The connections that close in a run. *)
Fixpoint removals (ops : list server_op) : list conn :=
  match ops with
  | [] => []
  | OpRemove c :: ops => c :: removals ops
  | OpNew _ :: ops => removals ops
  end.

Lemma server_run_inv base loops ops : forall s,
  server_inv base loops s -> server_run_ok s ops ->
  if decide (NoDup (destroyed s ++ removals ops))
  then exists s', server_run s ops = Ok s' /\ server_inv base loops s' /\ destroyed s' = destroyed s ++ removals ops
  else server_run s ops = Err AssertFail.
Proof.
  induction ops as [|op ops IH]; intros s Hi Hok; cbn [server_run].
  { cbn [removals]. rewrite app_nil_r. rewrite decide_True by apply (inv_destroyed _ _ _ Hi). by exists s. }
  destruct Hok as [Hop Hok]. destruct op as [addr|c]; cbn [server_step removals] in *.
  - destruct (new_ok base loops s addr Hi Hop) as (s1 & E & Hi1 & Hd). rewrite E in *. cbn [mbind res_bind].
    specialize (IH s1 Hi1 Hok). by rewrite Hd in IH.
  - destruct (decide (c ∈ destroyed s)) as [Hc|Hc].
    + rewrite decide_False; [by rewrite (remove_again _ _ _ _ Hi Hc)|].
      intros (_ & Hdis & _)%NoDup_app. apply (Hdis c Hc). by left.
    + destruct (remove_ok base loops s c Hi (conj Hop Hc)) as (s1 & E & Hi1 & Hd). rewrite E in *. cbn [mbind res_bind].
      specialize (IH s1 Hi1 Hok). by rewrite Hd, <- app_assoc in IH.
Qed.

(** A started server without connections. *)
Definition started_server (base : Z) (hostport name : bytes) (loops : list Z) : TcpServer :=
  mkServer hostport name (mkPool base true (zlen loops) 0 loops) true false 1 ∅ [CallListen].

Lemma started_inv base hostport name loops : server_inv base loops (started_server base hostport name loops).
Proof.
  split; cbn; try done.
  - unfold pool_ok. cbn. lia.
  - destruct loops; [done|]. by rewrite Nat.Div0.mod_0_l.
  - intros n c. rewrite lookup_empty. split; [done|]. by intros (_ & ?%not_elem_of_nil & _).
  - split; [constructor|]. intros x Hx. by apply not_elem_of_nil in Hx.
Qed.

Lemma start_ok base hostport name n cb new_loops :
  0 <= n ->
  (s ← setThreadNum (TcpServer_ctor base hostport name) n; start true s cb new_loops) =
  Ok (started_server base hostport name (map new_loops (seq 0 (Z.to_nat n)))).
Proof.
  intros Hn. unfold setThreadNum. rewrite assert_true by lia. cbn [mbind res_bind].
  unfold start, Pool.start. cbn [TcpServer_ctor setPool Server.started_ Server.pool_ Pool.setThreadNum Pool_ctor
    Pool.started_ negb assert_ mbind res_bind loops_ numThreads_ baseLoop_ next_ listenning_ hostport_ name_
    nextConnId_ connections_ calls call app].
  assert (zlen (map new_loops (seq 0 (Z.to_nat n))) = n) as Hz
    by (unfold zlen; rewrite length_map, length_seq; lia).
  unfold started_server. rewrite Hz. done.
Qed.

(** ** Properties *)

(** C14: a started server whose connection names fit their 32-byte buffer (see
    [long_names_collide]): connections come and go, a connection that closes
    being one the server has made.  The assertion of [removeConnectionInLoop]
    fails exactly when a connection is removed a second time.  Otherwise the
    table holds exactly the connections established and not removed, under
    their own, pairwise different names, numbered from 1; the connections
    removed are destroyed, each once and in their order; and the [k]-th
    connection runs in the [k]-th loop, round robin, or in the base loop when
    there are no threads. *)
Theorem server_table base hostport name n cb new_loops ops :
  0 <= n ->
  let loops := map new_loops (seq 0 (Z.to_nat n)) in
  server_run_ok (started_server base hostport name loops) ops ->
  exists s0, (s ← setThreadNum (TcpServer_ctor base hostport name) n; start true s cb new_loops) = Ok s0 /\
    if decide (NoDup (removals ops)) then
      exists s, server_run s0 ops = Ok s /\ destroyed s = removals ops /\
        (forall nm c, connections_ s !! nm = Some c <->
           conn_name c = nm /\ c ∈ established s /\ c ∉ removals ops) /\
        NoDup (map conn_name (established s)) /\
        map conn_name (established s) =
          map (fun k => name_ s ++ full_suffix (hostport_ s) (Z.of_nat k)) (seq 1 (length (established s))) /\
        map conn_loop (established s) = map (nth_loop base loops) (seq 0 (length (established s)))
    else server_run s0 ops = Err AssertFail.
Proof.
  intros Hn loops Hok. pose proof (started_inv base hostport name loops) as Hi.
  pose proof (server_run_inv base loops ops _ Hi Hok) as Hr.
  exists (started_server base hostport name loops). split; [by apply start_ok|].
  change (destroyed (started_server base hostport name loops)) with (@nil conn) in Hr. cbn [app] in Hr.
  case_decide; [|done]. destruct Hr as (s & E & Hs & Hd). exists s. split; [done|]. split; [done|].
  pose proof Hs as [_ _ _ Hnm Hl _ Ht _]. rewrite Hd in Ht. split; [done|]. split; [by eapply names_nodup|].
  by split.
Qed.

Lemma newConnection_exact s addr :
  pool_ok (pool_ s) -> nextConnId_ s + 1 < 2 ^ 31 ->
  exists l p, pool_ok p /\
    newConnection true s addr =
    Ok (mkServer (hostport_ s) (name_ s) p (started_ s) (listenning_ s) (nextConnId_ s + 1)
          (<[connName s := mkConn addr (connName s) l]> (connections_ s))
          (calls s ++ [CallEstablished (mkConn addr (connName s) l)])).
Proof.
  intros Hp Hid. destruct (getNextLoop_ok (pool_ s) Hp) as (p & E & Hp' & _). do 2 eexists.
  split; [exact Hp'|]. unfold newConnection. cbn [assert_ guard_ mbind res_bind]. rewrite E.
  cbn [mbind res_bind]. by rewrite guard_true by (cbn; lia).
Qed.

Lemma long_suffix hp id : 29 <= zlen hp -> snprintf 32 (full_suffix hp id) = take 31 (lit ":" ++ hp ++ lit "#").
Proof.
  intros H. unfold snprintf, full_suffix. change (32 - 1)%nat with 31%nat.
  rewrite (app_assoc hp), (app_assoc (lit ":")). apply take_app_le.
  rewrite !length_app. unfold zlen in H. cbn. lia.
Qed.

(** With an address of 29 characters or more, such as most IPv6 ones, the
    connection number is cut off the name: the second connection replaces the
    first in the table, which loses its only owner while its channel is in the
    loop, and closing both fails an assertion. *)
Theorem long_names_collide base hostport name loops a1 a2 :
  29 <= zlen hostport ->
  exists s c1 c2, server_run (started_server base hostport name loops) [OpNew a1; OpNew a2] = Ok s /\
    established s = [c1; c2] /\ conn_addr c1 = a1 /\ conn_addr c2 = a2 /\
    conn_name c1 = conn_name c2 /\ connections_ s !! conn_name c1 = Some c2 /\
    server_run s [OpRemove c1; OpRemove c2] = Err AssertFail.
Proof.
  intros Hl. set (s0 := started_server base hostport name loops).
  pose proof (started_inv base hostport name loops) as [Hp _ _ _ _ _ _ _]. fold s0 in Hp.
  destruct (newConnection_exact s0 a1 Hp) as (l1 & p1 & Hp1 & E1); [done|].
  set (c1 := mkConn a1 _ l1) in E1. set (s1 := mkServer _ _ p1 _ _ _ _ _) in E1.
  destruct (newConnection_exact s1 a2 Hp1) as (l2 & p2 & Hp2 & E2); [done|].
  set (c2 := mkConn a2 _ l2) in E2. set (s2 := mkServer _ _ p2 _ _ _ _ _) in E2.
  cbn [server_run server_step]. rewrite E1. cbn [mbind res_bind]. rewrite E2. cbn [mbind res_bind].
  assert (conn_name c1 = conn_name c2) as Hname.
  { change (conn_name c1) with (connName s0). change (conn_name c2) with (connName s1).
    unfold connName. by rewrite !long_suffix by done. }
  exists s2, c1, c2. split; [done|]. split; [done|]. split; [done|]. split; [done|]. split; [done|].
  assert (connections_ s2 !! conn_name c1 = Some c2) as Hlk by (rewrite Hname; apply lookup_insert_eq).
  split; [done|]. unfold removeConnectionInLoop. cbn [assert_ guard_ mbind res_bind]. rewrite Hlk.
  cbn [Z.eqb Pos.eqb assert_ mbind res_bind].
  change (connections_ (call _ _)) with (delete (conn_name c1) (connections_ s2)).
  by rewrite <- Hname, lookup_delete_eq.
Qed.

(** ** Witnesses *)

Definition demo_conn (addr k loop : Z) : conn :=
  mkConn addr (lit "srv" ++ full_suffix (lit "127.0.0.1:80") k) loop.

(** Three connections over two loops, the second one closes. *)
Definition demo_ops : list server_op :=
  [OpNew 100; OpNew 101; OpRemove (demo_conn 101 2 8); OpNew 102].

(** A connection of the server closes once, and then again. *)
Lemma server_table_witness :
  let loops := [7; 8] in
  exists s0, (s ← setThreadNum (TcpServer_ctor 1 (lit "127.0.0.1:80") (lit "srv")) 2;
              start true s false (fun k => 7 + Z.of_nat k)) = Ok s0 /\
    (exists s, server_run s0 demo_ops = Ok s /\ destroyed s = [demo_conn 101 2 8] /\
      (forall nm c, connections_ s !! nm = Some c <->
         conn_name c = nm /\ c ∈ established s /\ c ∉ [demo_conn 101 2 8]) /\
      NoDup (map conn_name (established s)) /\
      map conn_loop (established s) = map (nth_loop 1 loops) (seq 0 (length (established s)))) /\
    server_run s0 (demo_ops ++ [OpRemove (demo_conn 101 2 8)]) = Err AssertFail.
Proof.
  destruct (server_table 1 (lit "127.0.0.1:80") (lit "srv") 2 false (fun k => 7 + Z.of_nat k) demo_ops)
    as (s0 & H0 & H1); [lia| |].
  { decide_now. }
  destruct (server_table 1 (lit "127.0.0.1:80") (lit "srv") 2 false (fun k => 7 + Z.of_nat k)
    (demo_ops ++ [OpRemove (demo_conn 101 2 8)])) as (s0' & H0' & H2); [lia| |].
  { decide_now. }
  rewrite decide_True in H1 by (cbn [removals demo_ops]; apply NoDup_singleton).
  rewrite decide_False in H2.
  2:{ cbn [removals demo_ops app]. intros [Hno _]%NoDup_cons. apply Hno. by left. }
  rewrite H0 in H0'. injection H0' as <-. exists s0. split; [exact H0|]. split; [|exact H2].
  destruct H1 as (s & E & Hd & Ht & Hn & _ & Hl). exists s.
  split; [exact E|]. split; [exact Hd|]. split; [exact Ht|]. split; [exact Hn|exact Hl].
Defined.

Lemma long_names_collide_witness :
  let hp := lit "2001:db8:85a3:8d3:1319:8a2e:370:7348:443" in
  exists s c1 c2, server_run (started_server 1 hp (lit "srv") [7; 8]) [OpNew 100; OpNew 101] = Ok s /\
    established s = [c1; c2] /\ conn_addr c1 = 100 /\ conn_addr c2 = 101 /\
    conn_name c1 = conn_name c2 /\ connections_ s !! conn_name c1 = Some c2 /\
    server_run s [OpRemove c1; OpRemove c2] = Err AssertFail.
Proof. apply long_names_collide. by vm_compute. Defined.
End Server.
