(* ===== verification/ServerLife.v ===== *)
(** * The lives of a server's connections: TcpServer, TcpConnection and the loops

    A server with its connection objects and the loops of its threads: what
    [TcpServer.cc], [TcpConnection.cc] and [EventLoop::loop] do together, in
    every interleaving of the threads.  Ownership is modelled: an object is
    held by the server's table, by the functors that were bound to it and by
    the guard of the channel that is being handled, and is destroyed when
    nothing holds it; the pollers keep plain pointers to its channel.  The
    parts are the models of TcpServer.v and TcpConnection.v. *)

From S2P Require Import Prelude Buffer Channel TcpServer Poller TcpConnection.

(** ** Loops *)

(** Functors bound to a connection: [connectionEstablished],
    [removeConnectionInLoop] and [connectionDestroyed]. *)
Inductive functor :=
| FEstablished (c : Server.conn)
| FRemove (c : Server.conn)
| FDestroyed (c : Server.conn).

#[global] Instance functor_eq_dec : EqDecision functor.
Proof. solve_decision. Defined.

Definition functor_conn (f : functor) : Server.conn :=
  match f with FEstablished c | FRemove c | FDestroyed c => c end.

(** Where a loop is in an iteration of [loop()]: in [poll], handling the active
    channels (one of them with the callbacks its events still call, the others
    with the events reported for them), or running the functors it swapped out,
    which live until the last one has run. *)
Inductive phase :=
| PPoll
| PDispatch (current : option (Z * list channel_callback)) (active : list (Z * Z))
| PRun (done todo : list functor).

#[global] Instance phase_eq_dec : EqDecision phase.
Proof. solve_decision. Defined.

(** [pending] is [pendingFunctors_]. *)
Record loop_state := mkLoop { pending : list functor; phase_ : phase }.

Definition todo (l : loop_state) : list functor := match phase_ l with PRun _ fs => fs | _ => [] end.
Definition ran (l : loop_state) : list functor := match phase_ l with PRun fs _ => fs | _ => [] end.

(** The functors that are still to run, in order. *)
Definition functors_of (l : loop_state) : list functor := todo l ++ pending l.

Definition queueFunctor (l : loop_state) (f : functor) : loop_state := mkLoop (pending l ++ [f]) (phase_ l).
Definition setPhase (l : loop_state) (ph : phase) : loop_state := mkLoop (pending l) ph.

#[global] Instance loop_state_eq_dec : EqDecision loop_state.
Proof. solve_decision. Defined.

(** ** The process *)

(** [objects] are the connections that exist, by address, [polled] the
    connections whose channel some poller points to. *)
Record world := mkWorld {
  server : option Server.TcpServer;
  objects : gmap Z (Server.conn * TcpConnection);
  polled : gset Z;
  loops : gmap Z loop_state
}.

Definition setServer (w : world) (s : option Server.TcpServer) : world :=
  mkWorld s (objects w) (polled w) (loops w).
Definition setObject (w : world) (c : Server.conn) (tc : TcpConnection) : world :=
  mkWorld (server w) (<[Server.conn_addr c := (c, tc)]> (objects w)) (polled w) (loops w).
Definition setPolled (w : world) (p : gset Z) : world := mkWorld (server w) (objects w) p (loops w).
Definition setLoop (w : world) (l : Z) (ls : loop_state) : world :=
  mkWorld (server w) (objects w) (polled w) (<[l := ls]> (loops w)).

Definition loop_at (w : world) (l : Z) : loop_state := default (mkLoop [] PPoll) (loops w !! l).

(** Following a [TcpConnectionPtr]. *)
Definition object (w : world) (c : Server.conn) : res TcpConnection :=
  match objects w !! Server.conn_addr c with
  | Some (c', tc) => if decide (c' = c) then Ok tc else Err UseAfterFree
  | None => Err UseAfterFree
  end.

(** ** Ownership *)

Definition in_table (s : option Server.TcpServer) (c : Server.conn) : bool :=
  match s with
  | Some s => bool_decide (Server.connections_ s !! Server.conn_name c = Some c)
  | None => false
  end.

(** What a loop holds: the functors, and the object whose channel it handles. *)
Definition loop_holds (l : loop_state) (c : Server.conn) : bool :=
  existsb (fun f => bool_decide (functor_conn f = c)) (ran l ++ functors_of l) ||
  match phase_ l with
  | PDispatch (Some (a, _)) _ => a =? Server.conn_addr c
  | _ => false
  end.

(** Functors of a connection that keep it alive until they have run.  Those of
    the write and high water mark callbacks and of [forceClose] are bound to a
    [TcpConnectionPtr].  Those of a [send] or [shutdown] from another thread
    capture the plain pointer: they are queued while the connection is up, so
    that its [connectionDestroyed] comes behind them in the queue of the same
    loop; the order of the two queues of this model is free, and counting them
    as owners says just that. *)
Definition owns (f : conn_functor) : bool :=
  match f with FSendRef => false | FSend _ | FShutdownInLoop | FWriteComplete | FHighWaterMark _ => true end.

Definition held (w : world) (c : Server.conn) (tc : TcpConnection) : bool :=
  in_table (server w) c || existsb owns (queued tc) ||
  existsb (fun x => loop_holds x.2 c) (map_to_list (loops w)).

(** Objects that nothing holds are destroyed. *)
Definition collect (w : world) : world :=
  mkWorld (server w) (filter (fun x => held w x.2.1 x.2.2 = true) (objects w)) (polled w) (loops w).

Section Steps.
(** The loop of the acceptor, and the callbacks installed on connections. *)
Context (base : Z) (wc hw : bool) (mark : Z).

(** ** Steps

    [l] is the loop in whose thread the code runs. *)

Definition queueInLoop (w : world) (l : Z) (f : functor) : world :=
  setLoop w l (queueFunctor (loop_at w l) f).

Definition establish (l : Z) (w : world) (c : Server.conn) : res world :=
  tc ← object w c;
  tc ← connectionEstablished (l =? Server.conn_loop c) tc;
  Ok (setPolled (setObject w c tc) ({[Server.conn_addr c]} ∪ polled w)).

Definition destroy (l : Z) (w : world) (c : Server.conn) : res world :=
  tc ← object w c;
  tc ← connectionDestroyed (l =? Server.conn_loop c) tc;
  Ok (setPolled (setObject w c tc) (polled w ∖ {[Server.conn_addr c]})).

(** The calls the server makes on loops: [runInLoop] or [queueInLoop]. *)
Definition perform (l : Z) (w : world) (call : Server.server_call) : res world :=
  match call with
  | Server.CallListen => Ok w
  | Server.CallEstablished c =>
      if l =? Server.conn_loop c then establish l w c
      else Ok (queueInLoop w (Server.conn_loop c) (FEstablished c))
  | Server.CallDestroyed c => Ok (queueInLoop w (Server.conn_loop c) (FDestroyed c))
  end.

(** The calls made since the server was in state [s]. *)
Definition new_call (s s' : Server.TcpServer) : option Server.server_call :=
  Server.calls s' !! length (Server.calls s).

Definition server_calls (l : Z) (w : world) (s s' : Server.TcpServer) : res world :=
  match new_call s s' with
  | Some call => perform l (setServer w (Some s')) call
  | None => Ok (setServer w (Some s'))
  end.

(** [newConnection], a new object at [addr]. *)
Definition accept (l : Z) (w : world) (addr sockfd : Z) : res world :=
  match server w with
  | None => Err UseAfterFree
  | Some s =>
      s' ← Server.newConnection (l =? base) s addr;
      match new_call s s' with
      | Some (Server.CallEstablished c) =>
          tc ← new_connection (Server.conn_loop c) sockfd wc hw mark;
          server_calls l (setObject w c tc) s s'
      | _ => Ok w
      end
  end.

Definition removeConnectionInLoop (l : Z) (w : world) (c : Server.conn) : res world :=
  match server w with
  | None => Err UseAfterFree
  | Some s =>
      s' ← Server.removeConnectionInLoop (l =? base) s c;
      server_calls l w s s'
  end.

(** [TcpServer::removeConnection], the close callback. *)
Definition removeConnection (l : Z) (w : world) (c : Server.conn) : res world :=
  match server w with
  | None => Err UseAfterFree
  | Some _ =>
      if l =? base then removeConnectionInLoop l w c
      else Ok (queueInLoop w base (FRemove c))
  end.

(** A handler has made [tc'] of [tc]; it may have called the close callback. *)
Definition handled (l : Z) (w : world) (c : Server.conn) (tc tc' : TcpConnection) : res world :=
  let w := setObject w c tc' in
  if bool_decide (EvClose ∈ drop (length (TcpConnection.events_ tc)) (TcpConnection.events_ tc'))
  then removeConnection l w c else Ok w.

Definition run_callback (in_loop : bool) (tc : TcpConnection) (cb : channel_callback)
    (rv : readv_ret) (wr : write_ret) : res TcpConnection :=
  match cb with
  | CbClose => handleClose in_loop tc
  | CbError => Ok (handleError tc)
  | CbRead _ => handleRead in_loop tc rv
  | CbWrite => handleWrite in_loop tc wr
  end.

(** The calls of the server's destructor, in the thread of the base loop. *)
Fixpoint dtor_calls (w : world) (cs : list Server.server_call) : res world :=
  match cs with
  | [] => Ok w
  | Server.CallDestroyed c :: cs =>
      w ← (if base =? Server.conn_loop c then destroy base w c
           else Ok (queueInLoop w (Server.conn_loop c) (FDestroyed c)));
      dtor_calls w cs
  | _ :: cs => dtor_calls w cs
  end.

Definition run_functor (l : Z) (w : world) (f : functor) : res world :=
  match f with
  | FEstablished c => establish l w c
  | FRemove c => removeConnectionInLoop l w c
  | FDestroyed c => destroy l w c
  end.

(** Reading through the pointer to an active channel; the tie holds the object
    until its callbacks are done. *)
Definition start_channel (w : world) (a revents now : Z) : res (list channel_callback) :=
  match objects w !! a with
  | Some (_, tc) => Ok (handleEvent (setRevents (channel_ tc) revents) now)
  | None => Err UseAfterFree
  end.

(** A [WeakCallback] bound to a connection: nothing when it is gone. *)
Definition weak_call (w : world) (c : Server.conn) (f : TcpConnection -> res TcpConnection) : res world :=
  match object w c with
  | Ok tc => tc ← f tc; Ok (setObject w c tc)
  | Err _ => Ok w
  end.

(** Calls from other threads than the connection's loop. *)
Definition from_thread (op : conn_op) : bool :=
  match op with OpSendFromThread _ | OpShutdown false => true | _ => false end.

Inductive label :=
(** [poll] returns with the active channels. *)
| LPoll (l : Z) (active : list (Z * Z))
(** The next active channel, and the next of its callbacks with the results of
    its system calls. *)
| LChannel (l now : Z)
| LCallback (l : Z) (rv : readv_ret) (wr : write_ret)
| LAccept (addr sockfd : Z)
(** [doPendingFunctors]. *)
| LSwap (l : Z)
| LFunctor (l : Z)
| LLoop (l : Z)
(** A functor that a connection queued for itself; an operation of the
    application, in a callback of the connection's loop or in another thread. *)
| LOwn (c : Server.conn) (wr : write_ret)
| LApp (c : Server.conn) (op : conn_op)
(** The timer of a [forceCloseWithDelay]. *)
| LTimer (c : Server.conn)
(** The destructor of the server. *)
| LDtor.

(** What the code between two points of a loop's iteration does; a label that
    does not fit the phase does nothing. *)
Definition world_act (w : world) (lb : label) : res world :=
  match lb with
  | LPoll l active =>
      match phase_ (loop_at w l) with
      | PPoll => Ok (setLoop w l (setPhase (loop_at w l) (PDispatch None active)))
      | _ => Ok w
      end
  | LChannel l now =>
      match phase_ (loop_at w l) with
      | PDispatch None ((a, revents) :: active) =>
          cbs ← start_channel w a revents now;
          Ok (setLoop w l (setPhase (loop_at w l) (PDispatch (Some (a, cbs)) active)))
      | _ => Ok w
      end
  | LCallback l rv wr =>
      match phase_ (loop_at w l) with
      | PDispatch (Some (a, cb :: cbs)) active =>
          match objects w !! a with
          | None => Err UseAfterFree
          | Some (c, tc) =>
              tc' ← run_callback (l =? Server.conn_loop c) tc cb rv wr;
              handled l (setLoop w l (setPhase (loop_at w l) (PDispatch (Some (a, cbs)) active))) c tc tc'
          end
      | PDispatch (Some (_, [])) active =>
          Ok (setLoop w l (setPhase (loop_at w l) (PDispatch None active)))
      | _ => Ok w
      end
  | LAccept addr sockfd =>
      match phase_ (loop_at w base) with
      | PDispatch None _ => accept base w addr sockfd
      | _ => Ok w
      end
  | LSwap l =>
      match phase_ (loop_at w l) with
      | PDispatch None [] => Ok (setLoop w l (mkLoop [] (PRun [] (pending (loop_at w l)))))
      | _ => Ok w
      end
  | LFunctor l =>
      match phase_ (loop_at w l) with
      | PRun fs0 (f :: fs) =>
          run_functor l (setLoop w l (setPhase (loop_at w l) (PRun (fs0 ++ [f]) fs))) f
      | _ => Ok w
      end
  | LLoop l =>
      match phase_ (loop_at w l) with
      | PRun _ [] => Ok (setLoop w l (setPhase (loop_at w l) PPoll))
      | _ => Ok w
      end
  | LOwn c wr =>
      match phase_ (loop_at w (Server.conn_loop c)) with
      | PRun _ _ => tc ← object w c; tc ← run_next tc wr; Ok (setObject w c tc)
      | _ => Ok w
      end
  | LApp c op =>
      match phase_ (loop_at w (Server.conn_loop c)), from_thread op with
      | PPoll, false => Ok w
      | _, _ => tc ← object w c; tc ← conn_step tc op; Ok (setObject w c tc)
      end
  | LTimer c =>
      match phase_ (loop_at w (Server.conn_loop c)) with
      | PDispatch None _ => weak_call w c (fun tc => Ok (forceClose tc))
      | _ => Ok w
      end
  | LDtor =>
      match server w with
      | None => Ok w
      | Some s =>
          cs ← Server.TcpServer_dtor true s;
          dtor_calls (setServer w None) (drop (length (Server.calls s)) cs)
      end
  end.

Definition world_step (w : world) (lb : label) : res world := w ← world_act w lb; Ok (collect w).

Fixpoint world_run (w : world) (lbs : list label) : res world :=
  match lbs with
  | [] => Ok w
  | lb :: lbs => w ← world_step w lb; world_run w lbs
  end.
(** ** What the system calls and the application do

    A poller reports a channel once and for an interest, and does not report a
    hang-up without readable data together with other things to read. *)
Definition revents_ok (r : Z) : Prop :=
  has_event r POLLHUP && negb (has_event r POLLIN) = true ->
  has_event r (Z.lor (Z.lor POLLIN POLLPRI) POLLRDHUP) = false.

Definition reported (w : world) (l : Z) (x : Z * Z) : Prop :=
  x.1 ∈ polled w /\ revents_ok x.2 /\
  match objects w !! x.1 with
  | Some (c, tc) => Server.conn_loop c = l /\ isNoneEvent (channel_ tc) = false
  | None => False
  end.

(** The results of the system calls of a callback. *)
Definition io_ok (tc : TcpConnection) (cb : channel_callback) (rv : readv_ret) (wr : write_ret) : Prop :=
  match cb with
  | CbRead _ =>
      readv_ok (writableBytes (inputBuffer_ tc)) extrabuf_size rv /\
      zlen (buffer_ (inputBuffer_ tc)) + extrabuf_size <= max_size
  | CbWrite => write_ok (zlen (toStringView (outputBuffer_ tc))) wr
  | _ => True
  end.

(** What the application calls on a connection, in its loop or in another
    thread.  In another thread the test of [state_] and the queueing of the
    functor are one step. *)
Definition app_op (op : conn_op) : bool :=
  match op with
  | OpSend _ _ | OpSendFromThread _ | OpShutdown _ | OpForceClose | OpForceCloseWithDelay => true
  | _ => false
  end.

(** The results of the system calls (a direct write may take any part of a
    message), an address that is free for a new object, a name that fits, a
    connection that exists for the application to name and is up when it is
    shut down, and a server that outlives the run. *)
Definition label_ok (w : world) (lb : label) : Prop :=
  match lb with
  | LPoll l active => NoDup active.*1 /\ Forall (reported w l) active
  | LCallback l rv wr =>
      match phase_ (loop_at w l) with
      | PDispatch (Some (a, cb :: _)) _ =>
          match objects w !! a with Some (_, tc) => io_ok tc cb rv wr | None => True end
      | _ => True
      end
  | LAccept addr _ =>
      objects w !! addr = None /\
      match server w with Some s => Server.server_op_ok s (Server.OpNew addr) | None => True end
  | LOwn c wr => match object w c with Ok tc => op_any tc (OpRunFunctor wr) | Err _ => False end
  | LApp c op => match object w c with Ok tc => app_op op = true /\ op_any tc op | Err _ => False end
  | LDtor => False
  | _ => True
  end.

Fixpoint labels_ok (w : world) (lbs : list label) : Prop :=
  match lbs with
  | [] => True
  | lb :: lbs =>
      label_ok w lb /\ match world_step w lb with Ok w => labels_ok w lbs | Err _ => True end
  end.

(** ** The protocol

    The stages of a connection, and the functor that will take it to the next
    one. *)
Inductive stage := Starting | Up | Closing | Closed | Finished.

Definition stage_of (s : Server.TcpServer) (c : Server.conn) (tc : TcpConnection) : stage :=
  match state_ tc with
  | kConnecting => Starting
  | kConnected | kDisconnecting => Up
  | kDisconnected =>
      if in_table (Some s) c then Closing else if removed tc then Finished else Closed
  end.

Definition token (st : stage) (c : Server.conn) : option functor :=
  match st with
  | Starting => Some (FEstablished c)
  | Closing => Some (FRemove c)
  | Closed => Some (FDestroyed c)
  | Up | Finished => None
  end.

Definition functor_loop (f : functor) : Z :=
  match f with FEstablished c | FDestroyed c => Server.conn_loop c | FRemove _ => base end.

Definition in_poller (st : stage) : bool :=
  match st with Up | Closing | Closed => true | _ => false end.

Definition stages (s : Server.TcpServer) (os : gmap Z (Server.conn * TcpConnection)) :
    gmap Z (Server.conn * stage) :=
  (fun x => (x.1, stage_of s x.1 x.2)) <$> os.

(** Every connection has its functor, once and in the right loop, and no other;
    the pollers point to the connections between establishing and destroying. *)
Record proto_inv (m : gmap Z (Server.conn * stage)) (q : Z -> list functor) (pol : gset Z) : Prop := {
  p_addr a c st : m !! a = Some (c, st) -> Server.conn_addr c = a;
  p_token a c st f : m !! a = Some (c, st) -> token st c = Some f -> f ∈ q (functor_loop f);
  p_functor l f : f ∈ q l -> functor_loop f = l /\
    exists st, m !! Server.conn_addr (functor_conn f) = Some (functor_conn f, st) /\
      token st (functor_conn f) = Some f;
  p_nodup l : NoDup (q l);
  p_polled a : a ∈ pol <-> exists c st, m !! a = Some (c, st) /\ in_poller st = true
}.

Lemma token_conn st c f : token st c = Some f -> functor_conn f = c.
Proof. by destruct st; intros [= <-]. Qed.

(** One connection moves on. *)
Lemma proto_step m q pol a c st st' q' pol' :
  proto_inv m q pol -> m !! a = Some (c, st) ->
  (forall l f, f ∈ q' l <-> f ∈ q l /\ token st c <> Some f \/ token st' c = Some f /\ functor_loop f = l) ->
  (forall l, NoDup (q' l)) ->
  (forall b, b ∈ pol' <-> if decide (b = a) then in_poller st' = true else b ∈ pol) ->
  proto_inv (<[a := (c, st')]> m) q' pol'.
Proof.
  intros [H1 H2 H3 H4 H5] Hm Hq Hnd Hpol. split.
  - intros b c' s'. rewrite lookup_insert_Some. intros [[<- [= <- <-]]|[_ ?]]; eauto.
  - intros b c' s' f. rewrite lookup_insert_Some, Hq. intros [[<- [= <- <-]]|[Hne Hb]] Ht; [by right|].
    left. split; [by eapply H2|]. intros Ht'.
    pose proof (token_conn _ _ _ Ht) as E1. pose proof (token_conn _ _ _ Ht') as E2.
    pose proof (H1 _ _ _ Hb). pose proof (H1 _ _ _ Hm). congruence.
  - intros l f. rewrite Hq. intros [[Hin Hne]|[Ht Hl]].
    + destruct (H3 l f Hin) as (Hl & s0 & Hs0 & Ht0). split; [done|]. exists s0.
      rewrite lookup_insert_ne; [done|]. intros E. rewrite <- E, Hm in Hs0.
      injection Hs0 as E1 E2. subst. congruence.
    + split; [done|]. exists st'. pose proof (token_conn _ _ _ Ht) as E. rewrite E.
      rewrite (H1 _ _ _ Hm), lookup_insert_eq. done.
  - done.
  - intros b. rewrite Hpol. case_decide as E.
    + subst b. rewrite lookup_insert_eq. split; [by eauto|]. by intros (? & ? & [= <- <-] & ?).
    + rewrite lookup_insert_ne by done. apply H5.
Qed.

(** A new connection. *)
Lemma proto_new m q pol a c st q' pol' :
  proto_inv m q pol -> m !! a = None -> Server.conn_addr c = a ->
  (forall l f, f ∈ q' l <-> f ∈ q l \/ token st c = Some f /\ functor_loop f = l) ->
  (forall l, NoDup (q' l)) ->
  (forall b, b ∈ pol' <-> if decide (b = a) then in_poller st = true else b ∈ pol) ->
  proto_inv (<[a := (c, st)]> m) q' pol'.
Proof.
  intros [H1 H2 H3 H4 H5] Hm Ha Hq Hnd Hpol. split.
  - intros b c' s'. rewrite lookup_insert_Some. intros [[<- [= <- <-]]|[_ ?]]; eauto.
  - intros b c' s' f. rewrite lookup_insert_Some, Hq. intros [[<- [= <- <-]]|[Hne Hb]] Ht; [by right|].
    left. by eapply H2.
  - intros l f. rewrite Hq. intros [Hin|[Ht Hl]].
    + destruct (H3 l f Hin) as (Hl & s0 & Hs0 & Ht0). split; [done|]. exists s0.
      rewrite lookup_insert_ne; [done|]. intros E. congruence.
    + split; [done|]. exists st. pose proof (token_conn _ _ _ Ht) as E. rewrite E, Ha, lookup_insert_eq. done.
  - done.
  - intros b. rewrite Hpol. case_decide as E.
    + subst b. rewrite lookup_insert_eq. split; [by eauto|]. by intros (? & ? & [= <- <-] & ?).
    + rewrite lookup_insert_ne by done. apply H5.
Qed.

(** Forgetting connections that are finished. *)
Lemma proto_collect m m' q pol :
  proto_inv m q pol ->
  (forall a x, m' !! a = Some x -> m !! a = Some x) ->
  (forall a c st, m !! a = Some (c, st) -> st <> Finished -> m' !! a = Some (c, st)) ->
  proto_inv m' q pol.
Proof.
  intros [H1 H2 H3 H4 H5] Hsub Hkeep. split; eauto.
  - intros l f Hf. destruct (H3 l f Hf) as (Hl & st & Hst & Ht). split; [done|]. exists st.
    split; [|done]. apply Hkeep; [done|]. by intros ->.
  - intros a. rewrite H5. split; intros (c & st & Ha & Hs); exists c, st; split; auto.
    apply Hkeep; [done|]. by intros ->.
Qed.
(** ** Connections *)

(** What an operation leaves of a connection: its invariant, its callbacks and
    whether its channel has left the loop. *)
Definition conn_sound (tc tc' : TcpConnection) : Prop :=
  (exists acc, conn_inv acc tc') /\
  List.filter is_life (TcpConnection.events_ tc') = life_calls (state_ tc') /\ removed tc' = removed tc.

Definition calls_close (tc tc' : TcpConnection) : bool :=
  bool_decide (EvClose ∈ drop (length (TcpConnection.events_ tc)) (TcpConnection.events_ tc')).

Lemma calls_close_app tc tc' evs :
  TcpConnection.events_ tc' = TcpConnection.events_ tc ++ evs ->
  calls_close tc tc' = bool_decide (EvClose ∈ evs).
Proof. intros E. unfold calls_close. by rewrite E, drop_app_length. Qed.

Definition is_up (s : StateE) : bool := match s with kConnected | kDisconnecting => true | _ => false end.

Lemma is_up_cases s : is_up s = true <-> s = kConnected \/ s = kDisconnecting.
Proof. destruct s; cbn; intuition congruence. Qed.

(** Going down, once. *)
Lemma close_ok acc tc tc0 :
  conn_inv acc tc0 -> is_up (state_ tc0) = true ->
  TcpConnection.events_ tc0 = TcpConnection.events_ tc -> state_ tc0 = state_ tc -> removed tc0 = removed tc ->
  List.filter is_life (TcpConnection.events_ tc) = life_calls (state_ tc) ->
  exists tc', handleClose true tc0 = Ok tc' /\ conn_sound tc tc' /\
    state_ tc' = kDisconnected /\ calls_close tc tc' = true.
Proof.
  intros Hi Hu He Hst Hr Hc. apply is_up_cases in Hu as Hu'.
  destruct (handleClose_ok acc tc0 Hi Hu') as (tc' & E & Hi' & Hs' & Hev). rewrite He in Hev.
  exists tc'. split; [done|]. split.
  - split; [by exists acc|]. split.
    + rewrite Hev, Hs', List.filter_app, Hc, <- Hst. by destruct Hu' as [-> | ->].
    + rewrite <- Hr. revert E. unfold handleClose. cbn [assertInLoopThread guard_ mbind res_bind].
      intros E. inv_res. done.
  - split; [done|]. by rewrite (calls_close_app tc tc' _ Hev).
Qed.

Lemma handleWrite_events tc w tc' : handleWrite true tc w = Ok tc' ->
  TcpConnection.events_ tc' = TcpConnection.events_ tc /\ state_ tc' = state_ tc /\ removed tc' = removed tc.
Proof.
  unfold handleWrite, shutdownInLoop. cbn [assertInLoopThread guard_ mbind res_bind]. intros Hwrite.
  repeat (case_match; simplify_eq; inv_res); done.
Qed.

Lemma callback_ok acc tc cb rv wr :
  conn_inv acc tc -> List.filter is_life (TcpConnection.events_ tc) = life_calls (state_ tc) ->
  (match cb with CbClose | CbRead _ => is_up (state_ tc) = true | _ => True end) ->
  io_ok tc cb rv wr ->
  exists tc', run_callback true tc cb rv wr = Ok tc' /\ conn_sound tc tc' /\
    (state_ tc' = state_ tc /\ calls_close tc tc' = false \/
     state_ tc' = kDisconnected /\ is_up (state_ tc) = true /\ calls_close tc tc' = true /\
     match cb with CbClose | CbRead _ => True | _ => False end).
Proof.
  intros Hi Hc Hup Hio. destruct cb as [| |t|]; cbn [run_callback].
  - destruct (close_ok acc tc tc) as (tc' & E & Hs & Hst & Hcl); [done..|]. exists tc'.
    split; [done|]. split; [done|]. by right.
  - eexists. split; [done|]. split; [|left; split; [done|by rewrite (calls_close_app tc _ [EvError])]].
    split; [exists acc|split; [|done]].
    + eapply conn_inv_frame; [exact Hi|done..|apply Hi].
    + cbn. by rewrite List.filter_app, Hc, app_nil_r.
  - destruct Hio as [Hrv Hmax]. apply is_up_cases in Hup as Hup'.
    destruct (handleRead_ok acc tc rv Hi) as (tc' & E & Hi').
    { split; [by apply (up_watched acc)|]. by split. } exists tc'. split; [done|].
    revert E. unfold handleRead. cbn [assertInLoopThread guard_ mbind res_bind].
    assert (exists n e b, readFd (inputBuffer_ tc) rv = Ok (n, e, b) /\ buffer_ok b) as (n & e & b & -> & Hb).
    { destruct rv as [err|d0 d1]; [unfold readFd; do 3 eexists; split; [done|apply Hi]|].
      destruct (readFd_ok (inputBuffer_ tc) d0 d1) as (b & -> & Hb & _); [apply Hi|done..|eauto]. }
    cbn [mbind res_bind].
    assert (forall e, is_life e = false -> e <> EvClose -> call (setInput tc b) e = tc' ->
      conn_sound tc tc' /\ state_ tc' = state_ tc /\ calls_close tc tc' = false) as Hmsg.
    { intros ev Hev Hne <-. split; [split; [by exists acc|split; [|done]]|split; [done|]].
      - cbn. by rewrite List.filter_app, Hc; cbn; rewrite Hev, app_nil_r.
      - rewrite (calls_close_app tc _ [ev]) by done. apply bool_decide_eq_false.
        rewrite list_elem_of_singleton. congruence. }
    destruct (0 <? n).
    { intros [= E]. destruct (Hmsg EvMessage) as (? & ? & ?); [done..|]. split; [done|]. by left. }
    destruct (n =? 0).
    + intros E. assert (conn_inv acc (setInput tc b)) as Hi0 by (split; cbn; try apply Hi; done).
      destruct (close_ok acc tc (setInput tc b)) as (tc1 & E1 & Hs & Hst & Hcl); [done..|].
      rewrite E1 in E. injection E as <-. split; [done|]. by right.
    + intros [= E]. destruct (Hmsg EvError) as (? & ? & ?); [done..|]. split; [done|]. by left.
  - destruct (handleWrite_ok acc tc wr Hi Hio) as (tc' & E & Hi'). exists tc'. split; [done|].
    destruct (handleWrite_events _ _ _ E) as (He & Hst & Hr).
    split; [split; [by exists acc|split; [by rewrite He, Hst|done]]|]. left. split; [done|].
    apply (calls_close_app tc tc' []). by rewrite He, app_nil_r.
Qed.

(** Operations of the application and functors of the connection's own. *)
Lemma sendInLoop_removed c m w c' : sendInLoop true c m w = Ok c' -> removed c' = removed c.
Proof.
  unfold sendInLoop, queue_rest. cbn [assertInLoopThread guard_ mbind res_bind]. intros Hsend.
  repeat (case_match; simplify_eq); inv_res; repeat case_match; simplify_eq; done.
Qed.

Lemma shutdownInLoop_removed c c' : shutdownInLoop true c = Ok c' -> removed c' = removed c.
Proof. intros [= <-]. by destruct (isWriting _). Qed.

Lemma life_same s s' evs evs' :
  List.filter is_life evs = life_calls s -> (s', List.filter is_life evs') = (s, List.filter is_life evs) ->
  List.filter is_life evs' = life_calls s' /\ s' = s.
Proof. intros H [= -> ->]. done. Qed.

Lemma own_ok acc tc wr :
  conn_inv acc tc -> List.filter is_life (TcpConnection.events_ tc) = life_calls (state_ tc) ->
  op_any tc (OpRunFunctor wr) ->
  exists tc', run_next tc wr = Ok tc' /\ conn_sound tc tc' /\ state_ tc' = state_ tc.
Proof.
  intros Hi Hc Hok. destruct (any_step_ok acc tc (OpRunFunctor wr) Hi Hok) as (tc' & acc' & E & Hi').
  cbn [conn_step] in E. exists tc'. split; [done|].
  pose proof (run_next_life acc tc wr Hi Hok _ E) as Hl.
  destruct (life_same _ _ _ _ Hc Hl) as [Hc' Hs]. split; [|done]. split; [eauto|]. split; [done|].
  revert E. unfold run_next. change (removed tc) with (removed (pop_functor tc)).
  destruct (queued tc) as [|[m| | | |n] q]; try (by intros [= <-]);
    [apply sendInLoop_removed|apply shutdownInLoop_removed].
Qed.

(** The operations of the application keep the channel in the loop, and take a
    connection at most to disconnecting. *)
Lemma app_op_removed tc op tc' : app_op op = true -> conn_step tc op = Ok tc' -> removed tc' = removed tc.
Proof.
  intros Happ. destruct op as [|m w|m| | | | | |in_loop| | |]; try done; cbn [conn_step].
  - unfold send_string. destruct (connected tc); [apply sendInLoop_removed|by intros [= <-]].
  - unfold send_string. destruct (connected tc); by intros [= <-].
  - unfold shutdown. destruct (bool_decide _); [|by intros [= <-]].
    destruct in_loop; [intros E%shutdownInLoop_removed; exact E|by intros [= <-]].
  - intros [= <-]. unfold forceClose. by destruct (_ || _).
  - intros [= <-]. unfold forceCloseWithDelay. by destruct (_ || _).
Qed.

Lemma app_op_up tc op tc' : app_op op = true -> conn_step tc op = Ok tc' ->
  state_ tc = kConnecting -> state_ tc' <> kConnected.
Proof.
  intros Happ E Hs. destruct op as [|m w|m| | | | | |in_loop| | |]; try done; cbn [conn_step] in E.
  - revert E. unfold send_string, connected. rewrite Hs. cbn. intros [= ->]. congruence.
  - revert E. unfold send_string, connected. rewrite Hs. cbn. intros [= ->]. congruence.
  - apply shutdown_state in E. congruence.
  - injection E as E. destruct (forceClose_state tc) as [E'|E']; congruence.
  - injection E as E. destruct (forceCloseWithDelay_state tc) as [E'|E']; congruence.
Qed.

Lemma app_ok acc tc op :
  conn_inv acc tc -> List.filter is_life (TcpConnection.events_ tc) = life_calls (state_ tc) ->
  op_any tc op -> app_op op = true ->
  exists tc', conn_step tc op = Ok tc' /\ conn_sound tc tc' /\
    (state_ tc' = state_ tc \/ is_up (state_ tc) = true /\ state_ tc' = kDisconnecting).
Proof.
  intros Hi Hc Hok Happ. destruct (any_step_ok acc tc op Hi Hok) as (tc' & acc' & E & Hi').
  exists tc'. split; [done|]. pose proof (app_op_removed _ _ _ Happ E) as Hr.
  destruct (step_life acc tc op tc' Hi Hok E) as [Hl|[Hl Hn]].
  - destruct (life_same _ _ _ _ Hc Hl) as [Hc' Hs]. split; [by split; [eauto|]|]. by left.
  - assert (takes_down op = false) as Hrd by by destruct op.
    inversion Hl as [l E1 E2|l E1 E2|s l Hs E1 E2|l E1 E2]; subst.
    + destruct (app_op_up _ _ _ Happ E); congruence.
    + split; [|by right]. split; [eauto|]. split; [|done].
      rewrite <- E1 in Hc. rewrite <- E2. cbn in Hc |- *. congruence.
    + by destruct (Hn Hrd).
    + by destruct (Hn Hrd).
Qed.

(** ** The invariant of the process *)

(** What holds of a connection object by itself. *)
Record object_ok (s : Server.TcpServer) (a : Z) (c : Server.conn) (tc : TcpConnection) : Prop := {
  ob_known : c ∈ Server.established s;
  ob_conn : exists acc, conn_inv acc tc;
  ob_calls : List.filter is_life (TcpConnection.events_ tc) = life_calls (state_ tc);
  ob_table : state_ tc <> kDisconnected -> in_table (Some s) c = true;
  ob_removed : removed tc = true -> state_ tc = kDisconnected /\ in_table (Some s) c = false
}.

(** The callbacks that may take a connection down. *)
Definition closers (cbs : list channel_callback) : nat :=
  length (List.filter (fun cb => match cb with CbClose | CbRead _ => true | _ => false end) cbs).

Definition up_in (m : gmap Z (Server.conn * stage)) (l a : Z) : Prop :=
  exists c, m !! a = Some (c, Up) /\ Server.conn_loop c = l.

Definition phase_ok (m : gmap Z (Server.conn * stage)) (l : Z) (ph : phase) : Prop :=
  match ph with
  | PDispatch current active =>
      NoDup active.*1 /\ Forall (fun x => up_in m l x.1 /\ revents_ok x.2) active /\
      match current with
      | Some (a, cbs) =>
          (a ∉ active.*1) /\ (exists c st, m !! a = Some (c, st) /\ Server.conn_loop c = l) /\
          (closers cbs <= 1)%nat /\ (closers cbs = 1%nat -> up_in m l a)
      | None => True
      end
  | _ => True
  end.

Record world_inv (io : list Z) (w : world) (s : Server.TcpServer) : Prop := {
  wi_alive : server w = Some s;
  wi_server : Server.server_inv base io s;
  wi_objects a c tc : objects w !! a = Some (c, tc) -> object_ok s a c tc;
  wi_table nm c : Server.connections_ s !! nm = Some c ->
    exists tc, objects w !! Server.conn_addr c = Some (c, tc);
  wi_proto : proto_inv (stages s (objects w)) (fun l => functors_of (loop_at w l)) (polled w);
  wi_phases l : phase_ok (stages s (objects w)) l (phase_ (loop_at w l))
}.

(** ** Lemmas *)

Lemma lookup_stages s os a :
  stages s os !! a = (fun x => (x.1, stage_of s x.1 x.2)) <$> os !! a.
Proof. apply lookup_fmap. Qed.

Lemma stages_insert s os a c tc :
  stages s (<[a := (c, tc)]> os) = <[a := (c, stage_of s c tc)]> (stages s os).
Proof. unfold stages. by rewrite fmap_insert. Qed.

Lemma stages_some s os a c st :
  stages s os !! a = Some (c, st) <-> exists tc, os !! a = Some (c, tc) /\ stage_of s c tc = st.
Proof.
  rewrite lookup_stages. destruct (os !! a) as [[c' tc]|]; cbn; split.
  - intros [= <- <-]. by eexists.
  - by intros (? & [= <- <-] & <-).
  - done.
  - by intros (? & ? & _).
Qed.

Lemma object_at w c tc : objects w !! Server.conn_addr c = Some (c, tc) -> object w c = Ok tc.
Proof. intros E. unfold object. rewrite E. by rewrite decide_True. Qed.

Lemma object_inv w c tc : object w c = Ok tc -> objects w !! Server.conn_addr c = Some (c, tc).
Proof.
  unfold object. destruct (objects w !! _) as [[c' tc']|] eqn:E; [|done].
  destruct (decide (c' = c)) as [->|]; [|done]. by intros [= ->].
Qed.

Lemma loop_at_set w l ls l' : loop_at (setLoop w l ls) l' = if decide (l' = l) then ls else loop_at w l'.
Proof.
  unfold loop_at. cbn. case_decide as E.
  - subst. by rewrite lookup_insert_eq.
  - by rewrite lookup_insert_ne.
Qed.

(** The stages of the connections that an operation leaves alone. *)
Lemma stages_server s s' os :
  (forall a c tc, os !! a = Some (c, tc) -> in_table (Some s') c = in_table (Some s) c) ->
  stages s' os = stages s os.
Proof.
  intros H. apply map_eq. intros a. rewrite !lookup_stages.
  destruct (os !! a) as [[c tc]|] eqn:E; [|done]. cbn. unfold stage_of. by rewrite (H a c tc E).
Qed.

Lemma phase_ok_mono m m' l ph :
  (forall a, up_in m l a -> up_in m' l a) ->
  (forall a c st, m !! a = Some (c, st) -> exists st', m' !! a = Some (c, st')) ->
  phase_ok m l ph -> phase_ok m' l ph.
Proof.
  intros Hup Hdom. destruct ph as [|cur active|]; [done| |done]. intros (H1 & H2 & H3).
  split; [done|]. split; [eapply Forall_impl; [exact H2|]; cbn; intros x [? ?]; by split; [apply Hup|]|].
  destruct cur as [[a cbs]|]; [|done]. destruct H3 as (Ha & (c & st & Hm & Hl) & Hc & Hu).
  split; [done|]. split; [|split; [done|auto]]. destruct (Hdom _ _ _ Hm) as [st' ?]. eauto.
Qed.

(** *** Collecting *)

Lemma collect_lookup w a x :
  objects (collect w) !! a = Some x <-> objects w !! a = Some x /\ held w x.1 x.2 = true.
Proof. unfold collect. cbn. apply map_lookup_filter_Some. Qed.

Lemma holds_functor w l f c tc :
  f ∈ functors_of (loop_at w l) -> functor_conn f = c -> held w c tc = true.
Proof.
  intros Hf Hc. unfold held. rewrite orb_true_iff. right.
  destruct (loops w !! l) as [ls|] eqn:E.
  2:{ unfold loop_at in Hf. rewrite E in Hf. cbn in Hf. by apply not_elem_of_nil in Hf. }
  apply existsb_exists. exists (l, ls). split; [by apply list_elem_of_In, elem_of_map_to_list|]. cbn.
  unfold loop_holds. rewrite orb_true_iff. left. apply existsb_exists. exists f.
  split; [|by rewrite bool_decide_true]. apply list_elem_of_In. unfold loop_at in Hf. rewrite E in Hf.
  rewrite elem_of_app. by right.
Qed.

Lemma holds_current w l a cbs active c tc :
  phase_ (loop_at w l) = PDispatch (Some (a, cbs)) active -> Server.conn_addr c = a -> held w c tc = true.
Proof.
  intros Hp Ha. unfold held. rewrite orb_true_iff. right.
  destruct (loops w !! l) as [ls|] eqn:E; [|by unfold loop_at in Hp; rewrite E in Hp].
  apply existsb_exists. exists (l, ls). split; [by apply list_elem_of_In, elem_of_map_to_list|]. cbn.
  unfold loop_at in Hp. rewrite E in Hp. cbn in Hp. unfold loop_holds. rewrite orb_true_iff. right.
  rewrite Hp. lia.
Qed.

Lemma collect_inv io w s : world_inv io w s -> world_inv io (collect w) s.
Proof.
  intros [H1 H2 H3 H4 H5 H6].
  assert (forall a c tc, objects w !! a = Some (c, tc) -> stage_of s c tc <> Finished -> held w c tc = true) as Hheld.
  { intros a c tc Ha Hst. destruct (H3 _ _ _ Ha) as [_ _ _ Ht _].
    assert (stages s (objects w) !! a = Some (c, stage_of s c tc)) as Hm by (apply stages_some; eauto).
    destruct (token (stage_of s c tc) c) as [f|] eqn:Hf.
    - eapply holds_functor; [exact (p_token _ _ _ H5 _ _ _ _ Hm Hf)|]. by eapply token_conn.
    - unfold held. rewrite H1, Ht; [done|]. intros E. unfold stage_of in *. rewrite E in *.
      by destruct (in_table _ _), (removed tc). }
  assert (forall a c st, stages s (objects w) !! a = Some (c, st) -> st <> Finished ->
            stages s (objects (collect w)) !! a = Some (c, st)) as Hkeep.
  { intros a c st. rewrite !stages_some. intros (tc & Ha & <-) Hst. exists tc. split; [|done].
    apply collect_lookup. split; [done|]. by eapply Hheld. }
  assert (forall a x, stages s (objects (collect w)) !! a = Some x -> stages s (objects w) !! a = Some x) as Hsub.
  { intros a [c st]. rewrite !stages_some. intros (tc & Ha & <-). exists tc. split; [|done].
    by apply collect_lookup in Ha as [? _]. }
  split; try done.
  - intros a c tc Ha. apply collect_lookup in Ha as [Ha _]. by apply H3.
  - intros nm c Hn. destruct (H4 nm c Hn) as [tc Htc]. exists tc. apply collect_lookup. split; [done|]. cbn.
    unfold held. rewrite H1. unfold in_table. apply (Server.inv_table _ _ _ H2) in Hn as Hn'.
    destruct Hn' as [<- _]. by rewrite bool_decide_true.
  - by apply (proto_collect (stages s (objects w))).
  - intros l. specialize (H6 l). change (loop_at (collect w) l) with (loop_at w l).
    destruct (phase_ (loop_at w l)) as [|cur active|] eqn:Hp; [done| |done].
    destruct H6 as (Hnd & Hact & Hcur). split; [done|]. split.
    + eapply Forall_impl; [exact Hact|]. cbn. intros x [(c & Hc & Hl) Hr]. split; [|done].
      exists c. split; [|done]. by apply Hkeep.
    + destruct cur as [[a cbs]|]; [|done]. destruct Hcur as (Ha & (c & st & Hm & Hl) & Hc & Hu).
      split; [done|]. split; [|split; [done|]].
      * apply stages_some in Hm as (tc & Hm & Hst). exists c, st. split; [|done].
        apply stages_some. exists tc. split; [|done]. apply collect_lookup. split; [done|].
        eapply holds_current; [exact Hp|]. eapply (p_addr _ _ _ H5 a c st), stages_some; eauto.
      * intros E. destruct (Hu E) as (c' & Hc' & Hl'). exists c'. split; [|done]. by apply Hkeep.
Qed.
(** *** Functors *)

Definition functors (w : world) (l : Z) : list functor := functors_of (loop_at w l).

(** The functor a connection has in loop [l] because of its stage. *)
Definition in_queue (st : stage) (c : Server.conn) (l : Z) : list functor :=
  match token st c with
  | Some f => if decide (functor_loop f = l) then [f] else []
  | None => []
  end.

Lemma in_queue_spec st c l f : f ∈ in_queue st c l <-> token st c = Some f /\ functor_loop f = l.
Proof.
  unfold in_queue. destruct (token st c) as [g|]; [|split; [by intros ?%not_elem_of_nil|by intros [? _]]].
  case_decide; rewrite ?list_elem_of_singleton; split.
  - by intros ->.
  - by intros [[= ->] _].
  - by intros ?%not_elem_of_nil.
  - by intros [[= ->] ?].
Qed.

Lemma in_queue_nodup st c l : NoDup (in_queue st c l).
Proof. unfold in_queue. destruct (token st c); [|constructor]. case_decide; [apply NoDup_singleton|constructor]. Qed.

(** A connection's functor is taken out of its queue, and the next one put in. *)
Lemma proto_move m q pol a c st st' rest q' pol' :
  proto_inv m q pol -> m !! a = Some (c, st) ->
  (forall l, q l = in_queue st c l ++ rest l) ->
  (forall l, q' l = rest l ++ in_queue st' c l) ->
  (forall b, b ∈ pol' <-> if decide (b = a) then in_poller st' = true else b ∈ pol) ->
  proto_inv (<[a := (c, st')]> m) q' pol'.
Proof.
  intros Hi Hm Hq Hq' Hpol. pose proof Hi as [H1 H2 H3 H4 H5].
  assert (forall l f, f ∈ rest l -> f ∈ q l /\ token st c <> Some f) as Hrest.
  { intros l f Hf. assert (f ∈ q l) as Hin by (rewrite Hq; apply elem_of_app; by right). split; [done|].
    intros Ht. specialize (H4 l). rewrite Hq in H4. apply NoDup_app in H4 as (_ & Hd & _).
    apply (Hd f); [|done]. apply in_queue_spec. split; [done|]. apply (H3 l f Hin). }
  apply (proto_step m q pol a c st); [done|done| | |done].
  - intros l f. rewrite Hq', Hq, !elem_of_app, !in_queue_spec. split.
    + intros [Hf|Hf]; [left|by right]. destruct (Hrest l f Hf). by split; [right|].
    + intros [[[[Ht _]|Hf] Hn]|Hf]; [done|by left|by right].
  - intros l. rewrite Hq'. specialize (H4 l) as H4l. rewrite Hq in H4l. apply NoDup_app in H4l as (_ & _ & Hnd).
    apply NoDup_app. split; [done|]. split; [|apply in_queue_nodup].
    intros f Hf [Ht _]%in_queue_spec. destruct (Hrest l f Hf) as [Hin Hn].
    destruct (H3 l f Hin) as (_ & st0 & Hst0 & Ht0). rewrite (token_conn _ _ _ Ht) in Hst0, Ht0.
    rewrite (H1 _ _ _ Hm), Hm in Hst0. injection Hst0 as <-. done.
Qed.

Lemma functors_queue w l f l' :
  functors (queueInLoop w l f) l' = functors w l' ++ (if decide (l = l') then [f] else []).
Proof.
  unfold functors, queueInLoop. rewrite loop_at_set. case_decide as E.
  - subst. rewrite decide_True by done. unfold functors_of. cbn. by rewrite app_assoc.
  - rewrite decide_False by done. by rewrite app_nil_r.
Qed.

Lemma functors_move w st c f l' :
  token st c = Some f -> functors (queueInLoop w (functor_loop f) f) l' = functors w l' ++ in_queue st c l'.
Proof. intros Ht. rewrite functors_queue. unfold in_queue. by rewrite Ht. Qed.

Lemma phase_queue w l f l' : phase_ (loop_at (queueInLoop w l f) l') = phase_ (loop_at w l').
Proof. unfold queueInLoop. rewrite loop_at_set. case_decide; [by subst|done]. Qed.

(** *** Phases *)

(** A channel that is still to be handled. *)
Definition to_handle (ph : phase) (a : Z) : Prop :=
  match ph with
  | PDispatch cur active =>
      a ∈ active.*1 \/ match cur with Some (b, cbs) => b = a /\ closers cbs = 1%nat | None => False end
  | _ => False
  end.

Lemma phase_ok_insert m l ph a c st st' :
  phase_ok m l ph -> m !! a = Some (c, st) ->
  (st = Up -> Server.conn_loop c = l -> ~ to_handle ph a) ->
  phase_ok (<[a := (c, st')]> m) l ph.
Proof.
  intros Hp Hm Hn. destruct ph as [|cur active|]; [done| |done]. destruct Hp as (Hnd & Hact & Hcur).
  assert (forall b, up_in m l b -> to_handle (PDispatch cur active) b -> up_in (<[a := (c, st')]> m) l b) as Hup.
  { intros b (c' & Hb & Hl) Hh. exists c'. split; [|done]. rewrite lookup_insert_ne; [done|].
    intros ->. rewrite Hm in Hb. injection Hb as -> ->. by apply Hn. }
  split; [done|]. split.
  - rewrite Forall_forall in Hact |- *. intros x Hx. destruct (Hact x Hx) as [? ?]. split; [|done].
    apply Hup; [done|]. left. apply list_elem_of_fmap. eauto.
  - destruct cur as [[b cbs]|]; [|done]. destruct Hcur as (Hb & (c' & s' & Hm' & Hl) & Hc & Hu).
    split; [done|]. split; [|split; [done|]].
    + destruct (decide (a = b)) as [->|]; [|exists c', s'; by rewrite lookup_insert_ne].
      rewrite Hm in Hm'. injection Hm' as -> ->. exists c', st'. by rewrite lookup_insert_eq.
    + intros E. apply Hup; [by apply Hu|]. by right.
Qed.

(** *** Moving on *)

Lemma inv_loop io w s l ls :
  world_inv io w s -> functors_of ls = functors w l -> phase_ok (stages s (objects w)) l (phase_ ls) ->
  world_inv io (setLoop w l ls) s.
Proof.
  intros [H1 H2 H3 H4 H5 H6] Hf Hp. split; try done.
  - destruct H5 as [P1 P2 P3 P4 P5].
    assert (forall l', functors_of (loop_at (setLoop w l ls) l') = functors_of (loop_at w l')) as Hq.
    { intros l'. rewrite loop_at_set. case_decide; [by subst|done]. }
    split; try done.
    + intros. rewrite Hq. eauto.
    + intros l' f. rewrite Hq. apply P3.
    + intros l'. rewrite Hq. apply P4.
  - intros l'. rewrite loop_at_set. case_decide; [by subst|apply H6].
Qed.

Lemma inv_phase io w s l ph :
  world_inv io w s -> (match ph with PRun _ fs => fs | _ => [] end) = todo (loop_at w l) ->
  phase_ok (stages s (objects w)) l ph -> world_inv io (setLoop w l (setPhase (loop_at w l) ph)) s.
Proof.
  intros Hi Ht Hp. apply inv_loop; [done| |done]. unfold functors, functors_of. by rewrite <- Ht.
Qed.

(** The object of a connection changes, its stage does not. *)
Lemma inv_object io w s a c tc tc' :
  world_inv io w s -> objects w !! a = Some (c, tc) -> object_ok s a c tc' ->
  stage_of s c tc' = stage_of s c tc -> world_inv io (setObject w c tc') s.
Proof.
  intros [H1 H2 H3 H4 H5 H6] Ha Ho Hst.
  assert (Server.conn_addr c = a) as Hca by (eapply (p_addr _ _ _ H5), stages_some; eauto).
  assert (stages s (objects (setObject w c tc')) = stages s (objects w)) as Hss.
  { unfold setObject. cbn [objects]. rewrite Hca, stages_insert, Hst. apply insert_id, stages_some. eauto. }
  split; try done.
  - intros b c' tc1. cbn. rewrite Hca, lookup_insert_Some. intros [[<- [= <- <-]]|[_ ?]]; eauto.
  - intros nm c' Hn. destruct (H4 nm c' Hn) as [tc1 Htc1]. cbn. rewrite Hca.
    destruct (decide (a = Server.conn_addr c')) as [E|].
    + rewrite <- E in Htc1. rewrite Ha in Htc1. injection Htc1 as -> _. exists tc'. by rewrite E, lookup_insert_eq.
    + exists tc1. by rewrite lookup_insert_ne.
  - by rewrite Hss.
  - intros l. rewrite Hss. apply H6.
Qed.

(** The server's table as far as the other connections see it. *)
Definition table_frame (s s' : Server.TcpServer) (c : Server.conn) : Prop :=
  Server.established s ⊆ Server.established s' /\
  (forall c', c' ∈ Server.established s -> c' <> c -> in_table (Some s') c' = in_table (Some s) c') /\
  (forall nm c', Server.connections_ s' !! nm = Some c' -> Server.connections_ s !! nm = Some c' \/ c' = c).

Lemma table_frame_refl s c : table_frame s s c.
Proof. split; [done|]. split; [done|]. auto. Qed.

Lemma frame_object s s' a c c' tc :
  table_frame s s' c -> c' <> c -> object_ok s a c' tc -> object_ok s' a c' tc.
Proof.
  intros (He & Ht & _) Hne [K1 K2 K3 K4 K5]. split; [by apply He|done|done|..].
  - intros Hd. rewrite Ht by done. auto.
  - intros Hr. rewrite Ht by done. auto.
Qed.

Lemma frame_stages s s' os a c tc' :
  table_frame s s' c -> (forall b c' tc, os !! b = Some (c', tc) -> b <> a -> c' <> c /\ c' ∈ Server.established s) ->
  stages s' (<[a := (c, tc')]> os) = <[a := (c, stage_of s' c tc')]> (stages s os).
Proof.
  intros (_ & Ht & _) Hne. apply map_eq. intros b. rewrite stages_insert.
  destruct (decide (a = b)) as [->|Hab]; [by rewrite !lookup_insert_eq|].
  rewrite !lookup_insert_ne, !lookup_stages by done. destruct (os !! b) as [[c' tc]|] eqn:E; [|done].
  cbn. unfold stage_of. destruct (Hne _ _ _ E) as [? ?]; [done|]. by rewrite Ht.
Qed.

(** One connection moves on to another stage, or is a new one. *)
Lemma inv_advance io w s w' s' a c tc' :
  world_inv io w s -> server w' = Some s' -> Server.server_inv base io s' -> table_frame s s' c ->
  (forall c0 tc, objects w !! a = Some (c0, tc) -> c0 = c) -> Server.conn_addr c = a ->
  objects w' = <[a := (c, tc')]> (objects w) -> object_ok s' a c tc' ->
  let m' := <[a := (c, stage_of s' c tc')]> (stages s (objects w)) in
  proto_inv m' (functors w') (polled w') ->
  (forall l, phase_ok m' l (phase_ (loop_at w' l))) ->
  world_inv io w' s'.
Proof.
  intros Hi Hs' Hsi Hfr Hc0 Hca Hos Ho m' Hp Hph. pose proof Hi as [H1 H2 H3 H4 H5 H6].
  assert (forall b c' tc, objects w !! b = Some (c', tc) -> Server.conn_addr c' = b) as Haddr.
  { intros b c' tc Hb. eapply (p_addr _ _ _ H5), stages_some; eauto. }
  assert (forall b c' tc, objects w !! b = Some (c', tc) -> b <> a -> c' <> c) as Hne.
  { intros b c' tc Hb Hba ->. apply Haddr in Hb. congruence. }
  assert (stages s' (objects w') = m') as Hm.
  { rewrite Hos. apply frame_stages; [done|]. intros b c' tc Hb Hba. split; [by eapply Hne|].
    by apply (H3 _ _ _ Hb). }
  split; rewrite ?Hm; try done.
  - intros b c' tc1. rewrite Hos, lookup_insert_Some. intros [[<- [= <- <-]]|[Hab Hb]]; [done|].
    eapply frame_object; [done|by eapply Hne|by apply H3].
  - intros nm c' Hn. rewrite Hos. destruct (decide (a = Server.conn_addr c')) as [E|Hab].
    + exists tc'. rewrite <- E, lookup_insert_eq. destruct Hfr as (_ & _ & Hsub).
      destruct (Hsub nm c' Hn) as [Hn'| ->]; [|done]. destruct (H4 nm c' Hn') as [tc1 Htc1].
      rewrite <- E in Htc1. by rewrite (Hc0 _ _ Htc1).
    + rewrite lookup_insert_ne by done. destruct Hfr as (_ & _ & Hsub).
      destruct (Hsub nm c' Hn) as [Hn'| ->]; [by eapply H4|done].
Qed.
(** *** The server's table *)

Lemma in_table_some s c : in_table (Some s) c = true <-> Server.connections_ s !! Server.conn_name c = Some c.
Proof. unfold in_table. apply bool_decide_eq_true. Qed.

Lemma remove_exact io s c :
  Server.server_inv base io s -> in_table (Some s) c = true ->
  exists s', Server.removeConnectionInLoop true s c = Ok s' /\ Server.server_inv base io s' /\
    new_call s s' = Some (Server.CallDestroyed c) /\ table_frame s s' c /\ in_table (Some s') c = false.
Proof.
  intros Hi Hc. apply in_table_some in Hc as Hl.
  assert (c ∈ Server.established s /\ c ∉ Server.destroyed s) as Hop
    by (apply (Server.inv_table _ _ _ Hi) in Hl; tauto).
  destruct (Server.remove_ok base io s c Hi Hop) as (s' & E & Hi' & _). exists s'. split; [done|]. split; [done|].
  revert E. unfold Server.removeConnectionInLoop. cbn [guard_ mbind res_bind]. rewrite Hl.
  cbn [Z.eqb Pos.eqb assert_ mbind res_bind]. intros [= <-]. split; [|split].
  - unfold new_call. cbn. by rewrite lookup_app_r, Nat.sub_diag by done.
  - split; [|split].
    + unfold Server.established. cbn. by rewrite omap_snoc, app_nil_r.
    + intros c' _ Hne. unfold in_table. cbn. apply bool_decide_ext.
      destruct (decide (Server.conn_name c' = Server.conn_name c)) as [En|En].
      * rewrite En, lookup_delete_eq, Hl. split; [done|]. by intros [= ->].
      * by rewrite lookup_delete_ne.
    + intros nm c'. cbn. rewrite lookup_delete_Some. tauto.
  - unfold in_table. cbn. by rewrite lookup_delete_eq.
Qed.

Lemma new_exact io s addr :
  Server.server_inv base io s -> Server.server_op_ok s (Server.OpNew addr) ->
  exists s' c, Server.newConnection true s addr = Ok s' /\ Server.server_inv base io s' /\
    new_call s s' = Some (Server.CallEstablished c) /\ table_frame s s' c /\ in_table (Some s') c = true /\
    Server.conn_addr c = addr /\ c ∈ Server.established s'.
Proof.
  intros Hi Hop. destruct (Server.new_ok base io s addr Hi Hop) as (s' & E & Hi' & _).
  destruct Hop as [Hfit Hmax].
  destruct (Server.newConnection_exact s addr (Server.inv_pool _ _ _ Hi) Hmax) as (l & p & _ & E').
  rewrite E in E'. injection E' as E'. set (c := Server.mkConn _ _ _) in E'. exists s', c.
  assert (Server.established s' = Server.established s ++ [c]) as Hes
    by (rewrite E'; unfold Server.established; cbn; by rewrite omap_snoc).
  assert (Server.connections_ s' = <[Server.conn_name c := c]> (Server.connections_ s)) as Htab by by rewrite E'.
  split; [done|]. split; [done|]. split; [|split; [|split; [|split; [done|]]]].
  - unfold new_call. rewrite E'. cbn. by rewrite lookup_app_r, Nat.sub_diag by done.
  - split; [|split].
    + rewrite Hes. intros x Hx. apply elem_of_app. by left.
    + intros c' Hk Hne. unfold in_table. rewrite Htab. apply bool_decide_ext.
      rewrite lookup_insert_ne; [done|]. intros En. apply (Server.name_fresh _ _ _ _ Hi Hk).
      rewrite <- En. by apply Server.connName_fits.
    + intros nm c'. rewrite Htab, lookup_insert_Some. intros [[_ <-]|[_ ?]]; auto.
  - apply in_table_some. rewrite Htab. apply lookup_insert_eq.
  - rewrite Hes. apply elem_of_app. right. by apply list_elem_of_singleton.
Qed.

(** *** Stages *)

Lemma stage_up s c tc : stage_of s c tc = Up <-> is_up (state_ tc) = true.
Proof. unfold stage_of. destruct (state_ tc); cbn; repeat case_match; done. Qed.

Lemma stage_down s c tc : state_ tc = kDisconnected -> removed tc = false ->
  stage_of s c tc = if in_table (Some s) c then Closing else Closed.
Proof. unfold stage_of. by intros -> ->. Qed.

Lemma polled_same m q pol a c st st' :
  proto_inv m q pol -> m !! a = Some (c, st) -> in_poller st' = in_poller st ->
  forall b, b ∈ pol <-> if decide (b = a) then in_poller st' = true else b ∈ pol.
Proof.
  intros [_ _ _ _ H5] Hm Hst b. case_decide as E; [|done]. subst b. rewrite H5, Hm, Hst. split.
  - by intros (? & ? & [= <- <-] & ?).
  - eauto.
Qed.

Lemma polled_add (pol : gset Z) a st : in_poller st = true ->
  forall b, b ∈ {[a]} ∪ pol <-> if decide (b = a) then in_poller st = true else b ∈ pol.
Proof. intros Hs b. rewrite elem_of_union, elem_of_singleton. case_decide; tauto. Qed.

Lemma polled_delete (pol : gset Z) a st : in_poller st = false ->
  forall b, b ∈ pol ∖ {[a]} <-> if decide (b = a) then in_poller st = true else b ∈ pol.
Proof. intros Hs b. rewrite elem_of_difference, elem_of_singleton. case_decide; [|tauto]. rewrite Hs. intuition congruence. Qed.

(** *** Closing *)

Lemma removeConnectionInLoop_eq io w s c :
  server w = Some s -> Server.server_inv base io s -> in_table (Some s) c = true ->
  exists s', removeConnectionInLoop base w c =
      Ok (queueInLoop (setServer w (Some s')) (Server.conn_loop c) (FDestroyed c)) /\
    Server.server_inv base io s' /\ table_frame s s' c /\ in_table (Some s') c = false.
Proof.
  intros Hw Hs Hc. destruct (remove_exact io s c Hs Hc) as (s' & E & Hs' & Hn & Hf & Hc'). exists s'.
  split; [|done]. unfold removeConnectionInLoop. rewrite Hw, Z.eqb_refl, E. cbn [mbind res_bind].
  unfold server_calls. by rewrite Hn.
Qed.

Lemma close_step io w s a c tc tc' :
  world_inv io w s -> objects w !! a = Some (c, tc) -> is_up (state_ tc) = true ->
  conn_sound tc tc' -> state_ tc' = kDisconnected ->
  ~ to_handle (phase_ (loop_at w (Server.conn_loop c))) a ->
  exists w' s', removeConnection (Server.conn_loop c) (setObject w c tc') c = Ok w' /\ world_inv io w' s'.
Proof.
  intros Hi Ha Hup [[acc Hacc] [Hlife Hrem]] Hdown Hh. pose proof Hi as [H1 H2 H3 H4 H5 H6].
  destruct (H3 _ _ _ Ha) as [K1 K2 K3 K4 K5].
  assert (removed tc' = false) as Hr.
  { rewrite Hrem. destruct (removed tc) eqn:E; [|done]. destruct (K5 eq_refl) as [E' _]. by rewrite E' in Hup. }
  assert (Server.conn_addr c = a) as Hca by (eapply (p_addr _ _ _ H5), stages_some; eauto).
  assert (in_table (Some s) c = true) as Hc by (apply K4; intros E; by rewrite E in Hup).
  assert (stages s (objects w) !! a = Some (c, Up)) as Hm.
  { apply stages_some. exists tc. split; [done|]. by apply stage_up. }
  assert (forall st', in_poller st' = true ->
    (forall l, phase_ok (<[a := (c, st')]> (stages s (objects w))) l (phase_ (loop_at w l))) /\
    (forall w' f, token st' c = Some f -> functors w' = functors w ->
       proto_inv (<[a := (c, st')]> (stages s (objects w)))
         (functors (queueInLoop w' (functor_loop f) f)) (polled w))) as Hmove.
  { intros st' Hst'. split.
    - intros l. eapply phase_ok_insert; [apply H6|done|]. by intros _ <-.
    - intros w' f Hf Hw'. eapply (proto_move _ _ _ a c Up st' (functors w)); [done|done|done| |].
      + intros l. rewrite (functors_move w' st' c) by done. by rewrite Hw'.
      + by eapply polled_same. }
  unfold removeConnection. change (server (setObject w c tc')) with (server w). rewrite H1.
  destruct (Z.eqb_spec (Server.conn_loop c) base) as [El|El].
  - rewrite El. destruct (removeConnectionInLoop_eq io (setObject w c tc') s c) as (s' & E & Hs' & Hf & Hc'); [done..|].
    rewrite E. destruct (Hmove Closed) as [Hph Hpr]; [done|]. do 2 eexists. split; [done|].
    assert (stage_of s' c tc' = Closed) as Hst by (rewrite stage_down, Hc'; done).
    apply (inv_advance io w s _ s' a c tc'); rewrite ?Hst; try done.
    + intros c0 tc0 Hc0. rewrite Ha in Hc0. by injection Hc0 as <-.
    + cbn. by rewrite Hca.
    + split; [by apply Hf|eauto|done|done|by rewrite Hr].
    + by apply (Hpr (setServer (setObject w c tc') (Some s')) (FDestroyed c)).
    + intros l. rewrite phase_queue. apply Hph.
  - destruct (Hmove Closing) as [Hph Hpr]; [done|]. do 2 eexists. split; [done|].
    assert (stage_of s c tc' = Closing) as Hst by (rewrite stage_down, Hc; done).
    apply (inv_advance io w s _ s a c tc'); rewrite ?Hst; try done; [apply table_frame_refl|..].
    + intros c0 tc0 Hc0. rewrite Ha in Hc0. by injection Hc0 as <-.
    + cbn. by rewrite Hca.
    + split; [done|eauto|done|done|by rewrite Hr].
    + by apply (Hpr (setObject w c tc') (FRemove c)).
    + intros l. rewrite phase_queue. apply Hph.
Qed.
(** *** Running functors *)

Definition popped (w : world) (l : Z) (fs0 fs : list functor) (f : functor) : world :=
  setLoop w l (setPhase (loop_at w l) (PRun (fs0 ++ [f]) fs)).

Lemma functors_pop w fs0 f fs st c l' :
  phase_ (loop_at w (functor_loop f)) = PRun fs0 (f :: fs) -> token st c = Some f ->
  functors w l' = in_queue st c l' ++ functors (popped w (functor_loop f) fs0 fs f) l'.
Proof.
  intros Hp Ht. unfold functors, popped, in_queue. rewrite Ht, loop_at_set. case_decide as E.
  - subst. rewrite decide_True by done. unfold functors_of, todo. rewrite Hp. done.
  - by rewrite decide_False.
Qed.

Lemma phase_popped m w l fs0 fs f :
  (forall l', phase_ok m l' (phase_ (loop_at w l'))) ->
  forall l', phase_ok m l' (phase_ (loop_at (popped w l fs0 fs f) l')).
Proof. intros H l'. unfold popped. rewrite loop_at_set. case_decide; [done|apply H]. Qed.

Lemma object_ok_conn s a c tc tc' :
  object_ok s a c tc -> conn_sound tc tc' -> (state_ tc' = kDisconnected <-> state_ tc = kDisconnected) ->
  object_ok s a c tc'.
Proof.
  intros [K1 K2 K3 K4 K5] (Hacc & Hl & Hr) Hst. split; [done|done|done|..].
  - intros Hd. apply K4. tauto.
  - intros Hr'. rewrite Hr in Hr'. destruct (K5 Hr'). tauto.
Qed.

(** A connection comes up. *)
Lemma up_ok s a c tc :
  object_ok s a c tc -> state_ tc = kConnecting ->
  exists tc', connectionEstablished true tc = Ok tc' /\ object_ok s a c tc' /\ stage_of s c tc' = Up.
Proof.
  intros Ho Hst. pose proof Ho as [K1 [acc K2] K3 K4 K5].
  destruct (connectionEstablished_ok acc tc K2 Hst) as (tc' & E & Hi' & Hst'). exists tc'. split; [done|].
  assert (removed tc' = removed tc) as Hr.
  { revert E. unfold connectionEstablished. intros E. inv_res. done. }
  pose proof (established_life _ _ E Hst) as Hl. split.
  - eapply object_ok_conn; [exact Ho| |by rewrite Hst, Hst'].
    split; [by exists acc|]. split; [|done]. unfold life in Hl. rewrite Hst, Hst', K3, Hst in Hl.
    rewrite Hst'. inversion Hl. done.
  - apply stage_up. by rewrite Hst'.
Qed.

(** A connection leaves its poller. *)
Lemma destroyed_ok s a c tc :
  object_ok s a c tc -> state_ tc = kDisconnected -> in_table (Some s) c = false ->
  exists tc', connectionDestroyed true tc = Ok tc' /\ object_ok s a c tc' /\ stage_of s c tc' = Finished.
Proof.
  intros Ho Hst Hc. pose proof Ho as [K1 [acc K2] K3 K4 K5].
  pose proof (inv_disconnected _ _ K2 Hst) as Hev. unfold connectionDestroyed.
  cbn [assertInLoopThread guard_ mbind res_bind]. rewrite bool_decide_false by (by rewrite Hst).
  rewrite assert_true by (unfold isNoneEvent; by rewrite Hev). cbn [mbind res_bind].
  eexists. split; [done|]. split.
  - split; [done| |done|done|by intros _].
    exists acc. destruct K2. by split.
  - unfold stage_of. rewrite Hc. cbn. by rewrite Hst.
Qed.

(** The functor that running one queues in loop [l]. *)
Definition pushes (l : Z) (f : functor) : list functor :=
  match f with FRemove c => if decide (Server.conn_loop c = l) then [FDestroyed c] else [] | _ => [] end.

Lemma functor_step io w s l fs0 f fs :
  world_inv io w s -> phase_ (loop_at w l) = PRun fs0 (f :: fs) ->
  exists w' s', run_functor l (popped w l fs0 fs f) f = Ok w' /\ world_inv io w' s' /\
    (forall l', functors w' l' = functors (popped w l fs0 fs f) l' ++ pushes l' f) /\
    forall l', phase_ (loop_at w' l') = phase_ (loop_at (popped w l fs0 fs f) l').
Proof.
  intros Hi Hp. pose proof Hi as [H1 H2 H3 H4 H5 H6].
  assert (f ∈ functors w l) as Hin.
  { unfold functors, functors_of, todo. rewrite Hp. apply elem_of_app. left. by left. }
  destruct (p_functor _ _ _ H5 l f Hin) as (<- & st & Hm & Ht).
  pose proof Hm as Hm'. apply stages_some in Hm as (tc & Ha & Hst).
  pose proof (H3 _ _ _ Ha) as Ho. set (c := functor_conn f) in *. set (a := Server.conn_addr c) in *.
  pose proof (fun l' => functors_pop w fs0 f fs st c l' Hp Ht) as Hq.
  set (w1 := popped w (functor_loop f) fs0 fs f) in *.
  assert (object w1 c = Ok tc) as Hobj by (by apply object_at).
  assert (forall c0 tc0, objects w !! a = Some (c0, tc0) -> c0 = c) as Hsame
    by (intros c0 tc0 E; rewrite Ha in E; by injection E as <-).
  assert (forall st' l', phase_ok (<[a := (c, st')]> (stages s (objects w))) l' (phase_ (loop_at w1 l'))) as Hph.
  { intros st'. apply phase_popped. intros l'. eapply phase_ok_insert; [apply H6|done|]. by intros ->. }
  destruct f as [c0|c0|c0]; cbn [functor_conn functor_loop run_functor] in *; subst c;
    destruct st; try discriminate Ht.
  - assert (state_ tc = kConnecting) as Hk.
    { unfold stage_of in Hst. destruct (state_ tc); try done. by repeat case_match. }
    destruct (up_ok s a c0 tc Ho Hk) as (tc' & E & Ho' & Hst').
    unfold establish. rewrite Hobj. cbn [mbind res_bind]. rewrite Z.eqb_refl, E. cbn [mbind res_bind].
    do 2 eexists. split; [done|]. specialize (Hph Up).
    split; [|split; [intros l'; symmetry; apply app_nil_r|done]].
    apply (inv_advance io w s _ s a c0 tc'); rewrite ?Hst'; try done; [apply table_frame_refl|].
    eapply proto_move; [done|done|apply Hq|intros l'; symmetry; apply app_nil_r|by apply polled_add].
  - assert (state_ tc = kDisconnected /\ in_table (Some s) c0 = true) as [Hk Hc].
    { unfold stage_of in Hst. destruct (state_ tc); try done. by repeat case_match. }
    destruct (removeConnectionInLoop_eq io w1 s c0) as (s' & E & Hs' & Hf & Hc'); [done..|].
    rewrite E. do 2 eexists. split; [done|].
    split.
    2:{ split; intros l'; [exact (functors_queue (setServer w1 (Some s')) _ _ l')|].
        exact (phase_queue (setServer w1 (Some s')) _ _ l'). }
    assert (removed tc = false) as Hr.
    { destruct (removed tc) eqn:Er; [|done]. apply (ob_removed _ _ _ _ Ho) in Er as [_ ?]. congruence. }
    assert (stage_of s' c0 tc = Closed) as Hst' by (by rewrite stage_down, Hc').
    apply (inv_advance io w s _ s' a c0 tc); rewrite ?Hst'; try done.
    + cbn. by rewrite insert_id.
    + destruct Ho. split; [by apply Hf|done|done|done|by rewrite Hr].
    + eapply proto_move; [done|done|apply Hq| |by eapply polled_same].
      intros l'. by apply (functors_move (setServer w1 (Some s')) Closed c0 (FDestroyed c0)).
    + intros l'. rewrite phase_queue. apply Hph.
  - assert (state_ tc = kDisconnected /\ in_table (Some s) c0 = false) as [Hk Hc].
    { unfold stage_of in Hst. destruct (state_ tc); try done. by repeat case_match. }
    destruct (destroyed_ok s a c0 tc Ho Hk Hc) as (tc' & E & Ho' & Hst').
    unfold destroy. rewrite Hobj. cbn [mbind res_bind]. rewrite Z.eqb_refl, E. cbn [mbind res_bind].
    do 2 eexists. split; [done|]. specialize (Hph Finished).
    split; [|split; [intros l'; symmetry; apply app_nil_r|done]].
    apply (inv_advance io w s _ s a c0 tc'); rewrite ?Hst'; try done; [apply table_frame_refl|].
    eapply proto_move; [done|done|apply Hq|intros l'; symmetry; apply app_nil_r|by apply polled_delete].
Qed.
(** *** Accepting *)

Lemma proto_add m q pol a c st q' pol' :
  proto_inv m q pol -> m !! a = None -> Server.conn_addr c = a ->
  (forall l, q' l = q l ++ in_queue st c l) ->
  (forall b, b ∈ pol' <-> if decide (b = a) then in_poller st = true else b ∈ pol) ->
  proto_inv (<[a := (c, st)]> m) q' pol'.
Proof.
  intros Hi Hm Ha Hq Hpol. apply (proto_new m q pol); [done..| | |done].
  - intros l f. by rewrite Hq, elem_of_app, in_queue_spec.
  - intros l. rewrite Hq. apply NoDup_app. split; [apply (p_nodup _ _ _ Hi)|]. split; [|apply in_queue_nodup].
    intros f Hf [Ht _]%in_queue_spec. destruct (p_functor _ _ _ Hi l f Hf) as (_ & st0 & Hst0 & _).
    rewrite (token_conn _ _ _ Ht) in Hst0. congruence.
Qed.

Lemma fresh_object s' c tc loop sockfd :
  new_connection loop sockfd wc hw mark = Ok tc -> c ∈ Server.established s' -> in_table (Some s') c = true ->
  object_ok s' (Server.conn_addr c) c tc /\ state_ tc = kConnecting.
Proof.
  intros E Hk Hc. pose proof (new_connection_inv _ _ _ _ _ _ E) as Hinv. injection E as <-. split; [|done].
  split; [done|by exists []|done|done|done].
Qed.

Lemma accept_step io w s addr sockfd :
  world_inv io w s -> objects w !! addr = None -> Server.server_op_ok s (Server.OpNew addr) ->
  exists w' s', accept base w addr sockfd = Ok w' /\ world_inv io w' s'.
Proof.
  intros Hi Hnone Hop. pose proof Hi as [H1 H2 H3 H4 H5 H6].
  destruct (new_exact io s addr H2 Hop) as (s' & c & E & Hs' & Hn & Hf & Hc & Hca & Hk).
  unfold accept. rewrite H1, Z.eqb_refl, E. cbn [mbind res_bind]. rewrite Hn.
  destruct (new_connection (Server.conn_loop c) sockfd wc hw mark) as [tc|] eqn:Enew; [|done].
  cbn [mbind res_bind]. unfold server_calls. rewrite Hn. cbn [perform].
  destruct (fresh_object s' c tc _ _ Enew Hk Hc) as [Ho Hst]. rewrite Hca in Ho.
  set (w1 := setServer (setObject w c tc) (Some s')).
  assert (stages s (objects w) !! addr = None) as Hm by (by rewrite lookup_stages, Hnone).
  assert (forall st, forall l, phase_ok (<[addr := (c, st)]> (stages s (objects w))) l (phase_ (loop_at w l))) as Hph.
  { intros st l. assert (forall b x, stages s (objects w) !! b = Some x -> addr <> b) as Hb by congruence.
    eapply phase_ok_mono; [| |apply H6].
    - intros b (c' & Hb' & Hl). exists c'. split; [|done]. rewrite lookup_insert_ne; eauto.
    - intros b c' st' Hb'. exists st'. rewrite lookup_insert_ne; eauto. }
  assert (addr ∉ polled w) as Hpol.
  { rewrite (p_polled _ _ _ H5). intros (? & ? & E' & _). congruence. }
  destruct (Z.eqb_spec base (Server.conn_loop c)) as [El|El].
  - destruct (up_ok s' addr c tc Ho Hst) as (tc' & E' & Ho' & Hst'). unfold establish.
    assert (object w1 c = Ok tc) as -> by (apply object_at; cbn; apply lookup_insert_eq).
    cbn [mbind res_bind]. rewrite El, Z.eqb_refl, E'. cbn [mbind res_bind]. do 2 eexists. split; [done|].
    apply (inv_advance io w s _ s' addr c tc'); rewrite ?Hst'; try done; [congruence|..].
    + cbn. by rewrite Hca, insert_insert_eq.
    + eapply (proto_add _ (functors w) (polled w)); [done|done|done|intros l; symmetry; apply app_nil_r|].
      cbn. rewrite Hca. by apply (polled_add _ _ Up).
  - do 2 eexists. split; [done|].
    assert (stage_of s' c tc = Starting) as Hst' by (unfold stage_of; by rewrite Hst).
    apply (inv_advance io w s _ s' addr c tc); rewrite ?Hst'; try done; [congruence|..].
    + cbn. by rewrite Hca.
    + eapply (proto_add _ (functors w) (polled w)); [done|done|done| |].
      * intros l. by apply (functors_move w1 Starting c (FEstablished c)).
      * intros b. cbn. case_decide; [|done]. subst b. done.
    + intros l. rewrite phase_queue. apply Hph.
Qed.

(** *** Handling channels *)

Lemma closers_handleEvent c r now :
  revents_ok r -> (closers (handleEvent (setRevents c r) now) <= 1)%nat.
Proof.
  unfold revents_ok, handleEvent, handleEventWithguard, closers, call_if. cbn [revents_ setRevents].
  destruct (has_event r POLLHUP && negb (has_event r POLLIN)) eqn:E1.
  - intros ->; [|done]. repeat case_match; cbn; lia.
  - intros _. repeat case_match; cbn; lia.
Qed.

Lemma reported_up io w s l x :
  world_inv io w s -> reported w l x -> up_in (stages s (objects w)) l x.1 /\ revents_ok x.2.
Proof.
  intros Hi (_ & Hr & Hobj). split; [|done].
  destruct (objects w !! x.1) as [[c tc]|] eqn:Ha; [|done]. destruct Hobj as [Hl Hev]. exists c. split; [|done].
  apply stages_some. exists tc. split; [done|]. apply stage_up.
  destruct (wi_objects _ _ _ Hi _ _ _ Ha) as [_ [acc Hc] _ _ _]. unfold isNoneEvent in Hev.
  destruct (state_ tc) eqn:E; try done.
  - rewrite (inv_disconnected _ _ Hc E) in Hev. done.
  - destruct (inv_connecting _ _ Hc E) as [_ E']. by rewrite E' in Hev.
Qed.

Lemma up_object io w s l a :
  world_inv io w s -> up_in (stages s (objects w)) l a ->
  exists c tc, objects w !! a = Some (c, tc) /\ Server.conn_loop c = l /\ is_up (state_ tc) = true.
Proof.
  intros Hi (c & Hm & Hl). apply stages_some in Hm as (tc & Ha & Hst). exists c, tc.
  split; [done|]. split; [done|]. by eapply stage_up.
Qed.

Lemma stage_same s c tc tc' :
  conn_sound tc tc' -> state_ tc' = state_ tc -> stage_of s c tc' = stage_of s c tc.
Proof. intros (_ & _ & Hr) Hs. unfold stage_of. by rewrite Hr, Hs. Qed.

Lemma callback_step io w s l a cb cbs active rv wr :
  world_inv io w s -> phase_ (loop_at w l) = PDispatch (Some (a, cb :: cbs)) active ->
  label_ok w (LCallback l rv wr) ->
  exists w' s', world_act w (LCallback l rv wr) = Ok w' /\ world_inv io w' s'.
Proof.
  intros Hi Hp Hok. cbn [label_ok world_act] in *. rewrite Hp in *.
  pose proof (wi_phases _ _ _ Hi l) as Hph. rewrite Hp in Hph.
  destruct Hph as (Hnd & Hact & Hn & (c & st & Hm & Hl) & Hcl & Hup).
  apply stages_some in Hm as (tc & Ha & Hst). rewrite Ha in *. subst l. rewrite Z.eqb_refl.
  pose proof (wi_objects _ _ _ Hi _ _ _ Ha) as Ho. pose proof Ho as [K1 [acc K2] K3 K4 K5].
  set (l := Server.conn_loop c) in *.
  set (w1 := setLoop w l (setPhase (loop_at w l) (PDispatch (Some (a, cbs)) active))).
  assert (closers (cb :: cbs) = (match cb with CbClose | CbRead _ => 1 | _ => 0 end) + closers cbs)%nat as Hcount
    by by destruct cb.
  assert (world_inv io w1 s) as Hi1.
  { apply inv_phase; [done|unfold todo; by rewrite Hp|]. split; [done|]. split; [done|]. split; [done|].
    split; [exists c, st; split; [|done]; apply stages_some; eauto|]. split; [lia|]. intros E. apply Hup. lia. }
  assert (match cb with CbClose | CbRead _ => True | _ => False end -> is_up (state_ tc) = true) as Hcup.
  { intros Hcb. destruct (up_object io w s l a Hi) as (c' & tc' & Ha' & _ & ?); [|congruence].
    apply Hup. destruct cb; (done || lia). }
  destruct (callback_ok acc tc cb rv wr) as (tc' & E & Hs & Hcase); [done|done| |done|].
  { destruct cb; [by apply Hcup|done|by apply Hcup|done]. }
  rewrite E. cbn [mbind res_bind]. unfold handled. fold (calls_close tc tc').
  destruct Hcase as [[Hst' ->]|(Hst' & Hu & -> & Hcb)].
  - do 2 eexists. split; [done|]. eapply inv_object; [done|exact Ha| |by apply stage_same].
    eapply object_ok_conn; [done..|by rewrite Hst'].
  - eapply close_step; [done|exact Ha|done..|]. unfold w1. rewrite loop_at_set, decide_True by done.
    intros [?|[_ ?]]; [done|]. cbn in *. destruct cb; (done || lia).
Qed.
(** *** Steps *)

Lemma app_step io w s c tc op :
  world_inv io w s -> object w c = Ok tc -> op_any tc op -> app_op op = true ->
  exists w' s', (tc ← conn_step tc op; Ok (setObject w c tc)) = Ok w' /\ world_inv io w' s'.
Proof.
  intros Hi E Hok Hop. apply object_inv in E as Ha. pose proof (wi_objects _ _ _ Hi _ _ _ Ha) as Ho.
  destruct (ob_conn _ _ _ _ Ho) as [acc Hacc].
  destruct (app_ok acc tc op Hacc (ob_calls _ _ _ _ Ho) Hok Hop) as (tc' & -> & Hs & Hst).
  cbn [mbind res_bind]. do 2 eexists. split; [done|]. eapply inv_object; [done|done| |].
  - eapply object_ok_conn; [done..|]. destruct Hst as [-> |[Hu ->]]; [done|].
    split; [done|]. intros E'. by rewrite E' in Hu.
  - destruct Hst as [Hst|[Hu Hst]]; [by apply stage_same|].
    apply (stage_up s c tc) in Hu as ->. apply stage_up. by rewrite Hst.
Qed.

Lemma world_step_ok io w s lb :
  world_inv io w s -> label_ok w lb -> exists w' s', world_act w lb = Ok w' /\ world_inv io w' s'.
Proof.
  intros Hi Hok. pose proof (fun l => wi_phases _ _ _ Hi l) as Hph.
  assert (exists w' s', Ok (A := world) w = Ok w' /\ world_inv io w' s') as Hid by eauto.
  destruct lb as [l active|l now|l rv wr|addr fd|l|l|l|c wr|c op|c|]; cbn [world_act].
  - destruct (phase_ (loop_at w l)) eqn:Hp; [|exact Hid..]. do 2 eexists. split; [done|].
    destruct Hok as [Hnd Hrep]. apply inv_phase; [done|unfold todo; by rewrite Hp|]. split; [done|].
    split; [|done]. eapply Forall_impl; [exact Hrep|]. intros x. by apply (reported_up io).
  - destruct (phase_ (loop_at w l)) as [|[|] [|[a r] active]|] eqn:Hp; try exact Hid.
    specialize (Hph l). rewrite Hp in Hph. destruct Hph as (Hnd & Hact & _).
    cbn in Hnd. apply NoDup_cons in Hnd as [Ha Hnd]. apply Forall_cons in Hact as [[Hup Hr] Hact].
    destruct (up_object io w s l a Hi Hup) as (c & tc & Hobj & _). unfold start_channel. rewrite Hobj.
    cbn [mbind res_bind]. do 2 eexists. split; [done|]. apply inv_phase; [done|unfold todo; by rewrite Hp|].
    split; [done|]. split; [done|]. split; [done|]. split; [|split; [by apply closers_handleEvent|done]].
    destruct Hup as (c' & Hm & Hl). eauto.
  - destruct (phase_ (loop_at w l)) as [|[[a [|cb cbs]]|] active|] eqn:Hp; try exact Hid.
    + do 2 eexists. split; [done|]. specialize (Hph l). rewrite Hp in Hph. destruct Hph as (? & ? & _).
      apply inv_phase; [done|unfold todo; by rewrite Hp|]. by split.
    + destruct (callback_step io w s l a cb cbs active rv wr Hi Hp Hok) as (w' & s' & E & Hi').
      cbn [world_act] in E. rewrite Hp in E. eauto.
  - destruct (phase_ (loop_at w base)) as [|[|] ?|]; try exact Hid. destruct Hok as [Hn Hs].
    rewrite (wi_alive _ _ _ Hi) in Hs. by apply (accept_step io w s).
  - destruct (phase_ (loop_at w l)) as [|[|] [|]|] eqn:Hp; try exact Hid. do 2 eexists. split; [done|].
    apply inv_loop; [done| |done]. unfold functors, functors_of, todo. cbn. by rewrite Hp, app_nil_r.
  - destruct (phase_ (loop_at w l)) as [| |fs0 [|f fs]] eqn:Hp; try exact Hid.
    destruct (functor_step io w s l fs0 f fs Hi Hp) as (w' & s' & ? & ? & _). eauto.
  - destruct (phase_ (loop_at w l)) as [| |fs0 [|f fs]] eqn:Hp; try exact Hid. do 2 eexists. split; [done|].
    apply inv_phase; [done|unfold todo; by rewrite Hp|done].
  - destruct (phase_ (loop_at w _)); try exact Hid. cbn [label_ok] in Hok.
    destruct (object w c) as [tc|] eqn:E; [|done].
    cbn [mbind res_bind]. apply object_inv in E as Ha. pose proof (wi_objects _ _ _ Hi _ _ _ Ha) as Ho.
    destruct (ob_conn _ _ _ _ Ho) as [acc Hacc].
    destruct (own_ok acc tc wr Hacc (ob_calls _ _ _ _ Ho) Hok) as (tc' & -> & Hs & Hst).
    cbn [mbind res_bind]. do 2 eexists. split; [done|]. eapply inv_object; [done|done| |by apply stage_same].
    eapply object_ok_conn; [done..|by rewrite Hst].
  - assert (exists w' s', (tc ← object w c; tc ← conn_step tc op; Ok (setObject w c tc)) = Ok w' /\
      world_inv io w' s') as Happ; [|by destruct (phase_ (loop_at w _)), (from_thread op)].
    cbn [label_ok] in Hok. destruct (object w c) as [tc|] eqn:E; [|done]. destruct Hok as [Hop Hok].
    by apply (app_step io w s c tc op).
  - destruct (phase_ (loop_at w _)) as [|[|] ?|]; try exact Hid.
    unfold weak_call. destruct (object w c) as [tc|] eqn:E; [|exact Hid].
    by apply (app_step io w s c tc OpForceClose).
  - destruct Hok.
Qed.

Definition objects_held (w : world) : Prop :=
  forall a c tc, objects w !! a = Some (c, tc) -> held w c tc = true.

Lemma run_ok io lbs : forall w s,
  world_inv io w s -> objects_held w -> labels_ok w lbs ->
  exists w' s', world_run w lbs = Ok w' /\ world_inv io w' s' /\ objects_held w'.
Proof.
  induction lbs as [|lb lbs IH]; intros w s Hi Hh Hok; cbn [world_run]; [by exists w, s|].
  destruct Hok as [Hlb Hok]. destruct (world_step_ok io w s lb Hi Hlb) as (w1 & s1 & E & Hi1).
  unfold world_step in *. rewrite E in *. cbn [mbind res_bind] in *.
  apply (IH _ s1); [by apply collect_inv| |done].
  intros a c tc [_ Ha]%collect_lookup. exact Ha.
Qed.

(** The process when a server has started. *)
Definition started_world (hostport name : bytes) (io : list Z) : world :=
  mkWorld (Some (Server.started_server base hostport name io)) ∅ ∅ ∅.

Lemma started_world_inv hostport name io :
  world_inv io (started_world hostport name io) (Server.started_server base hostport name io).
Proof.
  split; try done.
  - apply Server.started_inv.
  - split; try done.
    + intros l f Hf. by apply not_elem_of_nil in Hf.
    + intros l. constructor.
    + intros a. split; [by intros ?%not_elem_of_empty|]. by intros (? & ? & ? & _).
Qed.

(** Every loop waits in [poll], with nothing left to run. *)
Definition idle (w : world) : Prop :=
  (forall l, loop_at w l = mkLoop [] PPoll) /\
  (forall a c tc, objects w !! a = Some (c, tc) -> queued tc = []).

Lemma idle_up io w s a c tc :
  world_inv io w s -> objects_held w -> (forall l, loop_at w l = mkLoop [] PPoll) ->
  objects w !! a = Some (c, tc) -> queued tc = [] ->
  in_table (Some s) c = true /\ is_up (state_ tc) = true /\ a ∈ polled w.
Proof.
  intros Hi Hh Hl Ha Hq. pose proof (wi_proto _ _ _ Hi) as Hp.
  assert (stages s (objects w) !! a = Some (c, stage_of s c tc)) as Hm by (apply stages_some; eauto).
  assert (token (stage_of s c tc) c = None) as Ht.
  { destruct (token _ c) as [f|] eqn:E; [|done].
    pose proof (p_token _ _ _ Hp _ _ _ _ Hm E) as Hin. cbn in Hin. rewrite Hl in Hin. by apply not_elem_of_nil in Hin. }
  assert (in_table (Some s) c = true) as Hc.
  { pose proof (Hh _ _ _ Ha) as H. unfold held in H. rewrite (wi_alive _ _ _ Hi), Hq in H.
    cbn [existsb] in H. rewrite orb_false_r in H.
    apply orb_true_iff in H as [H|H]; [done|]. apply existsb_exists in H as ([l ls] & Hin & H).
    apply list_elem_of_In, elem_of_map_to_list in Hin. specialize (Hl l). unfold loop_at in Hl.
    rewrite Hin in Hl. cbn in Hl, H. subst. done. }
  split; [done|]. assert (is_up (state_ tc) = true) as Hu.
  { unfold stage_of in Ht. rewrite Hc in Ht. by destruct (state_ tc). }
  split; [done|]. apply (p_polled _ _ _ Hp). exists c, Up. split; [|done].
  rewrite Hm. by apply (stage_up s c tc) in Hu as ->.
Qed.

(** *** Turns of the loops in which nothing happens *)

(** A loop's turn without events. *)
Definition turn (w : world) (l : Z) : list label :=
  LPoll l [] :: LSwap l :: repeat (LFunctor l) (length (pending (loop_at w l))) ++ [LLoop l].

Definition quiet_label (lb : label) : bool :=
  match lb with LPoll _ [] | LSwap _ | LFunctor _ | LLoop _ => true | _ => false end.

(** All loops are in [poll]. *)
Definition resting (w : world) : Prop := forall l, phase_ (loop_at w l) = PPoll.

Lemma world_run_app w lbs1 lbs2 w1 :
  world_run w lbs1 = Ok w1 -> world_run w (lbs1 ++ lbs2) = world_run w1 lbs2.
Proof.
  revert w. induction lbs1 as [|lb lbs1 IH]; intros w; cbn [world_run app]; [by intros [= ->]|].
  destruct (world_step w lb) as [w2|]; [apply IH|done].
Qed.

Lemma quiet_step io w s lb w' :
  world_inv io w s -> quiet_label lb = true -> world_act w lb = Ok w' ->
  world_step w lb = Ok (collect w') /\ exists s', world_inv io (collect w') s'.
Proof.
  intros Hi Hq E. unfold world_step. rewrite E. split; [done|].
  destruct (world_step_ok io w s lb Hi) as (w1 & s1 & E1 & Hi1).
  { destruct lb as [l [|]|l now|l rv wr|addr fd|l|l|l|c wr|c op|c|]; try done. cbn. split; constructor. }
  rewrite E in E1. injection E1 as <-. exists s1. by apply collect_inv.
Qed.

Lemma functors_pending w l : functors w l = todo (loop_at w l) ++ pending (loop_at w l).
Proof. done. Qed.

Lemma run_todo io l fs : forall w s fs0,
  world_inv io w s -> phase_ (loop_at w l) = PRun fs0 fs ->
  exists w' s', world_run w (repeat (LFunctor l) (length fs)) = Ok w' /\ world_inv io w' s' /\
    phase_ (loop_at w' l) = PRun (fs0 ++ fs) [] /\
    (forall l', l' <> l -> phase_ (loop_at w' l') = phase_ (loop_at w l')) /\
    forall l', functors w' l' =
      (if decide (l' = l) then pending (loop_at w l) else functors w l') ++ concat (map (pushes l') fs).
Proof.
  induction fs as [|f fs IH]; intros w s fs0 Hi Hp; cbn [length repeat world_run].
  - exists w, s. split; [done|]. split; [done|]. split; [by rewrite app_nil_r|]. split; [done|]. intros l'.
    rewrite app_nil_r. case_decide; [subst|done]. rewrite functors_pending. unfold todo. by rewrite Hp.
  - destruct (functor_step io w s l fs0 f fs Hi Hp) as (w1 & s1 & E & _ & Hq & Hph).
    destruct (quiet_step io w s (LFunctor l) w1 Hi) as (-> & s2 & Hi2); [done|cbn [world_act]; by rewrite Hp|].
    cbn [mbind res_bind].
    assert (forall l', functors (popped w l fs0 fs f) l' =
      if decide (l' = l) then fs ++ pending (loop_at w l) else functors w l') as Hpop.
    { intros l'. unfold functors, popped. rewrite loop_at_set. by case_decide. }
    assert (phase_ (loop_at w1 l) = PRun (fs0 ++ [f]) fs) as Hp1.
    { rewrite Hph. unfold popped. by rewrite loop_at_set, decide_True. }
    destruct (IH (collect w1) s2 (fs0 ++ [f]) Hi2 Hp1) as (w' & s' & -> & Hi' & Hp' & Hph' & Hq').
    exists w', s'. split; [done|]. split; [done|]. split; [by rewrite <- app_assoc in Hp'|]. split.
    + intros l' Hl. rewrite Hph' by done. change (loop_at (collect w1) l') with (loop_at w1 l').
      rewrite Hph. unfold popped. by rewrite loop_at_set, decide_False.
    + intros l'. rewrite Hq'. cbn [map concat]. rewrite app_assoc. f_equal.
      change (functors (collect w1) l') with (functors w1 l').
      change (loop_at (collect w1) l) with (loop_at w1 l). specialize (Hq l'). rewrite Hpop in Hq.
      case_decide; [subst l'|done]. rewrite functors_pending in Hq. unfold todo in Hq. rewrite Hp1 in Hq.
      rewrite <- app_assoc in Hq. by apply app_inv_head in Hq.
Qed.

Lemma turn_ok io w s l :
  world_inv io w s -> resting w ->
  exists w' s', world_run w (turn w l) = Ok w' /\ world_inv io w' s' /\ resting w' /\ objects_held w' /\
    forall l', functors w' l' =
      (if decide (l' = l) then [] else functors w l') ++ concat (map (pushes l') (functors w l)).
Proof.
  intros Hi Hr. unfold turn. cbn [world_run].
  set (w1 := setLoop w l (setPhase (loop_at w l) (PDispatch None []))).
  destruct (quiet_step io w s (LPoll l []) w1 Hi) as (-> & s1 & Hi1); [done|cbn [world_act]; by rewrite Hr|].
  cbn [mbind res_bind].
  assert (loop_at (collect w1) l = setPhase (loop_at w l) (PDispatch None [])) as Hl1.
  { change (loop_at (collect w1) l) with (loop_at w1 l). unfold w1. by rewrite loop_at_set, decide_True. }
  set (w2 := setLoop (collect w1) l (mkLoop [] (PRun [] (pending (loop_at w l))))).
  destruct (quiet_step io (collect w1) s1 (LSwap l) w2 Hi1) as (-> & s2 & Hi2);
    [done|cbn [world_act]; by rewrite Hl1|]. cbn [mbind res_bind].
  assert (forall l', loop_at (collect w2) l' =
    if decide (l' = l) then mkLoop [] (PRun [] (pending (loop_at w l))) else loop_at w l') as Hl2.
  { intros l'. change (loop_at (collect w2) l') with (loop_at w2 l'). unfold w2. rewrite loop_at_set.
    case_decide; [done|]. change (loop_at (collect w1) l') with (loop_at w1 l'). unfold w1.
    by rewrite loop_at_set, decide_False. }
  assert (functors w l = pending (loop_at w l)) as Hfl.
  { rewrite functors_pending. unfold todo. by rewrite Hr. }
  destruct (run_todo io l (pending (loop_at w l)) (collect w2) s2 []) as (w3 & s3 & E3 & Hi3 & Hp3 & Hph3 & Hq3);
    [done|by rewrite Hl2, decide_True|].
  rewrite (world_run_app _ _ _ w3 E3). cbn [world_run].
  set (w4 := setLoop w3 l (setPhase (loop_at w3 l) PPoll)).
  destruct (quiet_step io w3 s3 (LLoop l) w4 Hi3) as (-> & s4 & Hi4); [done|cbn [world_act]; by rewrite Hp3|].
  cbn [mbind res_bind]. exists (collect w4), s4. split; [done|]. split; [done|]. split; [|split].
  - intros l'. change (loop_at (collect w4) l') with (loop_at w4 l'). unfold w4. rewrite loop_at_set.
    case_decide as E; [done|]. by rewrite Hph3, Hl2, decide_False, Hr by done.
  - intros a c tc [_ Ha]%collect_lookup. exact Ha.
  - intros l'. rewrite Hfl. change (functors (collect w4) l') with (functors w4 l').
    transitivity (functors w3 l').
    + unfold w4, functors. rewrite loop_at_set. case_decide as E; [subst l'|done].
      unfold functors_of, todo. by rewrite Hp3.
    + rewrite Hq3, Hl2, (decide_True (P := l = l)) by done. cbn [pending]. f_equal. case_decide; [done|].
      unfold functors. by rewrite Hl2, decide_False.
Qed.

Definition removes (f : functor) : bool := match f with FRemove _ => true | _ => false end.

Lemma no_pushes l fs : forallb (fun f => negb (removes f)) fs = true -> concat (map (pushes l) fs) = [].
Proof. induction fs as [|[] fs IH]; cbn; try done. Qed.

Lemma pushes_no_removes l fs : forallb (fun f => negb (removes f)) (concat (map (pushes l) fs)) = true.
Proof.
  induction fs as [|f fs IH]; cbn [map concat]; [done|]. rewrite forallb_app, IH, andb_true_r.
  destruct f; cbn; try done. by case_decide.
Qed.

(** Turns of several loops, none of which closes connections. *)
Lemma turns_ok io (ls : list Z) : forall w s,
  world_inv io w s -> resting w -> objects_held w ->
  (forall l, forallb (fun f => negb (removes f)) (functors w l) = true) ->
  exists lbs w' s', forallb quiet_label lbs = true /\ world_run w lbs = Ok w' /\ world_inv io w' s' /\
    resting w' /\ objects_held w' /\ forall l, functors w' l = if decide (l ∈ ls) then [] else functors w l.
Proof.
  induction ls as [|l ls IH]; intros w s Hi Hr Hh Hf.
  - exists [], w, s. split; [done|]. split; [done|]. split; [done|]. split; [done|]. split; [done|].
    intros l. rewrite decide_False; [done|]. apply not_elem_of_nil.
  - destruct (turn_ok io w s l Hi Hr) as (w1 & s1 & E1 & Hi1 & Hr1 & Hh1 & Hq1).
    assert (forall l', functors w1 l' = if decide (l' = l) then [] else functors w l') as Hq1'.
    { intros l'. by rewrite Hq1, no_pushes, app_nil_r. }
    destruct (IH w1 s1 Hi1 Hr1 Hh1) as (lbs & w' & s' & Hq & E & Hi' & Hr' & Hh' & Hf').
    { intros l'. rewrite Hq1'. by case_decide. }
    exists (turn w l ++ lbs), w', s'. split.
    { rewrite forallb_app, Hq, andb_true_r. unfold turn. cbn. rewrite forallb_app. cbn. rewrite andb_true_r.
      apply forallb_forall. intros x Hx. by apply repeat_spec in Hx as ->. }
    split; [by rewrite (world_run_app _ _ _ _ E1)|]. split; [done|]. split; [done|]. split; [done|].
    intros l'. rewrite Hf', Hq1'. destruct (decide (l' ∈ ls)) as [H1|H1]; [by rewrite decide_True by by right|].
    destruct (decide (l' = l)) as [->|H2]; [by rewrite decide_True by by left|].
    rewrite decide_False; [done|]. by intros [?|?]%elem_of_cons.
Qed.

Lemma drain_ok io w s :
  world_inv io w s -> resting w ->
  exists lbs w' s', forallb quiet_label lbs = true /\ world_run w lbs = Ok w' /\ world_inv io w' s' /\
    resting w' /\ objects_held w' /\ forall l, functors w' l = [].
Proof.
  intros Hi Hr. destruct (turn_ok io w s base Hi Hr) as (w1 & s1 & E1 & Hi1 & Hr1 & Hh1 & Hq1).
  assert (forall l, forallb (fun f => negb (removes f)) (functors w1 l) = true) as Hn1.
  { intros l. rewrite Hq1, forallb_app, pushes_no_removes, andb_true_r. case_decide as El; [done|].
    apply forallb_forall. intros f Hf%list_elem_of_In.
    destruct (p_functor _ _ _ (wi_proto _ _ _ Hi) l f Hf) as [Hl _]. by destruct f. }
  destruct (turns_ok io (elements (dom (loops w1))) w1 s1 Hi1 Hr1 Hh1 Hn1)
    as (lbs & w' & s' & Hq & E & Hi' & Hr' & Hh' & Hf').
  exists (turn w base ++ lbs), w', s'. split.
  { rewrite forallb_app, Hq, andb_true_r. unfold turn. cbn. rewrite forallb_app. cbn. rewrite andb_true_r.
    apply forallb_forall. intros x Hx. by apply repeat_spec in Hx as ->. }
  split; [by rewrite (world_run_app _ _ _ _ E1)|]. split; [done|]. split; [done|]. split; [done|].
  intros l. rewrite Hf'. case_decide as Hd; [done|]. unfold functors, loop_at.
  rewrite elem_of_elements, not_elem_of_dom in Hd. by rewrite Hd.
Qed.

Lemma quiet_labels_ok lbs : forall w, forallb quiet_label lbs = true -> labels_ok w lbs.
Proof.
  induction lbs as [|lb lbs IH]; intros w; [done|]. cbn [forallb labels_ok].
  intros [Hq Hqs]%andb_true_iff. split; [|destruct (world_step w lb); [by apply IH|done]].
  destruct lb as [l [|]|l now|l rv wr|addr fd|l|l|l|c wr|c op|c|]; try done. split; constructor.
Qed.

Lemma resting_idle w : resting w -> (forall l, functors w l = []) -> forall l, loop_at w l = mkLoop [] PPoll.
Proof.
  intros Hr Hf l. specialize (Hr l). specialize (Hf l). rewrite functors_pending in Hf.
  apply app_nil in Hf as [_ Hp]. destruct (loop_at w l) as [pd ph]. cbn in *. by subst.
Qed.
End Steps.

(** ** Properties *)

(** C4: a server in a process of several loops, for every schedule of what its
    threads do: no assertion fails and nothing that has been destroyed is used;
    every channel a poller points to belongs to a connection that exists, and so
    do the connections of the server's table and those whose functors are still
    to run; the callbacks of every connection come in their order; and when the
    loops have nothing left to run, the connections that exist are those of the
    table, they are up, and their channels are in the pollers.
    A schedule interleaves the turns of the loops with accepted connections,
    system calls of any results (direct writes that take any part of a message
    included), the application's sends, shutdowns and forced closes in
    callbacks and in other threads, and its timers.  What [labels_ok] leaves
    out: a poller reports each channel once, for an interest, and does not
    report [POLLHUP] without [POLLIN] together with [POLLPRI] or [POLLRDHUP]
    (see [hangup_twice]); the connection names fit their buffer (see
    [long_names_collide]); [shutdown] is called on a connection that is up; a
    thread tests [state_] and queues its functor in one step, so that the plain
    pointer in the functor is queued before [connectionDestroyed]; buffers stay
    below the maximal size; and the server is not destroyed (see
    [server_dtor_dangling]). *)
Theorem server_lifetime base hostport name io wc hw mark lbs :
  labels_ok base wc hw mark (started_world base hostport name io) lbs ->
  exists w s, world_run base wc hw mark (started_world base hostport name io) lbs = Ok w /\
    server w = Some s /\
    (forall a, a ∈ polled w -> exists c tc, objects w !! a = Some (c, tc) /\ removed tc = false) /\
    (forall nm c, Server.connections_ s !! nm = Some c -> is_ok (object w c) = true) /\
    (forall l f, f ∈ functors w l -> is_ok (object w (functor_conn f)) = true) /\
    (forall a c tc, objects w !! a = Some (c, tc) ->
       List.filter is_life (TcpConnection.events_ tc) = life_calls (state_ tc)) /\
    (idle w -> forall a c tc, objects w !! a = Some (c, tc) ->
       in_table (Some s) c = true /\ is_up (state_ tc) = true /\ a ∈ polled w).
Proof.
  intros Hok.
  destruct (run_ok base wc hw mark io lbs _ _ (started_world_inv base hostport name io)) as (w & s & E & Hi & Hh);
    [done|done|].
  exists w, s. split; [done|]. split; [by apply Hi|]. split; [|split; [|split; [|split]]].
  - intros a (c & st & Hm & Hst)%(p_polled _ _ _ _ (wi_proto _ _ _ _ Hi)).
    apply stages_some in Hm as (tc & Ha & Hs). exists c, tc. split; [done|].
    destruct (removed tc) eqn:Er; [|done].
    destruct (ob_removed _ _ _ _ (wi_objects _ _ _ _ Hi _ _ _ Ha) Er) as [Hd Ht].
    unfold stage_of in Hs. rewrite Hd, Ht, Er in Hs. by subst.
  - intros nm c Hn. destruct (wi_table _ _ _ _ Hi nm c Hn) as [tc Htc]. by rewrite (object_at _ _ _ Htc).
  - intros l f Hf. destruct (p_functor _ _ _ _ (wi_proto _ _ _ _ Hi) l f Hf) as (_ & st & Hm & _).
    apply stages_some in Hm as (tc & Ha & _). by rewrite (object_at _ _ _ Ha).
  - intros a c tc Ha. apply (wi_objects _ _ _ _ Hi _ _ _ Ha).
  - intros [Hl Hq] a c tc Ha. eapply idle_up; eauto.
Qed.

(** C5: what is down is reclaimed: whenever all loops of a server are in [poll],
    turns of the loops without new events, of which there always are some, leave
    no connections but those of the table, which are up and polled, and those
    that have still to run functors of their own. *)
Theorem server_reclaims base hostport name io wc hw mark lbs :
  labels_ok base wc hw mark (started_world base hostport name io) lbs ->
  exists w, world_run base wc hw mark (started_world base hostport name io) lbs = Ok w /\
    (resting w ->
     exists lbs' w' s, forallb quiet_label lbs' = true /\ labels_ok base wc hw mark w lbs' /\
       world_run base wc hw mark w lbs' = Ok w' /\ server w' = Some s /\
       forall a c tc, objects w' !! a = Some (c, tc) -> queued tc = [] ->
         in_table (Some s) c = true /\ is_up (state_ tc) = true /\ a ∈ polled w').
Proof.
  intros Hok.
  destruct (run_ok base wc hw mark io lbs _ _ (started_world_inv base hostport name io)) as (w & s & E & Hi & Hh);
    [done|done|].
  exists w. split; [done|]. intros Hr.
  destruct (drain_ok base wc hw mark io w s Hi Hr) as (lbs' & w' & s' & Hq & E' & Hi' & Hr' & Hh' & Hf').
  exists lbs', w', s'. split; [done|]. split; [by apply quiet_labels_ok|]. split; [done|].
  split; [by apply Hi'|]. intros a c tc Ha Hqd. eapply idle_up; [done|done| |done|done].
  by apply resting_idle.
Qed.

(** ** Witnesses *)

#[global] Instance revents_ok_dec r : Decision (revents_ok r).
Proof. unfold revents_ok. apply _. Defined.
#[global] Instance reported_dec w l x : Decision (reported w l x).
Proof. unfold reported. destruct (objects w !! x.1) as [[c tc]|]; apply _. Defined.
#[global] Instance io_ok_dec tc cb rv wr : Decision (io_ok tc cb rv wr).
Proof. destruct cb; unfold io_ok; apply _. Defined.
#[global] Instance label_ok_dec w lb : Decision (label_ok w lb).
Proof.
  destruct lb; cbn [label_ok]; try apply _.
  - destruct (phase_ _) as [|[[? [|? ?]]|] ?|]; try apply _. destruct (objects w !! _) as [[? ?]|]; apply _.
  - destruct (server w) as [s|]; [unfold Server.server_op_ok|]; apply _.
  - destruct (object w c); apply _.
  - destruct (object w c); apply _.
Defined.

Fixpoint labels_okb (base : Z) (wc hw : bool) (mark : Z) (w : world) (lbs : list label) : bool :=
  match lbs with
  | [] => true
  | lb :: lbs =>
      bool_decide (label_ok w lb) &&
      match world_step base wc hw mark w lb with
      | Ok w => labels_okb base wc hw mark w lbs
      | Err _ => true
      end
  end.

Lemma labels_okb_ok base wc hw mark lbs : forall w,
  labels_okb base wc hw mark w lbs = true -> labels_ok base wc hw mark w lbs.
Proof.
  induction lbs as [|lb lbs IH]; intros w; cbn; [done|]. rewrite andb_true_iff, bool_decide_eq_true.
  intros [H1 H2]. split; [done|]. destruct (world_step _ _ _ _ w lb); [by apply IH|done].
Qed.

Definition demo_conn (addr k loop : Z) : Server.conn :=
  Server.mkConn addr (lit "srv" ++ Server.full_suffix (lit "127.0.0.1:80") k) loop.

(** The server in loop 1, its connections in loop 7: two are accepted, and the
    application writes to the first, in its loop and from another thread. *)
Definition demo_up : list label :=
  [LPoll 1 []; LAccept 100 5; LAccept 101 6; LPoll 7 []; LSwap 7; LFunctor 7; LFunctor 7; LLoop 7;
   LPoll 7 [(100, POLLIN); (101, POLLIN)]; LApp (demo_conn 100 1 7) (OpSend (lit "hi") (WriteOk 2));
   LApp (demo_conn 100 1 7) (OpSendFromThread (lit "yo"))].

(** The peer of the first closes; the loops take it down. *)
Definition demo_down : list label :=
  [LChannel 7 0; LCallback 7 (ReadvOk [] []) (WriteOk 0); LCallback 7 (ReadvOk [] []) (WriteOk 0);
   LSwap 1; LFunctor 1; LLoop 1;
   LChannel 7 0; LCallback 7 (ReadvOk (lit "x") []) (WriteOk 0); LCallback 7 (ReadvOk [] []) (WriteOk 0);
   LSwap 7; LOwn (demo_conn 100 1 7) (WriteOk 0); LOwn (demo_conn 100 1 7) (WriteOk 0); LFunctor 7; LLoop 7].

Definition demo_world : world := started_world 1 (lit "127.0.0.1:80") (lit "srv") [7].
Definition demo_run (lbs : list label) : res world := world_run 1 true false 0 demo_world lbs.

Example demo_run_idle :
  match demo_run (demo_up ++ demo_down) with
  | Ok w => bool_decide (elements (polled w) = [101] /\ (map_to_list (objects w)).*1 = [101] /\
                         phase_ (loop_at w 1) = PPoll /\ phase_ (loop_at w 7) = PPoll)
  | Err _ => false
  end = true.
Proof. vm_compute. reflexivity. Qed.

Lemma server_lifetime_witness :
  let w0 := started_world 1 (lit "127.0.0.1:80") (lit "srv") [7] in
  exists w s, world_run 1 true false 0 w0 (demo_up ++ demo_down) = Ok w /\
    server w = Some s /\
    (forall a, a ∈ polled w -> exists c tc, objects w !! a = Some (c, tc) /\ removed tc = false) /\
    (forall nm c, Server.connections_ s !! nm = Some c -> is_ok (object w c) = true) /\
    (forall l f, f ∈ functors w l -> is_ok (object w (functor_conn f)) = true) /\
    (forall a c tc, objects w !! a = Some (c, tc) ->
       List.filter is_life (TcpConnection.events_ tc) = life_calls (state_ tc)) /\
    (idle w -> forall a c tc, objects w !! a = Some (c, tc) ->
       in_table (Some s) c = true /\ is_up (state_ tc) = true /\ a ∈ polled w).
Proof.
  apply (server_lifetime 1 (lit "127.0.0.1:80") (lit "srv") [7] true false 0).
  apply labels_okb_ok. vm_compute. reflexivity.
Defined.

(** The peer of the first connection closes, and nothing else happens. *)
Definition demo_closed : list label :=
  take 9 demo_up ++
  [LSwap 1; LLoop 1;
   LChannel 7 0; LCallback 7 (ReadvOk [] []) (WriteOk 0); LCallback 7 (ReadvOk [] []) (WriteOk 0);
   LChannel 7 0; LCallback 7 (ReadvErr EWOULDBLOCK) (WriteOk 0); LCallback 7 (ReadvErr EWOULDBLOCK) (WriteOk 0);
   LSwap 7; LLoop 7].

(** The loops are in [poll]; the base loop is to take the connection out. *)
Example demo_closed_rests :
  match demo_run demo_closed with
  | Ok w => bool_decide ((map_to_list (loops w)).*2 = [mkLoop [] PPoll; mkLoop [FRemove (demo_conn 100 1 7)] PPoll])
  | Err _ => false
  end = true.
Proof. vm_compute. reflexivity. Qed.

Lemma server_reclaims_witness :
  let w0 := started_world 1 (lit "127.0.0.1:80") (lit "srv") [7] in
  exists w, world_run 1 true false 0 w0 demo_closed = Ok w /\
    (resting w ->
     exists lbs' w' s, forallb quiet_label lbs' = true /\ labels_ok 1 true false 0 w lbs' /\
       world_run 1 true false 0 w lbs' = Ok w' /\ server w' = Some s /\
       forall a c tc, objects w' !! a = Some (c, tc) -> queued tc = [] ->
         in_table (Some s) c = true /\ is_up (state_ tc) = true /\ a ∈ polled w').
Proof.
  apply (server_reclaims 1 (lit "127.0.0.1:80") (lit "srv") [7] true false 0).
  apply labels_okb_ok. vm_compute. reflexivity.
Defined.

(** ** The destructor

    A connection that closes in its loop after the server is gone calls
    [removeConnection] of an object that no longer exists; so does a
    [removeConnectionInLoop] that is still queued. *)
Example server_dtor_dangling :
  demo_run (demo_up ++ [LChannel 7 0; LDtor; LCallback 7 (ReadvOk [] []) (WriteOk 0)]) = Err UseAfterFree /\
  demo_run (demo_up ++ [LChannel 7 0; LCallback 7 (ReadvOk [] []) (WriteOk 0); LDtor; LSwap 1; LFunctor 1])
    = Err UseAfterFree.
Proof. split; vm_compute; reflexivity. Qed.

(** A hang-up that comes with something to read, but not with [POLLIN], closes
    the connection twice, which an assertion catches. *)
Example hangup_twice :
  demo_run (take 8 demo_up ++
    [LPoll 7 [(100, Z.lor POLLHUP POLLRDHUP)]; LChannel 7 0; LCallback 7 (ReadvOk [] []) (WriteOk 0);
     LCallback 7 (ReadvOk [] []) (WriteOk 0)]) = Err AssertFail.
Proof. vm_compute. reflexivity. Qed.
