(* ===== verification/HttpWorld.v ===== *)
(** * The whole HTTP server: HttpServer over TcpServer, its connections, its
      loops and its clients

    [HttpServer] installs its connection and message callbacks in a [TcpServer];
    this file runs them in the process of ServerLife.v, where the threads of the
    server's loops interleave.  Every connection has a client with a list of
    requests to send; the network delivers them in pieces.  What holds of one
    session (HttpSession.v) is shown of every connection of the process. *)

From S2P Require Import Prelude StdContainers Buffer BufferSpec Channel Poller HttpRequest HttpContext.
From S2P Require Import TcpServer TcpConnection HttpSession ServerLife.
From S2P Require HttpResponse HttpServer.
Import HttpServer(conn_call, CallSend, CallShutdown, onMessage, responses_fit, defaultHttpCallback).
Import HttpResponse(HttpResponse, HttpResponse_ctor, render_response, isCloseConnection).

(** ** The server object

    The callbacks on connections and messages that its constructor installs in
    [server_] are always those of this file. *)
Record HttpServer := mkServer {
  server_ : Server.TcpServer;
  httpCallback_ : HttpRequest -> HttpResponse -> HttpResponse
}.

Definition HttpServer_ctor (loop : Z) (hostport name : bytes) : HttpServer :=
  mkServer (Server.TcpServer_ctor loop hostport name) defaultHttpCallback.

Definition setHttpCallback (s : HttpServer) (cb : HttpRequest -> HttpResponse -> HttpResponse) : HttpServer :=
  mkServer (server_ s) cb.

Definition setThreadNum (s : HttpServer) (numThreads : Z) : res HttpServer :=
  t ← Server.setThreadNum (server_ s) numThreads; Ok (mkServer t (httpCallback_ s)).

(** No thread-init callback is ever set. *)
Definition start (in_loop : bool) (s : HttpServer) (new_loops : nat -> Z) : res HttpServer :=
  t ← Server.start in_loop (server_ s) false new_loops; Ok (mkServer t (httpCallback_ s)).

(** ** The process *)

(** [contexts] are the contexts of the connections that exist, by address;
    [clients] what the client of each has still to send: requests, and how much
    of the first one has arrived. *)
Record http_world := mkHttpWorld {
  world_ : world;
  contexts : gmap Z (option HttpContext);
  clients : gmap Z (list wire_request * bytes)
}.

Section Http.
Context (cb : HttpRequest -> HttpResponse -> HttpResponse) (base : Z).
(** What the client of a connection sends. *)
Context (requests : Server.conn -> list wire_request).

(** The callbacks of the server on connections: no write-complete and no
    high-water-mark callback; the default mark. *)
Definition kMark : Z := 64 * 1024 * 1024.
Abbreviation step_world := (world_step base false false kMark).
Abbreviation act := (world_act base false false kMark).

(** The calls of the connection callback a connection has made since it had
    made those in [old]. *)
Definition connection_calls (old new : list conn_event) (context : option HttpContext) : option HttpContext :=
  foldl (fun context e =>
    match e with EvConnection up => HttpServer.onConnection up context | _ => context end)
    context (drop (length old) new).

Definition context_of (hw : http_world) (a : Z) : option HttpContext := default None (contexts hw !! a).
Definition client_of (hw : http_world) (a : Z) : list wire_request * bytes := default ([], []) (clients hw !! a).

(** The contexts after a step of the process to [w]. *)
Definition next_contexts (hw : http_world) (w : world) : gmap Z (option HttpContext) :=
  map_imap (fun a x => Some
    match objects (world_ hw) !! a with
    | Some y => connection_calls (TcpConnection.events_ y.2) (TcpConnection.events_ x.2) (context_of hw a)
    | None => connection_calls [] (TcpConnection.events_ x.2) None
    end) (objects w).

(** A new connection has a client that has sent nothing. *)
Definition next_clients (hw : http_world) (w : world) : gmap Z (list wire_request * bytes) :=
  map_imap (fun a x => Some
    match objects (world_ hw) !! a with Some _ => client_of hw a | None => (requests x.1, []) end) (objects w).

(** The network brings [d] of what a client sends: a piece of the head of its
    next request, or what is left of the request. *)
Definition deliver (x : list wire_request * bytes) (d : bytes) : option (list wire_request * bytes) :=
  match x with
  | ([], _) => None
  | (r :: rs, p) =>
      if decide (p ++ d = render_request r) then Some (rs, [])
      else if decide ((p ++ d) `prefix_of` render_head r /\ p ++ d <> render_head r) then Some (r :: rs, p ++ d)
      else None
  end.

(** The read handler that a label runs, when it reads something: the
    connection's address, the time and the bytes. *)
Definition message_call (w : world) (lb : label) : option (Z * Z * bytes) :=
  match lb with
  | LCallback l (ReadvOk d0 d1) _ =>
      match phase_ (loop_at w l) with
      | PDispatch (Some (a, CbRead t :: _)) _ =>
          if 0 <? zlen d0 + zlen d1 then Some (a, t, d0 ++ d1) else None
      | _ => None
      end
  | _ => None
  end.

(** One step: that of the process, then the message callback if the step has
    read, with the results of the writes it does. *)
Definition http_world_step (hw : http_world) (lb : label) (ws : nat -> write_ret) : option (res http_world) :=
  match step_world (world_ hw) lb with
  | Err e => Some (Err e)
  | Ok w =>
      let hw1 := mkHttpWorld w (next_contexts hw w) (next_clients hw w) in
      match message_call (world_ hw) lb with
      | None => Some (Ok hw1)
      | Some (a, t, d) =>
          match objects w !! a with
          | None => Some (Err UseAfterFree)
          | Some (c, tc) =>
              match http_message cb (mkHttp tc (context_of hw1 a)) t ws with
              | None => None
              | Some (Err e) => Some (Err e)
              | Some (Ok h) =>
                  Some (Ok (mkHttpWorld (setObject w c (conn_ h))
                    (<[a := context_ h]> (contexts hw1))
                    (match deliver (client_of hw1 a) d with
                     | Some x => <[a := x]> (clients hw1)
                     | None => clients hw1
                     end)))
              end
          end
      end
  end.

Fixpoint http_world_run (hw : http_world) (lbs : list (label * (nat -> write_ret))) : option (res http_world) :=
  match lbs with
  | [] => Some (Ok hw)
  | (lb, ws) :: lbs =>
      match http_world_step hw lb ws with
      | Some (Ok hw) => http_world_run hw lbs
      | x => x
      end
  end.

(** ** What the environment does

    The application is the server itself, which makes no other calls. *)
Definition server_label (lb : label) : bool :=
  match lb with LApp _ _ | LTimer _ | LDtor => false | _ => true end.

(** A read brings what the client sends, and the system calls behave. *)
Definition http_label_ok (hw : http_world) (lb : label) (ws : nat -> write_ret) : Prop :=
  label_ok (world_ hw) lb /\ server_label lb = true /\
  match message_call (world_ hw) lb with
  | None => True
  | Some (a, t, d) =>
      is_Some (deliver (client_of hw a) d) /\
      match lb, objects (world_ hw) !! a with
      | LCallback _ rv _, Some (_, tc) =>
          http_event_ok cb (mkHttp tc (context_of hw a)) (EvRead rv t ws)
      | _, _ => True
      end
  end.

Fixpoint http_labels_ok (hw : http_world) (lbs : list (label * (nat -> write_ret))) : Prop :=
  match lbs with
  | [] => True
  | (lb, ws) :: lbs =>
      http_label_ok hw lb ws /\
      match http_world_step hw lb ws with Some (Ok hw) => http_labels_ok hw lbs | _ => True end
  end.

(** ** What the server's calls leave of a connection

    It queues nothing: it has no callbacks and calls from the loop's thread. *)
Definition plain (tc : TcpConnection) : Prop :=
  writeCompleteCallback_ tc = false /\ highWaterMarkCallback_ tc = false /\ queued tc = [].

(** The same connection to everyone but the session. *)
Definition same_life (tc tc' : TcpConnection) : Prop :=
  TcpConnection.events_ tc' = TcpConnection.events_ tc /\ removed tc' = removed tc /\
  (plain tc -> plain tc') /\ (is_up (state_ tc) = true -> is_up (state_ tc') = true).

Lemma same_life_refl tc : same_life tc tc.
Proof. unfold same_life. tauto. Qed.

Lemma same_life_trans t1 t2 t3 : same_life t1 t2 -> same_life t2 t3 -> same_life t1 t3.
Proof.
  intros (E1 & R1 & P1 & U1) (E2 & R2 & P2 & U2).
  split; [congruence|]. split; [congruence|]. split; auto.
Qed.

Lemma sendInLoop_life c m w c' : sendInLoop true c m w = Ok c' -> same_life c c'.
Proof.
  unfold sendInLoop, queue_rest, same_life, plain. cbn [assertInLoopThread guard_ mbind res_bind]. intros Hsend.
  repeat (case_match; simplify_eq); inv_res; repeat case_match; simplify_eq; cbn in *;
    (split; [done|]); (split; [done|]); (split; [|done]); intros (? & ? & ?); simplify_eq/=;
    repeat match goal with H : _ && _ = true |- _ => apply andb_true_iff in H as [? ?] end; (done || congruence).
Qed.

Lemma do_call_life c call w c' : do_call c call w = Ok c' -> same_life c c'.
Proof.
  destruct call as [m|]; cbn [do_call].
  - unfold send_string. destruct (connected c); [apply sendInLoop_life|]. intros [= <-]. apply same_life_refl.
  - unfold shutdown, shutdownInLoop. cbn [assertInLoopThread guard_ mbind res_bind]. intros Hc.
    repeat (case_match; simplify_eq); unfold same_life, plain; cbn; tauto.
Qed.

Lemma do_calls_life calls : forall c ws c', do_calls c calls ws = Ok c' -> same_life c c'.
Proof.
  induction calls as [|call calls IH]; intros c ws c'; cbn [do_calls].
  - intros [= <-]. apply same_life_refl.
  - intros (c1 & E1%do_call_life & E2%IH)%bind_ok_inv. by eapply same_life_trans.
Qed.

Lemma http_message_life h t ws h' : http_message cb h t ws = Some (Ok h') -> same_life (conn_ h) (conn_ h').
Proof.
  unfold http_message. destruct (onMessage _ _ _ _) as [[[[c buf] calls]|]|]; [|done..].
  intros [= (c1 & E%do_calls_life & [= <-])%bind_ok_inv]. exact E.
Qed.

(** The handlers keep it plain. *)
Lemma handleClose_plain b c c' : handleClose b c = Ok c' -> plain c -> plain c'.
Proof. unfold handleClose. intros E. inv_res. done. Qed.

Lemma handleWrite_plain b c w c' : handleWrite b c w = Ok c' -> plain c -> plain c'.
Proof.
  unfold handleWrite, shutdownInLoop, plain. intros Hwrite (H1 & H2 & H3).
  repeat (case_match; simplify_eq; inv_res; simplify_eq/=); try done; congruence.
Qed.

Lemma handleRead_plain b c rv c' : handleRead b c rv = Ok c' -> plain c -> plain c'.
Proof.
  unfold handleRead. intros E Hp.
  apply bind_ok_inv in E as (? & _ & ([[n e] b1] & _ & E)%bind_ok_inv).
  destruct (0 <? n); [by injection E as <-|]. destruct (n =? 0); [|by injection E as <-].
  by eapply handleClose_plain.
Qed.

Lemma run_callback_plain b c call rv wr c' : run_callback b c call rv wr = Ok c' -> plain c -> plain c'.
Proof.
  destruct call; cbn [run_callback];
    [apply handleClose_plain|by intros [= <-]|apply handleRead_plain|apply handleWrite_plain].
Qed.

(** ** What a step of the process makes of a connection *)

Inductive moved (w : world) (lb : label) (a : Z) (c : Server.conn) (tc : TcpConnection) : TcpConnection -> Prop :=
| MvSame : moved w lb a c tc tc
| MvUp tc' : state_ tc = kConnecting -> connectionEstablished true tc = Ok tc' -> moved w lb a c tc tc'
| MvCallback l call calls active rv wr tc' :
    lb = LCallback l rv wr -> phase_ (loop_at w l) = PDispatch (Some (a, call :: calls)) active ->
    match call with CbClose | CbRead _ => is_up (state_ tc) = true | _ => True end ->
    run_callback true tc call rv wr = Ok tc' -> moved w lb a c tc tc'
| MvGone tc' : state_ tc = kDisconnected -> connectionDestroyed true tc = Ok tc' -> moved w lb a c tc tc'
| MvOwn wr tc' : run_next tc wr = Ok tc' -> moved w lb a c tc tc'.

(** A new connection, which its loop may have established at once. *)
Definition created (c : Server.conn) (tc' : TcpConnection) : Prop :=
  exists fd tc, new_connection (Server.conn_loop c) fd false false kMark = Ok tc /\
    (tc' = tc \/ state_ tc = kConnecting /\ connectionEstablished true tc = Ok tc').

Lemma established_inv b tc tc' : connectionEstablished b tc = Ok tc' -> b = true /\ state_ tc = kConnecting.
Proof.
  unfold connectionEstablished. destruct b; [|done]. cbn [assertInLoopThread guard_ mbind res_bind].
  destruct (decide (state_ tc = kConnecting)) as [H|H]; [done|]. by rewrite bool_decide_false.
Qed.

Lemma establish_objects l w c w' :
  establish l w c = Ok w' -> exists tc tc', objects w !! Server.conn_addr c = Some (c, tc) /\
    state_ tc = kConnecting /\ connectionEstablished true tc = Ok tc' /\
    objects w' = <[Server.conn_addr c := (c, tc')]> (objects w).
Proof.
  intros (tc & Ho%object_inv & (tc' & E & [= <-])%bind_ok_inv)%bind_ok_inv.
  destruct (established_inv _ _ _ E) as [Eb Hs]. rewrite Eb in E. by exists tc, tc'.
Qed.

(** Taking a connection out of the table changes no object. *)
Lemma removeConnectionInLoop_objects l w c w' :
  removeConnectionInLoop base l w c = Ok w' -> objects w' = objects w.
Proof.
  unfold removeConnectionInLoop. destruct (server w) as [s|]; [|done].
  intros (s' & E & H)%bind_ok_inv. revert H. unfold server_calls.
  assert (new_call s s' = Some (Server.CallDestroyed c)) as ->; [|by intros [= <-]].
  unfold Server.removeConnectionInLoop in E. apply bind_ok_inv in E as (? & _ & (? & _ & [= <-])%bind_ok_inv).
  unfold new_call. cbn. by rewrite lookup_app_r, Nat.sub_diag by done.
Qed.

Lemma handled_objects l w c tc tc' w' :
  handled base l w c tc tc' = Ok w' -> objects w' = <[Server.conn_addr c := (c, tc')]> (objects w).
Proof.
  unfold handled, removeConnection. destruct (bool_decide _); [|by intros [= <-]].
  destruct (server _); [|done]. destruct (l =? base); [apply removeConnectionInLoop_objects|by intros [= <-]].
Qed.

Lemma accept_objects w s addr fd w' :
  server w = Some s -> accept base false false kMark base w addr fd = Ok w' ->
  objects w' = objects w \/
  exists c tc', Server.conn_addr c = addr /\ created c tc' /\ objects w' = <[addr := (c, tc')]> (objects w).
Proof.
  intros Hs. unfold accept. rewrite Hs. intros (s' & E & H)%bind_ok_inv.
  destruct (new_call s s') as [[|c|c]|] eqn:En; [by injection H as <-; left| |by injection H as <-; left..].
  assert (Server.conn_addr c = addr) as Ha.
  { unfold Server.newConnection in E.
    apply bind_ok_inv in E as (? & _ & ([l p] & _ & (? & _ & [= <-])%bind_ok_inv)%bind_ok_inv).
    revert En. unfold new_call. cbn. rewrite lookup_app_r, Nat.sub_diag by done. by intros [= <-]. }
  apply bind_ok_inv in H as (tc & Hnew & H). revert H. unfold server_calls. rewrite En. cbn [perform].
  right. exists c. subst addr. destruct (base =? Server.conn_loop c).
  - apply establish_objects in H as (tc0 & tc' & Htc0 & Hst & Hup & Hos). cbn in Htc0, Hos.
    rewrite lookup_insert_eq in Htc0. injection Htc0 as <-. exists tc'. split; [done|].
    split; [exists fd, tc; auto|]. by rewrite Hos, insert_insert_eq.
  - injection H as <-. exists tc. split; [done|]. split; [exists fd, tc; auto|done].
Qed.

Definition moves (w : world) (lb : label) (w' : world) : Prop :=
  forall a c tc', objects w' !! a = Some (c, tc') ->
  (exists tc, objects w !! a = Some (c, tc) /\ moved w lb a c tc tc') \/
  (objects w !! a = None /\ created c tc').

Lemma moves_same w lb w' : objects w' = objects w -> moves w lb w'.
Proof. intros E a c tc'. rewrite E. intros Ha. left. exists tc'. split; [done|apply MvSame]. Qed.

Lemma moves_one w lb w' a c tc tc' :
  objects w !! a = Some (c, tc) -> objects w' = <[a := (c, tc')]> (objects w) -> moved w lb a c tc tc' ->
  moves w lb w'.
Proof.
  intros Ha E Hm b c1 tc1. rewrite E, lookup_insert_Some.
  intros [[<- [= <- <-]]|[_ Hb]]; left; [by exists tc|]. exists tc1. split; [done|apply MvSame].
Qed.

Lemma address io w s a c tc : world_inv base io w s -> objects w !! a = Some (c, tc) -> Server.conn_addr c = a.
Proof. intros Hi Ha. eapply (p_addr _ _ _ _ (wi_proto _ _ _ _ Hi)), stages_some; eauto. Qed.

(** The connection of a functor that is run is at the stage of the functor. *)
Lemma functor_moves io w s l fs0 f fs w' lb :
  world_inv base io w s -> phase_ (loop_at w l) = PRun fs0 (f :: fs) ->
  run_functor base l (popped w l fs0 fs f) f = Ok w' -> moves w lb w'.
Proof.
  intros Hi Hp E. destruct f as [c|c|c]; cbn [run_functor] in E.
  - apply establish_objects in E as (tc & tc' & Ha & Hst & Hup & Hos).
    eapply moves_one; [exact Ha|exact Hos|by apply MvUp].
  - apply moves_same. by apply removeConnectionInLoop_objects in E.
  - assert (FDestroyed c ∈ functors w l) as Hin.
    { unfold functors, functors_of, todo. rewrite Hp. apply elem_of_app. left. by left. }
    destruct (p_functor _ _ _ _ (wi_proto _ _ _ _ Hi) l _ Hin) as (<- & st & Hm & Ht).
    apply stages_some in Hm as (tc & Ha & Hst). cbn [functor_loop functor_conn] in *.
    unfold destroy in E. rewrite (object_at _ c tc) in E by done. cbn [mbind res_bind] in E.
    rewrite Z.eqb_refl in E. apply bind_ok_inv in E as (tc' & E & [= <-]).
    eapply moves_one; [exact Ha|done|]. apply MvGone; [|done].
    unfold stage_of in Hst. destruct (state_ tc); [done|by subst..].
Qed.

Lemma callback_moves io w s l a call calls active rv wr w' :
  world_inv base io w s -> phase_ (loop_at w l) = PDispatch (Some (a, call :: calls)) active ->
  act w (LCallback l rv wr) = Ok w' -> moves w (LCallback l rv wr) w'.
Proof.
  intros Hi Hp E. cbn [world_act] in E. rewrite Hp in E.
  pose proof (wi_phases _ _ _ _ Hi l) as Hph. rewrite Hp in Hph.
  destruct Hph as (_ & _ & _ & (c & st & Hm & Hl) & Hcl & Hup). apply stages_some in Hm as (tc & Ha & _).
  rewrite Ha, <- Hl, Z.eqb_refl in E. apply bind_ok_inv in E as (tc' & Erun & E).
  apply handled_objects in E. rewrite (address io w s a c tc) in E by done.
  eapply moves_one; [exact Ha|exact E|]. eapply MvCallback; [done|exact Hp| |exact Erun].
  assert (closers (call :: calls) =
    (match call with CbClose | CbRead _ => 1 | _ => 0 end) + closers calls)%nat as Hc by by destruct call.
  assert (match call with CbClose | CbRead _ => True | _ => False end -> is_up (state_ tc) = true) as Hcb.
  { intros Hcb. destruct (up_object base io w s l a Hi) as (c' & tc1 & Ha' & _ & ?); [|congruence].
    apply Hup. destruct call; (done || lia). }
  destruct call; auto.
Qed.

Lemma act_moves io w s lb w' :
  world_inv base io w s -> server_label lb = true -> label_ok w lb -> act w lb = Ok w' -> moves w lb w'.
Proof.
  intros Hi Hlb Hok E. assert (Ok w = Ok w' -> moves w lb w') as Hid by (intros [= <-]; by apply moves_same).
  destruct lb as [l active|l now|l rv wr|addr fd|l|l|l|c wr|c op|c|]; try discriminate Hlb; cbn [world_act] in E.
  - destruct (phase_ _); [|by apply Hid..]. injection E as <-. by apply moves_same.
  - destruct (phase_ _) as [|[|] [|[a r] active]|]; try by apply Hid.
    apply bind_ok_inv in E as (cbs & _ & [= <-]). by apply moves_same.
  - destruct (phase_ (loop_at w l)) as [|[[a [|call calls]]|] active|] eqn:Hp; try by apply Hid.
    + injection E as <-. by apply moves_same.
    + eapply callback_moves; [done|exact Hp|]. cbn [world_act]. by rewrite Hp.
  - destruct (phase_ _) as [|[|] ?|]; try by apply Hid. destruct Hok as [Hnone _].
    destruct (accept_objects w s addr fd w' (wi_alive _ _ _ _ Hi) E) as [Eo|(c & tc' & Hc & Hnew & Eo)];
      [by apply moves_same|].
    intros b c1 tc1. rewrite Eo, lookup_insert_Some. intros [[<- [= <- <-]]|[_ Hb]]; [by right|].
    left. exists tc1. split; [done|apply MvSame].
  - destruct (phase_ _) as [|[|] [|]|]; try by apply Hid. injection E as <-. by apply moves_same.
  - destruct (phase_ (loop_at w l)) as [| |fs0 [|f fs]] eqn:Hp; try by apply Hid.
    by eapply functor_moves.
  - destruct (phase_ _) as [| |fs0 [|f fs]]; try by apply Hid. injection E as <-. by apply moves_same.
  - destruct (phase_ _); try by apply Hid.
    apply bind_ok_inv in E as (tc & Ho%object_inv & (tc' & E & [= <-])%bind_ok_inv).
    eapply moves_one; [exact Ho|done|by eapply MvOwn].
Qed.

(** ** The session of a connection *)

Definition answered (w : wire_request) (r : HttpRequest) : Prop := exists t, r = parsed_request t w.

(** The part of the next request that has arrived is a piece of its head. *)
Definition waiting (x : list wire_request * bytes) : Prop :=
  match x with
  | ([], p) => p = []
  | (r :: _, p) => p `prefix_of` render_head r /\ p <> render_head r
  end.

(** The requests [rs] have been answered, and [p] of the next has arrived. *)
Definition session (rs : list HttpRequest) (tc : TcpConnection) (context : option HttpContext) (p : bytes) : Prop :=
  match state_ tc with
  | kConnecting => rs = [] /\ p = [] /\ conn_inv [] tc /\ toStringView (inputBuffer_ tc) = []
  | kDisconnected => conn_inv (replies cb rs) tc
  | _ => exists ts, session_inv (replies cb rs) (negb (closes cb rs)) ts p (mkHttp tc context)
  end.

Definition conn_session (c : Server.conn) (tc : TcpConnection) (context : option HttpContext)
    (x : list wire_request * bytes) : Prop :=
  plain tc /\ waiting x /\
  exists sent rs, requests c = sent ++ x.1 /\ Forall2 answered sent rs /\ session rs tc context x.2.

Lemma connection_calls_app old evs context :
  connection_calls old (old ++ evs) context = connection_calls [] evs context.
Proof. unfold connection_calls. by rewrite drop_app_length. Qed.

Lemma connection_calls_same old context : connection_calls old old context = context.
Proof. unfold connection_calls. by rewrite drop_all. Qed.

Lemma session_up rs tc context p :
  is_up (state_ tc) = true ->
  session rs tc context p <->
  exists ts, session_inv (replies cb rs) (negb (closes cb rs)) ts p (mkHttp tc context).
Proof. unfold session. by destruct (state_ tc). Qed.

Lemma session_conn rs tc context p : session rs tc context p -> conn_inv (replies cb rs) tc.
Proof.
  unfold session. destruct (state_ tc); [done| |intros [ts []]; done..].
  by intros (-> & _ & ? & _).
Qed.

(** A connection goes down. *)
Lemma session_down rs tc tc0 context p tc' b :
  is_up (state_ tc) = true -> conn_inv (replies cb rs) tc0 ->
  state_ tc0 = state_ tc -> TcpConnection.events_ tc0 = TcpConnection.events_ tc ->
  handleClose b tc0 = Ok tc' ->
  session rs tc' (connection_calls (TcpConnection.events_ tc) (TcpConnection.events_ tc') context) p.
Proof.
  intros Hu Hi Hs He E. apply is_up_cases in Hu.
  assert (b = true) as -> by (destruct b; [done|discriminate E]).
  destruct (handleClose_ok _ tc0 Hi ltac:(by rewrite Hs)) as (t1 & E1 & Hi' & Hs' & Hev).
  rewrite E in E1. injection E1 as <-. unfold session. by rewrite Hs'.
Qed.

(** An event that is no call of the connection callback. *)
Lemma session_call rs tc context p e :
  match e with EvConnection _ => False | _ => True end ->
  session rs tc context p ->
  session rs (call tc e) (connection_calls (TcpConnection.events_ tc) (TcpConnection.events_ (call tc e)) context) p.
Proof.
  intros He Hs. change (TcpConnection.events_ (call tc e)) with (TcpConnection.events_ tc ++ [e]).
  rewrite connection_calls_app. replace (connection_calls [] [e] context) with context by by destruct e.
  revert Hs. unfold session. change (state_ (call tc e)) with (state_ tc). destruct (state_ tc).
  - apply call_inv.
  - intros (-> & -> & Hi & Hv). split; [done|]. split; [done|]. split; [by apply call_inv|done].
  - intros [ts [Hi Ho Hh Hc]]. exists ts. split; cbn in *; [by apply call_inv|done..].
  - intros [ts [Hi Ho Hh Hc]]. exists ts. split; cbn in *; [by apply call_inv|done..].
Qed.

Lemma session_write rs tc context p wr tc' :
  session rs tc context p -> write_ok (zlen (toStringView (outputBuffer_ tc))) wr ->
  handleWrite true tc wr = Ok tc' ->
  session rs tc' (connection_calls (TcpConnection.events_ tc) (TcpConnection.events_ tc') context) p.
Proof.
  intros Hs Hw E. destruct (handleWrite_events _ _ _ E) as (He & Hst & _). rewrite He, connection_calls_same.
  destruct (handleWrite_frame _ _ _ E) as [_ Hin].
  pose proof (session_conn _ _ _ _ Hs) as Hi. destruct (handleWrite_ok _ tc wr Hi Hw) as (t1 & E1 & Hi').
  rewrite E in E1. injection E1 as <-.
  destruct (is_up (state_ tc)) eqn:Hu.
  - apply session_up in Hs as [ts Hs]; [|done]. apply session_up; [by rewrite Hst|]. exists ts.
    destruct (step_writable cb _ _ _ _ _ wr Hs) as (h' & E' & Hs'); [exact Hw|].
    cbn [http_step conn_ context_] in E'. rewrite E in E'. by injection E' as <-.
  - revert Hs. unfold session. rewrite Hst, Hin. destruct (state_ tc) eqn:Est; try done.
    intros (-> & -> & _ & Hv). by repeat (split; [done|]).
Qed.

(** Coming up: the connection callback makes a fresh context. *)
Lemma session_established rs tc context p tc' :
  session rs tc context p -> state_ tc = kConnecting -> connectionEstablished true tc = Ok tc' ->
  session rs tc' (connection_calls (TcpConnection.events_ tc) (TcpConnection.events_ tc') context) p.
Proof.
  intros Hs Hst E. unfold session in Hs. rewrite Hst in Hs. destruct Hs as (-> & -> & Hi & Hv).
  destruct (connectionEstablished_ok [] tc Hi Hst) as (t1 & E1 & Hi' & Hs'). rewrite E in E1. injection E1 as <-.
  assert (TcpConnection.events_ tc' = TcpConnection.events_ tc ++ [EvConnection true] /\
          inputBuffer_ tc' = inputBuffer_ tc) as [He Hin].
  { unfold connectionEstablished in E. cbn [assertInLoopThread guard_ mbind res_bind] in E. by inv_res. }
  rewrite He, connection_calls_app. apply session_up; [by rewrite Hs'|]. exists [].
  split; cbn; [done|done|done|]. exists HttpContext_ctor. rewrite Hin, Hv. split; [done|apply arrived_start].
Qed.

Lemma readFd_empty b d0 d1 n e b' :
  readFd b (ReadvOk d0 d1) = Ok (n, e, b') -> n = zlen d0 + zlen d1.
Proof.
  unfold readFd. intros (v & _ & H)%bind_ok_inv. destruct (_ <=? _); [by injection H as <-|].
  by apply bind_ok_inv in H as (? & _ & (? & _ & [= <- _ _])%bind_ok_inv).
Qed.

(** A read that brings no data: it fails, or finds the end of the stream. *)
Lemma session_read rs tc context p rv tc' :
  session rs tc context p -> is_up (state_ tc) = true -> io_ok tc (CbRead 0) rv (WriteOk 0) ->
  match rv with ReadvOk d0 d1 => zlen d0 + zlen d1 <= 0 | ReadvErr _ => True end ->
  handleRead true tc rv = Ok tc' ->
  session rs tc' (connection_calls (TcpConnection.events_ tc) (TcpConnection.events_ tc') context) p.
Proof.
  intros Hs Hu [Hrv Hmax] Hd E. destruct rv as [e|d0 d1].
  - injection E as <-. replace (setInput tc (inputBuffer_ tc)) with tc by by destruct tc.
    by apply (session_call rs tc context p EvError).
  - unfold handleRead in E. cbn [assertInLoopThread guard_ mbind res_bind] in E.
    pose proof (session_conn _ _ _ _ Hs) as Hi.
    destruct (readFd_ok (inputBuffer_ tc) d0 d1) as (b & Eb & Hb & _); [apply Hi|done..|].
    rewrite Eb in E. cbn [mbind res_bind] in E. pose proof (zlen_nonneg d0). pose proof (zlen_nonneg d1).
    replace (0 <? zlen d0 + zlen d1) with false in E by lia.
    replace (zlen d0 + zlen d1 =? 0) with true in E by lia.
    by eapply (session_down rs tc (setInput tc b)); [|apply setInput_inv|..].
Qed.

Lemma destroyed_frame tc tc' :
  state_ tc = kDisconnected -> connectionDestroyed true tc = Ok tc' -> tc' = remove_channel tc.
Proof.
  intros Hs. unfold connectionDestroyed. cbn [assertInLoopThread guard_ mbind res_bind].
  rewrite bool_decide_false by (by rewrite Hs). by intros (? & _ & [= <-])%bind_ok_inv.
Qed.

Lemma session_moved w lb a c tc tc' rs context p :
  objects w !! a = Some (c, tc) -> label_ok w lb ->
  (forall t d, message_call w lb <> Some (a, t, d)) ->
  moved w lb a c tc tc' -> plain tc -> session rs tc context p ->
  plain tc' /\
  session rs tc' (connection_calls (TcpConnection.events_ tc) (TcpConnection.events_ tc') context) p.
Proof.
  intros Ha Hok Hmsg Hm Hp Hs.
  destruct Hm as [|tc' Hst E|l call calls active rv wr tc' -> Hph Hu E|tc' Hst E|wr tc' E].
  - by rewrite connection_calls_same.
  - split; [|by eapply session_established]. revert Hp. unfold connectionEstablished in E.
    cbn [assertInLoopThread guard_ mbind res_bind] in E. by inv_res.
  - split; [by eapply run_callback_plain|]. cbn [label_ok] in Hok. rewrite Hph, Ha in Hok.
    destruct call as [| |t|]; cbn [run_callback] in E.
    + by eapply (session_down rs tc tc); [|eapply session_conn|..].
    + injection E as <-. by apply (session_call rs tc context p EvError).
    + eapply (session_read rs tc context p rv); [done|exact Hu|exact Hok| |done].
      destruct rv as [|d0 d1]; [done|]. cbn [message_call] in Hmsg. rewrite Hph in Hmsg.
      destruct (Z.ltb_spec 0 (zlen d0 + zlen d1)); [by destruct (Hmsg t (d0 ++ d1))|lia].
    + by eapply session_write.
  - rewrite (destroyed_frame tc tc') by done. split; [done|].
    change (TcpConnection.events_ (remove_channel tc)) with (TcpConnection.events_ tc).
    rewrite connection_calls_same. revert Hs. unfold session. cbn. rewrite Hst. intros Hs.
    eapply conn_inv_frame; [exact Hs|done..|apply Hs].
  - unfold run_next in E. destruct Hp as (H1 & H2 & H3). rewrite H3 in E. injection E as <-.
    by rewrite connection_calls_same.
Qed.

Lemma session_created c tc' :
  created c tc' ->
  plain tc' /\ session [] tc' (connection_calls [] (TcpConnection.events_ tc') None) [].
Proof.
  intros (fd & tc & Hnew & Hcase). pose proof (new_connection_inv _ _ _ _ _ _ Hnew) as Hi.
  assert (plain tc /\ state_ tc = kConnecting /\ TcpConnection.events_ tc = [] /\
          toStringView (inputBuffer_ tc) = []) as (Hp & Hst & He & Hin) by (by injection Hnew as <-).
  assert (session [] tc None []) as Hs by (unfold session; by rewrite Hst).
  destruct Hcase as [-> |[_ E]].
  - rewrite He. split; [done|exact Hs].
  - rewrite <- He. split; [|by eapply session_established]. revert Hp. unfold connectionEstablished in E.
    cbn [assertInLoopThread guard_ mbind res_bind] in E. by inv_res.
Qed.

(** ** The message callback *)

Lemma closes_snoc rs r : closes cb (rs ++ [r]) = closes cb rs || isCloseConnection (reply cb r).
Proof. unfold closes. rewrite existsb_app. cbn [existsb]. by rewrite orb_false_r. Qed.

Lemma replies_snoc rs r :
  replies cb (rs ++ [r]) = replies cb rs ++ if closes cb rs then [] else render_response (reply cb r).
Proof.
  induction rs as [|r0 rs IH]; cbn [app replies closes existsb].
  - destruct (isCloseConnection _); by rewrite app_nil_r.
  - fold (closes cb rs). rewrite IH. destruct (isCloseConnection (reply cb r0)); cbn [orb].
    + by rewrite !app_nil_r.
    + by rewrite app_assoc.
Qed.

Lemma waiting_fresh rs : waiting (rs, []).
Proof.
  destruct rs as [|r rs]; [done|]. split; [apply prefix_nil|]. intros E. pose proof (head_nonempty r) as H.
  rewrite <- E in H. cbn in H. lia.
Qed.

(** A session that reads what its client sends: the callback answers a request
    that is now complete. *)
Lemma session_message c tc context x d0 d1 t ws x' :
  responses_fit cb -> Forall wire_ok (requests c) ->
  conn_session c tc context x -> is_up (state_ tc) = true ->
  deliver x (d0 ++ d1) = Some x' -> d0 ++ d1 <> [] ->
  http_event_ok cb (mkHttp tc context) (EvRead (ReadvOk d0 d1) t ws) ->
  exists tc1 h, handleRead true tc (ReadvOk d0 d1) = Ok tc1 /\
    TcpConnection.events_ tc1 = TcpConnection.events_ tc ++ [EvMessage] /\ state_ tc1 = state_ tc /\
    http_message cb (mkHttp tc1 context) t ws = Some (Ok h) /\
    conn_session c (conn_ h) (context_ h) x'.
Proof.
  intros Hfit Hwire (Hp & Hwait & sent & rs & Hreq & Hans & Hs) Hu Hd Hne Hev.
  apply session_up in Hs as [ts Hs]; [|done].
  destruct (step_read cb _ _ _ _ _ d0 d1 t ws Hs Hev Hne)
    as (_ & _ & tc1 & _ & _ & _ & _ & Hread & _ & Hst & _ & _ & _ & _ & _ & _ & Hstep).
  cbn [conn_ context_] in *. exists tc1.
  assert (TcpConnection.events_ tc1 = TcpConnection.events_ tc ++ [EvMessage]) as He.
  { destruct (handleRead_data _ tc d0 d1 (inv_conn _ _ _ _ _ Hs)) as (b & E & _); [apply Hev|apply Hev|done|].
    rewrite E in Hread. by injection Hread as <-. }
  assert (forall h, http_message cb (mkHttp tc1 context) t ws = Some (Ok h) -> plain (conn_ h) /\
    is_up (state_ (conn_ h)) = true) as Hplain.
  { intros h (_ & _ & Hpl & Hup)%http_message_life. cbn [conn_ context_] in *. split; [apply Hpl|apply Hup; by rewrite Hst].
    by apply (handleRead_plain _ _ _ _ Hread). }
  destruct x as [[|r rest] p]; [done|]. cbn [deliver fst snd] in *.
  rewrite Hreq in Hwire. apply Forall_app in Hwire as [_ [Hw Hwire]%Forall_cons].
  destruct (decide (p ++ d0 ++ d1 = render_request r)) as [Hall|_].
  - injection Hd as <-.
    destruct (step_read_all cb r _ _ _ _ _ d0 d1 t ws Hfit Hw Hs Hev Hne Hall) as (h & t' & E & _ & Hs').
    rewrite Hstep in E. exists h. destruct (Hplain h E) as [Hp' Hu'].
    do 4 (split; [done|]). split; [done|]. split; [apply waiting_fresh|].
    exists (sent ++ [r]), (rs ++ [parsed_request t' r]). cbn [fst snd]. split; [by rewrite <- app_assoc|].
    split; [apply Forall2_app; [done|]; constructor; [by exists t'|done]|].
    apply session_up; [done|]. exists []. rewrite replies_snoc, closes_snoc, negb_orb.
    destruct h as [hc hx]. by destruct (closes cb rs).
  - destruct (decide _) as [[[q Hq] Hneq]|]; [|done]. injection Hd as <-.
    destruct (step_read_more cb r _ _ _ _ _ d0 d1 t ws q Hw Hs Hev Hne) as (h & E & Hs'); [done| |].
    { intros ->. rewrite app_nil_r in Hq. by rewrite Hq in Hneq. }
    rewrite Hstep in E. exists h. destruct (Hplain h E) as [Hp' Hu'].
    do 4 (split; [done|]). split; [done|]. split; [split; [by exists q|done]|].
    exists sent, rs. split; [done|]. split; [done|]. apply session_up; [done|]. by destruct h; eexists.
Qed.

(** What the process makes of such a step. *)
Lemma act_read io w s lb a t d :
  world_inv base io w s -> message_call w lb = Some (a, t, d) ->
  exists c tc l d0 d1 wr calls active,
    lb = LCallback l (ReadvOk d0 d1) wr /\ d = d0 ++ d1 /\ d <> [] /\
    phase_ (loop_at w l) = PDispatch (Some (a, CbRead t :: calls)) active /\
    objects w !! a = Some (c, tc) /\ is_up (state_ tc) = true /\
    forall tc', handleRead true tc (ReadvOk d0 d1) = Ok tc' ->
      TcpConnection.events_ tc' = TcpConnection.events_ tc ++ [EvMessage] ->
      act w lb = Ok (setObject (setLoop w l (setPhase (loop_at w l) (PDispatch (Some (a, calls)) active))) c tc').
Proof.
  intros Hi Hm. destruct lb as [| |l [|d0 d1] wr| | | | | | | |]; try done. cbn [message_call] in Hm.
  destruct (phase_ (loop_at w l)) as [|[[a0 [|[| |t0|] calls]]|] active|] eqn:Hp; try done.
  destruct (Z.ltb_spec 0 (zlen d0 + zlen d1)) as [Hz|]; [|done]. injection Hm as <- <- <-.
  pose proof (wi_phases _ _ _ _ Hi l) as Hph. rewrite Hp in Hph.
  destruct Hph as (_ & _ & _ & _ & Hcl & Hup).
  assert (closers (CbRead t0 :: calls) = S (closers calls)) as Hc by done.
  destruct (up_object base io w s l a0 Hi) as (c & tc & Ha & Hl & Hu); [apply Hup; lia|].
  exists c, tc, l, d0, d1, wr, calls, active. split; [done|]. split; [done|]. split.
  { intros E. apply (f_equal zlen) in E. rewrite zlen_app in E. change (zlen []) with 0 in E. lia. }
  split; [done|]. split; [done|]. split; [done|]. intros tc' E He. cbn [world_act]. rewrite Hp, Ha, <- Hl, Z.eqb_refl.
  cbn [run_callback]. rewrite E. cbn [mbind res_bind]. unfold handled.
  by rewrite He, drop_app_length, bool_decide_false by (by rewrite list_elem_of_singleton).
Qed.

(** ** The invariant *)

Definition sessions (hw : http_world) : Prop :=
  forall a c tc, objects (world_ hw) !! a = Some (c, tc) -> conn_session c tc (context_of hw a) (client_of hw a).

(** The process after a step, before the message callback. *)
Definition next (hw : http_world) (w : world) : http_world :=
  mkHttpWorld w (next_contexts hw w) (next_clients hw w).

Lemma next_old hw w a c tc tc' :
  objects (world_ hw) !! a = Some (c, tc) -> objects w !! a = Some (c, tc') ->
  context_of (next hw w) a =
    connection_calls (TcpConnection.events_ tc) (TcpConnection.events_ tc') (context_of hw a) /\
  client_of (next hw w) a = client_of hw a.
Proof.
  intros Ha Ha'. unfold context_of at 1, client_of at 1, next, next_contexts, next_clients. cbn [contexts clients].
  by rewrite !map_lookup_imap, Ha', Ha.
Qed.

Lemma next_new hw w a c tc' :
  objects (world_ hw) !! a = None -> objects w !! a = Some (c, tc') ->
  context_of (next hw w) a = connection_calls [] (TcpConnection.events_ tc') None /\
  client_of (next hw w) a = (requests c, []).
Proof.
  intros Ha Ha'. unfold context_of, client_of, next, next_contexts, next_clients. cbn [contexts clients].
  by rewrite !map_lookup_imap, Ha', Ha.
Qed.

(** Every connection that the step does not read from. *)
Lemma next_sessions io hw s lb w a c tc' :
  world_inv base io (world_ hw) s -> sessions hw -> server_label lb = true -> label_ok (world_ hw) lb ->
  act (world_ hw) lb = Ok w -> (forall t d, message_call (world_ hw) lb <> Some (a, t, d)) ->
  objects (collect w) !! a = Some (c, tc') ->
  conn_session c tc' (context_of (next hw (collect w)) a) (client_of (next hw (collect w)) a).
Proof.
  intros Hi Hs Hlb Hok E Hmsg Ha'. pose proof (proj1 (proj1 (collect_lookup _ _ _) Ha')) as Ha1.
  destruct (act_moves io _ s lb w Hi Hlb Hok E a c tc' Ha1) as [(tc & Ha & Hm)|[Hn Hc]].
  - destruct (next_old hw _ a c tc tc' Ha Ha') as [-> ->].
    destruct (Hs _ _ _ Ha) as (Hp & Hw & sent & rs & Hreq & Hans & Hses).
    destruct (session_moved _ lb a c tc tc' rs _ _ Ha Hok Hmsg Hm Hp Hses) as [Hp' Hses'].
    split; [done|]. split; [done|]. by exists sent, rs.
  - destruct (next_new hw _ a c tc' Hn Ha') as [-> ->]. destruct (session_created c tc' Hc) as [Hp Hses].
    split; [done|]. split; [apply waiting_fresh|]. by exists [], [].
Qed.

Lemma life_calls_up st st' : is_up st = true -> is_up st' = true -> life_calls st = life_calls st'.
Proof. by destruct st, st'. Qed.

(** The calls of the server on a connection leave the process as it is. *)
Lemma session_inv_world io w s a c tc tc' context x :
  world_inv base io w s -> objects w !! a = Some (c, tc) -> is_up (state_ tc) = true ->
  same_life tc tc' -> conn_session c tc' context x -> world_inv base io (setObject w c tc') s.
Proof.
  intros Hi Ha Hu (He & Hr & _ & Hup) (_ & _ & _ & rs & _ & _ & Hses). specialize (Hup Hu).
  pose proof (wi_objects _ _ _ _ Hi _ _ _ Ha) as Ho.
  eapply inv_object; [done|exact Ha| |].
  - eapply object_ok_conn; [exact Ho| |].
    + split; [by exists (replies cb rs); eapply session_conn|]. split; [|done].
      rewrite He, (ob_calls _ _ _ _ Ho). by apply life_calls_up.
    + split; intros Ed; [by rewrite Ed in Hup|by rewrite Ed in Hu].
  - by rewrite (proj2 (stage_up s c tc') Hup), (proj2 (stage_up s c tc) Hu).
Qed.

Lemma http_step_ok io hw s lb ws :
  responses_fit cb -> (forall c, Forall wire_ok (requests c)) ->
  world_inv base io (world_ hw) s -> sessions hw -> http_label_ok hw lb ws ->
  exists hw' s', http_world_step hw lb ws = Some (Ok hw') /\ world_inv base io (world_ hw') s' /\ sessions hw'.
Proof.
  intros Hfit Hwire Hi Hs (Hok & Hlb & Hmsg). destruct (world_step_ok base false false kMark io _ s lb Hi Hok) as (w & s' & E & Hi').
  apply collect_inv in Hi'. pose proof (next_sessions io hw s lb w) as Hnext.
  unfold http_world_step, world_step. rewrite E. cbn [mbind res_bind].
  destruct (message_call (world_ hw) lb) as [[[a t] d]|] eqn:Em.
  2:{ exists (next hw (collect w)), s'. split; [done|]. split; [done|].
      intros a c tc' Ha'. by apply Hnext. }
  destruct (act_read io _ s lb a t d Hi Em)
    as (c & tc & l & d0 & d1 & wr & calls & active & -> & -> & Hne & Hp & Ha & Hu & Hact).
  destruct Hmsg as [[x' Hd] Hev]. rewrite Ha in Hev.
  destruct (session_message c tc _ _ d0 d1 t ws x' Hfit (Hwire c) (Hs _ _ _ Ha) Hu Hd Hne Hev)
    as (tc1 & h & Hread & He & Hst & Hm & Hses).
  rewrite (Hact tc1 Hread He) in E. injection E as <-.
  pose proof (address io _ _ _ _ _ Hi Ha) as Hca.
  assert (objects (collect (setObject (setLoop (world_ hw) l
    (setPhase (loop_at (world_ hw) l) (PDispatch (Some (a, calls)) active))) c tc1)) !! a = Some (c, tc1)) as Ha1.
  { apply collect_lookup. cbn [objects setObject]. rewrite Hca, lookup_insert_eq. split; [done|]. cbn [fst snd].
    eapply holds_current; [|exact Hca]. unfold loop_at at 1. cbn. by rewrite lookup_insert_eq. }
  set (w' := collect _) in *. rewrite Ha1.
  destruct (next_old hw w' a c tc tc1 Ha Ha1) as [Hcx Hcl].
  rewrite He, connection_calls_app in Hcx. change (connection_calls [] [EvMessage] _) with (context_of hw a) in Hcx.
  fold (next hw w'). rewrite Hcx, Hcl, Hm, Hd. eexists _, s'. split; [done|]. cbn [world_]. split.
  - eapply session_inv_world; [exact Hi'|exact Ha1|by rewrite Hst| |exact Hses].
    by apply (http_message_life (mkHttp tc1 (context_of hw a)) t ws h).
  - intros b c1 tc' Hb. unfold context_of, client_of. cbn [world_ objects setObject contexts clients] in *.
    rewrite Hca in Hb. destruct (decide (b = a)) as [->|Hneq].
    + rewrite lookup_insert_eq in Hb. injection Hb as <- <-. by rewrite !lookup_insert_eq.
    + rewrite lookup_insert_ne in Hb by done. rewrite !lookup_insert_ne by done.
      by apply (Hnext b c1 tc'); [..|by apply Hact|congruence|].
Qed.

Lemma http_run_world io lbs : responses_fit cb -> (forall c, Forall wire_ok (requests c)) -> forall hw s,
  world_inv base io (world_ hw) s -> sessions hw -> http_labels_ok hw lbs ->
  exists hw' s', http_world_run hw lbs = Some (Ok hw') /\ world_inv base io (world_ hw') s' /\ sessions hw'.
Proof.
  intros Hfit Hwire. induction lbs as [|[lb ws] lbs IH]; intros hw s Hi Hs Hok; cbn [http_world_run]; [by exists hw, s|].
  destruct Hok as [Hlb Hok]. destruct (http_step_ok io hw s lb ws Hfit Hwire Hi Hs Hlb) as (hw1 & s1 & E & Hi1 & Hs1).
  rewrite E in *. by apply (IH hw1 s1).
Qed.

(** *** Turns of the loops without events *)

Definition silent (lbs : list label) : list (label * (nat -> write_ret)) :=
  map (fun lb => (lb, fun _ => WriteErr EWOULDBLOCK)) lbs.

Lemma silent_run lbs : forall hw w,
  forallb quiet_label lbs = true -> world_run base false false kMark (world_ hw) lbs = Ok w ->
  http_labels_ok hw (silent lbs) /\
  exists hw', http_world_run hw (silent lbs) = Some (Ok hw') /\ world_ hw' = w.
Proof.
  induction lbs as [|lb lbs IH]; intros hw w; cbn [forallb world_run silent map http_labels_ok http_world_run].
  - intros _ [= <-]. split; [done|]. by exists hw.
  - intros [Hq Hqs]%andb_true_iff (w1 & E1 & E)%bind_ok_inv.
    assert (label_ok (world_ hw) lb /\ server_label lb = true /\ message_call (world_ hw) lb = None) as (H1 & H2 & H3).
    { destruct lb as [l [|]|l now|l rv wr|addr fd|l|l|l|c wr|c op|c|]; try done. repeat split; constructor. }
    unfold http_label_ok, http_world_step. rewrite E1, H3. fold (silent lbs).
    destruct (IH (next hw w1) w Hqs E) as [Hok Hrun]. done.
Qed.

Lemma http_reclaims io hw s :
  responses_fit cb -> (forall c, Forall wire_ok (requests c)) ->
  world_inv base io (world_ hw) s -> sessions hw -> resting (world_ hw) ->
  exists lbs hw', forallb quiet_label lbs = true /\ http_world_run hw (silent lbs) = Some (Ok hw') /\
    forall a c tc, objects (world_ hw') !! a = Some (c, tc) ->
      in_table (server (world_ hw')) c = true /\ is_up (state_ tc) = true /\ a ∈ polled (world_ hw').
Proof.
  intros Hfit Hwire Hi Hs Hr.
  destruct (drain_ok base false false kMark io _ s Hi Hr) as (lbs & w & s' & Hq & E & Hi' & Hr' & Hh & Hf).
  destruct (silent_run lbs hw w Hq E) as [Hok (hw' & Erun & <-)]. exists lbs, hw'. split; [done|]. split; [done|].
  destruct (http_run_world io (silent lbs) Hfit Hwire hw s Hi Hs Hok) as (hw1 & s1 & E1 & _ & Hs1).
  rewrite Erun in E1. injection E1 as <-. intros a c tc Ha. rewrite (wi_alive _ _ _ _ Hi').
  destruct (Hs1 a c tc Ha) as ((_ & _ & Hqueue) & _). eapply idle_up; [done|done| |done|done].
  by apply resting_idle.
Qed.

End Http.

(** ** Properties *)

(** What a program does to serve: construct, configure and start. *)
Definition serve (cb : HttpRequest -> HttpResponse -> HttpResponse) (base : Z) (hostport name : bytes) (n : Z)
    (new_loops : nat -> Z) : res HttpServer :=
  s ← setThreadNum (setHttpCallback (HttpServer_ctor base hostport name) cb) n; start true s new_loops.

Definition process (s : HttpServer) : http_world := mkHttpWorld (mkWorld (Some (server_ s)) ∅ ∅ ∅) ∅ ∅.

Lemma serve_ok cb base hostport name n new_loops :
  0 <= n -> serve cb base hostport name n new_loops =
    Ok (mkServer (Server.started_server base hostport name (map new_loops (seq 0 (Z.to_nat n)))) cb).
Proof.
  intros Hn. pose proof (Server.start_ok base hostport name n false new_loops Hn) as H.
  unfold serve, setThreadNum, start. cbn [server_ setHttpCallback HttpServer_ctor httpCallback_].
  apply bind_ok_inv in H as (t & -> & H). cbn [mbind res_bind server_ httpCallback_]. by rewrite H.
Qed.

Lemma started_http_inv base hostport name io :
  let s := Server.started_server base hostport name io in
  world_inv base io (world_ (mkHttpWorld (mkWorld (Some s) ∅ ∅ ∅) ∅ ∅)) s.
Proof. apply started_world_inv. Qed.

(** C6: the HTTP server with all its connections, for every schedule of what the
    threads of its loops do, under these conditions on what happens to it
    ([http_labels_ok]).  Clients send well-formed requests ([wire_ok]), one
    after the other.  The network cuts the start line and the headers of each
    as it likes, but the read that brings the end of the headers brings the
    whole body with it, and nothing of the next request: the parser does not
    wait for a body (the bug of HttpSession.late_body) and requests are not
    pipelined.  A direct write takes a response whole or not at all and finds
    no broken pipe (what a partial one does is
    TcpConnection.partial_write_corrupts), and responses fit into a buffer.
    The events of the connections are those of [ServerLife.label_ok], and the
    server is not destroyed.

    Then no assertion fails, nothing that has been destroyed is used, no parse
    hangs, and on every connection the server has accepted for sending exactly
    the application's responses to the requests that have arrived on that
    connection, in order, up to the first response that closes it; no request is
    lost or answered to another client.  A connection that is up is shutting down
    if and only if a response closes it, and is shut down once that has been
    written; its context and input buffer hold what has arrived of the next
    request.  And whenever all loops are in [poll], turns of the loops without
    events leave no connections but those of the server's table, all of them up
    and polled. *)
Theorem http_server_correct cb base hostport name n new_loops requests lbs :
  0 <= n -> responses_fit cb -> (forall c, Forall wire_ok (requests c)) ->
  exists srv, serve cb base hostport name n new_loops = Ok srv /\
    (http_labels_ok (httpCallback_ srv) base requests (process srv) lbs ->
     exists hw, http_world_run (httpCallback_ srv) base requests (process srv) lbs = Some (Ok hw) /\
       is_Some (server (world_ hw)) /\
       (forall a c tc, objects (world_ hw) !! a = Some (c, tc) ->
         exists sent rs, requests c = sent ++ (client_of hw a).1 /\ Forall2 answered sent rs /\
           written tc ++ toStringView (outputBuffer_ tc) = replies cb rs /\
           (is_up (state_ tc) = true ->
            (state_ tc = kDisconnecting <-> closes cb rs = true) /\
            (closes cb rs = true -> toStringView (outputBuffer_ tc) = [] -> write_closed tc = true) /\
            exists ts ctx, context_of hw a = Some ctx /\
              arrived ts (client_of hw a).2 ctx (toStringView (inputBuffer_ tc)))) /\
       (resting (world_ hw) ->
        exists lbs' hw', forallb quiet_label lbs' = true /\
          http_world_run (httpCallback_ srv) base requests hw (silent lbs') = Some (Ok hw') /\
          forall a c tc, objects (world_ hw') !! a = Some (c, tc) ->
            in_table (server (world_ hw')) c = true /\ is_up (state_ tc) = true /\ a ∈ polled (world_ hw'))).
Proof.
  intros Hn Hfit Hwire. eexists. split; [by apply serve_ok|]. cbn [httpCallback_ process server_]. intros Hok.
  destruct (http_run_world cb base requests (map new_loops (seq 0 (Z.to_nat n))) lbs Hfit Hwire _ _
    (started_http_inv base hostport name _)) as (hw & s & E & Hi & Hs); [by intros a c tc|exact Hok|].
  exists hw. split; [done|]. split; [by rewrite (wi_alive _ _ _ _ Hi)|].
  split; [|intros Hr; by eapply http_reclaims]. intros a c tc Ha.
  destruct (Hs a c tc Ha) as (_ & _ & sent & rs & Hreq & Hans & Hses). exists sent, rs.
  split; [done|]. split; [done|]. split; [apply (session_conn _ _ _ _ _ Hses)|].
  intros Hu. apply session_up in Hses as [ts [_ Ho Hh (ctx & Hctx & Harr)]]; [|done]. cbn [conn_ context_] in *.
  split; [|split; [|by exists ts, ctx]]; destruct (closes cb rs); cbn [negb] in *; [by rewrite Ho..|auto|done].
Qed.

(** ** Concrete inputs: two clients of loop 7; the first sends two requests, in
    pieces, the second of version 1.0; the requests of both interleave *)

Definition http_label_okb cb (hw : http_world) (lb : label) (ws : nat -> write_ret) : bool :=
  bool_decide (label_ok (world_ hw) lb) && server_label lb &&
  match message_call (world_ hw) lb with
  | None => true
  | Some (a, t, d) =>
      match deliver (client_of hw a) d with Some _ => true | None => false end &&
      match lb, objects (world_ hw) !! a with
      | LCallback _ rv _, Some (_, tc) => http_event_okb cb (mkHttp tc (context_of hw a)) (EvRead rv t ws)
      | _, _ => true
      end
  end.

Lemma http_label_okb_ok cb hw lb ws : http_label_okb cb hw lb ws = true -> http_label_ok cb hw lb ws.
Proof.
  unfold http_label_okb, http_label_ok. rewrite !andb_true_iff, bool_decide_eq_true. intros [[H1 H2] H3].
  split; [done|]. split; [done|]. destruct (message_call _ _) as [[[a t] d]|]; [|done].
  apply andb_true_iff in H3 as [H3 H4]. split; [by destruct (deliver _ _)|].
  destruct lb; try done. destruct (objects _ !! a) as [[c tc]|]; [|done]. by apply http_event_okb_ok.
Qed.

Fixpoint http_labels_okb cb (base : Z) (requests : Server.conn -> list wire_request) (hw : http_world)
    (lbs : list (label * (nat -> write_ret))) : bool :=
  match lbs with
  | [] => true
  | (lb, ws) :: lbs =>
      http_label_okb cb hw lb ws &&
      match http_world_step cb base requests hw lb ws with
      | Some (Ok hw) => http_labels_okb cb base requests hw lbs
      | _ => true
      end
  end.

Lemma http_labels_okb_ok cb base requests lbs : forall hw,
  http_labels_okb cb base requests hw lbs = true -> http_labels_ok cb base requests hw lbs.
Proof.
  induction lbs as [|[lb ws] lbs IH]; intros hw; cbn; [done|]. rewrite andb_true_iff. intros [H1 H2].
  split; [by apply http_label_okb_ok|]. destruct (http_world_step _ _ _ hw lb ws) as [[hw'|]|]; [by apply IH|done..].
Qed.

Definition demo_requests (c : Server.conn) : list wire_request :=
  if Server.conn_addr c =? 100 then [demo_request kHttp1_1; demo_request kHttp1_0] else [demo_request kHttp1_1].

Definition at_once (lb : label) : label * (nat -> write_ret) := (lb, fun _ => WriteErr EWOULDBLOCK).
Definition demo_read (d : bytes) : label := LCallback 7 (ReadvOk d []) (WriteOk 0).
Definition demo_handled : label := demo_read [].

Definition demo_http : list (label * (nat -> write_ret)) := map at_once (
  [LPoll 1 []; LAccept 100 5; LAccept 101 6; LPoll 7 []; LSwap 7; LFunctor 7; LFunctor 7; LLoop 7;
   LPoll 7 [(100, POLLIN); (101, POLLIN)];
   LChannel 7 5; demo_read (lit "GET /1 HTTP/1.1"); demo_handled;
   LChannel 7 5; demo_read (render_request (demo_request kHttp1_1)); demo_handled; LSwap 7; LLoop 7;
   LPoll 7 [(101, POLLOUT); (100, POLLIN)];
   LChannel 7 6; LCallback 7 (ReadvOk [] []) (WriteOk 20); demo_handled;
   LChannel 7 6; demo_read (drop 15 (render_request (demo_request kHttp1_1))); demo_handled; LSwap 7; LLoop 7;
   LPoll 7 [(100, POLLIN); (101, POLLIN)];
   LChannel 7 7; demo_read (render_request (demo_request kHttp1_0)); demo_handled;
   LChannel 7 7; demo_read []; demo_handled; LSwap 7; LLoop 7]).

(** The connection of the second client is reclaimed, and the first one's is shut
    down once its output has been written. *)
Definition demo_rest : list (label * (nat -> write_ret)) := map at_once (
  [LSwap 1; LFunctor 1; LLoop 1; LPoll 7 [(100, POLLOUT)];
   LChannel 7 8; LCallback 7 (ReadvOk [] []) (WriteOk 110); demo_handled; LSwap 7; LFunctor 7; LLoop 7]).

Definition demo_process : http_world :=
  process (mkServer (Server.started_server 1 (lit "127.0.0.1:80") (lit "srv") [7]) demo_callback).

(** What an observer sees of each connection. *)
Definition observed (x : option (res http_world)) : list (Z * StateE * Z * Z * bool) :=
  match x with
  | Some (Ok hw) =>
      map (fun x => (x.1, state_ x.2.2, zlen (written x.2.2), zlen (toStringView (outputBuffer_ x.2.2)),
                     write_closed x.2.2)) (map_to_list (objects (world_ hw)))
  | _ => []
  end.

Example demo_http_output :
  let run lbs := observed (http_world_run demo_callback 1 demo_requests demo_process lbs) in
  run demo_http = [(101, kDisconnected, 20, 47, false); (100, kDisconnecting, 0, 110, false)] /\
  run (demo_http ++ demo_rest) = [(100, kDisconnecting, 110, 0, true)].
Proof. split; vm_compute; reflexivity. Qed.

Lemma http_server_correct_witness :
  exists hw, http_world_run demo_callback 1 demo_requests demo_process (demo_http ++ demo_rest) = Some (Ok hw) /\
    forall a c tc, objects (world_ hw) !! a = Some (c, tc) ->
      exists sent rs, demo_requests c = sent ++ (client_of hw a).1 /\ Forall2 answered sent rs /\
        written tc ++ toStringView (outputBuffer_ tc) = replies demo_callback rs.
Proof.
  destruct (http_server_correct demo_callback 1 (lit "127.0.0.1:80") (lit "srv") 1 (fun _ => 7) demo_requests
    (demo_http ++ demo_rest)) as (srv & E & H); [lia|apply demo_callback_fits|..].
  - pose proof demo_exchanges_ok as [[H1 _] [[H2 _] _]%Forall_cons]%Forall_cons. intros c. unfold demo_requests.
    destruct (Server.conn_addr c =? 100); repeat (constructor; [done|]); constructor.
  - rewrite serve_ok in E by lia. injection E as <-.
    destruct H as (hw & E & _ & H & _). { apply http_labels_okb_ok. vm_compute. reflexivity. }
    exists hw. split; [exact E|]. intros a c tc Ha. destruct (H a c tc Ha) as (sent & rs & Hreq & Hans & Hw & _).
    exists sent, rs. exact (conj Hreq (conj Hans Hw)).
Defined.
