(* ===== verification/WebServer.v ===== *)
(** * The example web server: examples/httpd/WebServer.h and WebServer.cc

    The request handler with its pages, the table of users and the statements
    it sends to the database.  The file system (what opening and reading a path
    gives) and the database are arguments. *)

From S2P Require Import Prelude StdContainers FileUtil.
From S2P Require HttpRequest HttpResponse SqlPool.
Import HttpRequest(HttpRequest, method_, path_, kGet, kPost).
Import HttpResponse(HttpResponse, setStatusCode, setStatusMessage, setCloseConnection,
  setContentType, addHeader, setBody, k200Ok, k301MovedPermanently, k404NotFound).

(** ** State *)

Inductive FileType := kUnkown | kHtml | kImage.

#[global] Instance FileType_eq_dec : EqDecision FileType.
Proof. solve_decision. Defined.

Record WebServer := mkWebServer {
  docRoot_ : bytes;
  realFile_ : bytes;
  filetype_ : FileType;
  usersInfo_ : list (bytes * bytes)
}.

Definition WebServer_ctor (docRoot : bytes) : WebServer := mkWebServer docRoot [] kUnkown [].

Definition set_file (w : WebServer) (f : bytes) (t : FileType) : WebServer :=
  mkWebServer (docRoot_ w) f t (usersInfo_ w).
Definition set_users (w : WebServer) (u : list (bytes * bytes)) : WebServer :=
  mkWebServer (docRoot_ w) (realFile_ w) (filetype_ w) u.
(** [realFile_ += s]. *)
Definition add_path (w : WebServer) (s : bytes) : WebServer :=
  set_file w (realFile_ w ++ s) (filetype_ w).

Definition filetypeToString (ft : FileType) : bytes :=
  match ft with
  | kHtml => lit "text/html"
  | kImage => lit "image/png"
  | kUnkown => lit "Unkown"
  end.

(** What opening a path and reading it gives, and the memory of the local
    [ReadSmallFile]. *)
Record file_view := mkView {
  view_open : Z; view_errno : Z; view_pread : io_result; view_memory : bytes
}.

(** The text of a statement that adds a user. *)
Definition insert_statement (name password : bytes) : bytes :=
  lit "INSERT INTO users(username, password) values ('" ++ name ++ lit "', '" ++ password ++ lit "');".

(** The name and the password of a form, by fixed offsets around the first
    ampersand; [npos] is the largest [size_t]. *)
Definition parse_form (body : bytes) : res (bytes * bytes) :=
  let andMark := match str_find x26 body with Some i => i | None => 2 ^ 64 - 1 end in
  name ← substr body 5 (u64 (andMark - 5));
  password ← substr body (u64 (andMark + 10)) (u64 (zlen body - andMark - 10));
  Ok (name, password).

Section Handler.
Context (fs : bytes -> file_view).
(** Running a statement: the results of [mysql_query] and of
    [mysql_use_result], and the database after it. *)
Context {Db Rows : Type} (exec : Db -> bytes -> Z * option Rows * Db).
(** What an [int] that was not written to holds. *)
Context (garbage : Z).

(** [readToBuffer] into a new [ReadSmallFile] with an uninitialised size: the
    error, the size and the file. *)
Definition read_page (path : bytes) : res (Z * Z * ReadSmallFile) :=
  let v := fs path in
  let rsf := ReadSmallFile_ctor (view_open v) (view_errno v) (view_memory v) in
  '(err, size, rsf) ← readToBuffer rsf (view_pread v) (Some garbage);
  Ok (err, match size with Some n => n | None => garbage end, rsf).

(** The answers of the POST requests end alike. *)
Definition send_page (w : WebServer) (response : HttpResponse) : res HttpResponse :=
  '(_, fileSize, rsf) ← read_page (realFile_ w);
  body ← buffer_string rsf fileSize;
  Ok (setBody
        (addHeader
           (setContentType (setStatusMessage (setStatusCode response k200Ok) (lit "OK")) (lit "text/html"))
           (lit "Server") (lit "orange")) body).

Definition on_get (w : WebServer) (path : bytes) (response : HttpResponse) : res (WebServer * HttpResponse) :=
  let found :=
    if bool_decide (path = lit "/") then Some (lit "/bench.html", kHtml)
    else if bool_decide (path = lit "/favion.ico") then Some (lit "/fig.ico", kImage)
    else None in
  match found with
  | None =>
      Ok (set_file w (realFile_ w) kUnkown,
          setCloseConnection
            (setStatusMessage (setStatusCode response k404NotFound) (lit "Not Found")) true)
  | Some (file, type) =>
      let w := set_file w (realFile_ w ++ file) type in
      '(err, fileSize, rsf) ← read_page (realFile_ w);
      if 0 <? err then
        Ok (w, setCloseConnection
                 (setStatusMessage (setStatusCode response k301MovedPermanently)
                    (lit "Moved Permanently")) true)
      else
        body ← buffer_string rsf fileSize;
        Ok (w, setBody
                 (addHeader
                    (setContentType (setStatusMessage (setStatusCode response k200Ok) (lit "OK"))
                       (filetypeToString (filetype_ w)))
                    (lit "Server") (lit "orange")) body)
  end.

(** [/3]: [emplace] adds a user whose name is not in the map. *)
Definition register (w : WebServer) (db : Db) (name password : bytes) : WebServer * Db :=
  match map_find name (usersInfo_ w) with
  | None =>
      let '(code, rows, db) := exec db (insert_statement name password) in
      let res := SqlPool.query code rows in
      let w := set_users w (map_assign name password (usersInfo_ w)) in
      (add_path w (match res with None => lit "/login.html" | Some _ => lit "/registerError.html" end), db)
  | Some _ => (add_path w (lit "/registerError.html"), db)
  end.

(** [/2]. *)
Definition log_in (w : WebServer) (name password : bytes) : WebServer :=
  add_path w
    (if bool_decide (map_find name (usersInfo_ w) = Some password) then lit "/welcome.html"
     else lit "/loginError.html").

Definition on_post (w : WebServer) (db : Db) (path body : bytes) (response : HttpResponse)
    : res (WebServer * Db * HttpResponse) :=
  if bool_decide (path = lit "/2") || bool_decide (path = lit "/3") then
    '(name, password) ← parse_form body;
    let '(w, db) :=
      if bool_decide (path = lit "/3") then register w db name password
      else (log_in w name password, db) in
    response ← send_page w response;
    Ok (w, db, response)
  else
    let w :=
      if bool_decide (path = lit "/0") then add_path w (lit "/register.html")
      else if bool_decide (path = lit "/1") then add_path w (lit "/login.html")
      else w in
    response ← send_page w response;
    Ok (w, db, response).

(** [onRequest]; the methods other than GET and POST leave the response as it
    is. *)
Definition onRequest (w : WebServer) (db : Db) (request : HttpRequest) (response : HttpResponse)
    : res (WebServer * Db * HttpResponse) :=
  let w := set_file w (docRoot_ w) (filetype_ w) in
  match method_ request with
  | kGet =>
      '(w, response) ← on_get w (path_ request) response;
      Ok (w, db, response)
  | kPost => on_post w db (path_ request) (HttpRequest.body_ request) response
  | _ => Ok (w, db, response)
  end.

End Handler.

(** [initUserInfo]: the second and third columns of every row fetched; a
    column may be null. *)
Fixpoint initUserInfo (w : WebServer) (rows : list (option bytes * option bytes)) : res WebServer :=
  match rows with
  | [] => Ok w
  | (Some name, Some password) :: rows =>
      initUserInfo (set_users w (map_assign name password (usersInfo_ w))) rows
  | _ :: _ => Err NullDereference
  end.

(** ** Specification: accounts

    A name is registered once, with the password it was registered with first;
    logging in shows the welcome page exactly for a registered name and its
    password. *)

Inductive form := Register (name password : bytes) | Login (name password : bytes).

Definition form_body (f : form) : bytes :=
  match f with Register name password | Login name password =>
    lit "user=" ++ name ++ [x26] ++ lit "password=" ++ password
  end.

Definition form_path (f : form) : bytes :=
  match f with Register _ _ => lit "/3" | Login _ _ => lit "/2" end.

(** The name has no ampersand; the body has a size. *)
Definition form_ok (f : form) : Prop :=
  match f with Register name _ | Login name _ => (x26 ∉ name) /\ zlen (form_body f) < 2 ^ 63 end.

Definition posts (request : HttpRequest) (f : form) : Prop :=
  method_ request = kPost /\ path_ request = form_path f /\ HttpRequest.body_ request = form_body f.

Abbreviation accounts := (gmap bytes bytes).

Definition spec_page (m : accounts) (f : form) : bytes * accounts :=
  match f with
  | Register name password =>
      match m !! name with
      | None => (lit "/login.html", <[name := password]> m)
      | Some _ => (lit "/registerError.html", m)
      end
  | Login name password =>
      (if decide (m !! name = Some password) then lit "/welcome.html" else lit "/loginError.html", m)
  end.

Fixpoint spec_pages (m : accounts) (fs : list form) : list bytes * accounts :=
  match fs with
  | [] => ([], m)
  | f :: fs =>
      let '(page, m) := spec_page m f in
      let '(pages, m) := spec_pages m fs in
      (page :: pages, m)
  end.

Definition post_pages : list bytes :=
  map lit ["/login.html"; "/registerError.html"; "/welcome.html"; "/loginError.html"]%string.

Lemma spec_page_known m f : (spec_page m f).1 ∈ post_pages.
Proof.
  assert (forall page, bool_decide (page ∈ post_pages) = true -> page ∈ post_pages) as H
    by (intros page; apply bool_decide_eq_true_1).
  destruct f as [name password|name password]; cbn [spec_page].
  - destruct (m !! name); apply H; by vm_compute.
  - destruct (decide _); apply H; by vm_compute.
Qed.

(** The table of the server stands for the accounts. *)
Definition users_rel (users : list (bytes * bytes)) (m : accounts) : Prop :=
  forall name, map_find name users = m !! name.

Lemma users_rel_insert users m name password :
  users_rel users m -> users_rel (map_assign name password users) (<[name := password]> m).
Proof.
  intros Hu k. destruct (decide (k = name)) as [->|Hne].
  - by rewrite map_find_assign_eq, lookup_insert_eq.
  - by rewrite map_find_assign_ne, lookup_insert_ne by congruence.
Qed.

(** The offsets of [parse_form] fit the two field names. *)
Lemma parse_form_body f name password :
  f = Register name password \/ f = Login name password ->
  form_ok f -> parse_form (form_body f) = Ok (name, password).
Proof.
  intros Hf Hok. assert ((x26 ∉ name) /\ zlen (form_body f) < 2 ^ 63) as [Hn Hl]
    by by destruct Hf as [-> | ->].
  assert (form_body f = (lit "user=" ++ name) ++ x26 :: (lit "password=" ++ password)) as E
    by by destruct Hf as [-> | ->].
  rewrite E in *. unfold parse_form. assert (zlen (lit "user=") = 5) as H5 by done.
  assert (zlen (lit "password=") = 9) as H9 by done.
  rewrite str_find_hit by (rewrite not_elem_of_app; split; [decide_now|done]).
  autorewrite with zlen in *. rewrite H5, H9 in *.
  pose proof (zlen_nonneg name). pose proof (zlen_nonneg password).
  rewrite !u64_small by lia. rewrite <- !app_assoc, (substr_mid _ _ _ 5) by (done || lia). cbn [mbind res_bind].
  replace (lit "user=" ++ name ++ x26 :: lit "password=" ++ password)
    with ((lit "user=" ++ name ++ [x26] ++ lit "password=") ++ password) by by rewrite <- !app_assoc.
  rewrite substr_end; [done| |lia]. autorewrite with zlen. rewrite H5, H9. cbn. lia.
Qed.

Section Accounts.
Context (fs : bytes -> file_view) {Db Rows : Type} (exec : Db -> bytes -> Z * option Rows * Db) (garbage : Z).

(** A readable file of fewer than 64K bytes. *)
Definition readable (path content : bytes) : Prop :=
  0 <= view_open (fs path) /\ view_pread (fs path) = IoData content /\
  zlen content < kBufferSize /\ zlen (view_memory (fs path)) = kBufferSize.

Lemma read_page_readable path content :
  readable path content -> exists rsf, read_page fs garbage path = Ok (0, zlen content, rsf) /\
    buffer_string rsf (zlen content) = Ok content.
Proof.
  intros (Ho & Hp & Hc & Hm). unfold read_page.
  destruct (readToBuffer_string
    (ReadSmallFile_ctor (view_open (fs path)) (view_errno (fs path)) (view_memory (fs path)))
    content garbage) as (rsf & E & _ & Hs & _).
  - done.
  - cbn. rewrite zlen_splice; [done|lia|]. rewrite Hm. done.
  - done.
  - rewrite Hp, E. cbn [mbind res_bind]. exists rsf. split; [|done].
    unfold ReadSmallFile_ctor. cbn [err_]. by replace (view_open (fs path) <? 0) with false by lia.
Qed.

Lemma send_page_readable w response content :
  readable (realFile_ w) content ->
  exists response', send_page fs garbage w response = Ok response' /\
    HttpResponse.body_ response' = content /\ HttpResponse.statusCode_ response' = k200Ok.
Proof.
  intros (rsf & E & Hs)%read_page_readable. unfold send_page. rewrite E. cbn [mbind res_bind].
  rewrite Hs. by eexists.
Qed.

(** Every page of the answers to forms is such a file under the root. *)
Context (docRoot : bytes) (page_content : bytes -> bytes).
Hypothesis pages_readable : forall page, page ∈ post_pages -> readable (docRoot ++ page) (page_content page).

(** [mysql_use_result] has no result set after a statement that returns no rows. *)
Hypothesis insert_no_rows : forall db name password, (exec db (insert_statement name password)).1.2 = None.

(** What a handler leaves: the page the specification names, and its table. *)
Definition serves (w : WebServer) (m : accounts) (f : form) : Prop :=
  docRoot_ w = docRoot /\ users_rel (usersInfo_ w) (spec_page m f).2 /\
  realFile_ w = docRoot ++ (spec_page m f).1.

Lemma register_serves w db m name password :
  docRoot_ w = docRoot -> realFile_ w = docRoot -> users_rel (usersInfo_ w) m ->
  serves (register exec w db name password).1 m (Register name password).
Proof.
  intros Hd Hr Hu. unfold register, serves. cbn [spec_page]. rewrite (Hu name).
  destruct (m !! name) as [q|] eqn:E; [cbn -[lit]; by rewrite Hr|].
  pose proof (insert_no_rows db name password) as Hx.
  destruct (exec db (insert_statement name password)) as [[code rows] db1]. cbn in Hx. subst rows.
  replace (SqlPool.query code None) with (@None Rows) by (unfold SqlPool.query; by destruct (negb _)).
  cbn -[lit]. rewrite Hr. split; [done|]. split; [by apply users_rel_insert|done].
Qed.

Lemma log_in_serves w m name password :
  docRoot_ w = docRoot -> realFile_ w = docRoot -> users_rel (usersInfo_ w) m ->
  serves (log_in w name password) m (Login name password).
Proof.
  intros Hd Hr Hu. unfold log_in, serves. cbn [spec_page]. rewrite (Hu name).
  case_bool_decide; [rewrite decide_True by done|rewrite decide_False by done]; cbn -[lit]; by rewrite Hr.
Qed.

Lemma post_form w db request response m f :
  docRoot_ w = docRoot -> users_rel (usersInfo_ w) m -> posts request f -> form_ok f ->
  exists w' db' response', onRequest fs exec garbage w db request response = Ok (w', db', response') /\
    docRoot_ w' = docRoot /\ users_rel (usersInfo_ w') (spec_page m f).2 /\
    HttpResponse.body_ response' = page_content (spec_page m f).1 /\
    HttpResponse.statusCode_ response' = k200Ok.
Proof.
  intros Hd Hu (Hm & Hp & Hb) Hok. unfold onRequest. rewrite Hm, Hp, Hb.
  set (w0 := set_file w (docRoot_ w) (filetype_ w)).
  assert (exists w' db', serves w' m f /\
    on_post fs exec garbage w0 db (form_path f) (form_body f) response
      = (response ← send_page fs garbage w' response; Ok (w', db', response)))
    as (w' & db' & (Hd' & Hu' & Hr') & ->).
  { destruct f as [name password|name password]; unfold on_post;
      rewrite (parse_form_body _ name password) by auto; cbn [mbind res_bind form_path].
    - change (bool_decide (lit "/3" = lit "/2") || bool_decide (lit "/3" = lit "/3")) with true.
      change (bool_decide (lit "/3" = lit "/3")) with true. cbn iota.
      pose proof (register_serves w0 db m name password Hd Hd Hu) as Hs.
      destruct (register exec w0 db name password) as [w' db']. by exists w', db'.
    - change (bool_decide (lit "/2" = lit "/2") || bool_decide (lit "/2" = lit "/3")) with true.
      change (bool_decide (lit "/2" = lit "/3")) with false. cbn iota.
      exists (log_in w0 name password), db. split; [by apply log_in_serves|done]. }
  destruct (send_page_readable w' response (page_content (spec_page m f).1)) as (r & -> & Hc & Hs);
    [rewrite Hr'; apply pages_readable, spec_page_known|].
  cbn [mbind res_bind]. by exists w', db', r.
Qed.

Fixpoint serve (w : WebServer) (db : Db) (requests : list (HttpRequest * HttpResponse))
    : res (WebServer * Db * list HttpResponse) :=
  match requests with
  | [] => Ok (w, db, [])
  | (request, response) :: requests =>
      '(w, db, response) ← onRequest fs exec garbage w db request response;
      '(w, db, responses) ← serve w db requests;
      Ok (w, db, response :: responses)
  end.

(** C25: the server implements the accounts: to any sequence of forms, handled
    one after the other, it answers 200 with the pages the specification asks for, and its table
    stands for the accounts of the specification afterwards, whatever the
    database makes of the statements. *)
Theorem accounts_refine w db requests m forms :
  docRoot_ w = docRoot -> users_rel (usersInfo_ w) m ->
  Forall2 (fun r f => posts r.1 f /\ form_ok f) requests forms ->
  exists w' db' responses, serve w db requests = Ok (w', db', responses) /\
    map HttpResponse.body_ responses = map page_content (spec_pages m forms).1 /\
    Forall (fun r => HttpResponse.statusCode_ r = k200Ok) responses /\
    users_rel (usersInfo_ w') (spec_pages m forms).2.
Proof.
  intros Hd Hu Hf. revert w db m Hd Hu. induction Hf as [|[q r] f qs forms [Hq Hok] _ IH]; intros w db m Hd Hu.
  - exists w, db, []. by repeat split.
  - destruct (post_form w db q r m f Hd Hu Hq Hok) as (w1 & db1 & r1 & E1 & Hd1 & Hu1 & Hb1 & Hs1).
    destruct (IH w1 db1 (spec_page m f).2 Hd1 Hu1) as (w2 & db2 & rs & E2 & Hb2 & Hs2 & Hu2).
    exists w2, db2, (r1 :: rs). cbn [serve spec_pages]. rewrite E1. cbn [mbind res_bind]. rewrite E2.
    destruct (spec_page m f) as [page m1]. cbn [fst snd] in *.
    destruct (spec_pages m1 forms) as [pages m2]. cbn [fst snd map] in *.
    split; [done|]. split; [by rewrite Hb1, Hb2|]. split; [by constructor|done].
Qed.

End Accounts.

(** ** Witness: a root whose pages hold their own paths *)

Definition demo_fs (path : bytes) : file_view :=
  mkView 7 0 (IoData (lit "<" ++ path ++ lit ">")) (replicate (Z.to_nat kBufferSize) x00).

(** The statements run so far; the second one fails. *)
Definition demo_exec (db : list bytes) (statement : bytes) : Z * option unit * list bytes :=
  (if bool_decide (length db = 1%nat) then 1 else 0, None, db ++ [statement]).

Definition form_request (f : form) : HttpRequest * HttpResponse :=
  (HttpRequest.mkHttpRequest kPost HttpRequest.kHttp1_1 (form_path f) [] 0 [] (form_body f),
   HttpResponse.HttpResponse_ctor false).

Definition demo_forms : list form :=
  [Login (lit "ann") (lit "x&y"); Register (lit "ann") (lit "x&y"); Register (lit "ann") (lit "z");
   Login (lit "ann") (lit "x&y"); Register (lit "bob") []; Login (lit "bob") []; Login (lit "bob") (lit "x&y")].

Definition demo_content (page : bytes) : bytes := lit "<" ++ lit "root" ++ page ++ lit ">".

Lemma demo_readable page : page ∈ post_pages -> readable demo_fs (lit "root" ++ page) (demo_content page).
Proof.
  intros Hp. unfold readable, demo_fs, demo_content. cbn [view_open view_pread view_memory].
  split; [done|]. split; [by rewrite <- app_assoc|]. split; [|by rewrite zlen_replicate].
  unfold post_pages in Hp. cbn [map] in Hp. rewrite !elem_of_cons, elem_of_nil in Hp.
  unfold kBufferSize. by destruct Hp as [->|[->|[->|[->|[]]]]].
Qed.

Lemma accounts_refine_witness :
  exists w' db' responses,
    serve demo_fs demo_exec 0 (WebServer_ctor (lit "root")) [] (map form_request demo_forms)
      = Ok (w', db', responses) /\
    map HttpResponse.body_ responses = map demo_content (spec_pages ∅ demo_forms).1 /\
    Forall (fun r => HttpResponse.statusCode_ r = k200Ok) responses /\
    users_rel (usersInfo_ w') (spec_pages ∅ demo_forms).2.
Proof.
  apply (accounts_refine demo_fs demo_exec 0 (lit "root") demo_content demo_readable
    ltac:(done) (WebServer_ctor (lit "root")) [] (map form_request demo_forms) ∅ demo_forms).
  - done.
  - intros name. by rewrite lookup_empty.
  - repeat constructor; try decide_now.
Defined.

Example accounts_example :
  (spec_pages ∅ demo_forms).1 =
  map lit ["/loginError.html"; "/login.html"; "/registerError.html"; "/welcome.html"; "/login.html";
           "/welcome.html"; "/loginError.html"]%string.
Proof. vm_compute. reflexivity. Qed.

(** ** What the handler does with other requests *)

Section Errors.
Context (fs : bytes -> file_view) {Db Rows : Type} (exec : Db -> bytes -> Z * option Rows * Db) (garbage : Z).

(** A form without an ampersand that is shorter than the two offsets makes
    [substr] throw, and nothing catches the exception. *)
Lemma short_form_throws w db request response :
  method_ request = kPost -> path_ request = lit "/2" \/ path_ request = lit "/3" ->
  x26 ∉ HttpRequest.body_ request -> zlen (HttpRequest.body_ request) < 9 ->
  onRequest fs exec garbage w db request response = Err OutOfBounds.
Proof.
  intros Hm Hp Hb Hl. unfold onRequest, on_post. rewrite Hm.
  assert (bool_decide (path_ request = lit "/2") || bool_decide (path_ request = lit "/3") = true) as ->
    by by destruct Hp as [-> | ->].
  assert (parse_form (HttpRequest.body_ request) = Err OutOfBounds) as ->; [|done].
  unfold parse_form, str_find. rewrite find_byte_absent, Z.eqb_refl by done.
  unfold substr. destruct (Z.leb_spec 5 (zlen (HttpRequest.body_ request))) as [H5|H5]; [|done].
  cbn [guard_ mbind res_bind]. change (u64 (2 ^ 64 - 1 + 10)) with 9.
  by replace (9 <=? zlen (HttpRequest.body_ request)) with false by lia.
Qed.

(** When the page cannot be opened or read, the size is never written and the
    body is made of whatever it holds: an exception if that is negative. *)
Lemma unreadable_page_throws w response :
  garbage < 0 ->
  view_open (fs (realFile_ w)) < 0 \/ (exists e, view_pread (fs (realFile_ w)) = IoError e) ->
  send_page fs garbage w response = Err LengthError.
Proof.
  intros Hg Hf. unfold send_page, read_page.
  destruct (readToBuffer_fails
    (ReadSmallFile_ctor (view_open (fs (realFile_ w))) (view_errno (fs (realFile_ w)))
       (view_memory (fs (realFile_ w)))) (view_pread (fs (realFile_ w))) (Some garbage)) as [e ->]; [done|].
  cbn [mbind res_bind]. unfold buffer_string. by replace (0 <=? garbage) with false by lia.
Qed.

(** A registration is answered alike whether the statement failed or not. *)
Lemma failed_insert_unnoticed w db name password code :
  map_find name (usersInfo_ w) = None ->
  (exec db (insert_statement name password)).1 = (code, None) ->
  (register exec w db name password).1 =
    add_path (set_users w (map_assign name password (usersInfo_ w))) (lit "/login.html").
Proof.
  intros Hn He. unfold register. rewrite Hn.
  destruct (exec db (insert_statement name password)) as [[c r] db']. injection He as -> ->.
  unfold SqlPool.query. by destruct (negb (code =? 0)).
Qed.

End Errors.

(** The statement is glued from the form: a password may end it and add to it. *)
Example insert_injection :
  insert_statement (lit "ann") (lit "x'); DROP TABLE users; -- ") =
  lit "INSERT INTO users(username, password) values ('ann', 'x'); DROP TABLE users; -- ');".
Proof. vm_compute. reflexivity. Qed.
