(* ===== verification/ChatServer.v ===== *)
(** * The chat server: examples/chat/chat_server.cc

    The server over its connections and its codec: what [onConnection] does to
    the set of connections, and the broadcast of every message the codec takes
    out of a connection's input.  A connection is named by the address of its
    object, which is what the set is ordered by.  The frames handed to
    [TcpConnection::send] are recorded; TcpConnection.v says what becomes of
    them. *)

From S2P Require Import Prelude StdContainers Endian Buffer BufferSpec TcpConnection Codec.

Section Chat.
Context (host : endianness).

Record ChatServer := mkChat {
  connections_ : list Z;
  inputs : gmap Z Buffer;
  sends : list (Z * bytes);
  shutdowns : list Z
}.

Definition chat_start : ChatServer := mkChat [] ∅ [] [].

(** The input buffer of a connection, empty before its first data. *)
Definition input_of (s : ChatServer) (conn : Z) : Buffer := default buffer_init (inputs s !! conn).

Definition onConnection (s : ChatServer) (conn : Z) (connected : bool) : ChatServer :=
  mkChat (if connected then set_insert conn (connections_ s) else set_erase conn (connections_ s))
    (inputs s) (sends s) (shutdowns s).

(** The loop over the set: the codec makes a frame for each connection. *)
Fixpoint send_all (conns : list Z) (message : bytes) (l : list (Z * bytes)) : res (list (Z * bytes)) :=
  match conns with
  | [] => Ok l
  | conn :: conns =>
      buf ← encode host message;
      send_all conns message (l ++ [(conn, toStringView buf)])
  end.

Definition onStringMessage (s : ChatServer) (message : bytes) : res ChatServer :=
  l ← send_all (connections_ s) message (sends s);
  Ok (mkChat (connections_ s) (inputs s) l (shutdowns s)).

Fixpoint onStringMessages (s : ChatServer) (messages : list bytes) : res ChatServer :=
  match messages with
  | [] => Ok s
  | message :: messages => s ← onStringMessage s message; onStringMessages s messages
  end.

(** The bytes [d] arrive on a connection: the codec gives the complete
    messages to [onStringMessage], which does not touch the buffer, and may shut
    the connection down after them. *)
Definition server_data (s : ChatServer) (conn : Z) (d : bytes) : res ChatServer :=
  buf ← append (input_of s conn) d;
  c ← onMessage host (mkCodec buf [] false);
  s ← onStringMessages
        (mkChat (connections_ s) (<[conn := Codec.buf c]> (inputs s)) (sends s) (shutdowns s)) (delivered c);
  Ok (mkChat (connections_ s) (inputs s) (sends s)
        (if shut c then shutdowns s ++ [conn] else shutdowns s)).

Inductive chat_event := EvUp (conn : Z) | EvDown (conn : Z) | EvData (conn : Z) (d : bytes).

Definition chat_step (s : ChatServer) (e : chat_event) : res ChatServer :=
  match e with
  | EvUp conn => Ok (onConnection s conn true)
  | EvDown conn => Ok (onConnection s conn false)
  | EvData conn d => server_data s conn d
  end.

Fixpoint chat_run (s : ChatServer) (es : list chat_event) : res ChatServer :=
  match es with
  | [] => Ok s
  | e :: es => s ← chat_step s e; chat_run s es
  end.

(** ** Specification *)

(** What was sent to a connection, and what arrived on one. *)
Definition sent_to (conn : Z) (l : list (Z * bytes)) : bytes :=
  concat (omap (fun p => if decide (p.1 = conn) then Some p.2 else None) l).

Definition arrived (conn : Z) (es : list chat_event) : bytes :=
  concat (omap (fun e => match e with EvData c d => if decide (c = conn) then Some d else None
                                    | _ => None end) es).

(** The messages of one speaker in a conversation. *)
Definition said (conn : Z) (room : list (Z * bytes)) : list bytes :=
  omap (fun p => if decide (p.1 = conn) then Some p.2 else None) room.

(** ** Lemmas *)

Lemma sent_to_snoc conn l c f : sent_to conn (l ++ [(c, f)]) = sent_to conn l ++ if decide (c = conn) then f else [].
Proof.
  unfold sent_to. rewrite omap_snoc, concat_app. cbn. by case_decide; cbn; rewrite ?app_nil_r.
Qed.

Lemma said_app conn r1 r2 : said conn (r1 ++ r2) = said conn r1 ++ said conn r2.
Proof. apply omap_app. Qed.

Lemma said_one conn c ms : said conn (map (pair c) ms) = if decide (c = conn) then ms else [].
Proof.
  unfold said. induction ms as [|m ms IH]; [by case_decide|].
  cbn [map]. change (omap ?f (?x :: ?l)) with (match f x with Some y => y :: omap f l | None => omap f l end).
  rewrite IH. cbn. by case_decide.
Qed.

Lemma arrived_cons conn e es :
  arrived conn (e :: es) =
  match e with EvData c d => if decide (c = conn) then d else [] | _ => [] end ++ arrived conn es.
Proof. unfold arrived. destruct e as [c|c|c d]; cbn; [done|done|]. by case_decide. Qed.

Lemma send_all_ok conns message : forall l,
  msg_ok message -> exists l', send_all conns message l = Ok l' /\
    forall i, (i ∉ conns -> sent_to i l' = sent_to i l) /\
      (i ∈ conns -> NoDup conns -> sent_to i l' = sent_to i l ++ frame message).
Proof.
  induction conns as [|c conns IH]; intros l Hm; cbn [send_all].
  - exists l. split; [done|]. intros i. split; [done|]. by intros ?%elem_of_nil.
  - destruct (encode_ok host message) as (b & -> & _ & Hv); [unfold msg_ok, max_size in *; lia|].
    cbn [mbind res_bind]. destruct (IH (l ++ [(c, toStringView b)]) Hm) as (l' & -> & Hl).
    exists l'. split; [done|]. intros i. destruct (Hl i) as [Hout Hin]. rewrite sent_to_snoc, Hv in Hout, Hin.
    rewrite not_elem_of_cons, elem_of_cons. split.
    + intros [Hne Hni]. rewrite (Hout Hni), decide_False by congruence. by rewrite app_nil_r.
    + intros Hi [Hc Hnd]%NoDup_cons. destruct (decide (c = i)) as [<-|Hne].
      * by apply Hout.
      * rewrite app_nil_r in Hin. apply Hin; [|done]. by destruct Hi as [->|Hi].
Qed.

Lemma onStringMessages_ok messages : forall s,
  Forall msg_ok messages -> set_ok (connections_ s) ->
  exists s', onStringMessages s messages = Ok s' /\
    connections_ s' = connections_ s /\ inputs s' = inputs s /\ shutdowns s' = shutdowns s /\
    forall i, i ∈ connections_ s -> sent_to i (sends s') = sent_to i (sends s) ++ concat (map frame messages).
Proof.
  induction messages as [|m messages IH]; intros s Hm Hs; cbn [onStringMessages].
  - exists s. repeat split. intros i _. cbn. by rewrite app_nil_r.
  - apply Forall_cons in Hm as [Hm Hms]. unfold onStringMessage.
    destruct (send_all_ok (connections_ s) m (sends s) Hm) as (l & -> & Hl). cbn [mbind res_bind].
    destruct (IH (mkChat (connections_ s) (inputs s) l (shutdowns s)) Hms Hs) as (s' & -> & Hc & Hi & Hd & Ht).
    exists s'. split; [done|]. split; [done|]. split; [done|]. split; [done|]. intros i Hin.
    rewrite (Ht i Hin). cbn [sends map concat]. destruct (Hl i) as [_ Hl2].
    rewrite (Hl2 Hin (set_ok_nodup _ Hs)). by rewrite app_assoc.
Qed.

(** The streams of all connections from here on: what is buffered and what
    still arrives is a stream of frames and an incomplete one. *)
Record streams (s : ChatServer) (es : list chat_event) (ms : Z -> list bytes) (tail : Z -> bytes) : Prop := {
  str_ok j : buffer_ok (input_of s j);
  str_incomplete j : incomplete (toStringView (input_of s j));
  str_frames j : toStringView (input_of s j) ++ arrived j es = concat (map frame (ms j)) ++ tail j;
  str_msgs j : Forall msg_ok (ms j);
  str_tail j : incomplete (tail j);
  str_size j : zlen (buffer_ (input_of s j)) + zlen (arrived j es) <= max_size
}.

Lemma server_data_ok s c d es ms tail :
  streams s (EvData c d :: es) ms tail -> set_ok (connections_ s) ->
  exists s' ms1 ms', server_data s c d = Ok s' /\ ms c = ms1 ++ ms' c /\ (forall j, j <> c -> ms' j = ms j) /\
    streams s' es ms' tail /\ connections_ s' = connections_ s /\ shutdowns s' = shutdowns s /\
    forall i, i ∈ connections_ s -> sent_to i (sends s') = sent_to i (sends s) ++ concat (map frame ms1).
Proof.
  intros [H1 H2 H3 H4 H5 H6] Hs.
  pose proof (H3 c) as E. pose proof (H6 c) as Hz. rewrite arrived_cons, decide_True in E, Hz by done.
  rewrite zlen_app in Hz. pose proof (zlen_nonneg (arrived c es)).
  unfold server_data. destruct (append_grows (input_of s c) d) as (b1 & -> & Hb1 & Hv1 & Hg); [done|lia|].
  cbn [mbind res_bind]. rewrite app_assoc, <- Hv1 in E.
  destruct (split_prefix (ms c) (tail c) _ _ E (H4 c) (H5 c)) as (ms1 & ms2 & t & Em & E2 & E3 & E4).
  pose proof (H4 c) as Hms. rewrite Em in Hms. apply Forall_app in Hms as [Hms1 Hms2].
  destruct (onMessage_frames host (mkCodec b1 [] false) ms1 t) as (b2 & -> & Hb2 & Hv2 & He2); [done..|].
  cbn [mbind res_bind delivered shut Codec.buf app] in *.
  destruct (onStringMessages_ok ms1
    (mkChat (connections_ s) (<[c := b2]> (inputs s)) (sends s) (shutdowns s)) Hms1 Hs)
    as (s' & -> & Hc & Hi & Hd & Ht). cbn [mbind res_bind connections_ inputs shutdowns sends] in *.
  exists (mkChat (connections_ s') (inputs s') (sends s') (shutdowns s')), ms1,
    (fun j => if decide (j = c) then ms2 else ms j).
  split; [done|]. split; [by rewrite decide_True|]. split; [intros j Hj; by rewrite decide_False|].
  split; [|by rewrite Hc, Hd].
  assert (forall j, input_of (mkChat (connections_ s') (inputs s') (sends s') (shutdowns s')) j
            = if decide (j = c) then b2 else input_of s j) as Hin.
  { intros j. unfold input_of. cbn [inputs]. rewrite Hi. case_decide as Ej.
    - subst j. by rewrite lookup_insert_eq.
    - by rewrite lookup_insert_ne by congruence. }
  split; intros j; cbn beta; rewrite ?Hin; destruct (decide (j = c)) as [->|Hj]; try done.
  - by rewrite Hv2.
  - by rewrite Hv2.
  - specialize (H3 j). rewrite arrived_cons, decide_False in H3 by congruence. done.
  - rewrite He2. lia.
  - specialize (H6 j). rewrite arrived_cons, decide_False in H6 by congruence. done.
Qed.

(** Coming and going does not touch the streams. *)
Lemma streams_connection s c up es ms tail e :
  e = EvUp c \/ e = EvDown c -> streams s (e :: es) ms tail -> streams (onConnection s c up) es ms tail.
Proof.
  intros He [H1 H2 H3 H4 H5 H6].
  split; intros j; change (input_of (onConnection s c up) j) with (input_of s j); try done;
    [specialize (H3 j)|specialize (H6 j)]; rewrite arrived_cons in *; by destruct He as [-> | ->].
Qed.

Lemma chat_run_relays es : forall s ms tail,
  streams s es ms tail -> set_ok (connections_ s) ->
  exists s' room, chat_run s es = Ok s' /\ (forall j, said j room = ms j) /\ shutdowns s' = shutdowns s /\
    (forall j, toStringView (input_of s' j) = tail j) /\
    forall i, i ∈ connections_ s -> EvDown i ∉ es ->
      sent_to i (sends s') = sent_to i (sends s) ++ concat (map frame (map snd room)).
Proof.
  induction es as [|e es IH]; intros s ms tail Hst Hs; cbn [chat_run].
  - destruct Hst as [H1 H2 H3 H4 H5 H6]. exists s, [].
    assert (forall j, ms j = [] /\ toStringView (input_of s j) = tail j) as Hnil.
    { intros j. specialize (H3 j). unfold arrived in H3. cbn in H3. rewrite app_nil_r in H3.
      destruct (onMessage_frames host (mkCodec (input_of s j) [] false) (ms j) (tail j)) as (b & E & _ & Hv & _);
        [apply H1|exact H3|apply H4|apply H5|]. unfold onMessage in E.
      rewrite loop_incomplete in E by (apply H1 || apply H2). cbn in E.
      injection E as E1 E2. split; [done|]. by rewrite E1. }
    split; [done|]. split; [intros j; by rewrite (proj1 (Hnil j))|]. split; [done|].
    split; [intros j; apply Hnil|]. intros i _ _. by rewrite app_nil_r.
  - destruct e as [c|c|c d]; cbn [chat_step].
    + cbn [mbind res_bind]. destruct (IH (onConnection s c true) ms tail) as (s' & room & E & Hr & Hd & Hv & Ht);
        [by apply (streams_connection s c true es ms tail (EvUp c)); [left|]|by apply set_insert_ok|].
      exists s', room. split; [done|]. split; [done|]. split; [done|]. split; [done|].
      intros i Hi Hni. apply Ht; [cbn; rewrite elem_of_set_insert; by right|].
      intros Hin. apply Hni. by right.
    + cbn [mbind res_bind]. destruct (IH (onConnection s c false) ms tail) as (s' & room & E & Hr & Hd & Hv & Ht);
        [by apply (streams_connection s c false es ms tail (EvDown c)); [right|]|by apply set_erase_ok|].
      exists s', room. split; [done|]. split; [done|]. split; [done|]. split; [done|].
      intros i Hi Hni. apply Ht; [|intros Hin; apply Hni; by right].
      cbn. rewrite elem_of_set_erase by done. split; [done|]. intros ->. apply Hni. by left.
    + destruct (server_data_ok s c d es ms tail Hst Hs) as (s1 & ms1 & ms' & -> & Ec & En & Hst1 & Hc1 & Hd1 & Ht1).
      cbn [mbind res_bind]. destruct (IH s1 ms' tail Hst1) as (s' & room & E & Hr & Hd & Hv & Ht); [by rewrite Hc1|].
      exists s', (map (pair c) ms1 ++ room). split; [done|]. split; [|split; [by rewrite Hd|split; [done|]]].
      * intros j. rewrite said_app, said_one, Hr. case_decide as Ej; [subst j; by rewrite Ec|].
        by rewrite En by congruence.
      * intros i Hi Hni. rewrite Ht; [|by rewrite Hc1|intros Hin; apply Hni; by right]. rewrite Ht1 by done.
        assert (map snd (map (pair c) ms1) = ms1) as Hsnd by (rewrite map_map; apply map_id).
        by rewrite !map_app, concat_app, Hsnd, <- app_assoc.
Qed.

Definition joins (members : list Z) : list chat_event := map EvUp members.

Lemma joins_run members : forall s, set_ok (connections_ s) ->
  exists s', chat_run s (joins members) = Ok s' /\ set_ok (connections_ s') /\ inputs s' = inputs s /\
    sends s' = sends s /\ shutdowns s' = shutdowns s /\
    forall i, i ∈ connections_ s' <-> i ∈ members \/ i ∈ connections_ s.
Proof.
  induction members as [|c members IH]; intros s Hs.
  - exists s. repeat split; try done; [by right|]. by intros [?%elem_of_nil|].
  - cbn [joins map chat_run chat_step mbind res_bind].
    destruct (IH (onConnection s c true) (set_insert_ok _ _ Hs)) as (s' & E & Hs' & Hi & He & Hd & Hm).
    exists s'. split; [exact E|]. do 4 (split; [done|]). intros i. rewrite Hm. cbn. rewrite elem_of_set_insert, elem_of_cons. tauto.
Qed.

Lemma chat_run_app es1 es2 s s1 :
  chat_run s es1 = Ok s1 -> chat_run s (es1 ++ es2) = chat_run s1 es2.
Proof.
  revert s. induction es1 as [|e es1 IH]; intros s; cbn [chat_run app]; [by intros [= ->]|].
  destruct (chat_step s e) as [s2|]; cbn [mbind res_bind]; [apply IH|done].
Qed.

End Chat.

(** ** Properties *)

(** A conversation.  Members join; then bytes arrive from any
    connections, split anywhere and interleaved anyhow, while others come and
    go.  If what arrives from each connection is a stream of frames and an
    incomplete one, there is one order of all messages, in which every speaker's
    messages keep their own order, such that every member who stays is sent
    exactly these messages in this order: whatever chunks its codec is given
    them in, it delivers them all. *)
Theorem chat_relays server client members es ms tail :
  (forall j, arrived j es = concat (map frame (ms j)) ++ tail j) ->
  (forall j, Forall msg_ok (ms j)) -> (forall j, incomplete (tail j)) ->
  (forall j, zlen (arrived j es) + 1032 <= max_size) ->
  exists s room, chat_run server chat_start (joins members ++ es) = Ok s /\
    (forall j, said j room = ms j) /\ shutdowns s = [] /\
    forall i chunks, i ∈ members -> EvDown i ∉ es ->
      concat chunks = sent_to i (sends s) -> zlen (concat chunks) + 1032 <= max_size ->
      exists b, feed client codec_start chunks = Ok (mkCodec b (map snd room) false) /\ toStringView b = [].
Proof.
  intros Ha Hm Ht Hz.
  destruct (joins_run server members chat_start) as (s0 & E0 & Hs0 & Hi0 & He0 & Hd0 & Hc0); [constructor|].
  assert (forall j, input_of s0 j = buffer_init) as Hin by (intros j; unfold input_of; by rewrite Hi0).
  destruct (chat_run_relays server es s0 ms tail) as (s & room & E & Hr & Hd & _ & Hsent); [|done|].
  { split; intros j; rewrite ?Hin, ?view_buffer_init; [apply buffer_init_ok|by left|apply Ha|apply Hm|apply Ht|].
    rewrite zlen_buffer_init. specialize (Hz j). lia. }
  exists s, room. rewrite (chat_run_app server _ _ _ _ E0). split; [done|]. split; [done|].
  split; [by rewrite Hd, Hd0|]. intros i chunks Hi Hni Ech Hzc.
  rewrite (Hsent i) in Ech by (done || apply Hc0; by left). rewrite He0 in Ech. cbn [app sent_to] in Ech.
  assert (Forall msg_ok (map snd room)) as Hroom.
  { apply Forall_forall. intros m (p & -> & Hp)%list_elem_of_fmap. specialize (Hm p.1). rewrite <- Hr in Hm.
    rewrite Forall_forall in Hm. apply Hm. unfold said. apply list_elem_of_omap. exists p.
    by rewrite decide_True. }
  destruct (feed_frames client chunks codec_start (map snd room) []) as (b & Eb & _ & Hv);
    cbn [codec_start buf]; rewrite ?view_buffer_init, ?zlen_buffer_init;
    [apply buffer_init_ok|by left| |done|by left|lia|].
  - rewrite app_nil_r. exact Ech.
  - by exists b.
Qed.

(** Three members; the first message of 1 arrives in two parts around one of 2,
    which leaves for home in between, and the start of a next one after it. *)
Definition demo_events : list chat_event :=
  [EvData 1 (take 3 (frame (lit "hi"))); EvData 2 (frame (lit "bye")); EvDown 2;
   EvData 1 (drop 3 (frame (lit "hi")) ++ frame (lit "yo") ++ [x00])].

Definition demo_said (j : Z) : list bytes :=
  if decide (1 = j) then [lit "hi"; lit "yo"] else if decide (2 = j) then [lit "bye"] else [].

Definition demo_tail (j : Z) : bytes := if decide (1 = j) then [x00] else [].

Lemma demo_arrived j : arrived j demo_events = concat (map frame (demo_said j)) ++ demo_tail j.
Proof.
  unfold demo_said, demo_tail, demo_events. rewrite !arrived_cons.
  destruct (decide (1 = j)) as [<-|H1]; [by vm_compute|]. by destruct (decide (2 = j)) as [<-|H2]; [vm_compute|].
Qed.

Lemma demo_arrived_small j : zlen (arrived j demo_events) + 1032 <= max_size.
Proof.
  rewrite demo_arrived. unfold demo_said, demo_tail.
  destruct (decide (1 = j)); [by vm_compute|]. by destruct (decide (2 = j)); vm_compute.
Qed.

Lemma chat_relays_witness :
  exists s room, chat_run BigEndian chat_start (joins [3; 1; 2] ++ demo_events) = Ok s /\
    (forall j, said j room = demo_said j) /\ shutdowns s = [] /\
    forall i chunks, i ∈ [3; 1; 2] -> EvDown i ∉ demo_events ->
      concat chunks = sent_to i (sends s) -> zlen (concat chunks) + 1032 <= max_size ->
      exists b, feed LittleEndian codec_start chunks = Ok (mkCodec b (map snd room) false) /\
        toStringView b = [].
Proof.
  apply (chat_relays BigEndian LittleEndian [3; 1; 2] demo_events demo_said demo_tail).
  - exact demo_arrived.
  - intros j. unfold demo_said. repeat case_decide; repeat constructor; by vm_compute.
  - intros j. left. unfold demo_tail. by case_decide; vm_compute.
  - exact demo_arrived_small.
Defined.

(** Member 3 hears 2 before 1; 2 left after its own message. *)
Example chat_example :
  (s ← chat_run LittleEndian chat_start (joins [3; 1; 2] ++ demo_events);
   Ok (sent_to 3 (sends s), sent_to 2 (sends s), connections_ s))
  = Ok (frame (lit "bye") ++ frame (lit "hi") ++ frame (lit "yo"), frame (lit "bye"), [1; 3]).
Proof. vm_compute. reflexivity. Qed.
