(* ===== verification/ChatRoom.v ===== *)
(** * A chat: chat_client.cc and chat_server.cc with the network between them

    Any number of chat clients and the chat server, every one over its codec
    (Codec.v) and its end of a TCP connection (TcpConnection.v), with the bytes
    the kernel carries between the ends.  A client has two threads: the one that
    reads lines and calls [write], and the loop; the server has one loop. *)

From S2P Require Import Prelude StdContainers Endian Buffer BufferSpec Channel Poller TcpConnection Codec.
From S2P Require ChatServer.
Import ChatServer(said, said_app, said_one).

(** ** State *)

(** A client and its connection: both ends, whether [connection_] of the client
    is set, and the bytes that are on the way.  [typed] are the lines it was
    given while it was connected, [printed] the messages given to its
    [onStringMessage], which prints them, and [joined] the number of messages in
    the room when it came.  [hasty] says whether [disconnect] was called while
    lines were still queued for the client's loop. *)
Record member := mkMember {
  client : TcpConnection;
  connection_ : bool;
  peer : TcpConnection;
  up_wire : bytes;
  down_wire : bytes;
  typed : list bytes;
  printed : list bytes;
  joined : nat;
  hasty : bool
}.

(** [connections_] is the set of the server, [room] the messages it has passed
    on with their speakers. *)
Record chat := mkChat {
  members : gmap Z member;
  connections_ : list Z;
  room : list (Z * bytes)
}.

Definition chat_start : chat := mkChat ∅ [] [].

(** The bytes written to the socket since [c] go to the wire. *)
Definition put (wire : bytes) (c c' : TcpConnection) : bytes := wire ++ drop (length (written c)) (written c').

Definition setClient (mb : member) (c : TcpConnection) : member :=
  mkMember c (connection_ mb) (peer mb) (put (up_wire mb) (client mb) c) (down_wire mb) (typed mb)
    (printed mb) (joined mb) (hasty mb).
Definition setPeer (mb : member) (p : TcpConnection) : member :=
  mkMember (client mb) (connection_ mb) p (up_wire mb) (put (down_wire mb) (peer mb) p) (typed mb)
    (printed mb) (joined mb) (hasty mb).
Definition setConnection (mb : member) (up : bool) : member :=
  mkMember (client mb) up (peer mb) (up_wire mb) (down_wire mb) (typed mb) (printed mb) (joined mb) (hasty mb).
Definition addTyped (mb : member) (line : bytes) : member :=
  mkMember (client mb) (connection_ mb) (peer mb) (up_wire mb) (down_wire mb) (typed mb ++ [line])
    (printed mb) (joined mb) (hasty mb).
Definition addPrinted (mb : member) (ms : list bytes) : member :=
  mkMember (client mb) (connection_ mb) (peer mb) (up_wire mb) (down_wire mb) (typed mb)
    (printed mb ++ ms) (joined mb) (hasty mb).
(** Bytes that a side has read. *)
Definition takeUp (mb : member) (n : nat) : member :=
  mkMember (client mb) (connection_ mb) (peer mb) (drop n (up_wire mb)) (down_wire mb) (typed mb)
    (printed mb) (joined mb) (hasty mb).
Definition takeDown (mb : member) (n : nat) : member :=
  mkMember (client mb) (connection_ mb) (peer mb) (up_wire mb) (drop n (down_wire mb)) (typed mb)
    (printed mb) (joined mb) (hasty mb).

Definition addHasty (mb : member) (b : bool) : member :=
  mkMember (client mb) (connection_ mb) (peer mb) (up_wire mb) (down_wire mb) (typed mb)
    (printed mb) (joined mb) (hasty mb || b).

Definition setMember (st : chat) (i : Z) (mb : member) : chat :=
  mkChat (<[i := mb]> (members st)) (connections_ st) (room st).

Definition member_at (ms : gmap Z member) (i : Z) : res member :=
  match ms !! i with Some mb => Ok mb | None => Err UseAfterFree end.

(** The messages queued for the loop. *)
Definition queued_sends (c : TcpConnection) : list bytes :=
  omap (fun f => match f with FSend m => Some m | _ => None end) (queued c).

Section Chat.
(** The byte orders of the server's and of the clients' hosts. *)
Context (server_host client_host : endianness).

(** ** The client *)

(** [ChatClient::write], in the thread that reads the lines. *)
Definition client_write (mb : member) (line : bytes) : res member :=
  if connection_ mb then
    '(c, _) ← Codec.send client_host false (client mb) line (WriteErr EWOULDBLOCK);
    let mb' := setClient mb c in
    Ok (if connected (client mb) then addTyped mb' line else mb')
  else Ok mb.

(** [ChatClient::onConnection]. *)
Definition client_onConnection (mb : member) : member := setConnection mb (connected (client mb)).

(** What is read goes through the codec; [onStringMessage] prints. *)
Definition client_readable (mb : member) (rv : readv_ret) : res member :=
  c ← handleRead true (client mb) rv;
  let mb := setClient mb c in
  match rv with
  | ReadvErr _ => Ok mb
  | ReadvOk d0 d1 =>
      if 0 <? zlen d0 + zlen d1 then
        s ← onMessage client_host (mkCodec (inputBuffer_ c) [] false);
        let mb := takeDown (setClient mb (setInput c (buf s))) (length (d0 ++ d1)) in
        let mb := addPrinted mb (delivered s) in
        if shut s then c ← shutdown true (client mb); Ok (setClient mb c) else Ok mb
      else Ok (client_onConnection mb)
  end.

(** [TcpClient::disconnect], in the thread that reads the lines. *)
Definition client_disconnect (mb : member) : res member :=
  if connection_ mb then
    c ← shutdown false (client mb);
    Ok (addHasty (setClient mb c) (negb (bool_decide (queued_sends (client mb) = []))))
  else Ok mb.

(** ** The server *)

(** [onConnection], and [onStringMessage]: the loop over the set. *)
Definition server_onConnection (st : chat) (i : Z) (connected : bool) : chat :=
  mkChat (members st)
    (if connected then set_insert i (connections_ st) else set_erase i (connections_ st)) (room st).

Fixpoint broadcast (conns : list Z) (message : bytes) (ws : Z -> write_ret) (ms : gmap Z member) :
    res (gmap Z member) :=
  match conns with
  | [] => Ok ms
  | i :: conns =>
      mb ← member_at ms i;
      '(p, _) ← Codec.send server_host true (peer mb) message (ws i);
      broadcast conns message ws (<[i := setPeer mb p]> ms)
  end.

Definition server_onStringMessage (st : chat) (i : Z) (message : bytes) (ws : Z -> write_ret) : res chat :=
  ms ← broadcast (connections_ st) message ws (members st);
  Ok (mkChat ms (connections_ st) (room st ++ [(i, message)])).

Fixpoint server_deliver (st : chat) (i : Z) (messages : list bytes) (ws : nat -> Z -> write_ret) : res chat :=
  match messages with
  | [] => Ok st
  | m :: messages =>
      st ← server_onStringMessage st i m (ws 0%nat);
      server_deliver st i messages (fun k => ws (S k))
  end.

(** What is read goes through the codec, which does not let its callback touch
    the buffer, so that it may take the messages out first. *)
Definition server_read (mb : member) (rv : readv_ret) : res (member * option codec_state) :=
  p ← handleRead true (peer mb) rv;
  match rv with
  | ReadvErr _ => Ok (setPeer mb p, None)
  | ReadvOk d0 d1 =>
      if 0 <? zlen d0 + zlen d1 then
        s ← onMessage server_host (mkCodec (inputBuffer_ p) [] false);
        Ok (takeUp (setPeer mb (setInput p (buf s))) (length (d0 ++ d1)), Some s)
      else Ok (setPeer mb p, None)
  end.

Definition server_readable (st : chat) (i : Z) (rv : readv_ret) (ws : nat -> Z -> write_ret) : res chat :=
  mb ← member_at (members st) i;
  '(mb, s) ← server_read mb rv;
  let st := setMember st i mb in
  match s with
  | Some s =>
      st ← server_deliver st i (delivered s) ws;
      if shut s then
        mb ← member_at (members st) i;
        p ← shutdown true (peer mb);
        Ok (setMember st i (setPeer mb p))
      else Ok st
  | None =>
      match rv with
      | ReadvOk _ _ => Ok (server_onConnection st i (connected (peer mb)))
      | ReadvErr _ => Ok st
      end
  end.

(** ** Steps *)

Inductive label :=
(** A client connects: both ends come up. *)
| LJoin (i client_fd peer_fd : Z)
(** Its main thread: a line, and the end of the input. *)
| LWrite (i : Z) (line : bytes)
| LDisconnect (i : Z)
(** The loop of the client, with the results of its system calls. *)
| LClientFunctor (i : Z) (w : write_ret)
| LClientWritable (i : Z) (w : write_ret)
| LClientReadable (i : Z) (rv : readv_ret)
(** The loop of the server. *)
| LServerWritable (i : Z) (w : write_ret)
| LServerReadable (i : Z) (rv : readv_ret) (ws : nat -> Z -> write_ret).

(** Neither side sets a callback for completed writes or high water marks. *)
Definition new_end (fd : Z) : res TcpConnection :=
  c ← new_connection 0 fd false false (64 * 1024 * 1024);
  connectionEstablished true c.

Definition update (st : chat) (i : Z) (f : member -> res member) : res chat :=
  mb ← member_at (members st) i; mb ← f mb; Ok (setMember st i mb).

Definition chat_step (st : chat) (lb : label) : res chat :=
  match lb with
  | LJoin i client_fd peer_fd =>
      c ← new_end client_fd;
      p ← new_end peer_fd;
      let mb := client_onConnection (mkMember c false p [] [] [] [] (length (room st)) false) in
      Ok (server_onConnection (setMember st i mb) i (connected p))
  | LWrite i line => update st i (fun mb => client_write mb line)
  | LDisconnect i => update st i client_disconnect
  | LClientFunctor i w => update st i (fun mb => c ← run_next (client mb) w; Ok (setClient mb c))
  | LClientWritable i w => update st i (fun mb => c ← handleWrite true (client mb) w; Ok (setClient mb c))
  | LClientReadable i rv => update st i (fun mb => client_readable mb rv)
  | LServerWritable i w => update st i (fun mb => p ← handleWrite true (peer mb) w; Ok (setPeer mb p))
  | LServerReadable i rv ws => server_readable st i rv ws
  end.

Fixpoint chat_run (st : chat) (lbs : list label) : res chat :=
  match lbs with
  | [] => Ok st
  | lb :: lbs => st ← chat_step st lb; chat_run st lbs
  end.

(** ** What the system calls do

    A read returns the next bytes of the wire, or the end of the stream when
    there are none and the other side has closed; direct writes take the whole
    message or nothing, and fail with EPIPE on a side that has been shut down and
    only there.  Lines are of at most 64K, the limit of the codec. *)
Definition readable (c : TcpConnection) (rv : readv_ret) (wire : bytes) (closed : bool) : Prop :=
  isReading (channel_ c) = true /\ readv_ok (writableBytes (inputBuffer_ c)) extrabuf_size rv /\
  zlen (buffer_ (inputBuffer_ c)) + extrabuf_size <= max_size /\
  match rv with
  | ReadvErr _ => True
  | ReadvOk d0 d1 =>
      d0 ++ d1 = take (length (d0 ++ d1)) wire /\ (d0 ++ d1 = [] -> wire = [] /\ closed = true)
  end.

Definition queued_send_ok (c : TcpConnection) (m : bytes) (w : write_ret) : Prop :=
  send_ok c m w /\ (write_closed c = false -> w <> WriteErr EPIPE).

Fixpoint deliver_ok (st : chat) (i : Z) (messages : list bytes) (ws : nat -> Z -> write_ret) : Prop :=
  match messages with
  | [] => True
  | m :: messages =>
      Forall (fun j => match members st !! j with
                       | Some mb => send_accepted (peer mb) (frame m) (ws 0%nat j)
                       | None => True
                       end) (connections_ st) /\
      match server_onStringMessage st i m (ws 0%nat) with
      | Ok st => deliver_ok st i messages (fun k => ws (S k))
      | Err _ => True
      end
  end.

Definition member_label_ok (st : chat) (mb : member) (lb : label) : Prop :=
  match lb with
  | LJoin _ _ _ => False
  | LWrite _ line => msg_ok line
  | LDisconnect _ => True
  | LClientFunctor _ w =>
      match queued (client mb) with FSend m :: _ => queued_send_ok (client mb) m w | _ => True end
  | LClientWritable _ w => write_ok (zlen (toStringView (outputBuffer_ (client mb)))) w
  | LClientReadable _ rv =>
      readable (client mb) rv (down_wire mb) (bool_decide (state_ (peer mb) = kDisconnected))
  | LServerWritable _ w => write_ok (zlen (toStringView (outputBuffer_ (peer mb)))) w
  | LServerReadable i rv ws =>
      readable (peer mb) rv (up_wire mb) (write_closed (client mb)) /\
      match server_read mb rv with
      | Ok (mb, Some s) => deliver_ok (setMember st i mb) i (delivered s) ws
      | _ => True
      end
  end.

Definition label_member (lb : label) : Z :=
  match lb with
  | LJoin i _ _ | LWrite i _ | LDisconnect i | LClientFunctor i _ | LClientWritable i _
  | LClientReadable i _ | LServerWritable i _ | LServerReadable i _ _ => i
  end.

Definition label_ok (st : chat) (lb : label) : Prop :=
  match members st !! label_member lb with
  | Some mb => member_label_ok st mb lb
  | None => match lb with LJoin _ _ _ => True | _ => False end
  end.

Fixpoint labels_ok (st : chat) (lbs : list label) : Prop :=
  match lbs with
  | [] => True
  | lb :: lbs => label_ok st lb /\ match chat_step st lb with Ok st => labels_ok st lbs | Err _ => True end
  end.

(** ** One end of a connection

    It has been given [sent] to send; [acc] of it has been accepted for writing
    and the rest is queued for the loop.  Unless it is in good order [ord], what
    was queued when it was shut down may be lost. *)
Record end_inv (ord : bool) (sent : bytes) (c : TcpConnection) : Prop := {
  e_quiet : writeCompleteCallback_ c = false /\ highWaterMarkCallback_ c = false;
  e_conn : exists acc lost, conn_inv acc c /\ sent = acc ++ lost ++ concat (queued_sends c) /\
    (lost <> [] -> ord = false /\ (write_closed c = true \/ state_ c = kDisconnected));
  e_order : ord = true -> state_ c <> kConnected -> queued_sends c = []
}.

(** What a step of an end keeps: it only writes more. *)
Definition end_step (c c' : TcpConnection) : Prop :=
  state_ c' = state_ c /\ inputBuffer_ c' = inputBuffer_ c /\ exists d, written c' = written c ++ d.

Lemma put_step wire c c' d : written c' = written c ++ d -> put wire c c' = wire ++ d.
Proof. intros E. unfold put. by rewrite E, drop_app_length. Qed.

Lemma put_same wire c c' : written c' = written c -> put wire c c' = wire.
Proof. intros E. rewrite (put_step wire c c' []); rewrite app_nil_r; done. Qed.

Lemma sendInLoop_quiet c m w c' :
  writeCompleteCallback_ c = false /\ highWaterMarkCallback_ c = false ->
  sendInLoop true c m w = Ok c' ->
  (writeCompleteCallback_ c' = false /\ highWaterMarkCallback_ c' = false) /\ queued c' = queued c /\
  write_closed c' = write_closed c /\ end_step c c'.
Proof.
  intros [Hw Hh]. unfold sendInLoop, queue_rest, end_step. cbn [assertInLoopThread guard_ mbind res_bind].
  intros Hsend. repeat (case_match; simplify_eq); inv_res; repeat case_match; simplify_eq;
    cbn in *; rewrite ?Hw, ?Hh, ?andb_false_r in *; try discriminate;
    repeat (split; try done); try (exists []; by rewrite app_nil_r); eauto.
Qed.

Lemma handleWrite_quiet c w c' :
  writeCompleteCallback_ c = false /\ highWaterMarkCallback_ c = false ->
  handleWrite true c w = Ok c' ->
  (writeCompleteCallback_ c' = false /\ highWaterMarkCallback_ c' = false) /\ queued c' = queued c /\
  (write_closed c = true -> write_closed c' = true) /\ end_step c c'.
Proof.
  intros [Hw Hh]. unfold handleWrite, shutdownInLoop, end_step. cbn [assertInLoopThread guard_ mbind res_bind].
  intros Hwrite. repeat (case_match; simplify_eq; inv_res);
    cbn in *; rewrite ?Hw, ?Hh in *; try discriminate;
    repeat (split; try done); try (exists []; by rewrite app_nil_r); eauto.
Qed.

(** An end in good order, or one that is up, has lost nothing. *)
Lemma end_acc ord sent c :
  end_inv ord sent c -> ord = true \/ state_ c = kConnected ->
  exists acc, conn_inv acc c /\ sent = acc ++ concat (queued_sends c).
Proof.
  intros [_ (acc & lost & Hi & Hs & Hl) _] Ho. exists acc. split; [done|].
  destruct lost as [|x lost]; [done|]. destruct Hl as [Ho' Hc]; [done|].
  destruct Ho as [|Hst]; [congruence|]. destruct Hc as [Hw|]; [|congruence].
  by destruct (inv_closed _ _ Hi Hw).
Qed.

Lemma end_intro ord sent c acc :
  (writeCompleteCallback_ c = false /\ highWaterMarkCallback_ c = false) ->
  conn_inv acc c -> sent = acc ++ concat (queued_sends c) ->
  (ord = true -> state_ c <> kConnected -> queued_sends c = []) -> end_inv ord sent c.
Proof. intros H1 H2 H3 H4. split; [done| |done]. exists acc, []. by split. Qed.

(** The loop sends a message, with nothing queued before it. *)
Lemma end_send_in_loop host ord sent c m w :
  end_inv ord sent c -> state_ c = kConnected -> queued_sends c = [] -> msg_ok m ->
  send_accepted c (frame m) w ->
  exists c' b, Codec.send host true c m w = Ok (c', b) /\ end_inv ord (sent ++ frame m) c' /\ end_step c c' /\
    queued c' = queued c.
Proof.
  intros He Hst Hnil Hm Hw. pose proof He as [Hq _ Ho].
  destruct (end_acc _ _ _ He) as (acc & Hi & Hs); [by right|]. unfold Codec.send.
  destruct (encode_ok host m) as (b & -> & Hb & Hv); [unfold msg_ok, max_size in *; lia|].
  cbn [mbind res_bind]. rewrite send_buffer_string, Hv by done.
  destruct (send_accepted_ok acc c (frame m) w Hi Hst Hw) as (c' & E & Hi' & Hst' & Hin). rewrite E.
  cbn [mbind res_bind]. do 2 eexists. split; [done|]. revert E. unfold send_string, connected. rewrite Hst.
  intros E. destruct (sendInLoop_quiet _ _ _ _ Hq E) as (Hq' & Hqd & _ & Hstep).
  assert (queued_sends c' = []) as Hnil' by (unfold queued_sends in *; by rewrite Hqd).
  split; [|done]. apply (end_intro _ _ _ (acc ++ frame m)); [done|done| |done].
  by rewrite Hs, Hnil, Hnil', !app_nil_r.
Qed.

(** Another thread sends one. *)
Lemma end_send_from_thread host ord sent c m w :
  end_inv ord sent c -> state_ c = kConnected -> msg_ok m ->
  exists c' b, Codec.send host false c m w = Ok (c', b) /\ end_inv ord (sent ++ frame m) c' /\ end_step c c' /\
    written c' = written c /\ write_closed c' = write_closed c.
Proof.
  intros He Hst Hm. pose proof He as [Hq _ Ho].
  destruct (end_acc _ _ _ He) as (acc & Hi & Hs); [by right|]. unfold Codec.send.
  destruct (encode_ok host m) as (b & -> & Hb & Hv); [unfold msg_ok, max_size in *; lia|].
  cbn [mbind res_bind]. unfold send_buffer, connected. rewrite Hst. cbn [bool_decide].
  rewrite (retrieveAllAsString_ok b Hb). cbn [mbind res_bind].
  do 2 eexists. split; [done|]. rewrite Hv. split; [|split; [|done]].
  - apply (end_intro _ _ _ acc); [done| | |by intros _ Hn; destruct (Hn Hst)].
    + eapply conn_inv_frame; [exact Hi|done..|]. apply queue_ok_snoc; [apply Hi|congruence|done|done].
    + unfold queued_sends. cbn. rewrite omap_app, concat_app, app_assoc, Hs. cbn. by rewrite app_nil_r.
  - split; [done|]. split; [done|]. exists []. by rewrite app_nil_r.
Qed.

(** The loop runs a queued send: the message is taken, or lost like those
    before it. *)
Lemma end_queued_send ord sent c m q w :
  end_inv ord sent c -> queued c = FSend m :: q -> queued_send_ok c m w ->
  exists c', sendInLoop true (pop_functor c) m w = Ok c' /\ end_inv ord sent c' /\ end_step c c' /\
    (write_closed c = true -> write_closed c' = true).
Proof.
  intros [Hq (acc & lost & Hi & Hs & Hl) Ho] Eq [Hok Hne]. pose proof (pop_functor_ok acc c Hi) as Hip.
  assert (queued_sends c = m :: queued_sends (pop_functor c)) as Hqs.
  { unfold queued_sends. cbn. by rewrite Eq. }
  destruct (inv_queued _ _ Hi) as (_ & _ & H3).
  destruct (sendInLoop_ok acc (pop_functor c) m w Hip) as (c' & E & Hi' & _); [|done|].
  { cbn. intros Hst. specialize (H3 Hst). congruence. }
  destruct (sendInLoop_quiet (pop_functor c) m w c' Hq E) as (Hq' & Hqd & Hwc & Hstep).
  exists c'. split; [done|]. pose proof Hstep as (Hst' & _). change (state_ (pop_functor c)) with (state_ c) in Hst'.
  split; [|by split; [|rewrite Hwc]].
  assert (ord = true -> state_ c = kConnected) as Hup.
  { intros Hord. destruct (decide (state_ c = kConnected)) as [|Hn]; [done|]. specialize (Ho Hord Hn).
    by rewrite Hqs in Ho. }
  assert (queued_sends c' = queued_sends (pop_functor c)) as Hqc by (unfold queued_sends; by rewrite Hqd).
  split; [done| |intros Hord Hn; exfalso; apply Hn; rewrite Hst'; by apply Hup].
  rewrite Hqs in Hs. cbn in Hs. destruct (decide (write_closed c = true \/ state_ c = kDisconnected)) as [Hc|Hc].
  - exists acc, (lost ++ m). assert (taken (pop_functor c) m w = []) as Ht.
    { unfold taken. cbn. case_bool_decide as Hd; [done|]. destruct Hc as [Hc|]; [|done].
      destruct (inv_closed _ _ Hi Hc) as (_ & _ & Hv). specialize (Hv Hd). destruct Hok as (_ & _ & _ & Hep).
      pose proof (inv_writing _ _ Hi Hd) as Hwr. rewrite readable_zero, Hv by apply Hi.
      rewrite (Hep Hc). destruct (isWriting (channel_ c)); [by destruct (proj1 Hwr eq_refl)|done]. }
    rewrite Ht, app_nil_r in Hi'. split; [done|]. rewrite Hqc. split; [by rewrite Hs, <- !app_assoc|].
    intros _. split; [|by rewrite Hwc, Hst']. destruct ord; [|done]. specialize (Hup eq_refl).
    destruct Hc as [Hc|]; [|congruence]. by destruct (inv_closed _ _ Hi Hc).
  - assert (lost = []) as ->.
    { destruct lost; [done|]. by destruct Hc, Hl. }
    exists (acc ++ m), []. assert (taken (pop_functor c) m w = m) as Ht.
    { unfold taken. cbn. rewrite bool_decide_false by tauto. destruct w as [e|n]; [|by rewrite andb_false_r].
      destruct (Z.eqb_spec e EPIPE) as [->|]; [|by rewrite andb_false_r].
      destruct Hne; [|done]. destruct (write_closed c); tauto. }
    rewrite Ht in Hi'. split; [done|]. rewrite Hqc. split; [by rewrite Hs, <- !app_assoc|done].
Qed.

(** The loop runs what was queued. *)
Lemma end_functor ord sent c w :
  end_inv ord sent c -> (match queued c with FSend m :: _ => queued_send_ok c m w | _ => True end) ->
  exists c', run_next c w = Ok c' /\ end_inv ord sent c' /\ end_step c c' /\
    (write_closed c = true -> write_closed c' = true).
Proof.
  intros He Hok. pose proof He as [Hq (acc & lost & Hi & Hs & Hl) Ho].
  pose proof (pop_functor_ok acc c Hi) as Hip. unfold run_next. destruct (queued c) as [|f q] eqn:Eq.
  { exists c. split; [done|]. split; [done|]. split; [|done]. split; [done|]. split; [done|].
    exists []. by rewrite app_nil_r. }
  assert ((exists m, f = FSend m) \/ ~ exists m, f = FSend m) as [[m ->]|Hf].
  { destruct f; [left; by eexists|right; by intros [? ?]..]. }
  { by eapply end_queued_send. }
  assert (queued_sends c = queued_sends (pop_functor c)) as Hqs.
  { unfold queued_sends. cbn. rewrite Eq. destruct f; try done. by destruct Hf; eexists. }
  assert (forall c', queued c' = queued (pop_functor c) -> end_step c c' ->
    (writeCompleteCallback_ c' = false /\ highWaterMarkCallback_ c' = false) ->
    (write_closed c = true -> write_closed c' = true) -> conn_inv acc c' ->
    end_inv ord sent c' /\ end_step c c' /\ (write_closed c = true -> write_closed c' = true)) as Hdone.
  { intros c' Hc' Hstep Hq' Hw' Hi'. split; [|done]. pose proof Hstep as (Hst & _).
    assert (queued_sends c' = queued_sends c) as Hqc by (rewrite Hqs; unfold queued_sends; by rewrite Hc').
    split; [done| |by rewrite Hqc, Hst]. exists acc, lost. split; [done|]. rewrite Hqc. split; [done|].
    intros Hne. destruct (Hl Hne) as [? [?|?]]; (split; [done|]); [left; auto|right; congruence]. }
  destruct f as [m| | | |n]; cbn [run_functor].
  - destruct Hf. by eexists.
  - destruct (inv_queued _ _ Hi) as [[] _]. rewrite Eq. by left.
  - destruct (shutdownInLoop_ok acc (pop_functor c) Hip) as (c' & E & Hi' & Hst' & _).
    { destruct (inv_queued _ _ Hi) as (_ & H1 & H2). rewrite Eq in H1, H2. cbn.
      destruct (state_ c) eqn:Est; [by right|by specialize (H2 eq_refl)| |by left].
      destruct (H1 eq_refl). by left. }
    exists c'. split; [done|]. injection E as <-. apply Hdone; try done; try (by destruct (isWriting _)).
    by destruct (isWriting _); (split; [done|]); (split; [done|]); exists []; rewrite app_nil_r.
  - eexists. split; [done|]. apply Hdone; try done.
    + split; [done|]. split; [done|]. exists []. by rewrite app_nil_r.
    + eapply conn_inv_frame; [exact Hip|done..|apply Hip].
  - eexists. split; [done|]. apply Hdone; try done.
    + split; [done|]. split; [done|]. exists []. by rewrite app_nil_r.
    + eapply conn_inv_frame; [exact Hip|done..|apply Hip].
Qed.

(** A step that changes neither the queue nor the state. *)
Lemma end_frame ord sent c c' :
  end_inv ord sent c -> queued c' = queued c -> state_ c' = state_ c ->
  (writeCompleteCallback_ c' = false /\ highWaterMarkCallback_ c' = false) ->
  (write_closed c = true -> write_closed c' = true) -> (forall acc, conn_inv acc c -> conn_inv acc c') ->
  end_inv ord sent c'.
Proof.
  intros [Hq (acc & lost & Hi & Hs & Hl) Ho] Hqd Hst Hq' Hwc Hc.
  assert (queued_sends c' = queued_sends c) as Hqs by (unfold queued_sends; by rewrite Hqd).
  split; [done| |by rewrite Hqs, Hst]. exists acc, lost. split; [auto|]. rewrite Hqs. split; [done|].
  intros Hne. destruct (Hl Hne) as [? [?|?]]; (split; [done|]); [left; auto|right; congruence].
Qed.

Lemma end_writable ord sent c w :
  end_inv ord sent c -> write_ok (zlen (toStringView (outputBuffer_ c))) w ->
  exists c', handleWrite true c w = Ok c' /\ end_inv ord sent c' /\ end_step c c' /\
    queued c' = queued c /\ (write_closed c = true -> write_closed c' = true).
Proof.
  intros He Hw. pose proof He as [Hq (acc & _ & Hi & _) _].
  destruct (handleWrite_ok acc c w Hi Hw) as (c' & E & _).
  destruct (handleWrite_quiet c w c' Hq E) as (Hq' & Hqd & Hwc & Hstep). exists c'. split; [done|].
  split; [|done]. apply (end_frame _ _ c); [done|done|apply Hstep|done|done|].
  intros acc' Hi'. destruct (handleWrite_ok acc' c w Hi' Hw) as (c2 & E2 & ?). rewrite E in E2. by injection E2 as <-.
Qed.

Lemma reading_up acc c : conn_inv acc c -> isReading (channel_ c) = true -> state_ c = kConnected \/ state_ c = kDisconnecting.
Proof.
  intros Hi Hr. destruct (state_ c) eqn:E; [| |by left|by right].
  - unfold isReading in Hr. by rewrite (inv_disconnected _ _ Hi E) in Hr.
  - unfold isReading in Hr. by rewrite (proj2 (inv_connecting _ _ Hi E)) in Hr.
Qed.

Lemma end_input ord sent c b : end_inv ord sent c -> buffer_ok b -> end_inv ord sent (setInput c b).
Proof.
  intros He Hb. apply (end_frame _ _ c); try done; [apply He|]. intros acc Hi. by apply setInput_inv.
Qed.

Lemma end_call ord sent c e : end_inv ord sent c -> end_inv ord sent (call c e).
Proof. intros He. apply (end_frame _ _ c); try done; [apply He|]. intros acc Hi. by apply call_inv. Qed.

Lemma end_buffer_ok ord sent c : end_inv ord sent c -> buffer_ok (inputBuffer_ c).
Proof. intros [_ (acc & _ & Hi & _) _]. apply Hi. Qed.

Lemma end_data ord sent c d0 d1 wire closed :
  end_inv ord sent c -> readable c (ReadvOk d0 d1) wire closed -> d0 ++ d1 <> [] ->
  exists c', handleRead true c (ReadvOk d0 d1) = Ok c' /\ end_inv ord sent c' /\ 0 < zlen d0 + zlen d1 /\
    toStringView (inputBuffer_ c') = toStringView (inputBuffer_ c) ++ d0 ++ d1 /\
    state_ c' = state_ c /\ written c' = written c /\ queued c' = queued c /\ write_closed c' = write_closed c.
Proof.
  intros He (_ & Hrv & Hmax & _) Hne. pose proof He as [_ (acc & _ & Hi & _) _].
  destruct (handleRead_data acc c d0 d1 Hi Hrv Hmax Hne) as (b & E & Hb & Hv & Hpos).
  eexists. split; [exact E|]. split; [by apply end_call, end_input|]. done.
Qed.

Lemma end_eof ord sent c wire closed :
  end_inv ord sent c -> readable c (ReadvOk [] []) wire closed -> (ord = true -> queued_sends c = []) ->
  exists c', handleRead true c (ReadvOk [] []) = Ok c' /\ end_inv ord sent c' /\ state_ c' = kDisconnected /\
    toStringView (inputBuffer_ c') = toStringView (inputBuffer_ c) /\
    written c' = written c /\ queued c' = queued c /\ write_closed c' = write_closed c.
Proof.
  intros He (Hr & Hrv & Hmax & _) Hnil. pose proof He as [Hq (acc & lost & Hi & Hs & Hl) Ho].
  destruct (readFd_ok (inputBuffer_ c) [] []) as (b & E & Hb & Hv & _); [apply Hi|done..|].
  unfold handleRead. cbn [assertInLoopThread guard_ mbind res_bind]. rewrite E. cbn [mbind res_bind].
  rewrite !app_nil_r in Hv. change (zlen ([] : bytes) + zlen ([] : bytes)) with 0. cbn [Z.ltb Z.eqb Z.compare].
  destruct (handleClose_ok acc (setInput c b)) as (c' & Ec & Hi' & Hst & Hev);
    [by apply setInput_inv|by apply (reading_up acc c)|].
  rewrite Ec. exists c'. split; [done|].
  assert (writeCompleteCallback_ c' = writeCompleteCallback_ c /\ highWaterMarkCallback_ c' = highWaterMarkCallback_ c /\
    inputBuffer_ c' = b /\ written c' = written c /\ queued c' = queued c /\ write_closed c' = write_closed c)
    as (E1 & E2 & E3 & E4 & E5 & E6).
  { revert Ec. unfold handleClose. cbn [assertInLoopThread guard_ mbind res_bind]. intros Ec. inv_res. done. }
  assert (queued_sends c' = queued_sends c) as Hqs by (unfold queued_sends; by rewrite E5).
  rewrite E3. split; [|done]. split; [by rewrite E1, E2| |rewrite Hqs; auto].
  exists acc, lost. split; [done|]. rewrite Hqs. split; [done|]. intros Hne.
  split; [by apply Hl|]. by right.
Qed.

Lemma end_error ord sent c e :
  end_inv ord sent c ->
  exists c', handleRead true c (ReadvErr e) = Ok c' /\ end_inv ord sent c' /\ inputBuffer_ c' = inputBuffer_ c /\
    state_ c' = state_ c /\ written c' = written c /\ queued c' = queued c /\ write_closed c' = write_closed c.
Proof.
  intros He. eexists. split; [done|]. split; [|done]. by apply end_call, end_input; [|eapply end_buffer_ok].
Qed.

(** Disconnecting: in good order only with no lines queued. *)
Lemma end_shutdown ord sent c :
  end_inv ord sent c -> state_ c = kConnected ->
  exists c', shutdown false c = Ok c' /\ end_inv (ord && bool_decide (queued_sends c = [])) sent c' /\
    state_ c' = kDisconnecting /\
    inputBuffer_ c' = inputBuffer_ c /\ written c' = written c /\ write_closed c' = write_closed c.
Proof.
  intros He Hst. pose proof He as [Hq _ Ho]. destruct (end_acc _ _ _ He) as (acc & Hi & Hs); [by right|].
  destruct (shutdown_ok acc c false Hi) as (c' & E & Hi'); [by left|].
  exists c'. split; [done|]. revert E. unfold shutdown. rewrite Hst. cbn [bool_decide]. intros [= <-].
  split; [|done].
  assert (queued_sends (queueInLoop (setState c kDisconnecting) FShutdownInLoop) = queued_sends c) as Hqs.
  { unfold queued_sends. cbn. by rewrite omap_app, app_nil_r. }
  apply (end_intro _ _ _ acc); [done|done|by rewrite Hqs|]. rewrite Hqs.
  intros [_ H%bool_decide_eq_true]%andb_true_iff. done.
Qed.

(** ** One direction of a connection

    Of the messages [sent] at one end, [got] have been taken out at the other,
    whose buffer holds [t]; the rest is on the wire or still at the sender. *)
Record flow (ord : bool) (sent got : list bytes) (c : TcpConnection) (wire t : bytes) : Prop := {
  f_end : end_inv ord (concat (map frame sent)) c;
  f_ok : Forall msg_ok sent;
  f_got : exists rest, sent = got ++ rest;
  f_incomplete : incomplete t;
  f_wire : written c = concat (map frame got) ++ t ++ wire
}.

(** The sender's end makes a step. *)
Lemma flow_out ord ord' sent got c wire t c' :
  flow ord sent got c wire t -> end_inv ord' (concat (map frame sent)) c' -> (exists d, written c' = written c ++ d) ->
  flow ord' sent got c' (put wire c c') t.
Proof.
  intros [H1 H2 H3 H4 H5] He [d Hd]. split; try done. rewrite (put_step _ _ _ d Hd), Hd, H5.
  by rewrite !app_assoc.
Qed.

(** A message is sent. *)
Lemma flow_send ord sent got c wire t c' m :
  flow ord sent got c wire t -> end_inv ord (concat (map frame sent) ++ frame m) c' -> msg_ok m ->
  (exists d, written c' = written c ++ d) -> flow ord (sent ++ [m]) got c' (put wire c c') t.
Proof.
  intros [H1 H2 (rest & H3) H4 H5] He Hm [d Hd]. split; try done.
  - rewrite map_app, concat_app. cbn. by rewrite app_nil_r.
  - apply Forall_app. split; [done|]. by constructor.
  - exists (rest ++ [m]). by rewrite H3, app_assoc.
  - rewrite (put_step _ _ _ d Hd), Hd, H5. by rewrite !app_assoc.
Qed.

(** What was sent but is not on the wire yet. *)
Lemma end_unsent ord sent c : end_inv ord sent c -> exists rest, sent = written c ++ rest.
Proof.
  intros [_ (acc & lost & Hi & Hs & _) _]. exists (toStringView (outputBuffer_ c) ++ lost ++ concat (queued_sends c)).
  by rewrite Hs, <- (inv_stream _ _ Hi), <- app_assoc.
Qed.

(** The receiver reads [d] and its codec takes out the messages. *)
Lemma flow_read host ord sent got c wire t d wire' b :
  flow ord sent got c wire t -> wire = d ++ wire' -> buffer_ok b -> toStringView b = t ++ d ->
  exists ms b', onMessage host (mkCodec b [] false) = Ok (mkCodec b' ms false) /\ buffer_ok b' /\
    flow ord sent (got ++ ms) c wire' (toStringView b') /\ Forall msg_ok ms.
Proof.
  intros [H1 H2 (ms & H3) H4 H5] -> Hb Hv. destruct (end_unsent _ _ _ H1) as (rest & Hrest).
  pose proof H2 as H2'. rewrite H3 in H2'. apply Forall_app in H2' as [_ Hms].
  assert ((t ++ d) ++ wire' ++ rest = concat (map frame ms) ++ []) as E.
  { rewrite H5, H3, map_app, concat_app in Hrest. rewrite app_nil_r, !app_assoc in *.
    rewrite <- !app_assoc in Hrest. apply app_inv_head in Hrest. by rewrite <- !app_assoc. }
  destruct (split_prefix ms [] _ _ E Hms) as (ms1 & ms2 & t' & Em & E2 & E3 & E4); [by left|].
  rewrite Em in Hms. apply Forall_app in Hms as [Hms1 Hms2].
  destruct (onMessage_frames host (mkCodec b [] false) ms1 t') as (b' & Eo & Hb' & Hv' & _);
    [done|cbn [buf]; congruence|done..|].
  exists ms1, b'. split; [done|]. split; [done|]. split; [|done]. split; try done.
  - exists ms2. by rewrite <- app_assoc, <- Em.
  - by rewrite Hv'.
  - rewrite H5, Hv', map_app, concat_app. rewrite !app_assoc, <- (app_assoc _ t d), E2. by rewrite !app_assoc.
Qed.

Lemma incomplete_frames ms : Forall msg_ok ms -> incomplete (concat (map frame ms)) -> ms = [].
Proof.
  destruct ms as [|m ms]; [done|]. intros [Hm _]%Forall_cons Hi. exfalso. cbn [map concat] in Hi.
  unfold incomplete in Hi. rewrite take_frame, frame_len, zlen_app, zlen_frame in Hi by done.
  pose proof (zlen_nonneg (concat (map frame ms))). pose proof (zlen_nonneg m). lia.
Qed.

(** Nothing is left on the way. *)
Lemma flow_quiet sent got c t :
  flow true sent got c [] t -> queued_sends c = [] -> toStringView (outputBuffer_ c) = [] -> got = sent.
Proof.
  intros [He H2 (ms & H3) H4 H5] Hq Hv. destruct (end_acc _ _ _ He) as (acc & Hi & Hs); [by left|].
  pose proof (inv_stream _ _ Hi) as Hst. rewrite Hv, app_nil_r in Hst. rewrite Hq, app_nil_r in Hs.
  rewrite H3, map_app, concat_app, <- Hst, H5, app_nil_r in Hs. apply app_inv_head in Hs.
  rewrite H3 in H2. apply Forall_app in H2 as [_ Hms]. rewrite <- Hs in H4.
  rewrite (incomplete_frames ms Hms H4) in H3. by rewrite H3, app_nil_r.
Qed.

(** ** A member

    [pend] are its messages that the server has read and not passed on yet;
    [here] says whether the server has it in its set. *)
Definition heard_in (rm : list (Z * bytes)) (mb : member) : list bytes := map snd (drop (joined mb) rm).

Record member_inv (rm : list (Z * bytes)) (pend : list bytes) (here : bool) (i : Z) (mb : member) : Prop := {
  m_up : flow (negb (hasty mb)) (typed mb) (said i rm ++ pend) (client mb) (up_wire mb) (toStringView (inputBuffer_ (peer mb)));
  m_down : exists heard, flow true heard (printed mb) (peer mb) (down_wire mb) (toStringView (inputBuffer_ (client mb))) /\
    (exists rest, heard_in rm mb = heard ++ rest) /\ (here = true -> heard_in rm mb = heard);
  m_peer : queued (peer mb) = [] /\ state_ (peer mb) = if here then kConnected else kDisconnected;
  m_client : state_ (client mb) <> kConnecting /\
    connection_ mb = negb (bool_decide (state_ (client mb) = kDisconnected));
  m_gone : here = false -> state_ (client mb) <> kConnected;
  m_joined : (joined mb <= length rm)%nat
}.

Lemma peer_sends rm pend here i mb : member_inv rm pend here i mb -> queued_sends (peer mb) = [].
Proof. intros Hm. unfold queued_sends. by rewrite (proj1 (m_peer _ _ _ _ _ Hm)). Qed.

Lemma heard_snoc rm mb j m :
  (joined mb <= length rm)%nat -> heard_in (rm ++ [(j, m)]) mb = heard_in rm mb ++ [m].
Proof. intros H. unfold heard_in. by rewrite drop_app_le, map_app by done. Qed.

(** A message goes to a member, and past one that has left. *)
Lemma member_hear rm pend pend' i mb j m w :
  member_inv rm pend true i mb -> msg_ok m -> send_accepted (peer mb) (frame m) w ->
  said i rm ++ pend = said i (rm ++ [(j, m)]) ++ pend' ->
  exists p b, Codec.send server_host true (peer mb) m w = Ok (p, b) /\
    member_inv (rm ++ [(j, m)]) pend' true i (setPeer mb p).
Proof.
  intros Hi Hm Hw Hsaid. pose proof Hi as [Hup (heard & Hd & _ & Hh) [Hq Hst] Hc Hg Hj].
  destruct (end_send_in_loop server_host _ _ (peer mb) m w (f_end _ _ _ _ _ _ Hd) Hst) as (p & b & E & He & Hs & Hqd);
    [by eapply peer_sends|done|done|].
  destruct Hs as (Hst' & Hin & Hwr). exists p, b. split; [done|].
  split; cbn [setPeer client connection_ peer up_wire down_wire typed printed joined hasty]; try done.
  - rewrite <- Hsaid, Hin. done.
  - exists (heard ++ [m]). rewrite heard_snoc by done. split; [by eapply flow_send|].
    change (heard_in rm (setPeer mb p)) with (heard_in rm mb). rewrite Hh by done. split; [exists []; by rewrite app_nil_r|done].
  - split; congruence.
  - rewrite length_app. lia.
Qed.

Lemma member_away rm pend pend' i mb j m :
  member_inv rm pend false i mb -> said i rm ++ pend = said i (rm ++ [(j, m)]) ++ pend' ->
  member_inv (rm ++ [(j, m)]) pend' false i mb.
Proof.
  intros [Hup (heard & Hd & (rest & Hh) & _) Hp Hc Hg Hj] Hsaid. split; try done.
  - by rewrite <- Hsaid.
  - exists heard. split; [done|]. split; [|done]. exists (rest ++ [m]). rewrite heard_snoc, Hh by done.
    by rewrite app_assoc.
  - rewrite length_app. lia.
Qed.

(** ** The server's broadcast *)

Lemma broadcast_ok rm pend pend' j m ws conns : forall ms,
  NoDup conns -> msg_ok m ->
  (forall i, said i rm ++ pend i = said i (rm ++ [(j, m)]) ++ pend' i) ->
  (forall i, i ∈ conns -> exists mb, ms !! i = Some mb /\ member_inv rm (pend i) true i mb /\
     send_accepted (peer mb) (frame m) (ws i)) ->
  exists ms', broadcast conns m ws ms = Ok ms' /\
    (forall i, i ∉ conns -> ms' !! i = ms !! i) /\
    (forall i, i ∈ conns -> exists mb, ms' !! i = Some mb /\ member_inv (rm ++ [(j, m)]) (pend' i) true i mb).
Proof.
  induction conns as [|i conns IH]; intros ms Hnd Hm Hsaid Hok; cbn [broadcast].
  - exists ms. split; [done|]. split; [done|]. by intros i ?%elem_of_nil.
  - apply NoDup_cons in Hnd as [Hi Hnd]. destruct (Hok i) as (mb & Hmb & Hinv & Hw); [by left|].
    unfold member_at. rewrite Hmb. cbn [mbind res_bind].
    destruct (member_hear rm (pend i) (pend' i) i mb j m (ws i)) as (p & b & -> & Hinv'); [done..|].
    cbn [mbind res_bind]. destruct (IH (<[i := setPeer mb p]> ms) Hnd Hm Hsaid) as (ms' & E & Hout & Hin).
    { intros k Hk. destruct (Hok k) as (mk & Hmk & ?); [by right|]. exists mk. split; [|done].
      rewrite lookup_insert_ne; [done|]. by intros ->. }
    exists ms'. split; [done|]. split.
    + intros k [Hk Hk']%not_elem_of_cons. rewrite Hout, lookup_insert_ne; done.
    + intros k [->|Hk]%elem_of_cons; [|by apply Hin]. rewrite Hout, lookup_insert_eq by done. eauto.
Qed.

(** What holds of the chat, with messages of [j] that are still to be passed on. *)
Record chat_inv (j : Z) (pend : list bytes) (st : chat) : Prop := {
  c_set : set_ok (connections_ st);
  c_known i : i ∈ connections_ st -> is_Some (members st !! i);
  c_members i mb : members st !! i = Some mb ->
    member_inv (room st) (if decide (i = j) then pend else []) (bool_decide (i ∈ connections_ st)) i mb;
  c_said i : members st !! i = None -> said i (room st) = [];
  c_pend : pend <> [] -> is_Some (members st !! j)
}.

Lemma onStringMessage_ok st j m ms ws :
  chat_inv j (m :: ms) st -> msg_ok m ->
  Forall (fun i => match members st !! i with
                   | Some mb => send_accepted (peer mb) (frame m) (ws i) | None => True end) (connections_ st) ->
  exists st', server_onStringMessage st j m ws = Ok st' /\ chat_inv j ms st' /\
    room st' = room st ++ [(j, m)] /\ connections_ st' = connections_ st.
Proof.
  intros [H1 H2 H3 H4 H5] Hm Hok. unfold server_onStringMessage. rewrite Forall_forall in Hok.
  assert (forall i, said i (room st) ++ (if decide (i = j) then m :: ms else []) =
    said i (room st ++ [(j, m)]) ++ (if decide (i = j) then ms else [])) as Hsaid.
  { intros i. rewrite said_app. change [(j, m)] with (map (pair j) [m]). rewrite said_one.
    destruct (decide (i = j)) as [->|Hij]; [rewrite decide_True by done; by rewrite <- app_assoc|].
    rewrite (decide_False (P := j = i)) by congruence. by rewrite !app_nil_r. }
  destruct (broadcast_ok (room st) (fun i => if decide (i = j) then m :: ms else [])
    (fun i => if decide (i = j) then ms else []) j m ws (connections_ st) (members st))
    as (ms' & -> & Hout & Hin); [by apply set_ok_nodup|done|done| |].
  { intros i Hi. destruct (H2 i Hi) as [mb Hmb]. exists mb. split; [done|].
    specialize (H3 i mb Hmb). rewrite bool_decide_true in H3 by done. split; [done|].
    specialize (Hok i Hi). by rewrite Hmb in Hok. }
  cbn [mbind res_bind]. eexists. split; [done|]. split; [|done].
  assert (forall i, is_Some (members st !! i) <-> is_Some (ms' !! i)) as Hdom.
  { intros i. destruct (decide (i ∈ connections_ st)) as [Hi|Hi]; [|by rewrite Hout].
    destruct (Hin i Hi) as (mb & -> & _). split; [by eauto|]. intros _. by apply H2. }
  split; cbn [members connections_ room]; [done| | | |].
  - intros i Hi. destruct (Hin i Hi) as (mb & ? & _). eauto.
  - intros i mb Hmb. destruct (decide (i ∈ connections_ st)) as [Hi|Hi].
    + destruct (Hin i Hi) as (mb' & Hmb' & ?). rewrite bool_decide_true by done. congruence.
    + rewrite Hout in Hmb by done. specialize (H3 i mb Hmb). rewrite bool_decide_false in H3 |- * by done.
      eapply member_away; [exact H3|done].
  - intros i Hi. assert (members st !! i = None) as Hn by (rewrite eq_None_not_Some, Hdom, Hi; by intros [? ?]).
    rewrite said_app, (H4 i Hn). change [(j, m)] with (map (pair j) [m]). rewrite said_one, decide_False; [done|].
    intros ->. destruct H5 as [? ?]; [done|congruence].
  - intros _. apply Hdom. by apply H5.
Qed.

Lemma deliver_all messages : forall st j ws,
  chat_inv j messages st -> Forall msg_ok messages -> deliver_ok st j messages ws ->
  exists st', server_deliver st j messages ws = Ok st' /\ chat_inv j [] st' /\
    room st' = room st ++ map (pair j) messages /\ connections_ st' = connections_ st.
Proof.
  induction messages as [|m messages IH]; intros st j ws Hi Hm Hok; cbn [server_deliver].
  - exists st. by rewrite app_nil_r.
  - apply Forall_cons in Hm as [Hm Hms]. destruct Hok as [Hw Hok].
    destruct (onStringMessage_ok st j m messages (ws 0%nat) Hi Hm Hw) as (st1 & E & Hi1 & Hr & Hc).
    rewrite E in *. cbn [mbind res_bind].
    destruct (IH st1 j (fun k => ws (S k)) Hi1 Hms Hok) as (st' & E' & Hi' & Hr' & Hc').
    exists st'. split; [done|]. split; [done|]. split; [|congruence]. rewrite Hr', Hr, <- app_assoc. done.
Qed.

(** ** Steps of a member *)

Lemma set_member_inv st i mb mb' :
  chat_inv i [] st -> members st !! i = Some mb ->
  member_inv (room st) [] (bool_decide (i ∈ connections_ st)) i mb' ->
  chat_inv i [] (setMember st i mb').
Proof.
  intros [H1 H2 H3 H4 H5] Hmb Hm. split; [done| | | |done].
  - intros k Hk. cbn. destruct (decide (i = k)) as [->|]; [by rewrite lookup_insert_eq|].
    rewrite lookup_insert_ne by done. auto.
  - intros k mk. cbn. rewrite lookup_insert_Some. intros [[<- <-]|[_ Hk]].
    + rewrite decide_True by done. done.
    + by apply H3.
  - intros k Hk. cbn in Hk. apply lookup_insert_None in Hk as [Hk _]. by apply H4.
Qed.

Lemma no_pend st i j : chat_inv i [] st -> chat_inv j [] st.
Proof.
  intros [H1 H2 H3 H4 H5]. split; [done|done| |done|done]. intros k mk Hk. specialize (H3 k mk Hk). by repeat case_decide.
Qed.

Lemma member_of st i mb :
  chat_inv i [] st -> members st !! i = Some mb ->
  member_inv (room st) [] (bool_decide (i ∈ connections_ st)) i mb.
Proof. intros [_ _ H3 _ _] Hmb. specialize (H3 i mb Hmb). by rewrite decide_True in H3. Qed.

(** The client's end makes a step that keeps its state. *)
Lemma client_step rm here i mb c :
  member_inv rm [] here i mb -> end_inv (negb (hasty mb)) (concat (map frame (typed mb))) c -> end_step (client mb) c ->
  member_inv rm [] here i (setClient mb c).
Proof.
  intros [Hup Hd Hp Hc Hg Hj] He (Hst & Hin & Hwr).
  split; cbn [setClient client connection_ peer up_wire down_wire typed printed joined hasty]; rewrite ?Hst, ?Hin; try done.
  by eapply flow_out.
Qed.

Lemma peer_step rm here i mb p :
  member_inv rm [] here i mb -> (forall sent, end_inv true sent (peer mb) -> end_inv true sent p) ->
  end_step (peer mb) p -> queued p = queued (peer mb) -> member_inv rm [] here i (setPeer mb p).
Proof.
  intros [Hup (heard & Hd & Hh) Hp Hc Hg Hj] He (Hst & Hin & Hwr) Hq.
  split; cbn [setPeer client connection_ peer up_wire down_wire typed printed joined hasty]; rewrite ?Hst, ?Hin, ?Hq; try done.
  exists heard. split; [|done]. eapply flow_out; [done| |done]. apply He, Hd.
Qed.

Lemma client_up rm here i mb : member_inv rm [] here i mb -> connection_ mb = true ->
  state_ (client mb) = kConnected \/ state_ (client mb) = kDisconnecting.
Proof.
  intros Hm Hc. destruct (m_client _ _ _ _ _ Hm) as [Hn Hs]. rewrite Hc in Hs.
  destruct (state_ (client mb)); auto; done.
Qed.

Lemma write_step rm here i mb line :
  member_inv rm [] here i mb -> msg_ok line ->
  exists mb', client_write mb line = Ok mb' /\ member_inv rm [] here i mb'.
Proof.
  intros Hm Hl. unfold client_write. destruct (connection_ mb) eqn:Ec; [|by exists mb].
  pose proof Hm as [Hup Hd Hp Hc Hg Hj]. destruct (client_up _ _ _ _ Hm Ec) as [Hst|Hst].
  - destruct (end_send_from_thread client_host _ _ (client mb) line (WriteErr EWOULDBLOCK) (f_end _ _ _ _ _ _ Hup) Hst Hl)
      as (c & b & -> & He & (Hst' & Hin & Hwr) & Hw & _).
    cbn [mbind res_bind]. unfold connected. rewrite Hst, bool_decide_true by done. eexists. split; [done|].
    split; cbn [addTyped setClient client connection_ peer up_wire down_wire typed printed joined hasty];
      rewrite ?Hst', ?Hin; try done. by eapply flow_send.
  - unfold Codec.send. destruct (encode_ok client_host line) as (b & -> & _ & _); [unfold msg_ok, max_size in *; lia|].
    cbn [mbind res_bind]. unfold send_buffer, connected. rewrite Hst. cbn [bool_decide mbind res_bind].
    eexists. split; [done|]. apply client_step; [done|apply Hup|].
    split; [done|]. split; [done|]. exists []. by rewrite app_nil_r.
Qed.

Lemma end_weaken ord b sent c : end_inv ord sent c -> end_inv (ord && b) sent c.
Proof.
  intros [H1 (acc & lost & Hi & Hs & Hl) H3]. split; [done| |].
  - exists acc, lost. split; [done|]. split; [done|]. intros Hne. by destruct (Hl Hne) as [-> ?].
  - intros [Ho _]%andb_true_iff. auto.
Qed.

Lemma disconnect_step rm here i mb :
  member_inv rm [] here i mb ->
  exists mb', client_disconnect mb = Ok mb' /\ member_inv rm [] here i mb'.
Proof.
  intros Hm. unfold client_disconnect. destruct (connection_ mb) eqn:Ec; [|by exists mb].
  pose proof Hm as [Hup Hd Hp [Hn Hc] Hg Hj]. destruct (client_up _ _ _ _ Hm Ec) as [Hst|Hst].
  - destruct (end_shutdown _ _ (client mb) (f_end _ _ _ _ _ _ Hup) Hst) as (c & -> & He & Hst' & Hin & Hwr & _).
    cbn [mbind res_bind]. eexists. split; [done|].
    split; cbn [addHasty setClient client connection_ peer up_wire down_wire typed printed joined hasty];
      rewrite ?Hst', ?Hin, ?negb_orb, ?negb_involutive; try done.
    eapply flow_out; [done|done|]. exists []. by rewrite app_nil_r.
  - unfold shutdown. rewrite Hst. cbn [bool_decide mbind res_bind]. eexists. split; [done|].
    rewrite <- Hst, setState_same.
    split; cbn [addHasty setClient client connection_ peer up_wire down_wire typed printed joined hasty];
      rewrite ?negb_orb, ?negb_involutive; try done.
    eapply flow_out; [done|apply end_weaken, (f_end _ _ _ _ _ _ Hup)|]. exists []. by rewrite app_nil_r.
Qed.

Lemma take_wire (d wire : bytes) : d = take (length d) wire -> wire = d ++ drop (length d) wire.
Proof. intros E. rewrite <- (take_drop (length d) wire) at 1. by rewrite <- E. Qed.

Lemma client_readable_step rm here i mb rv :
  member_inv rm [] here i mb ->
  readable (client mb) rv (down_wire mb) (bool_decide (state_ (peer mb) = kDisconnected)) ->
  exists mb', client_readable mb rv = Ok mb' /\ member_inv rm [] here i mb'.
Proof.
  intros Hm Hr. pose proof Hm as [Hup (heard & Hd & Hh) [Hq Hp] Hc Hg Hj].
  pose proof (f_end _ _ _ _ _ _ Hup) as He. unfold client_readable. destruct rv as [e|d0 d1].
  - destruct (end_error _ _ _ e He) as (c & -> & He' & Hin & Hst & Hwr & _). cbn [mbind res_bind].
    eexists. split; [done|]. apply client_step; [done|done|]. split; [done|]. split; [done|].
    exists []. by rewrite app_nil_r.
  - destruct (decide (d0 ++ d1 = [])) as [Hnil|Hne].
    + apply app_nil in Hnil as [-> ->]. pose proof Hr as (_ & _ & _ & _ & Heof). destruct Heof as [Hw Hcl]; [done|].
      apply bool_decide_eq_true in Hcl. rewrite Hp in Hcl. destruct here; [done|].
      destruct (end_eof _ _ _ _ _ He Hr) as (c & -> & He' & Hst & Hin & Hwr & _).
      { intros Ho. apply (e_order _ _ _ He Ho). auto. }
      cbn [mbind res_bind zlen length Z.of_nat Z.add Z.ltb Z.compare]. eexists. split; [done|].
      split; cbn [client_onConnection setConnection setClient client connection_ peer up_wire down_wire typed printed joined hasty];
        rewrite ?Hin; try done.
      * eapply flow_out; [done|done|]. exists []. by rewrite app_nil_r.
      * by exists heard.
      * unfold connected. by rewrite Hst.
      * by rewrite Hst.
    + destruct (end_data _ _ _ d0 d1 _ _ He Hr Hne) as (c & -> & He' & Hpos & Hv & Hst & Hwr & Hqd & _).
      cbn [mbind res_bind]. rewrite (proj2 (Z.ltb_lt _ _)) by done.
      destruct Hr as (_ & _ & _ & Htake & _). apply take_wire in Htake.
      destruct (flow_read client_host _ _ _ _ _ _ (d0 ++ d1) _ (inputBuffer_ c) Hd Htake)
        as (ms & b' & E & Hb' & Hd' & Hms); [by eapply end_buffer_ok|done|].
      rewrite E. cbn [mbind res_bind delivered shut buf]. eexists. split; [done|].
      split; cbn [addPrinted takeDown setClient setInput client connection_ peer up_wire down_wire typed printed joined
                  inputBuffer_ state_]; rewrite ?Hst; try done.
      * eapply flow_out.
        -- eapply flow_out; [done|exact He'|]. exists []. by rewrite app_nil_r.
        -- by apply end_input.
        -- exists []. by rewrite app_nil_r.
      * exists heard. by split.
Qed.

(** ** Steps of the server *)

(** What the server reads is the next messages of the member. *)
Lemma server_read_data rm here i mb d0 d1 closed :
  member_inv rm [] here i mb -> readable (peer mb) (ReadvOk d0 d1) (up_wire mb) closed -> d0 ++ d1 <> [] ->
  exists mb' b ms, server_read mb (ReadvOk d0 d1) = Ok (mb', Some (mkCodec b ms false)) /\
    member_inv rm ms here i mb' /\ Forall msg_ok ms.
Proof.
  intros Hm Hr Hne. pose proof Hm as [Hup (heard & Hd & Hh) [Hq Hp] Hc Hg Hj].
  pose proof (f_end _ _ _ _ _ _ Hd) as He. unfold server_read.
  destruct (end_data _ _ _ d0 d1 _ _ He Hr Hne) as (p & -> & He' & Hpos & Hv & Hst & Hwr & Hqd & _).
  cbn [mbind res_bind]. rewrite (proj2 (Z.ltb_lt _ _)) by done.
  destruct Hr as (_ & _ & _ & Htake & _). apply take_wire in Htake.
  destruct (flow_read server_host _ _ _ _ _ _ (d0 ++ d1) _ (inputBuffer_ p) Hup Htake)
    as (ms & b' & E & Hb' & Hup' & Hms); [by eapply end_buffer_ok|done|].
  rewrite E. cbn [mbind res_bind buf]. do 3 eexists. split; [done|]. split; [|done].
  split; cbn [takeUp setPeer setInput client connection_ peer up_wire down_wire typed printed joined
              inputBuffer_ state_ queued]; rewrite ?Hst, ?Hqd; try done.
  - by rewrite app_nil_r in Hup'.
  - exists heard. split; [|done]. eapply flow_out; [done|by apply end_input|].
    exists []. by rewrite app_nil_r.
Qed.

Lemma server_eof st i mb :
  chat_inv i [] st -> members st !! i = Some mb ->
  readable (peer mb) (ReadvOk [] []) (up_wire mb) (write_closed (client mb)) ->
  exists mb', server_read mb (ReadvOk [] []) = Ok (mb', None) /\
    chat_inv i [] (server_onConnection (setMember st i mb') i (connected (peer mb'))).
Proof.
  intros Hi Hmb Hr. pose proof (member_of _ _ _ Hi Hmb) as Hm.
  pose proof Hm as [Hup (heard & Hd & (rest & Hh) & Hh') [Hq Hp] Hc Hg Hj].
  pose proof (f_end _ _ _ _ _ _ Hd) as He. unfold server_read. pose proof Hr as (_ & _ & _ & _ & Heof).
  destruct Heof as [Hw Hcl]; [done|].
  destruct (end_eof _ _ _ _ _ He Hr) as (p & -> & He' & Hst & Hin & Hwr & Hqd & _); [intros _; by eapply peer_sends|].
  cbn [mbind res_bind zlen length Z.of_nat Z.add Z.ltb Z.compare]. eexists. split; [done|].
  cbn [setPeer peer]. unfold connected. rewrite Hst, bool_decide_false by done.
  destruct Hi as [H1 H2 H3 H4 H5]. split; cbn [server_onConnection setMember members connections_ room].
  - by apply set_erase_ok.
  - intros k [Hk Hki]%elem_of_set_erase; [|done]. rewrite lookup_insert_ne by done. auto.
  - intros k mk. rewrite lookup_insert_Some. intros [[<- <-]|[Hki Hk]].
    + rewrite decide_True by done. rewrite bool_decide_false by (rewrite elem_of_set_erase by done; tauto).
      split; cbn [setPeer client connection_ peer up_wire down_wire typed printed joined hasty]; rewrite ?Hin, ?Hqd; try done.
      * exists heard. split; [|split; [by exists rest|done]]. eapply flow_out; [done|done|].
        exists []. by rewrite app_nil_r.
      * intros _ Hs. destruct (e_conn _ _ _ (f_end _ _ _ _ _ _ Hup)) as (acc & _ & Hacc & _).
        by destruct (inv_closed _ _ Hacc Hcl).
    + specialize (H3 k mk Hk).
      assert (bool_decide (k ∈ set_erase i (connections_ st)) = bool_decide (k ∈ connections_ st)) as ->; [|done].
      apply bool_decide_ext. rewrite elem_of_set_erase by done. split; [tauto|]. intros ?. by split.
  - intros k [Hk _]%lookup_insert_None. by apply H4.
  - done.
Qed.

Lemma server_readable_step st i mb rv ws :
  chat_inv i [] st -> members st !! i = Some mb -> member_label_ok st mb (LServerReadable i rv ws) ->
  exists st', server_readable st i rv ws = Ok st' /\ chat_inv i [] st'.
Proof.
  intros Hi Hmb [Hr Hok]. pose proof (member_of _ _ _ Hi Hmb) as Hm.
  unfold server_readable, member_at. rewrite Hmb. cbn [mbind res_bind]. destruct rv as [e|d0 d1].
  - unfold server_read. pose proof Hm as [Hup (heard & Hd & Hh) [Hq Hp] Hc Hg Hj].
    destruct (end_error _ _ _ e (f_end _ _ _ _ _ _ Hd)) as (p & E & He' & Hin & Hst & Hwr & Hqd & _). rewrite E.
    cbn [mbind res_bind]. eexists. split; [done|]. apply (set_member_inv _ _ mb); [done|done|].
    apply peer_step; [done| |split; [done|split; [done|exists []; by rewrite app_nil_r]]|done].
    intros sent Hs. destruct (end_error _ _ _ e Hs) as (p' & E' & ? & _). rewrite E in E'. by injection E' as <-.
  - destruct (decide (d0 ++ d1 = [])) as [Hnil|Hne].
    + apply app_nil in Hnil as [-> ->]. destruct (server_eof st i mb Hi Hmb Hr) as (mb' & -> & Hi').
      cbn [mbind res_bind]. eauto.
    + destruct (server_read_data _ _ i mb d0 d1 _ Hm Hr Hne) as (mb' & b & ms & E & Hm' & Hms).
      rewrite E in *. cbn [mbind res_bind delivered shut].
      assert (chat_inv i ms (setMember st i mb')) as Hi1.
      { destruct Hi as [H1 H2 H3 H4 H5]. split; [done| | | |].
        - intros k Hk. cbn. destruct (decide (i = k)) as [->|]; [by rewrite lookup_insert_eq|].
          rewrite lookup_insert_ne by done. auto.
        - intros k mk. cbn. rewrite lookup_insert_Some. intros [[<- <-]|[Hik Hk]].
          + by rewrite decide_True.
          + specialize (H3 k mk Hk). by rewrite decide_False in H3 |- * by congruence.
        - intros k Hk. cbn in Hk. apply lookup_insert_None in Hk as [Hk _]. by apply H4.
        - intros _. cbn. rewrite lookup_insert_eq. eauto. }
      destruct (deliver_all ms _ i ws Hi1 Hms Hok) as (st' & -> & Hi' & _). cbn [mbind res_bind]. eauto.
Qed.

Lemma new_end_ok fd : exists c, new_end fd = Ok c /\ (forall ord, end_inv ord [] c) /\ state_ c = kConnected /\
  queued c = [] /\ written c = [] /\ toStringView (inputBuffer_ c) = [].
Proof.
  unfold new_end. destruct (new_connection 0 fd false false (64 * 1024 * 1024)) as [c0|] eqn:E0; [|done].
  cbn [mbind res_bind]. pose proof (new_connection_inv _ _ _ _ _ _ E0) as Hi. injection E0 as <-.
  destruct (connectionEstablished_ok _ _ Hi eq_refl) as (c & E & Hi' & Hst). exists c. split; [done|].
  injection E as <-. split; [|done]. intros ord. by apply (end_intro _ _ _ []).
Qed.

Lemma join_step st i cfd pfd :
  chat_inv i [] st -> members st !! i = None ->
  exists st', chat_step st (LJoin i cfd pfd) = Ok st' /\ chat_inv i [] st'.
Proof.
  intros [H1 H2 H3 H4 H5] Hnone. cbn [chat_step].
  destruct (new_end_ok cfd) as (c & -> & Hc & Hcs & Hcq & Hcw & Hci).
  destruct (new_end_ok pfd) as (p & -> & Hp & Hps & Hpq & Hpw & Hpi). cbn [mbind res_bind].
  eexists. split; [done|]. unfold connected. rewrite Hps, bool_decide_true by done.
  assert (i ∉ connections_ st) as Hni by (intros ?; by destruct (H2 i) as [? ?]; [|congruence]).
  split; cbn [server_onConnection setMember members connections_ room].
  - by apply set_insert_ok.
  - intros k [->|Hk]%elem_of_set_insert; [by rewrite lookup_insert_eq|].
    destruct (decide (i = k)) as [->|]; [done|]. rewrite lookup_insert_ne by done. auto.
  - intros k mk. rewrite lookup_insert_Some. intros [[<- <-]|[Hik Hk]].
    + rewrite decide_True by done. rewrite bool_decide_true by (apply elem_of_set_insert; by left).
      unfold client_onConnection, connected. cbn [client]. rewrite Hcs, bool_decide_true by done.
      pose proof (H4 i Hnone) as Hsaid.
      split; cbn [setConnection client connection_ peer up_wire down_wire typed printed joined hasty]; rewrite ?Hpi, ?Hci, ?Hsaid; try done.
      * split; try done; [by exists []|by left].
      * exists []. split; [split; try done; [by exists []|by left]|]. unfold heard_in. cbn. rewrite drop_all.
        split; [by exists []|done].
      * rewrite Hcs. by split.
    + rewrite decide_False by congruence. specialize (H3 k mk Hk). rewrite decide_False in H3 by congruence.
      assert (bool_decide (k ∈ set_insert i (connections_ st)) = bool_decide (k ∈ connections_ st)) as ->; [|done].
      apply bool_decide_ext. rewrite elem_of_set_insert. split; [|by right]. intros [->|?]; done.
  - intros k [Hk _]%lookup_insert_None. by apply H4.
  - done.
Qed.

Lemma update_step st i mb f :
  chat_inv i [] st -> members st !! i = Some mb ->
  (exists mb', f mb = Ok mb' /\ member_inv (room st) [] (bool_decide (i ∈ connections_ st)) i mb') ->
  exists st', update st i f = Ok st' /\ chat_inv i [] st'.
Proof.
  intros Hi Hmb (mb' & E & Hm). unfold update, member_at. rewrite Hmb. cbn [mbind res_bind]. rewrite E.
  cbn [mbind res_bind]. eexists. split; [done|]. by eapply set_member_inv.
Qed.

Lemma chat_step_ok st lb :
  (exists j, chat_inv j [] st) -> label_ok st lb -> exists st', chat_step st lb = Ok st' /\ exists j, chat_inv j [] st'.
Proof.
  intros [j Hj] Hok. apply (no_pend _ _ (label_member lb)) in Hj as Hi. unfold label_ok in Hok.
  assert ((exists st', chat_step st lb = Ok st' /\ chat_inv (label_member lb) [] st') ->
    exists st', chat_step st lb = Ok st' /\ exists j, chat_inv j [] st') as Hdone by (intros (st' & ? & ?); eauto).
  apply Hdone. clear Hdone. destruct (members st !! label_member lb) as [mb|] eqn:Hmb.
  2:{ destruct lb; try done. by apply join_step. }
  pose proof (member_of _ _ _ Hi Hmb) as Hm. pose proof Hm as [Hup (heard & Hd & Hh) Hp _ _ _].
  destruct lb as [i ? ?|i line|i|i w|i w|i rv|i w|i rv ws]; cbn [chat_step label_member member_label_ok] in *.
  - done.
  - apply (update_step st i mb); [done..|]. by apply write_step.
  - apply (update_step st i mb); [done..|]. by apply disconnect_step.
  - apply (update_step st i mb); [done..|].
    destruct (end_functor _ _ _ w (f_end _ _ _ _ _ _ Hup) Hok) as (c & E & He & Hs & _). rewrite E.
    eexists. split; [done|]. by apply client_step.
  - apply (update_step st i mb); [done..|].
    destruct (end_writable _ _ _ w (f_end _ _ _ _ _ _ Hup) Hok) as (c & E & He & Hs & _). rewrite E.
    eexists. split; [done|]. by apply client_step.
  - apply (update_step st i mb); [done..|]. by apply client_readable_step.
  - apply (update_step st i mb); [done..|].
    destruct (end_writable _ _ _ w (f_end _ _ _ _ _ _ Hd) Hok) as (p & E & He & Hs & Hq & _). rewrite E.
    eexists. split; [done|]. apply peer_step; [done| |done|done].
    intros sent Hsent. destruct (end_writable _ _ _ w Hsent Hok) as (p' & E' & ? & _). rewrite E in E'. by injection E' as <-.
  - by apply (server_readable_step st i mb).
Qed.

Lemma chat_run_ok lbs : forall st,
  (exists j, chat_inv j [] st) -> labels_ok st lbs -> exists st', chat_run st lbs = Ok st' /\ exists j, chat_inv j [] st'.
Proof.
  induction lbs as [|lb lbs IH]; intros st Hi Hok; cbn [chat_run]; [eauto|].
  destruct Hok as [Hlb Hok]. destruct (chat_step_ok st lb Hi Hlb) as (st1 & E & Hi1). rewrite E in *.
  cbn [mbind res_bind]. by apply IH.
Qed.

Lemma chat_start_inv : chat_inv 0 [] chat_start.
Proof. split; try done; [constructor|]. by intros i ?%elem_of_nil. Qed.

End Chat.

(** Nothing of a member is on its way. *)
Definition quiet (mb : member) : Prop :=
  queued_sends (client mb) = [] /\ toStringView (outputBuffer_ (client mb)) = [] /\ up_wire mb = [] /\
  toStringView (outputBuffer_ (peer mb)) = [] /\ down_wire mb = [].

(** ** Properties *)

(** C17: a chat of any number of clients, each with a thread that reads lines
    (of at most 64K, the codec's limit) and a loop, and the server, over
    connections whose bytes arrive in order and cut up at will, where a direct
    write takes a whole message or nothing and only a side that has been shut
    down finds the pipe broken.  Whatever the threads do and whoever comes and
    goes, nothing fails; what the server has passed on of a client are its
    first lines, in their order, none skipped, repeated or changed; every
    client has printed a first part of the one sequence of messages of the room
    since it came; and when nothing of a client is on its way, all its lines
    have been passed on, unless it disconnected while lines were still queued
    for its loop (then the last ones may be lost, [disconnect_overtakes_lines]),
    and it has printed all messages of the room since it came if the server
    still has it. *)
Theorem chat_room_correct server_host client_host lbs :
  labels_ok server_host client_host chat_start lbs ->
  exists st, chat_run server_host client_host chat_start lbs = Ok st /\
    forall i mb, members st !! i = Some mb ->
      (exists rest, typed mb = said i (room st) ++ rest) /\
      (exists rest, map snd (drop (joined mb) (room st)) = printed mb ++ rest) /\
      (quiet mb -> (hasty mb = false -> said i (room st) = typed mb) /\
         (i ∈ connections_ st -> printed mb = map snd (drop (joined mb) (room st)))).
Proof.
  intros Hok. destruct (chat_run_ok server_host client_host lbs chat_start) as (st & E & j & Hi);
    [by exists 0; apply chat_start_inv|done|].
  exists st. split; [done|]. intros i mb Hmb. apply (no_pend _ _ i) in Hi.
  pose proof (member_of _ _ _ Hi Hmb) as Hm. pose proof Hm as [Hup (heard & Hd & (r & Hh) & Hh') _ _ _ _].
  rewrite app_nil_r in Hup. destruct (f_got _ _ _ _ _ _ Hup) as [r1 H1]. destruct (f_got _ _ _ _ _ _ Hd) as [r2 H2].
  split; [by exists r1|]. split; [exists (r2 ++ r); fold (heard_in (room st) mb); by rewrite Hh, H2, app_assoc|].
  intros (Q1 & Q2 & Q3 & Q4 & Q5). rewrite Q3 in Hup. rewrite Q5 in Hd. split.
  - intros Hq. rewrite Hq in Hup. by eapply flow_quiet.
  - intros Hin. fold (heard_in (room st) mb). rewrite Hh' by by apply bool_decide_eq_true.
    eapply flow_quiet; [done| |done]. by eapply peer_sends.
Qed.

(** ** Witnesses *)

#[global] Instance send_accepted_dec c m w : Decision (send_accepted c m w).
Proof. unfold send_accepted. apply _. Defined.
#[global] Instance queued_send_ok_dec c m w : Decision (queued_send_ok c m w).
Proof. unfold queued_send_ok, send_ok, whole_write. destruct w; apply _. Defined.
#[global] Instance readable_dec c rv wire closed : Decision (readable c rv wire closed).
Proof. unfold readable. destruct rv; apply _. Defined.
#[global] Instance deliver_ok_dec host st i ms ws : Decision (deliver_ok host st i ms ws).
Proof.
  revert st ws. induction ms as [|m ms IH]; intros st ws; cbn [deliver_ok]; [apply _|].
  apply and_dec.
  - apply Forall_dec. intros k. destruct (members st !! k); apply _.
  - destruct (server_onStringMessage host st i m (ws 0%nat)); apply _.
Defined.
#[global] Instance label_ok_dec host st lb : Decision (label_ok host st lb).
Proof.
  unfold label_ok. destruct (members st !! label_member lb) as [mb|]; [|destruct lb; apply _].
  destruct lb; cbn [member_label_ok]; try (unfold msg_ok; apply _).
  - destruct (queued (client mb)) as [|[] ?]; apply _.
  - apply and_dec; [apply _|]. destruct (server_read host mb rv) as [[? [?|]]|]; apply _.
Defined.

Fixpoint chat_okb (server_host client_host : endianness) (st : chat) (lbs : list label) : bool :=
  match lbs with
  | [] => true
  | lb :: lbs =>
      bool_decide (label_ok server_host st lb) &&
      match chat_step server_host client_host st lb with
      | Ok st => chat_okb server_host client_host st lbs
      | Err _ => true
      end
  end.

Lemma chat_okb_ok server_host client_host lbs : forall st,
  chat_okb server_host client_host st lbs = true -> labels_ok server_host client_host st lbs.
Proof.
  induction lbs as [|lb lbs IH]; intros st; cbn; [done|]. rewrite andb_true_iff, bool_decide_eq_true.
  intros [H1 H2]. split; [done|]. destruct (chat_step _ _ st lb); [by apply IH|done].
Qed.

Definition ready (w : write_ret) : nat -> Z -> write_ret := fun _ _ => w.

(** Two clients talk; the line of the second arrives in two parts, and the first
    leaves before the second's message comes to it; a third disconnects in haste. *)
Definition demo_chat : list label :=
  [LJoin 1 5 6; LJoin 2 7 8; LWrite 1 (lit "hi"); LWrite 2 (lit "yo");
   LClientFunctor 1 (WriteOk 6); LClientFunctor 2 (WriteErr EWOULDBLOCK); LClientWritable 2 (WriteOk 5);
   LServerReadable 2 (ReadvOk (take 5 (frame (lit "yo"))) []) (ready (WriteOk 0));
   LServerReadable 1 (ReadvOk (frame (lit "hi")) []) (ready (WriteOk 6));
   LClientReadable 1 (ReadvOk (frame (lit "hi")) []); LDisconnect 1; LClientFunctor 1 (WriteOk 0);
   LServerReadable 1 (ReadvOk [] []) (ready (WriteOk 0)); LClientReadable 1 (ReadvOk [] []);
   LClientReadable 2 (ReadvOk (frame (lit "hi")) []); LClientWritable 2 (WriteOk 1);
   LServerReadable 2 (ReadvOk (drop 5 (frame (lit "yo"))) []) (ready (WriteErr EWOULDBLOCK));
   LServerWritable 2 (WriteOk 6); LClientReadable 2 (ReadvOk (frame (lit "yo")) []);
   LJoin 3 9 10; LWrite 3 (lit "hi"); LClientFunctor 3 (WriteErr EWOULDBLOCK); LWrite 3 (lit "bye");
   LDisconnect 3; LClientWritable 3 (WriteOk 6); LClientFunctor 3 (WriteErr EPIPE);
   LClientFunctor 3 (WriteOk 0); LServerReadable 3 (ReadvOk (frame (lit "hi")) []) (ready (WriteOk 6))].

Example demo_chat_ends :
  match chat_run BigEndian LittleEndian chat_start demo_chat with
  | Ok st => (room st, connections_ st, map (fun x => (x.1, printed x.2, connection_ x.2)) (map_to_list (members st)))
             = ([(1, lit "hi"); (2, lit "yo"); (3, lit "hi")], [2; 3],
                [(3, [], true); (2, [lit "hi"; lit "yo"], true); (1, [lit "hi"], false)])
  | Err _ => False
  end.
Proof. vm_compute. reflexivity. Qed.

Lemma chat_room_correct_witness :
  exists st, chat_run BigEndian LittleEndian chat_start demo_chat = Ok st /\
    forall i mb, members st !! i = Some mb ->
      (exists rest, typed mb = said i (room st) ++ rest) /\
      (exists rest, map snd (drop (joined mb) (room st)) = printed mb ++ rest) /\
      (quiet mb -> (hasty mb = false -> said i (room st) = typed mb) /\
         (i ∈ connections_ st -> printed mb = map snd (drop (joined mb) (room st)))).
Proof. apply chat_room_correct. apply chat_okb_ok. vm_compute. reflexivity. Defined.

(** ** Disconnecting too early

    [disconnect] changes the state at once, in the thread that reads the lines,
    while the lines before it are still queued for the loop.  If the output
    drains in between, the write side is shut down, and the lines that are still
    queued are refused by the kernel: they are lost. *)
Example disconnect_overtakes_lines :
  match chat_run BigEndian LittleEndian chat_start
    [LJoin 1 5 6; LWrite 1 (lit "hi"); LClientFunctor 1 (WriteErr EWOULDBLOCK); LWrite 1 (lit "bye");
     LDisconnect 1; LClientWritable 1 (WriteOk 6); LClientFunctor 1 (WriteErr EPIPE);
     LClientFunctor 1 (WriteOk 0);
     LServerReadable 1 (ReadvOk (frame (lit "hi")) []) (ready (WriteOk 6))] with
  | Ok st =>
      match members st !! 1 with
      | Some mb => hasty mb = true /\ typed mb = [lit "hi"; lit "bye"] /\ said 1 (room st) = [lit "hi"] /\
          write_closed (client mb) = true /\ queued (client mb) = [] /\
          toStringView (outputBuffer_ (client mb)) = [] /\ up_wire mb = []
      | None => False
      end
  | Err _ => False
  end.
Proof. vm_compute. repeat split. Qed.
